(** * Referral tree and commission distribution of the Nika backend

    A shallow embedding of [src/referral/services/referral.service.ts],
    the trade service ([TradeService]) and [src/common/constants.ts],
    together with the properties of the fee split, the rate resolver, the
    ancestor walk, registration and the write order of a trade; then the
    invariants of the three collections along any run of the services, the
    network tree, the earnings report and the answer of the trade
    webhook. *)

From Stdlib Require Import ZArith QArith Qabs List String Ascii Bool Lia Lqa.
From Stdlib Require Import DecimalString Permutation Sorted.
Import ListNotations.

Local Open Scope Z_scope.

(** ** bignumber.js values

    A [BigNumber] is [NaN], a signed infinity, or a finite decimal kept as a
    coefficient and a count of fractional digits: [coef / 10 ^ scale].  The
    library keeps its coefficient without trailing zeros; [strip] does the
    same, so two finite results are equal exactly when their values are.
    The sign of a zero is left out. *)

Record decimal : Type := mkDecimal { coef : Z; scale : nat }.

Inductive BigNumber : Type :=
| NaN : BigNumber
| Infinity (negative : bool) : BigNumber
| Finite (d : decimal) : BigNumber.

Fixpoint strip (m : Z) (s : nat) : decimal :=
  match s with
  | O => mkDecimal m 0
  | S s' => if m mod 10 =? 0 then strip (m / 10) s' else mkDecimal m s
  end.

Definition pow10 (n : nat) : Z := 10 ^ Z.of_nat n.

(** [new BigNumber(n)] for an integer literal and for a literal written with
    [s] fractional digits ([dec 30 2] is ['0.30']). *)
Definition dec (m : Z) (s : nat) : BigNumber := Finite (strip m s).
Definition BN (n : Z) : BigNumber := dec n 0.

Definition dec_mul (a b : decimal) : decimal :=
  strip (coef a * coef b) (scale a + scale b).

Definition dec_add (a b : decimal) : decimal :=
  strip (coef a * pow10 (scale b) + coef b * pow10 (scale a)) (scale a + scale b).

Definition dec_compare (a b : decimal) : comparison :=
  coef a * pow10 (scale b) ?= coef b * pow10 (scale a).

(** The configuration of [constants.ts], which bignumber.js applies to
    division (and to roots and negative powers), not to products or sums. *)
Definition DECIMAL_PLACES : nat := 18.

(** Quotient of two finite values, the divisor not zero, cut to [dp]
    fractional digits toward zero ([ROUND_DOWN]). *)
Definition dec_div_down (dp : nat) (a b : decimal) : decimal :=
  strip (Z.quot (coef a * pow10 (scale b) * pow10 dp) (coef b * pow10 (scale a))) dp.

(** [x.decimalPlaces(dp, ROUND_DOWN)] on a finite value. *)
Definition dec_round_down (dp : nat) (a : decimal) : decimal :=
  if (scale a <=? dp)%nat then strip (coef a) (scale a)
  else strip (Z.quot (coef a) (pow10 (scale a - dp))) dp.

Definition dec_is_zero (a : decimal) : bool := coef a =? 0.
Definition dec_is_neg (a : decimal) : bool := coef a <? 0.

(** *** The exponent range

    The library keeps a finite value only while the exponent of its first
    digit, in the notation [d.ddd x 10^e], lies within [RANGE], from -1e7
    to 1e7 unless configured otherwise ([constants.ts] leaves it alone).
    What a product, or the constructor, finds above becomes an infinity,
    what it finds below becomes zero.  The range is applied to products
    and to the constructor; [plus] and [dividedBy] keep what they
    compute. *)
Definition MAX_EXP : Z := 10000000.
Definition MIN_EXP : Z := -10000000.

(** The number of decimal digits of a positive integer; [fuel] is a bound
    on it. *)
Fixpoint count_digits (fuel : nat) (n : Z) : nat :=
  match fuel with
  | O => O
  | S fuel' => if n <? 10 then 1%nat else S (count_digits fuel' (n / 10))
  end.

Definition ndigits (n : Z) : nat := count_digits (S (Z.to_nat (Z.log2 n))) n.

(** The exponent [e] of a value that is not zero. *)
Definition dec_exponent (a : decimal) : Z :=
  Z.of_nat (ndigits (Z.abs (coef a))) - 1 - Z.of_nat (scale a).

Definition overflows (a : decimal) : bool :=
  negb (dec_is_zero a) && (MAX_EXP <? dec_exponent a).

Definition underflows (a : decimal) : bool :=
  negb (dec_is_zero a) && (dec_exponent a <? MIN_EXP).

(** [normalise] of the library, on a coefficient already stripped. *)
Definition normalise (a : decimal) : BigNumber :=
  if overflows a then Infinity (dec_is_neg a)
  else if underflows a then BN 0
  else Finite a.

(** Whether a value is one the library can hold. *)
Definition inRange (x : BigNumber) : bool :=
  match x with
  | Finite a => negb (overflows a) && negb (underflows a)
  | _ => true
  end.

(** The value the constructor keeps of what it has read. *)
Definition toRange (x : BigNumber) : BigNumber :=
  match x with
  | Finite a => normalise a
  | _ => x
  end.

Definition multipliedBy (x y : BigNumber) : BigNumber :=
  match x, y with
  | NaN, _ | _, NaN => NaN
  | Infinity s, Infinity t => Infinity (xorb s t)
  | Infinity s, Finite d | Finite d, Infinity s =>
      if dec_is_zero d then NaN else Infinity (xorb s (dec_is_neg d))
  | Finite a, Finite b => normalise (dec_mul a b)
  end.

Definition plus (x y : BigNumber) : BigNumber :=
  match x, y with
  | NaN, _ | _, NaN => NaN
  | Infinity s, Infinity t => if Bool.eqb s t then Infinity s else NaN
  | Infinity s, Finite _ | Finite _, Infinity s => Infinity s
  | Finite a, Finite b => Finite (dec_add a b)
  end.

Definition dividedBy (x y : BigNumber) : BigNumber :=
  match x, y with
  | NaN, _ | _, NaN => NaN
  | Infinity _, Infinity _ => NaN
  | Infinity s, Finite d => Infinity (xorb s (dec_is_neg d))
  | Finite _, Infinity _ => BN 0
  | Finite a, Finite b =>
      if dec_is_zero b then
        if dec_is_zero a then NaN else Infinity (dec_is_neg a)
      else Finite (dec_div_down DECIMAL_PLACES a b)
  end.

Definition decimalPlaces_down (dp : nat) (x : BigNumber) : BigNumber :=
  match x with
  | Finite a => Finite (dec_round_down dp a)
  | _ => x
  end.

(** [compare] of the library: no answer when either side is [NaN]. *)
Definition BN_compare (x y : BigNumber) : option comparison :=
  match x, y with
  | NaN, _ | _, NaN => None
  | Infinity s, Infinity t =>
      Some (if Bool.eqb s t then Eq else if s then Lt else Gt)
  | Infinity s, Finite _ => Some (if s then Lt else Gt)
  | Finite _, Infinity s => Some (if s then Gt else Lt)
  | Finite a, Finite b => Some (dec_compare a b)
  end.

Definition isNaN (x : BigNumber) : bool :=
  match x with NaN => true | _ => false end.

Definition isZero (x : BigNumber) : bool :=
  match x with Finite d => dec_is_zero d | _ => false end.

Definition isGreaterThan (x y : BigNumber) : bool :=
  match BN_compare x y with Some Gt => true | _ => false end.

Definition isLessThanOrEqualTo (x y : BigNumber) : bool :=
  match BN_compare x y with Some Lt | Some Eq => true | _ => false end.

(** *** [toString]

    Fixed notation, and exponential notation when the decimal exponent is at
    most -7 or at least 21 (the library's [EXPONENTIAL_AT] default). *)

Definition digits_of (n : Z) : string :=
  NilZero.string_of_uint (N.to_uint (Z.to_N n)).

Fixpoint zeros (n : nat) : string :=
  match n with O => EmptyString | S k => String "0" (zeros k) end.

Fixpoint drop_trailing_zeros (s : string) : string :=
  match s with
  | EmptyString => EmptyString
  | String c r =>
      match drop_trailing_zeros r with
      | EmptyString => if Ascii.eqb c "0" then EmptyString else String c EmptyString
      | r' => String c r'
      end
  end.

Definition exp_to_string (e : Z) : string :=
  if e <? 0 then ("e-" ++ digits_of (- e))%string else ("e+" ++ digits_of e)%string.

Definition dec_toString (a : decimal) : string :=
  let d := strip (coef a) (scale a) in
  if coef d =? 0 then "0"%string else
  let ds := digits_of (Z.abs (coef d)) in
  let n := String.length ds in
  let e := Z.of_nat n - 1 - Z.of_nat (scale d) in
  let body :=
    if (e <=? -7) || (21 <=? e) then
      let cs := drop_trailing_zeros ds in
      match cs with
      | String c (String _ _ as r) => (String c ("." ++ r) ++ exp_to_string e)%string
      | _ => (cs ++ exp_to_string e)%string
      end
    else if (scale d =? 0)%nat then ds
    else if (scale d <? n)%nat then
      (substring 0 (n - scale d) ds ++ "." ++ substring (n - scale d) (scale d) ds)%string
    else ("0." ++ zeros (scale d - n) ++ ds)%string in
  if coef d <? 0 then ("-" ++ body)%string else body.

Definition toString (x : BigNumber) : string :=
  match x with
  | NaN => "NaN"%string
  | Infinity false => "Infinity"%string
  | Infinity true => "-Infinity"%string
  | Finite a => dec_toString a
  end.

(** The rational a finite value stands for. *)
Definition toQ (a : decimal) : Q := coef a # Z.to_pos (pow10 (scale a)).


(** ** Constants ([src/common/constants.ts]) *)

Definition LEVEL_1 : BigNumber := dec 30 2.
Definition LEVEL_2 : BigNumber := dec 3 2.
Definition LEVEL_3 : BigNumber := dec 2 2.

Definition CASHBACK_RATE : BigNumber := dec 10 2.
Definition TOTAL_COMMISSION_RATE : BigNumber := dec 35 2.
Definition TREASURY_RATE : BigNumber := dec 55 2.

Definition FEE_TIERS_BASE : BigNumber := dec 1 2.
Definition FEE_TIERS_REDUCED : BigNumber := dec 5 3.

Definition REFERRAL_CODE_LENGTH : nat := 8.
Definition MAX_REFERRAL_DEPTH : Z := 3.

Inductive Chain : Type := ARBITRUM | SOLANA.

(** ** Types ([src/common/types.ts]) and documents (the schemas) *)

(** A Mongo [ObjectId]; its 24-digit hexadecimal string stands for the same
    identifier, so [toString] and [new Types.ObjectId(s)] do not show. *)
Definition ObjectId : Type := nat.

Inductive FeeTier : Type := BASE | REDUCED.
Inductive StructureType : Type := KOL_DIRECT | KOL_CUSTOM | WAIVED.
Inductive Side : Type := BUY | SELL.

Record CustomCommissionStructure : Type := mkCustomCommissionStructure {
  type : StructureType;
  level1Rate : option BigNumber;
  level2Rate : option BigNumber;
  level3Rate : option BigNumber;
  feesWaived : option bool;
  commissionsWaived : option bool
}.

(** The structure as the user document stores it: rates are strings. *)
Record StoredCommissionStructure : Type := mkStoredCommissionStructure {
  stored_type : StructureType;
  stored_level1Rate : option string;
  stored_level2Rate : option string;
  stored_level3Rate : option string;
  stored_feesWaived : option bool;
  stored_commissionsWaived : option bool
}.

(** A BSON [Decimal128] total, read as the decimal it holds.  What the
    driver and the database do with it, within its 34 significant digits,
    is theirs: reading a string, printing, and the addition of [$inc] and
    [$sum] are taken from the platform below. *)
Definition Decimal128 : Type := BigNumber.

Record User : Type := mkUser {
  _id : ObjectId;
  referralCode : string;
  referrerId : option ObjectId;
  directReferrals : list ObjectId;
  referralDepth : Z;
  feeTier : FeeTier;
  customCommissionStructure : option StoredCommissionStructure;
  totalXpEarned : Decimal128;
  totalCommissionEarned : Decimal128;
  totalCashbackEarned : Decimal128;
  isActive : bool
}.

Record ReferralChain : Type := mkReferralChain {
  chain_userId : ObjectId;
  chain_level : Z;
  chain_referralCode : string
}.

Record CommissionBreakdown : Type := mkCommissionBreakdown {
  level : Z;
  userId : ObjectId;
  amount : BigNumber;
  rate : BigNumber
}.

Record FeeDistribution : Type := mkFeeDistribution {
  traderId : ObjectId;
  totalFee : BigNumber;
  cashback : BigNumber;
  commissions : list CommissionBreakdown;
  treasury : BigNumber;
  fd_chain : Chain;
  fd_token : string
}.

Record Commission : Type := mkCommission {
  c_userId : ObjectId;
  c_sourceUserId : ObjectId;
  c_tradeId : ObjectId;
  c_level : Z;
  c_amount : string;
  c_rate : string;
  c_tradeVolume : string;
  c_tradeFee : string;
  c_token : string;
  c_chain : Chain;
  c_isClaimed : bool
}.

Record Trade : Type := mkTrade {
  t_id : ObjectId;
  t_userId : ObjectId;
  t_volume : string;
  t_feeRate : string;
  t_totalFee : string;
  t_cashbackAmount : string;
  t_treasuryAmount : string;
  t_totalCommissions : string;
  t_token : string;
  t_chain : Chain;
  t_side : Side;
  commissionsDistributed : bool;
  distributedAt : option nat
}.

Inductive Exception : Type :=
| BadRequestException (message : string)
| NotFoundException (message : string)
| ConflictException (message : string)
| DuplicateKeyError (keyPattern : string)
| BSONError
| ValidationError.

(** ** The store and the calls on it

    The three collections, the source of fresh [ObjectId]s, the number of
    codes drawn from nanoid so far, the clock, and the calls the services
    made on the models, oldest first. *)

Inductive DbOp : Type :=
| UserFindById (id : ObjectId)
| UserFindOne (code : string)
| UserSave (u : User)
| UserPushDirectReferral (id child : ObjectId)
| UserIncCommission (id : ObjectId) (amount : Decimal128)
| UserIncCashback (id : ObjectId) (amount : Decimal128)
| TradeSave (t : Trade)
| CommissionInsertMany (docs : list Commission)
| CommissionAggregate (id : ObjectId).

Record World : Type := mkWorld {
  users : list User;
  trades : list Trade;
  commissionRows : list Commission;
  nextId : ObjectId;
  drawn : nat;
  clock : nat;
  log : list DbOp
}.

Definition emptyWorld : World := mkWorld [] [] [] 0%nat 0%nat 0%nat [].

Inductive Outcome (A : Type) : Type :=
| Ok (a : A)
| Throw (e : Exception)
| Diverge.
Arguments Ok {A} a.
Arguments Throw {A} e.
Arguments Diverge {A}.

Definition M (A : Type) : Type := World -> Outcome A * World.

Definition ret {A} (a : A) : M A := fun w => (Ok a, w).
Definition throw {A} (e : Exception) : M A := fun w => (Throw e, w).
Definition diverge {A} : M A := fun w => (Diverge, w).
Definition bind {A B} (m : M A) (k : A -> M B) : M B :=
  fun w => match m w with
           | (Ok a, w') => k a w'
           | (Throw e, w') => (Throw e, w')
           | (Diverge, w') => (Diverge, w')
           end.
(** [try { m } catch (e) { h e }] *)
Definition try_catch {A} (m : M A) (h : Exception -> M A) : M A :=
  fun w => match m w with
           | (Throw e, w') => h e w'
           | r => r
           end.

Notation "x <- m ;; k" := (bind m (fun x => k))
  (at level 61, m at next level, right associativity).
Notation "m ;;; k" := (bind m (fun _ => k))
  (at level 61, right associativity).

Definition set_users (us : list User) (w : World) : World :=
  mkWorld us (trades w) (commissionRows w) (nextId w) (drawn w) (clock w) (log w).
Definition set_trades (ts : list Trade) (w : World) : World :=
  mkWorld (users w) ts (commissionRows w) (nextId w) (drawn w) (clock w) (log w).
Definition set_commissionRows (cs : list Commission) (w : World) : World :=
  mkWorld (users w) (trades w) cs (nextId w) (drawn w) (clock w) (log w).

Definition record (op : DbOp) : M unit :=
  fun w => (Ok tt, mkWorld (users w) (trades w) (commissionRows w) (nextId w)
                          (drawn w) (clock w) (log w ++ [op])).

Definition newObjectId : M ObjectId :=
  fun w => (Ok (nextId w), mkWorld (users w) (trades w) (commissionRows w)
                                   (S (nextId w)) (drawn w) (clock w) (log w)).

Definition newDate : M nat := fun w => (Ok (clock w), w).

(** ** What the runtime supplies

    The parsers of the libraries, the random code generator and the
    decimal arithmetic of the database are taken as given: every result
    below holds whatever they return. *)

Class Platform : Type := {
  (** What [new BigNumber(s)] reads in a string, before it looks at the
      exponent range. *)
  BigNumber_read : string -> BigNumber;
  (** The identifier a string denotes, when [isValidObjectId] accepts it. *)
  ObjectId_of_string : string -> option ObjectId;
  (** The [n]-th code nanoid's [customAlphabet] generator hands out. *)
  generateCode : nat -> string;
  (** [Decimal128.fromString] and [$toDecimal]; [None] when it throws. *)
  Decimal128_fromString : string -> option Decimal128;
  (** [toString] of a stored [Decimal128]. *)
  Decimal128_toString : Decimal128 -> string;
  (** The sum [$inc] stores and [$sum] accumulates. *)
  Decimal128_add : Decimal128 -> Decimal128 -> Decimal128
}.

(** [new BigNumber(s)] on a string. *)
Definition BigNumber_of_string `{Platform} (s : string) : BigNumber :=
  toRange (BigNumber_read s).

(** ** Calls on the mongoose models *)

Definition find_user (id : ObjectId) (us : list User) : option User :=
  find (fun u => Nat.eqb (_id u) id) us.

Definition find_code (code : string) (us : list User) : option User :=
  find (fun u => String.eqb (referralCode u) code) us.

Fixpoint update_first {A} (p : A -> bool) (f : A -> A) (l : list A) : list A :=
  match l with
  | [] => []
  | x :: r => if p x then f x :: r else x :: update_first p f r
  end.

(** [userModel.findById(id).exec()] *)
Definition userModel_findById (id : ObjectId) : M (option User) :=
  record (UserFindById id) ;;;
  fun w => (Ok (find_user id (users w)), w).

(** [userModel.findOne({ referralCode }).exec()] *)
Definition userModel_findOne (code : string) : M (option User) :=
  record (UserFindOne code) ;;;
  fun w => (Ok (find_code code (users w)), w).

(** [user.save()] of a new document; the unique index on [referralCode]
    refuses a second document with the same code (error 11000). *)
Definition user_save (u : User) : M User :=
  record (UserSave u) ;;;
  fun w => match find_code (referralCode u) (users w) with
           | Some _ => (Throw (DuplicateKeyError "referralCode"), w)
           | None => (Ok u, set_users (users w ++ [u]) w)
           end.

Definition push_directReferral (child : ObjectId) (u : User) : User :=
  mkUser (_id u) (referralCode u) (referrerId u) (directReferrals u ++ [child])
         (referralDepth u) (feeTier u) (customCommissionStructure u)
         (totalXpEarned u) (totalCommissionEarned u) (totalCashbackEarned u)
         (isActive u).

(** [updateOne({ _id }, { $push: { directReferrals: child } })] *)
Definition userModel_pushDirectReferral (id child : ObjectId) : M unit :=
  record (UserPushDirectReferral id child) ;;;
  fun w => (Ok tt,
            set_users (update_first (fun u => Nat.eqb (_id u) id)
                                    (push_directReferral child) (users w)) w).

Definition inc_commission `{Platform} (a : Decimal128) (u : User) : User :=
  mkUser (_id u) (referralCode u) (referrerId u) (directReferrals u)
         (referralDepth u) (feeTier u) (customCommissionStructure u)
         (Decimal128_add (totalXpEarned u) a)
         (Decimal128_add (totalCommissionEarned u) a)
         (totalCashbackEarned u) (isActive u).

Definition inc_cashback `{Platform} (a : Decimal128) (u : User) : User :=
  mkUser (_id u) (referralCode u) (referrerId u) (directReferrals u)
         (referralDepth u) (feeTier u) (customCommissionStructure u)
         (Decimal128_add (totalXpEarned u) a) (totalCommissionEarned u)
         (Decimal128_add (totalCashbackEarned u) a) (isActive u).

(** [updateOne({ _id }, { $inc: { totalCommissionEarned, totalXpEarned } })] *)
Definition userModel_incCommission `{Platform} (id : ObjectId) (a : Decimal128)
    : M unit :=
  record (UserIncCommission id a) ;;;
  fun w => (Ok tt,
            set_users (update_first (fun u => Nat.eqb (_id u) id)
                                    (inc_commission a) (users w)) w).

(** [updateOne({ _id }, { $inc: { totalCashbackEarned, totalXpEarned } })] *)
Definition userModel_incCashback `{Platform} (id : ObjectId) (a : Decimal128)
    : M unit :=
  record (UserIncCashback id a) ;;;
  fun w => (Ok tt,
            set_users (update_first (fun u => Nat.eqb (_id u) id)
                                    (inc_cashback a) (users w)) w).

(** The validators mongoose runs on a trade before it writes: each
    [required] string of the schema must be there, and an empty string is
    not.  The other required paths hold an identifier or a member of an
    enumeration, and those are there by their type. *)
Definition isEmpty (s : string) : bool :=
  match s with EmptyString => true | String _ _ => false end.

Definition validTrade (t : Trade) : bool :=
  negb (isEmpty (t_volume t)) && negb (isEmpty (t_feeRate t))
  && negb (isEmpty (t_totalFee t)) && negb (isEmpty (t_cashbackAmount t))
  && negb (isEmpty (t_treasuryAmount t)) && negb (isEmpty (t_totalCommissions t))
  && negb (isEmpty (t_token t)).

(** [trade.save()]: refuses a document that fails validation and writes
    nothing then; otherwise inserts the document, or writes it over the
    stored one with the same [_id]. *)
Definition trade_save (t : Trade) : M unit :=
  record (TradeSave t) ;;;
  fun w => if validTrade t then
             (Ok tt,
              if existsb (fun x => Nat.eqb (t_id x) (t_id t)) (trades w)
              then set_trades (update_first (fun x => Nat.eqb (t_id x) (t_id t))
                                            (fun _ => t) (trades w)) w
              else set_trades (trades w ++ [t]) w)
           else (Throw ValidationError, w).

(** [commissionModel.insertMany(docs)] *)
Definition commissionModel_insertMany (docs : list Commission) : M unit :=
  record (CommissionInsertMany docs) ;;;
  fun w => (Ok tt, set_commissionRows (commissionRows w ++ docs) w).

(** The draw of one referral code. *)
Definition drawCode `{Platform} : M string :=
  fun w => (Ok (generateCode (drawn w)),
            mkWorld (users w) (trades w) (commissionRows w) (nextId w)
                    (S (drawn w)) (clock w) (log w)).

(** The value [Decimal128.fromString] gives, or its error. *)
Definition decimal128 `{Platform} (s : string) : M Decimal128 :=
  match Decimal128_fromString s with
  | Some a => ret a
  | None => throw BSONError
  end.

(** ** [ReferralService] ([src/referral/services/referral.service.ts]) *)

Section ReferralService.
Context `{Platform}.

Definition maxAttempts : nat := 10.

(** A document as [new this.userModel({...})] builds it: the schema's
    defaults fill the fields the constructor call leaves out. *)
Definition newUser (id : ObjectId) (code : string) (referrer : option ObjectId)
    (depth : Z) : User :=
  mkUser id code referrer [] depth BASE None (BN 0) (BN 0) (BN 0) true.

(** The [do ... while (attempts < maxAttempts)] of [generateReferralCode];
    [fuel] counts the iterations still allowed and never runs out when it
    starts at [maxAttempts]. *)
Fixpoint generateReferralCode_loop (fuel attempts : nat) : M (string * nat) :=
  match fuel with
  | O => diverge
  | S fuel' =>
      referralCode <- drawCode ;;
      exists_ <- userModel_findOne referralCode ;;
      match exists_ with
      | None => ret (referralCode, attempts)
      | Some _ =>
          let attempts := S attempts in
          if (attempts <? maxAttempts)%nat
          then generateReferralCode_loop fuel' attempts
          else ret (referralCode, attempts)
      end
  end.

Definition generateReferralCode : M User :=
  r <- generateReferralCode_loop maxAttempts 0%nat ;;
  let (referralCode, attempts) := r in
  if (maxAttempts <=? attempts)%nat
  then throw (ConflictException "Unable to generate unique referral code")
  else
    id <- newObjectId ;;
    user_save (newUser id referralCode None 0).

(** The [while (currentUser?.referrerId)] of [calculateReferralDepth].  The
    source loop has no bound; [fuel] bounds the number of parent steps and
    the walk diverges when it is used up. *)
Fixpoint calculateReferralDepth_loop (fuel : nat) (depth : Z)
    (currentUser : option User) : M Z :=
  match currentUser with
  | Some (mkUser _ _ (Some parent) _ _ _ _ _ _ _ _) =>
      match fuel with
      | O => diverge
      | S fuel' =>
          let depth := depth + 1 in
          currentUser <- userModel_findById parent ;;
          calculateReferralDepth_loop fuel' depth currentUser
      end
  | _ => ret depth
  end.

Definition calculateReferralDepth (fuel : nat) (userId : ObjectId) : M Z :=
  currentUser <- userModel_findById userId ;;
  calculateReferralDepth_loop fuel 0 currentUser.

(** The [for (attempt = 0; attempt < maxAttempts; attempt++)] of
    [registerWithReferral], [n] attempts left. *)
Fixpoint registerWithReferral_attempts (n : nat) (referrer : User)
    (referrerDepth : Z) : M User :=
  match n with
  | O => throw (ConflictException "Unable to generate unique referral code")
  | S n' =>
      newReferralCode <- drawCode ;;
      try_catch
        (id <- newObjectId ;;
         result <- user_save (newUser id newReferralCode (Some (_id referrer))
                                      (referrerDepth + 1)) ;;
         userModel_pushDirectReferral (_id referrer) (_id result) ;;;
         ret result)
        (fun error =>
           match error with
           | DuplicateKeyError keyPattern =>
               if String.eqb keyPattern "referralCode"
               then registerWithReferral_attempts n' referrer referrerDepth
               else throw error
           | _ => throw error
           end)
  end.

Definition registerWithReferral (fuel : nat) (referralCode : string) : M User :=
  referrer <- userModel_findOne referralCode ;;
  match referrer with
  | None => throw (NotFoundException "Invalid referral code")
  | Some referrer =>
      referrerDepth <- calculateReferralDepth fuel (_id referrer) ;;
      if MAX_REFERRAL_DEPTH <=? referrerDepth
      then throw (BadRequestException "Maximum referral depth reached")
      else registerWithReferral_attempts maxAttempts referrer referrerDepth
  end.

(** The [while (currentUser?.referrerId && level <= MAX_REFERRAL_DEPTH)] of
    [getReferralChain]; [fuel] never runs out when it starts above
    [MAX_REFERRAL_DEPTH]. *)
Fixpoint getReferralChain_loop (fuel : nat) (chain : list ReferralChain)
    (currentUser : option User) (level : Z) : M (list ReferralChain) :=
  match fuel with
  | O => diverge
  | S fuel' =>
      match currentUser with
      | Some (mkUser _ _ (Some parent) _ _ _ _ _ _ _ _) =>
          if level <=? MAX_REFERRAL_DEPTH then
            referrer <- userModel_findById parent ;;
            match referrer with
            | None => ret chain
            | Some referrer =>
                let chain := chain ++ [mkReferralChain (_id referrer) level
                                                       (referralCode referrer)] in
                getReferralChain_loop fuel' chain (Some referrer) (level + 1)
            end
          else ret chain
      | _ => ret chain
      end
  end.

Definition getReferralChain (userId : ObjectId) : M (list ReferralChain) :=
  currentUser <- userModel_findById userId ;;
  getReferralChain_loop (S (Z.to_nat MAX_REFERRAL_DEPTH)) [] currentUser 1.

(** The [$match] / [$group] pipeline of [getClaimableAmount]: no row when
    nothing matches, else one row with the sum of the amounts. *)
Fixpoint sum_toDecimal (rows : list Commission) (acc : Decimal128) : M Decimal128 :=
  match rows with
  | [] => ret acc
  | c :: rest =>
      a <- decimal128 (c_amount c) ;; sum_toDecimal rest (Decimal128_add acc a)
  end.

Definition commissionModel_aggregateUnclaimed (id : ObjectId)
    : M (list (option Decimal128)) :=
  record (CommissionAggregate id) ;;;
  fun w =>
    match filter (fun c => Nat.eqb (c_userId c) id && negb (c_isClaimed c))
                 (commissionRows w) with
    | [] => (Ok [], w)
    | rows => (total <- sum_toDecimal rows (BN 0) ;; ret [Some total]) w
    end.

Definition getClaimableAmount (userId : ObjectId) : M (string * string) :=
  result <- commissionModel_aggregateUnclaimed userId ;;
  user <- userModel_findById userId ;;
  let cashback :=
    match user with
    | Some u => Decimal128_toString (totalCashbackEarned u)
    | None => "0"%string
    end in
  let commission :=
    match result with
    | Some total :: _ => Decimal128_toString total
    | _ => "0"%string
    end in
  ret (commission, cashback).

Definition getCommissionRateForLevel (level : Z)
    (customStructure : option CustomCommissionStructure) : BigNumber :=
  let standard :=
    if level =? 1 then LEVEL_1
    else if level =? 2 then LEVEL_2
    else if level =? 3 then LEVEL_3
    else BN 0 in
  match customStructure with
  | None => standard
  | Some cs =>
      match commissionsWaived cs with
      | Some true => BN 0
      | _ =>
          match type cs with
          | KOL_DIRECT => if level =? 1 then dec 50 2 else BN 0
          | KOL_CUSTOM =>
              match level =? 1, level1Rate cs with
              | true, Some r => r
              | _, _ =>
                  match level =? 2, level2Rate cs with
                  | true, Some r => r
                  | _, _ =>
                      match level =? 3, level3Rate cs with
                      | true, Some r => r
                      | _, _ => standard
                      end
                  end
              end
          | WAIVED => BN 0
          end
      end
  end.

End ReferralService.

(** ** [TradeService] *)

Section TradeService.
Context `{Platform}.

Definition getFeeRateForTier (tier : FeeTier) : BigNumber :=
  match tier with
  | REDUCED => FEE_TIERS_REDUCED
  | _ => FEE_TIERS_BASE
  end.

(** [s ? new BigNumber(s) : undefined]: the empty string is falsy. *)
Definition rateOfStored (s : option string) : option BigNumber :=
  match s with
  | Some (String c r) => Some (BigNumber_of_string (String c r))
  | _ => None
  end.

(** The object literal [calculateCommissionBreakdown] hands to the resolver. *)
Definition toCustomStructure (s : StoredCommissionStructure)
    : CustomCommissionStructure :=
  mkCustomCommissionStructure
    (stored_type s)
    (rateOfStored (stored_level1Rate s))
    (rateOfStored (stored_level2Rate s))
    (rateOfStored (stored_level3Rate s))
    (stored_feesWaived s)
    (stored_commissionsWaived s).

(** The [for (const referrer of referralChain)] of
    [calculateCommissionBreakdown]. *)
Fixpoint calculateCommissionBreakdown_loop (totalFee : BigNumber)
    (referralChain : list ReferralChain) (commissions : list CommissionBreakdown)
    : M (list CommissionBreakdown) :=
  match referralChain with
  | [] => ret commissions
  | referrer :: rest =>
      referrerUser <- userModel_findById (chain_userId referrer) ;;
      match referrerUser with
      | None => calculateCommissionBreakdown_loop totalFee rest commissions
      | Some referrerUser =>
          let rate :=
            getCommissionRateForLevel (chain_level referrer)
              (option_map toCustomStructure (customCommissionStructure referrerUser)) in
          if isGreaterThan rate (BN 0) then
            let amount := multipliedBy totalFee rate in
            calculateCommissionBreakdown_loop totalFee rest
              (commissions ++ [mkCommissionBreakdown (chain_level referrer)
                                                     (chain_userId referrer) amount rate])
          else calculateCommissionBreakdown_loop totalFee rest commissions
      end
  end.

Definition calculateCommissionBreakdown (traderId : ObjectId) (totalFee : BigNumber)
    : M (list CommissionBreakdown) :=
  referralChain <- getReferralChain traderId ;;
  calculateCommissionBreakdown_loop totalFee referralChain [].

Definition calculateFeeDistribution (user : User) (volume : BigNumber)
    (chain : Chain) (token : string) : M FeeDistribution :=
  let isFeesWaived :=
    match customCommissionStructure user with
    | Some cs => match stored_feesWaived cs with Some b => b | None => false end
    | None => false
    end in
  let totalFee :=
    if isFeesWaived then BN 0
    else
      let feeRate := getFeeRateForTier (feeTier user) in
      multipliedBy volume feeRate in
  if isZero totalFee then
    ret (mkFeeDistribution (_id user) totalFee (BN 0) [] (BN 0) chain token)
  else
    let cashback := multipliedBy totalFee CASHBACK_RATE in
    let treasury := multipliedBy totalFee TREASURY_RATE in
    commissions <- calculateCommissionBreakdown (_id user) totalFee ;;
    ret (mkFeeDistribution (_id user) totalFee cashback commissions treasury chain token).

(** The [for (const comm of distribution.commissions)] of
    [distributeCommissions]. *)
Fixpoint distributeCommissions_loop (comms : list CommissionBreakdown) : M unit :=
  match comms with
  | [] => ret tt
  | comm :: rest =>
      amount <- decimal128 (toString (amount comm)) ;;
      userModel_incCommission (userId comm) amount ;;;
      distributeCommissions_loop rest
  end.

Definition commissionDoc (tradeId sourceUserId : ObjectId)
    (distribution : FeeDistribution) (comm : CommissionBreakdown) : Commission :=
  mkCommission (userId comm) sourceUserId tradeId (level comm)
    (toString (amount comm)) (toString (rate comm))
    (toString (dividedBy (totalFee distribution) (getFeeRateForTier BASE)))
    (toString (totalFee distribution))
    (fd_token distribution) (fd_chain distribution) false.

Definition distributeCommissions (tradeId sourceUserId : ObjectId)
    (distribution : FeeDistribution) : M unit :=
  let commissionDocs :=
    map (commissionDoc tradeId sourceUserId distribution) (commissions distribution) in
  (if (0 <? List.length commissionDocs)%nat
   then commissionModel_insertMany commissionDocs
   else ret tt) ;;;
  distributeCommissions_loop (commissions distribution).

Definition updateUserStats (userId : ObjectId) (distribution : FeeDistribution)
    : M unit :=
  cashbackAmount <- decimal128 (toString (cashback distribution)) ;;
  userModel_incCashback userId cashbackAmount.

(** [commissions.reduce((sum, c) => sum.plus(c.amount), new BigNumber(0))] *)
Definition totalCommissions (commissions : list CommissionBreakdown) : BigNumber :=
  fold_left (fun sum c => plus sum (amount c)) commissions (BN 0).

Definition markDistributed (t : Trade) (now : nat) : Trade :=
  mkTrade (t_id t) (t_userId t) (t_volume t) (t_feeRate t) (t_totalFee t)
          (t_cashbackAmount t) (t_treasuryAmount t) (t_totalCommissions t)
          (t_token t) (t_chain t) (t_side t) true (Some now).

Definition processTrade (userId volume token : string) (side : Side) (chain : Chain)
    : M (Trade * FeeDistribution) :=
  match ObjectId_of_string userId with
  | None => throw (BadRequestException "Invalid user ID format")
  | Some id =>
      user <- userModel_findById id ;;
      match user with
      | None => throw (NotFoundException "User not found")
      | Some user =>
          let volumeBN := BigNumber_of_string volume in
          if isNaN volumeBN || isLessThanOrEqualTo volumeBN (BN 0)
          then throw (BadRequestException "Invalid trade volume")
          else
            feeDistribution <- calculateFeeDistribution user volumeBN chain token ;;
            tradeId <- newObjectId ;;
            let trade :=
              mkTrade tradeId (_id user) volume
                (toString (getFeeRateForTier (feeTier user)))
                (toString (totalFee feeDistribution))
                (toString (cashback feeDistribution))
                (toString (treasury feeDistribution))
                (toString (totalCommissions (commissions feeDistribution)))
                token chain side false None in
            trade_save trade ;;;
            distributeCommissions (t_id trade) (_id user) feeDistribution ;;;
            now <- newDate ;;
            let trade := markDistributed trade now in
            trade_save trade ;;;
            updateUserStats (_id user) feeDistribution ;;;
            ret (trade, feeDistribution)
      end
  end.

End TradeService.

(** ** Readings of the code

    Functions of the collections that say what the loops above compute, the
    shape of the log, and the invariant of the user collection; the
    properties below are stated with them. *)

Section Readings.
Context `{Platform}.

(** The world [w] after the calls [ops] were added to its log. *)
Definition logged (ops : list DbOp) (w : World) : World :=
  mkWorld (users w) (trades w) (commissionRows w) (nextId w) (drawn w) (clock w)
          (log w ++ ops).

(** The calls that query a collection and write nothing. *)
Definition is_read (op : DbOp) : Prop :=
  match op with
  | UserFindById _ | UserFindOne _ | CommissionAggregate _ => True
  | _ => False
  end.

(** The entries [getReferralChain] collects in at most [n] more steps from
    [currentUser], read off the user collection. *)
Fixpoint chainFrom (us : list User) (n : nat) (currentUser : option User)
    (level : Z) : list ReferralChain :=
  match n with
  | O => []
  | S n' =>
      match currentUser with
      | Some (mkUser _ _ (Some parent) _ _ _ _ _ _ _ _) =>
          match find_user parent us with
          | Some referrer =>
              mkReferralChain (_id referrer) level (referralCode referrer)
                :: chainFrom us n' (Some referrer) (level + 1)
          | None => []
          end
      | _ => []
      end
  end.

(** The chain of a user, read off the collection. *)
Definition chainOf (us : list User) (userId : ObjectId) : list ReferralChain :=
  chainFrom us (Z.to_nat MAX_REFERRAL_DEPTH) (find_user userId us) 1.

(** The user a walk ends at: the last entry's user, or the start. *)
Fixpoint walkEnd (us : list User) (currentUser : option User)
    (chain : list ReferralChain) : option User :=
  match chain with
  | [] => currentUser
  | e :: rest => walkEnd us (find_user (chain_userId e) us) rest
  end.

(** No further parent can be followed from [currentUser]: there is no such
    user, it is a root, or its referrer document is missing. *)
Definition noReferrer (us : list User) (currentUser : option User) : Prop :=
  match currentUser with
  | None => True
  | Some u =>
      match referrerId u with
      | None => True
      | Some parent => find_user parent us = None
      end
  end.

(** The resolver in the words of its description: waived first, then the
    structure's type, then the standard tiers. *)
Definition standardTier (level : Z) : BigNumber :=
  if level =? 1 then dec 30 2
  else if level =? 2 then dec 3 2
  else if level =? 3 then dec 2 2
  else BN 0.

Definition levelRate (cs : CustomCommissionStructure) (level : Z) : option BigNumber :=
  if level =? 1 then level1Rate cs
  else if level =? 2 then level2Rate cs
  else if level =? 3 then level3Rate cs
  else None.

Definition rateForLevel (level : Z) (customStructure : option CustomCommissionStructure)
    : BigNumber :=
  match customStructure with
  | None => standardTier level
  | Some cs =>
      if match commissionsWaived cs with Some b => b | None => false end then BN 0
      else
        match type cs with
        | KOL_DIRECT => if level =? 1 then dec 50 2 else BN 0
        | KOL_CUSTOM =>
            match levelRate cs level with
            | Some r => r
            | None => standardTier level
            end
        | WAIVED => BN 0
        end
  end.

(** The rate the loop of [calculateCommissionBreakdown] resolves for a chain
    entry, from the entry's user document. *)
Definition resolvedRate (us : list User) (e : ReferralChain) : option BigNumber :=
  option_map
    (fun u => getCommissionRateForLevel (chain_level e)
                (option_map toCustomStructure (customCommissionStructure u)))
    (find_user (chain_userId e) us).

(** What one chain entry contributes: one record when its rate is above
    zero, nothing otherwise. *)
Definition emitted (us : list User) (totalFee : BigNumber) (e : ReferralChain)
    : list CommissionBreakdown :=
  match resolvedRate us e with
  | Some r =>
      if isGreaterThan r (BN 0)
      then [mkCommissionBreakdown (chain_level e) (chain_userId e)
                                  (multipliedBy totalFee r) r]
      else []
  | None => []
  end.

(** The same, in the words of the description and from the stored document
    alone: the rate in force for [ancestor] at [level] is 0 when its
    structure waives commissions; else by the type of the structure, for
    KOL_CUSTOM the stored rate of the level when there is one (an empty
    string is none); else the standard tier. *)
Definition storedLevelRate (s : StoredCommissionStructure) (level : Z)
    : option string :=
  if level =? 1 then stored_level1Rate s
  else if level =? 2 then stored_level2Rate s
  else if level =? 3 then stored_level3Rate s
  else None.

Definition ancestorRate (level : Z) (ancestor : User) : BigNumber :=
  match customCommissionStructure ancestor with
  | None => standardTier level
  | Some s =>
      if match stored_commissionsWaived s with Some b => b | None => false end
      then BN 0
      else
        match stored_type s with
        | KOL_DIRECT => if level =? 1 then dec 50 2 else BN 0
        | KOL_CUSTOM =>
            match storedLevelRate s level with
            | Some r => if isEmpty r then standardTier level
                        else BigNumber_of_string r
            | None => standardTier level
            end
        | WAIVED => BN 0
        end
  end.

(** The commission of one ancestor of the chain: one record
    [{level, userId, amount = totalFee * rate, rate}] when its rate is
    above zero, none otherwise. *)
Definition commissionOf (us : list User) (totalFee : BigNumber) (e : ReferralChain)
    : list CommissionBreakdown :=
  match find_user (chain_userId e) us with
  | Some ancestor =>
      let rate := ancestorRate (chain_level e) ancestor in
      if isGreaterThan rate (BN 0)
      then [mkCommissionBreakdown (chain_level e) (chain_userId e)
                                  (multipliedBy totalFee rate) rate]
      else []
  | None => []
  end.

(** The number of parent pointers that lead from [currentUser] up to a user
    without referrer, or to a referrer whose document is missing; [None]
    when more than [fuel] of them have to be followed. *)
Fixpoint parentSteps (us : list User) (fuel : nat) (currentUser : option User)
    : option Z :=
  match currentUser with
  | Some u =>
      match referrerId u with
      | Some parent =>
          match fuel with
          | O => None
          | S fuel' =>
              option_map (fun d => d + 1) (parentSteps us fuel' (find_user parent us))
          end
      | None => Some 0
      end
  | None => Some 0
  end.

(** The fee [calculateFeeDistribution] charges. *)
Definition isFeesWaived (user : User) : bool :=
  match customCommissionStructure user with
  | Some cs => match stored_feesWaived cs with Some b => b | None => false end
  | None => false
  end.

Definition feeOf (user : User) (volume : BigNumber) : BigNumber :=
  if isFeesWaived user then BN 0
  else multipliedBy volume (getFeeRateForTier (feeTier user)).

(** Whether the fee of [user] on [volume], computed exactly, falls below
    the exponent range. *)
Definition feeUnderflows (user : User) (volume : BigNumber) : bool :=
  match volume, getFeeRateForTier (feeTier user) with
  | Finite v, Finite r => underflows (dec_mul v r)
  | _, _ => false
  end.

(** The total of the rates of the emitted commissions, summed as
    [totalCommissions] sums the amounts. *)
Definition rateTotal (commissions : list CommissionBreakdown) : BigNumber :=
  fold_left (fun sum c => plus sum (rate c)) commissions (BN 0).

(** [cashback + treasury + sum(commissions.amount)] *)
Definition splitTotal (fd : FeeDistribution) : BigNumber :=
  plus (plus (cashback fd) (treasury fd)) (totalCommissions (commissions fd)).

(** A record as the loop emits it for the fee [F]: its rate is above zero
    and its amount the product of the two. *)
Definition emittedFrom (F : BigNumber) (c : CommissionBreakdown) : Prop :=
  isGreaterThan (rate c) (BN 0) = true /\ amount c = multipliedBy F (rate c).

(** A user whose structure leaves the standard tiers in force or waives the
    commission: no KOL_DIRECT or KOL_CUSTOM rate applies. *)
Definition noKolOverride (u : User) : bool :=
  match customCommissionStructure u with
  | None => true
  | Some cs =>
      match stored_type cs with
      | WAIVED => true
      | _ => match stored_commissionsWaived cs with Some true => true | _ => false end
      end
  end.

Definition noKolAncestor (us : list User) (userId : ObjectId) : Prop :=
  forall e u, In e (chainOf us userId) -> find_user (chain_userId e) us = Some u ->
              noKolOverride u = true.

(** The increments [distributeCommissions] issues, one per commission. *)
Definition commissionIncs (comms : list CommissionBreakdown)
    (amounts : list Decimal128) : list DbOp :=
  map (fun ca => UserIncCommission (userId (fst ca)) (snd ca)) (combine comms amounts).

(** The bulk insert, issued when there is a commission. *)
Definition commissionInserts (tradeId sourceUserId : ObjectId)
    (fd : FeeDistribution) : list DbOp :=
  match commissions fd with
  | [] => []
  | _ => [CommissionInsertMany
            (map (commissionDoc tradeId sourceUserId fd) (commissions fd))]
  end.

(** The writes of [distributeCommissions]. *)
Definition is_commission_write (op : DbOp) : Prop :=
  match op with
  | CommissionInsertMany _ | UserIncCommission _ _ => True
  | _ => False
  end.

(** The document [processTrade] builds before the first save. *)
Definition newTrade (tradeId : ObjectId) (user : User) (volume token : string)
    (side : Side) (chain : Chain) (fd : FeeDistribution) : Trade :=
  mkTrade tradeId (_id user) volume
    (toString (getFeeRateForTier (feeTier user)))
    (toString (totalFee fd)) (toString (cashback fd)) (toString (treasury fd))
    (toString (totalCommissions (commissions fd)))
    token chain side false None.

(** [amounts] are the [Decimal128] readings of the commission amounts. *)
Definition parsedAmounts (comms : list CommissionBreakdown)
    (amounts : list Decimal128) : Prop :=
  Forall2 (fun c a => Decimal128_fromString (toString (amount c)) = Some a)
          comms amounts.

(** The stored depth of a user agrees with its parent: a root has depth 0,
    a child one more than the document its [referrerId] resolves to. *)
Definition parentOk (us : list User) (u : User) : Prop :=
  0 <= referralDepth u <= MAX_REFERRAL_DEPTH
  /\ match referrerId u with
     | None => referralDepth u = 0
     | Some parent =>
         exists pu, find_user parent us = Some pu
                    /\ referralDepth u = referralDepth pu + 1
     end.

(** The invariant of the user collection: identifiers are distinct and were
    handed out already, and every stored depth agrees with the parent. *)
Definition wfUsers (us : list User) (next : ObjectId) : Prop :=
  NoDup (map _id us)
  /\ Forall (fun u => (_id u < next)%nat /\ parentOk us u) us.

Definition wellFormed (w : World) : Prop := wfUsers (users w) (nextId w).

(** The worlds a sequence of [generateReferralCode], [registerWithReferral]
    and [processTrade] calls leads to, whatever their outcomes. *)
Inductive reachable : World -> Prop :=
| reach_empty : reachable emptyWorld
| reach_generate w r w' :
    reachable w -> generateReferralCode w = (r, w') -> reachable w'
| reach_register w fuel code r w' :
    reachable w -> registerWithReferral fuel code w = (r, w') -> reachable w'
| reach_trade w userId volume token side chain r w' :
    reachable w -> processTrade userId volume token side chain w = (r, w') ->
    reachable w'.

(** Two documents with the same place in the tree. *)
Definition sameShape (x y : User) : Prop :=
  _id x = _id y /\ referrerId x = referrerId y /\ referralDepth x = referralDepth y.

End Readings.

(** ** A platform to run the services on

    Plain decimal literals for [new BigNumber(s)], decimal numerals for
    identifiers, and the codes of the alphabet in counting order. *)

Module Demo.

Definition digit_of (c : ascii) : option Z :=
  let n := nat_of_ascii c in
  if (48 <=? n)%nat && (n <=? 57)%nat then Some (Z.of_nat (n - 48)) else None.

Fixpoint parse_from (s : string) (m : Z) (sc : option nat) (seen : bool) : BigNumber :=
  match s with
  | EmptyString =>
      if seen then dec m (match sc with Some k => k | None => O end) else NaN
  | String c r =>
      if Ascii.eqb c "." then
        match sc with
        | None => parse_from r m (Some O) seen
        | Some _ => NaN
        end
      else
        match digit_of c with
        | Some d => parse_from r (10 * m + d) (option_map S sc) true
        | None => NaN
        end
  end.

Definition negate (x : BigNumber) : BigNumber :=
  match x with
  | NaN => NaN
  | Infinity s => Infinity (negb s)
  | Finite d => Finite (mkDecimal (- coef d) (scale d))
  end.

Definition parse (s : string) : BigNumber :=
  if String.eqb s "Infinity" then Infinity false
  else match s with
       | String "-" r => negate (parse_from r 0 None false)
       | _ => parse_from s 0 None false
       end.

Definition parse_id (s : string) : option ObjectId :=
  match parse_from s 0 None false with
  | Finite (mkDecimal m O) => Some (Z.to_nat m)
  | _ => None
  end.

Definition alphabet : string := "ABCDEFGHJKLMNPQRSTUVWXYZ23456789".

Fixpoint code_of (len n : nat) : string :=
  match len with
  | O => EmptyString
  | S k =>
      (code_of k (n / 32) ++
       match get (n mod 32) alphabet with
       | Some c => String c EmptyString
       | None => EmptyString
       end)%string
  end.

Definition platform : Platform :=
  {| BigNumber_read := parse;
     ObjectId_of_string := parse_id;
     generateCode := code_of REFERRAL_CODE_LENGTH;
     Decimal128_fromString := fun s => Some (parse s);
     Decimal128_toString := toString;
     Decimal128_add := plus |}.

(** Four users in a line: a root and three registrations, each under the
    one before. *)
Definition lineOfFour : World :=
  Eval vm_compute in
    snd ((@generateReferralCode platform ;;;
          @registerWithReferral platform 4 "AAAAAAAA" ;;;
          @registerWithReferral platform 4 "AAAAAAAB" ;;;
          @registerWithReferral platform 4 "AAAAAAAC") emptyWorld).

Definition plainUser (id : ObjectId) (code : string) (referrer : option ObjectId)
    (depth : Z) (tier : FeeTier) (cs : option StoredCommissionStructure) : User :=
  mkUser id code referrer [] depth tier cs (BN 0) (BN 0) (BN 0) true.

(** A trader registered under a KOL_DIRECT referrer. *)
Definition kolWorld : World :=
  mkWorld
    [plainUser 0%nat "AAAAAAAA" None 0 BASE
       (Some (mkStoredCommissionStructure KOL_DIRECT None None None None None));
     plainUser 1%nat "AAAAAAAB" (Some 0%nat) 1 BASE None]
    [] [] 2%nat 2%nat 0%nat [].

(** A trader on the REDUCED tier under a standard referrer. *)
Definition reducedWorld : World :=
  mkWorld
    [plainUser 0%nat "AAAAAAAA" None 0 BASE None;
     plainUser 1%nat "AAAAAAAB" (Some 0%nat) 1 REDUCED None]
    [] [] 2%nat 2%nat 0%nat [].

(** The second user of [lineOfFour], at depth 1, as stored. *)
Definition secondUser : User :=
  Eval vm_compute in nth 1 (users lineOfFour) (plainUser 0%nat "" None 0 BASE None).

(** A root whose structure waives the fees. *)
Definition waivedUser : User :=
  plainUser 0%nat "AAAAAAAA" None 0 BASE
    (Some (mkStoredCommissionStructure WAIVED None None None (Some true) None)).

(** The last user of [lineOfFour], who trades in the examples. *)
Definition trader : User := plainUser 3%nat "AAAAAAAD" (Some 2%nat) 3 BASE None.

End Demo.

(** A trader under three ancestors: the nearest on a KOL_CUSTOM structure
    with a stored level-1 rate of 0.4, the next with commissions waived,
    the root on the standard rates. *)
Definition customLine : World :=
  mkWorld
    [Demo.plainUser 0%nat "AAAAAAAA" None 0 BASE None;
     Demo.plainUser 1%nat "AAAAAAAB" (Some 0%nat) 1 BASE
       (Some (mkStoredCommissionStructure WAIVED None None None None (Some true)));
     Demo.plainUser 2%nat "AAAAAAAC" (Some 1%nat) 2 BASE
       (Some (mkStoredCommissionStructure KOL_CUSTOM (Some "0.4"%string) None None
                None None));
     Demo.plainUser 3%nat "AAAAAAAD" (Some 2%nat) 3 BASE None]
    [] [] 4%nat 4%nat 0%nat [].

(** Four users in a line as the unit test of the depth limit mocks them:
    every document stores depth 0, whatever its place. *)
Definition mockLine : World :=
  mkWorld
    [Demo.plainUser 0%nat "AAAAAAAA" None 0 BASE None;
     Demo.plainUser 1%nat "AAAAAAAB" (Some 0%nat) 0 BASE None;
     Demo.plainUser 2%nat "AAAAAAAC" (Some 1%nat) 0 BASE None;
     Demo.plainUser 3%nat "AAAAAAAD" (Some 2%nat) 0 BASE None]
    [] [] 4%nat 4%nat 0%nat [].

(** A store with a dangling parent pointer: the referrer of the second
    user was never stored. *)
Definition orphanWorld : World :=
  mkWorld
    [Demo.plainUser 1%nat "AAAAAAAB" (Some 0%nat) 1 BASE None;
     Demo.plainUser 2%nat "AAAAAAAC" (Some 1%nat) 2 BASE None]
    [] [] 3%nat 3%nat 0%nat [].

(** A root whose structure waives the fees, stored. *)
Definition waivedWorld : World :=
  mkWorld [Demo.waivedUser] [] [] 1%nat 1%nat 0%nat [].

(** The volume 1e-9999998, whose BASE fee 1e-10000000 is the smallest
    value the library holds; the number of its fractional digits is kept
    as written and never counted out. *)
Definition tinyScale : nat := Z.to_nat 9999998.
Definition tinyVolume : BigNumber := Finite (mkDecimal 1 tinyScale).

(** Whether every save of a trade flagged as distributed comes after an
    increment of cashback ([seen] tells whether one came already). *)
Fixpoint cashbackBeforeFlag (seen : bool) (ops : list DbOp) : bool :=
  match ops with
  | [] => true
  | UserIncCashback _ _ :: rest => cashbackBeforeFlag true rest
  | TradeSave t :: rest =>
      (negb (commissionsDistributed t) || seen) && cashbackBeforeFlag seen rest
  | _ :: rest => cashbackBeforeFlag seen rest
  end.

(** A finite value in the form the library keeps: no trailing zero among
    the fractional digits. *)
Definition canonical (d : decimal) : Prop :=
  scale d = O \/ coef d mod 10 <> 0.

Section MoreReadings.
Context `{Platform}.

(** The first of the [n] draws from [start] on whose code no user holds. *)
Fixpoint firstFree (us : list User) (start n : nat) : option nat :=
  match n with
  | O => None
  | S k =>
      match find_code (generateCode start) us with
      | None => Some start
      | Some _ => firstFree us (S start) k
      end
  end.

(** The user collection after some [$inc] updates of totals. *)
Inductive incremented : list User -> list User -> Prop :=
| incremented_none us : incremented us us
| incremented_commission us us' id a :
    incremented us us' ->
    incremented us (update_first (fun u => Nat.eqb (_id u) id) (inc_commission a) us')
| incremented_cashback us us' id a :
    incremented us us' ->
    incremented us (update_first (fun u => Nat.eqb (_id u) id) (inc_cashback a) us').

(** The child lists agree with the parent pointers: [c] is listed among the
    direct referrals of [p] exactly when [c] is a user whose referrer is
    [p]. *)
Definition linked (us : list User) : Prop :=
  forall p c,
    (exists pu, find_user p us = Some pu /\ In c (directReferrals pu))
    <-> (exists cu, find_user c us = Some cu /\ referrerId cu = Some p).

End MoreReadings.

Section TradeReadings.
Context `{Platform}.

(** The trade collection after [trade.save()] of [t]. *)
Definition saveTrade (t : Trade) (ts : list Trade) : list Trade :=
  if existsb (fun x => Nat.eqb (t_id x) (t_id t)) ts
  then update_first (fun x => Nat.eqb (t_id x) (t_id t)) (fun _ => t) ts
  else ts ++ [t].

(** The distribution [calculateFeeDistribution] returns for [user], read off
    the user collection. *)
Definition distributionOf (us : list User) (user : User) (volume : BigNumber)
    (chain : Chain) (token : string) : FeeDistribution :=
  if isZero (feeOf user volume)
  then mkFeeDistribution (_id user) (feeOf user volume) (BN 0) [] (BN 0) chain token
  else mkFeeDistribution (_id user) (feeOf user volume)
         (multipliedBy (feeOf user volume) CASHBACK_RATE)
         (flat_map (emitted us (feeOf user volume)) (chainOf us (_id user)))
         (multipliedBy (feeOf user volume) TREASURY_RATE) chain token.

(** The user collection after the [$inc] of each commission, in order. *)
Definition creditCommissions (us : list User)
    (credits : list (CommissionBreakdown * Decimal128)) : list User :=
  fold_left (fun us ca => update_first (fun u => Nat.eqb (_id u) (userId (fst ca)))
                                       (inc_commission (snd ca)) us)
            credits us.

End TradeReadings.

Section RowReadings.
Context `{Platform}.

(** [us'] keeps every document of [us], with its identifier, code and
    parent pointer. *)
Definition keeps (us us' : list User) : Prop :=
  forall x y, find_user x us = Some y ->
    exists y', find_user x us' = Some y' /\ _id y' = _id y
               /\ referralCode y' = referralCode y
               /\ referrerId y' = referrerId y.

(** A commission row that is unclaimed and pays an ancestor of its source:
    the recipient stands on the source's chain at the row's level. *)
Definition onChain (us : list User) (c : Commission) : Prop :=
  c_isClaimed c = false
  /\ exists code,
       In (mkReferralChain (c_userId c) (c_level c) code)
          (chainOf us (c_sourceUserId c)).

End RowReadings.

Section SplitReadings.
Context `{Platform}.

(** Three ancestors, each on the standard rates: no custom structure is
    stored for any of them. *)
Definition standardChain (us : list User) (userId : ObjectId) : bool :=
  Nat.eqb (List.length (chainOf us userId)) 3
  && forallb (fun e => match find_user (chain_userId e) us with
                       | Some u => match customCommissionStructure u with
                                   | None => true
                                   | Some _ => false
                                   end
                       | None => false
                       end)
             (chainOf us userId).

(** Whether the smallest of the five standard shares of a fee, the 2% of
    level 3, stays within the exponent range. *)
Definition sharesInRange (F : BigNumber) : bool :=
  match F with
  | Finite f => negb (underflows (dec_mul f (strip 2 2)))
  | _ => true
  end.

End SplitReadings.

Section MoreServices.
Context `{Platform}.

Definition findUserById (userId : ObjectId) : M (option User) :=
  userModel_findById userId.

Definition findUserByReferralCode (referralCode : string) : M (option User) :=
  userModel_findOne referralCode.

(** What of a user document no [$inc] of a total touches. *)
Definition frame (u : User)
    : ObjectId * string * option ObjectId * list ObjectId * Z * FeeTier
      * option StoredCommissionStructure * bool :=
  (_id u, referralCode u, referrerId u, directReferrals u, referralDepth u,
   feeTier u, customCommissionStructure u, isActive u).

End MoreServices.

(** [Demo.lineOfFour] after its last user traded a volume of 10000. *)
Definition afterTrade : World :=
  Eval vm_compute in
    snd (@processTrade Demo.platform "3" "10000" "BTC" BUY ARBITRUM Demo.lineOfFour).

(** ** [getEarnings]: the statements after the aggregate

    The rows the [$match] / [$group] / [$sort] pipeline hands back are
    taken as given, each with the strings its three totals print as; the
    model starts at [const levelMap = new Map()]. *)

Record AggregateRow : Type := mkAggregateRow {
  agg_sourceUserId : ObjectId;
  agg_level : Z;
  agg_totalEarned : string;
  agg_claimed : string;
  agg_unclaimed : string
}.

Record EarningsBreakdown : Type := mkEarningsBreakdown {
  eb_userId : ObjectId;
  eb_level : Z;
  totalEarned : string;
  claimed : string;
  unclaimed : string
}.

Record LevelEarnings : Type := mkLevelEarnings {
  le_level : Z;
  earnings : list EarningsBreakdown;
  levelTotal : string;
  levelClaimed : string;
  levelUnclaimed : string
}.

Record Earnings : Type := mkEarnings {
  byLevel : list LevelEarnings;
  grandTotal : string;
  totalClaimed : string;
  totalUnclaimed : string
}.

(** A [Map<number, EarningsBreakdown[]>]: the entries in insertion order. *)
Definition LevelMap : Type := list (Z * list EarningsBreakdown).

Definition levelMap_has (lvl : Z) (m : LevelMap) : bool :=
  existsb (fun kv => fst kv =? lvl) m.

(** [m.set(lvl, v)]: a new key goes to the end, a known key keeps its place. *)
Definition levelMap_set (lvl : Z) (v : list EarningsBreakdown) (m : LevelMap)
    : LevelMap :=
  if levelMap_has lvl m
  then update_first (fun kv => fst kv =? lvl) (fun kv => (fst kv, v)) m
  else m ++ [(lvl, v)].

(** [m.get(lvl)!.push(e)]: the array stored under [lvl] grows in place. *)
Definition levelMap_push (lvl : Z) (e : EarningsBreakdown) (m : LevelMap) : LevelMap :=
  update_first (fun kv => fst kv =? lvl) (fun kv => (fst kv, snd kv ++ [e])) m.

(** [entries.sort(([a], [b]) => a - b)]: stable, ascending by key. *)
Fixpoint insert_entry (x : Z * list EarningsBreakdown) (l : LevelMap) : LevelMap :=
  match l with
  | [] => [x]
  | y :: r => if fst x <=? fst y then x :: y :: r else y :: insert_entry x r
  end.

Definition sort_entries (m : LevelMap) : LevelMap :=
  fold_right insert_entry [] m.

(** The levels of the rows, each once, in the order of first appearance,
    and their ascending sort. *)
Definition levelsOf (commissions : list AggregateRow) : list Z :=
  fold_left (fun ks comm => if existsb (Z.eqb (agg_level comm)) ks then ks
                            else ks ++ [agg_level comm])
            commissions [].

Fixpoint insert_level (x : Z) (l : list Z) : list Z :=
  match l with
  | [] => [x]
  | y :: r => if x <=? y then x :: y :: r else y :: insert_level x r
  end.

Definition sort_levels (ks : list Z) : list Z := fold_right insert_level [] ks.

Section Earnings.
Context `{Platform}.

Definition breakdownOf (comm : AggregateRow) : EarningsBreakdown :=
  mkEarningsBreakdown (agg_sourceUserId comm) (agg_level comm)
    (agg_totalEarned comm) (agg_claimed comm) (agg_unclaimed comm).

(** The [for (const comm of commissions)] that fills the map. *)
Definition getEarnings_levelMap (commissions : list AggregateRow) : LevelMap :=
  fold_left
    (fun levelMap comm =>
       let lvl := agg_level comm in
       let levelMap :=
         if negb (levelMap_has lvl levelMap) then levelMap_set lvl [] levelMap
         else levelMap in
       levelMap_push lvl (breakdownOf comm) levelMap)
    commissions [].

(** [earnings.reduce((sum, e) => sum.plus(e.field), new BigNumber(0))] *)
Definition reduce_plus (field : EarningsBreakdown -> string)
    (earnings : list EarningsBreakdown) : BigNumber :=
  fold_left (fun sum e => plus sum (BigNumber_of_string (field e))) earnings (BN 0).

(** The [.map(([lvl, earnings]) => ...)] with the three running totals. *)
Definition getEarnings_totals (entries : LevelMap)
    : list LevelEarnings * BigNumber * BigNumber * BigNumber :=
  fold_left
    (fun acc entry =>
       let '(out, grandTotal, totalClaimed, totalUnclaimed) := acc in
       let (lvl, earnings) := entry : Z * list EarningsBreakdown in
       let levelTotal := reduce_plus totalEarned earnings in
       let levelClaimed := reduce_plus claimed earnings in
       let levelUnclaimed := reduce_plus unclaimed earnings in
       (out ++ [mkLevelEarnings lvl earnings (toString levelTotal)
                                (toString levelClaimed) (toString levelUnclaimed)],
        plus grandTotal levelTotal,
        plus totalClaimed levelClaimed,
        plus totalUnclaimed levelUnclaimed))
    entries ([], BN 0, BN 0, BN 0).

(** [getEarnings] from the rows of its aggregate on. *)
Definition getEarnings_assemble (commissions : list AggregateRow) : Earnings :=
  let levelMap := getEarnings_levelMap commissions in
  let '(byLevel, grandTotal, totalClaimed, totalUnclaimed) :=
    getEarnings_totals (sort_entries levelMap) in
  mkEarnings byLevel (toString grandTotal) (toString totalClaimed)
             (toString totalUnclaimed).

(** The entries of one level, in the order of the rows. *)
Definition earningsAt (commissions : list AggregateRow) (lvl : Z)
    : list EarningsBreakdown :=
  map breakdownOf (filter (fun comm => agg_level comm =? lvl) commissions).

(** The sum of one printed total over all the rows. *)
Definition sumOver (field : AggregateRow -> string) (commissions : list AggregateRow)
    : BigNumber :=
  fold_left (fun sum comm => plus sum (BigNumber_of_string (field comm)))
            commissions (BN 0).

(** The sum of one printed total, level by level over [ks]. *)
Definition groupedSum (field : AggregateRow -> string)
    (commissions : list AggregateRow) (ks : list Z) : BigNumber :=
  fold_left (fun g k => plus g (sumOver field
                                  (filter (fun comm => agg_level comm =? k)
                                          commissions)))
            ks (BN 0).

End Earnings.

(** ** [getNetwork] *)

#[local] Unset Elimination Schemes.
Inductive NetworkNode : Type := mkNetworkNode {
  nn_userId : ObjectId;
  nn_referralCode : string;
  nn_level : Z;
  joinedAt : nat;
  nn_directReferrals : option (list NetworkNode)
}.
#[local] Set Elimination Schemes.

(** [flattenNetwork]: each node without its children, followed by the
    flattened children. *)
Fixpoint flattenNode (node : NetworkNode) : list NetworkNode :=
  mkNetworkNode (nn_userId node) (nn_referralCode node) (nn_level node)
                (joinedAt node) None
  :: match nn_directReferrals node with
     | Some children => flat_map flattenNode children
     | None => []
     end.

Definition flattenNetwork (nodes : list NetworkNode) : list NetworkNode :=
  flat_map flattenNode nodes.

Section Network.

(** The [createdAt] mongoose stamped on the user document with a given
    identifier. *)
Variable createdAt : ObjectId -> nat.

(** The [for (const refId of currentUser.directReferrals)] of
    [buildNetworkTree]; [buildChildren] is the recursive call. *)
Fixpoint buildNetworkTree_loop (buildChildren : ObjectId -> Z -> M (list NetworkNode))
    (currentLevel : Z) (refs : list ObjectId) (nodes : list NetworkNode)
    : M (list NetworkNode) :=
  match refs with
  | [] => ret nodes
  | refId :: rest =>
      referral <- userModel_findById refId ;;
      match referral with
      | None => buildNetworkTree_loop buildChildren currentLevel rest nodes
      | Some referral =>
          children <-
            (if currentLevel <? MAX_REFERRAL_DEPTH
             then (c <- buildChildren (_id referral) (currentLevel + 1) ;; ret (Some c))
             else ret None) ;;
          buildNetworkTree_loop buildChildren currentLevel rest
            (nodes ++ [mkNetworkNode (_id referral) (referralCode referral)
                                     currentLevel (createdAt (_id referral)) children])
      end
  end.

(** [buildNetworkTree]; the recursion goes one level down per call and
    stops at [MAX_REFERRAL_DEPTH], so [fuel] never runs out when it starts
    at that depth.  The [populate] of the direct referrals adds nothing to
    what the loop reads with [findById]. *)
Fixpoint buildNetworkTree (fuel : nat) (currentUserId : ObjectId) (currentLevel : Z)
    : M (list NetworkNode) :=
  match fuel with
  | O => diverge
  | S fuel' =>
      if MAX_REFERRAL_DEPTH <? currentLevel then ret []
      else
        currentUser <- userModel_findById currentUserId ;;
        match currentUser with
        | None => ret []
        | Some currentUser =>
            buildNetworkTree_loop (buildNetworkTree fuel') currentLevel
                                  (directReferrals currentUser) []
        end
  end.

Definition getNetwork (userId : ObjectId) : M (list NetworkNode * nat) :=
  user <- userModel_findById userId ;;
  match user with
  | None => throw (NotFoundException "User not found")
  | Some _ =>
      fullNetwork <- buildNetworkTree (Z.to_nat MAX_REFERRAL_DEPTH) userId 1 ;;
      let flatNodes := flattenNetwork fullNetwork in
      ret (flatNodes, List.length flatNodes)
  end.

(** The tree [buildNetworkTree] builds, read off the user collection. *)
Fixpoint treeOf (us : list User) (n : nat) (currentUserId : ObjectId) (level : Z)
    : list NetworkNode :=
  match n with
  | O => []
  | S n' =>
      if MAX_REFERRAL_DEPTH <? level then []
      else
        match find_user currentUserId us with
        | None => []
        | Some currentUser =>
            flat_map
              (fun refId =>
                 match find_user refId us with
                 | None => []
                 | Some referral =>
                     [mkNetworkNode (_id referral) (referralCode referral) level
                        (createdAt (_id referral))
                        (if level <? MAX_REFERRAL_DEPTH
                         then Some (treeOf us n' (_id referral) (level + 1))
                         else None)]
                 end)
              (directReferrals currentUser)
        end
  end.

End Network.

(** [x] is reached from [a] by [k] steps down the direct referrals, every
    user on the way being stored. *)
Fixpoint descendantAt (us : list User) (k : nat) (a x : ObjectId) : Prop :=
  match k with
  | O => a = x
  | S k' =>
      exists cu c r,
        find_user a us = Some cu /\ In c (directReferrals cu)
        /\ find_user c us = Some r /\ descendantAt us k' c x
  end.

(** The user [k] parent pointers above [x]. *)
Fixpoint ancestorAt (us : list User) (k : nat) (x : ObjectId) : option ObjectId :=
  match k with
  | O => Some x
  | S k' =>
      match find_user x us with
      | Some u =>
          match referrerId u with
          | Some p =>
              match find_user p us with
              | Some _ => ancestorAt us k' p
              | None => None
              end
          | None => None
          end
      | None => None
      end
  end.

(** ** [TradeController.processTrade] *)

Record TradeWebhookDto : Type := mkTradeWebhookDto {
  dto_userId : string;
  dto_volume : string;
  dto_token : string;
  dto_side : Side;
  dto_chain : Chain
}.

Record ResponseCommission : Type := mkResponseCommission {
  rc_userId : ObjectId;
  rc_level : Z;
  rc_amount : string;
  rc_rate : string
}.

Record TradeResponseDto : Type := mkTradeResponseDto {
  resp_tradeId : ObjectId;
  resp_userId : string;
  resp_volume : string;
  resp_token : string;
  resp_totalFee : string;
  resp_cashback : string;
  resp_treasury : string;
  resp_commissions : list ResponseCommission;
  resp_chain : Chain;
  resp_createdAt : nat
}.

Section TradeController.
Context `{Platform}.

(** The [createdAt] mongoose stamped on the trade document with a given
    identifier. *)
Variable tradeCreatedAt : ObjectId -> nat.

Definition TradeController_processTrade (dto : TradeWebhookDto) : M TradeResponseDto :=
  r <- processTrade (dto_userId dto) (dto_volume dto) (dto_token dto) (dto_side dto)
                    (dto_chain dto) ;;
  let (trade, feeDistribution) := r : Trade * FeeDistribution in
  ret (mkTradeResponseDto
         (t_id trade) (dto_userId dto) (t_volume trade) (t_token trade)
         (t_totalFee trade)
         (toString (cashback feeDistribution))
         (toString (treasury feeDistribution))
         (map (fun c => mkResponseCommission (userId c) (level c)
                          (toString (amount c)) (toString (rate c)))
              (commissions feeDistribution))
         (t_chain trade) (tradeCreatedAt (t_id trade))).

End TradeController.

(** Whether [a] is among the ancestors [getReferralChain] lists for [u]. *)
Definition hasAncestor (us : list User) (a : ObjectId) (u : User) : bool :=
  existsb (fun e => Nat.eqb (chain_userId e) a) (chainOf us (_id u)).

(** A platform whose [Decimal128.fromString] refuses what is longer than
    34 characters, and is [Demo.platform] otherwise. *)
Definition narrowPlatform : Platform :=
  {| BigNumber_read := Demo.parse;
     ObjectId_of_string := Demo.parse_id;
     generateCode := Demo.code_of REFERRAL_CODE_LENGTH;
     Decimal128_fromString :=
       fun s => if (34 <? String.length s)%nat then None else Some (Demo.parse s);
     Decimal128_toString := toString;
     Decimal128_add := plus |}.

(** * Properties *)

(** ** Decimal arithmetic *)

Lemma pow10_pos (n : nat) : 0 < pow10 n.
Proof. unfold pow10. apply Z.pow_pos_nonneg; lia. Qed.

Lemma pow10_S (n : nat) : pow10 (S n) = 10 * pow10 n.
Proof. unfold pow10. rewrite Nat2Z.inj_succ, Z.pow_succ_r; lia. Qed.

Lemma pow10_add (a b : nat) : pow10 (a + b) = pow10 a * pow10 b.
Proof. unfold pow10. rewrite Nat2Z.inj_add, Z.pow_add_r; lia. Qed.

Lemma pow10_den (n : nat) : Z.pos (Z.to_pos (pow10 n)) = pow10 n.
Proof. apply Z2Pos.id, pow10_pos. Qed.

(** [strip] keeps the value: the two fractions cross-multiply. *)
Lemma strip_cross (m : Z) (s : nat) :
  coef (strip m s) * pow10 s = m * pow10 (scale (strip m s)).
Proof.
  revert m. induction s as [|s IH]; intros m; simpl.
  - reflexivity.
  - destruct (Z.eqb_spec (m mod 10) 0) as [E|E]; simpl; [|reflexivity].
    specialize (IH (m / 10)). rewrite pow10_S.
    pose proof (Z.div_mod m 10 ltac:(lia)) as D. rewrite E in D.
    replace (coef (strip (m / 10) s) * (10 * pow10 s))
      with (10 * (coef (strip (m / 10) s) * pow10 s)) by ring.
    rewrite IH. rewrite D at 3. ring.
Qed.

Lemma strip_zero (s : nat) : strip 0 s = mkDecimal 0 0.
Proof. induction s as [|s IH]; simpl; [reflexivity|exact IH]. Qed.

Lemma strip_coef_zero (m : Z) (s : nat) : coef (strip m s) = 0 <-> m = 0.
Proof.
  pose proof (strip_cross m s) as C.
  pose proof (pow10_pos s). pose proof (pow10_pos (scale (strip m s))).
  split; intros E.
  - rewrite E in C. nia.
  - subst m. rewrite strip_zero. reflexivity.
Qed.

Lemma strip_sign (m : Z) (s : nat) : 0 < coef (strip m s) <-> 0 < m.
Proof.
  pose proof (strip_cross m s) as C.
  pose proof (pow10_pos s). pose proof (pow10_pos (scale (strip m s))).
  split; intros E; nia.
Qed.

Lemma toQ_strip (m : Z) (s : nat) : toQ (strip m s) == m # Z.to_pos (pow10 s).
Proof.
  unfold toQ, Qeq; simpl. rewrite !pow10_den. apply strip_cross.
Qed.

Lemma toQ_mul (a b : decimal) : toQ (dec_mul a b) == toQ a * toQ b.
Proof.
  unfold dec_mul. rewrite toQ_strip. unfold toQ, Qeq, Qmult; simpl.
  rewrite Pos2Z.inj_mul, !pow10_den, pow10_add. ring.
Qed.

Lemma toQ_add (a b : decimal) : toQ (dec_add a b) == toQ a + toQ b.
Proof.
  unfold dec_add. rewrite toQ_strip. unfold toQ, Qeq, Qplus; simpl.
  rewrite Pos2Z.inj_mul, !pow10_den, pow10_add. ring.
Qed.

Lemma dec_compare_toQ (a b : decimal) : dec_compare a b = (toQ a ?= toQ b)%Q.
Proof.
  unfold dec_compare, toQ, Qcompare; simpl. rewrite !pow10_den. reflexivity.
Qed.

Lemma toQ_pos (a : decimal) : (0 < toQ a)%Q <-> 0 < coef a.
Proof. unfold toQ, Qlt; simpl. lia. Qed.

Lemma le_finite (a b : decimal) :
  isLessThanOrEqualTo (Finite a) (Finite b) = true <-> (toQ a <= toQ b)%Q.
Proof.
  unfold isLessThanOrEqualTo; simpl. rewrite dec_compare_toQ, Qle_alt.
  destruct (toQ a ?= toQ b)%Q; split; intros; congruence.
Qed.

Lemma gt_finite (a b : decimal) :
  isGreaterThan (Finite a) (Finite b) = true <-> (toQ b < toQ a)%Q.
Proof.
  unfold isGreaterThan; simpl. rewrite dec_compare_toQ, Qgt_alt.
  destruct (toQ a ?= toQ b)%Q; split; intros; congruence.
Qed.

Lemma toQ_BN (n : Z) : toQ (strip n 0) == inject_Z n.
Proof. reflexivity. Qed.

(** *** The exponent range *)

Lemma count_digits_spec (fuel : nat) :
  forall n, 0 < n -> (Z.to_nat (Z.log2 n) < fuel)%nat ->
    (0 < count_digits fuel n)%nat
    /\ pow10 (count_digits fuel n - 1) <= n < pow10 (count_digits fuel n).
Proof.
  induction fuel as [|fuel IH]; intros n P L; [lia|].
  cbn [count_digits]. destruct (Z.ltb_spec n 10) as [Small|Big].
  - split; [lia|]. change (pow10 (1 - 1)) with 1. change (pow10 1) with 10. lia.
  - assert (Pd : 0 < n / 10) by (apply Z.div_str_pos; lia).
    assert (L2 : (Z.to_nat (Z.log2 (n / 10)) < fuel)%nat).
    { assert (D : Z.log2 (2 * (n / 10)) <= Z.log2 n).
      { apply Z.log2_le_mono. pose proof (Z.mul_div_le n 10 ltac:(lia)). lia. }
      rewrite Z.log2_double in D by exact Pd.
      pose proof (Z.log2_nonneg (n / 10)). lia. }
    destruct (IH (n / 10) Pd L2) as [C [Lo Hi]].
    split; [lia|].
    replace (S (count_digits fuel (n / 10)) - 1)%nat
      with (S (count_digits fuel (n / 10) - 1)) by lia.
    rewrite !pow10_S.
    pose proof (Z.div_mod n 10 ltac:(lia)).
    pose proof (Z.mod_pos_bound n 10 ltac:(lia)). lia.
Qed.

(** [ndigits n] is the number of digits of [n]: [n] lies between the two
    powers of ten. *)
Lemma ndigits_spec (n : Z) :
  0 < n ->
  (0 < ndigits n)%nat /\ pow10 (ndigits n - 1) <= n < pow10 (ndigits n).
Proof. intros P. apply count_digits_spec; [exact P|lia]. Qed.

Lemma pow10_le (a b : nat) : (a <= b)%nat -> pow10 a <= pow10 b.
Proof. intros L. unfold pow10. apply Z.pow_le_mono_r; lia. Qed.

(** The exponent grows with the size of the value. *)
Lemma dec_exponent_le (a b : decimal) :
  coef a <> 0 -> coef b <> 0 ->
  Z.abs (coef a) * pow10 (scale b) <= Z.abs (coef b) * pow10 (scale a) ->
  dec_exponent a <= dec_exponent b.
Proof.
  intros Na Nb L. unfold dec_exponent.
  destruct (ndigits_spec (Z.abs (coef a)) ltac:(lia)) as [Pa [La _]].
  destruct (ndigits_spec (Z.abs (coef b)) ltac:(lia)) as [Pb [_ Hb]].
  set (na := ndigits (Z.abs (coef a))) in *.
  set (nb := ndigits (Z.abs (coef b))) in *.
  destruct (Z_le_gt_dec (Z.of_nat na - 1 - Z.of_nat (scale a))
                        (Z.of_nat nb - 1 - Z.of_nat (scale b))) as [Le|G];
    [exact Le|exfalso].
  assert (E : (nb + scale a <= na - 1 + scale b)%nat) by lia.
  apply pow10_le in E. rewrite !pow10_add in E.
  pose proof (pow10_pos (scale a)) as Psa. pose proof (pow10_pos (scale b)) as Psb.
  assert (pow10 (na - 1) * pow10 (scale b) <= Z.abs (coef a) * pow10 (scale b))
    by (apply Z.mul_le_mono_nonneg_r; lia).
  assert (Z.abs (coef b) * pow10 (scale a) < pow10 nb * pow10 (scale a))
    by (apply Z.mul_lt_mono_pos_r; lia).
  lia.
Qed.

Lemma dec_exponent_mono (a b : decimal) :
  0 < coef a -> (toQ a <= toQ b)%Q -> dec_exponent a <= dec_exponent b.
Proof.
  intros Pa L. unfold toQ, Qle in L. cbn [Qnum Qden] in L. rewrite !pow10_den in L.
  pose proof (pow10_pos (scale a)). pose proof (pow10_pos (scale b)).
  assert (Pb : 0 < coef b) by nia.
  apply dec_exponent_le; lia.
Qed.

(** [strip] keeps the exponent, as it keeps the value. *)
Lemma dec_exponent_strip (m : Z) (s : nat) :
  m <> 0 -> dec_exponent (strip m s) = dec_exponent (mkDecimal m s).
Proof.
  intros N. pose proof (strip_cross m s) as C.
  assert (Ns : coef (strip m s) <> 0) by (rewrite strip_coef_zero; exact N).
  pose proof (pow10_pos s). pose proof (pow10_pos (scale (strip m s))).
  assert (A : Z.abs (coef (strip m s)) * pow10 s
              = Z.abs m * pow10 (scale (strip m s))).
  { rewrite <- (Z.abs_eq (pow10 s)) at 1 by lia.
    rewrite <- (Z.abs_eq (pow10 (scale (strip m s)))) at 1 by lia.
    rewrite <- !Z.abs_mul. f_equal. exact C. }
  apply Z.le_antisymm; apply dec_exponent_le; cbn [coef scale];
    try assumption; lia.
Qed.

Lemma underflows_positive (a : decimal) :
  0 < coef a -> underflows a = (dec_exponent a <? MIN_EXP).
Proof.
  intros P. unfold underflows, dec_is_zero.
  destruct (Z.eqb_spec (coef a) 0); [lia|reflexivity].
Qed.

(** What [normalise] makes of a positive value that does not overflow. *)
Lemma normalise_positive (a : decimal) :
  0 < coef a -> dec_exponent a <= MAX_EXP ->
  normalise a = if underflows a then BN 0 else Finite a.
Proof.
  intros P L. unfold normalise, overflows, dec_is_zero.
  destruct (Z.eqb_spec (coef a) 0); [lia|]. cbn [negb andb].
  destruct (Z.ltb_spec MAX_EXP (dec_exponent a)); [lia|reflexivity].
Qed.

(** A finite result of [normalise] that is not zero is the value itself,
    and lies in the range. *)
Lemma normalise_finite (a f : decimal) :
  normalise a = Finite f -> coef f <> 0 ->
  f = a /\ MIN_EXP <= dec_exponent a <= MAX_EXP.
Proof.
  unfold normalise, overflows, underflows, dec_is_zero. intros E N.
  destruct (Z.eqb_spec (coef a) 0) as [Z|Z]; cbn [negb andb] in E.
  - inversion E; subst. contradiction.
  - destruct (Z.ltb_spec MAX_EXP (dec_exponent a)); [discriminate|].
    destruct (Z.ltb_spec (dec_exponent a) MIN_EXP).
    + inversion E; subst. exfalso. apply N. reflexivity.
    + inversion E; subst. split; [reflexivity|lia].
Qed.

Lemma normalise_inRange (a : decimal) : inRange (normalise a) = true.
Proof.
  unfold normalise. destruct (overflows a) eqn:O; [reflexivity|].
  destruct (underflows a) eqn:U; [reflexivity|].
  cbn [inRange]. rewrite O, U. reflexivity.
Qed.

Lemma toRange_inRange (x : BigNumber) : inRange (toRange x) = true.
Proof. destruct x as [|s|a]; try reflexivity. apply normalise_inRange. Qed.

(** A product of two positive values is zero by underflow, an infinity by
    overflow, or the exact product, which then lies in the range. *)
Lemma times_positive (a b : decimal) :
  0 < coef a -> 0 < coef b ->
  0 < coef (dec_mul a b)
  /\ (multipliedBy (Finite a) (Finite b) = BN 0 /\ underflows (dec_mul a b) = true
      \/ (multipliedBy (Finite a) (Finite b) = Infinity false
          /\ underflows (dec_mul a b) = false)
      \/ (multipliedBy (Finite a) (Finite b) = Finite (dec_mul a b)
          /\ underflows (dec_mul a b) = false
          /\ dec_exponent (dec_mul a b) <= MAX_EXP)).
Proof.
  intros Pa Pb.
  assert (P : 0 < coef (dec_mul a b)) by (unfold dec_mul; apply strip_sign; nia).
  split; [exact P|]. cbn [multipliedBy].
  unfold normalise, overflows, dec_is_zero, dec_is_neg.
  destruct (Z.eqb_spec (coef (dec_mul a b)) 0); [lia|]. cbn [negb andb].
  destruct (Z.ltb_spec MAX_EXP (dec_exponent (dec_mul a b))) as [O|O].
  - right. left. destruct (Z.ltb_spec (coef (dec_mul a b)) 0); [lia|].
    split; [reflexivity|]. rewrite (underflows_positive _ P).
    apply Z.ltb_ge. unfold MIN_EXP, MAX_EXP in *. lia.
  - destruct (underflows (dec_mul a b)) eqn:U.
    + left. split; reflexivity.
    + right. right. split; [reflexivity|]. split; [reflexivity|assumption].
Qed.

(** A positive value in range times a positive factor of at most 1: the
    exact product, or zero when that falls below the range. *)
Lemma times_fraction (f d : decimal) :
  0 < coef f -> dec_exponent f <= MAX_EXP -> 0 < coef d -> (toQ d <= 1)%Q ->
  multipliedBy (Finite f) (Finite d)
  = if underflows (dec_mul f d) then BN 0 else Finite (dec_mul f d).
Proof.
  intros Pf Lf Pd Ld.
  assert (P : 0 < coef (dec_mul f d)) by (unfold dec_mul; apply strip_sign; nia).
  cbn [multipliedBy]. apply normalise_positive; [exact P|].
  apply Z.le_trans with (dec_exponent f); [|exact Lf].
  apply dec_exponent_mono; [exact P|]. rewrite toQ_mul.
  assert (0 < toQ f)%Q by (apply toQ_pos; exact Pf).
  setoid_replace (toQ f) with (toQ f * 1)%Q at 2 by ring.
  apply Qmult_le_l; assumption.
Qed.

(** Of two positive values, the larger does not underflow where the
    smaller does not. *)
Lemma underflows_mono (a b : decimal) :
  0 < coef a -> (toQ a <= toQ b)%Q -> underflows a = false -> underflows b = false.
Proof.
  intros Pa L U. pose proof (dec_exponent_mono a b Pa L) as M.
  assert (Pb : 0 < coef b).
  { apply toQ_pos. apply Qlt_le_trans with (toQ a); [apply toQ_pos; exact Pa|exact L]. }
  rewrite underflows_positive in U |- * by assumption.
  apply Z.ltb_ge in U. apply Z.ltb_ge. lia.
Qed.

Lemma inRange_positive (d : decimal) :
  0 < coef d -> inRange (Finite d) = true ->
  MIN_EXP <= dec_exponent d <= MAX_EXP.
Proof.
  intros P R. cbn [inRange] in R. unfold overflows in R.
  rewrite (underflows_positive d P) in R. unfold dec_is_zero in R.
  destruct (Z.eqb_spec (coef d) 0); [lia|]. cbn [negb andb] in R.
  apply andb_prop in R. destruct R as [O U].
  apply negb_true_iff in O, U. apply Z.ltb_ge in O, U. lia.
Qed.

(** The two cases of a product of positive values that stays below the
    upper end of the range, decided on the unstripped product. *)
Lemma times_underflow (a b : decimal) :
  0 < coef a -> 0 < coef b ->
  dec_exponent (mkDecimal (coef a * coef b) (scale a + scale b)) < MIN_EXP ->
  multipliedBy (Finite a) (Finite b) = BN 0.
Proof.
  intros Pa Pb L.
  destruct (times_positive a b Pa Pb) as [P [[E _]|[[_ U]|[_ [U _]]]]];
    [exact E| |];
    rewrite (underflows_positive _ P) in U; apply Z.ltb_ge in U;
    unfold dec_mul in U; rewrite dec_exponent_strip in U by nia; lia.
Qed.

Lemma times_exact (a b : decimal) :
  0 < coef a -> 0 < coef b ->
  MIN_EXP <= dec_exponent (mkDecimal (coef a * coef b) (scale a + scale b))
          <= MAX_EXP ->
  multipliedBy (Finite a) (Finite b) = Finite (dec_mul a b).
Proof.
  intros Pa Pb L.
  assert (P : 0 < coef (dec_mul a b)) by (unfold dec_mul; apply strip_sign; nia).
  assert (E : dec_exponent (dec_mul a b)
              = dec_exponent (mkDecimal (coef a * coef b) (scale a + scale b)))
    by (unfold dec_mul; apply dec_exponent_strip; nia).
  cbn [multipliedBy]. rewrite (normalise_positive _ P) by lia.
  rewrite (underflows_positive _ P).
  destruct (Z.ltb_spec (dec_exponent (dec_mul a b)) MIN_EXP); [lia|reflexivity].
Qed.

Lemma positive_not_le_zero (d : decimal) :
  0 < coef d -> isLessThanOrEqualTo (Finite d) (BN 0) = false.
Proof.
  intros P. unfold isLessThanOrEqualTo, BN_compare, BN, dec, dec_compare.
  change (strip 0 0) with (mkDecimal 0 0). cbn [coef scale].
  change (pow10 0) with 1. rewrite Z.mul_0_l, Z.mul_1_r.
  destruct (Z.compare_spec (coef d) 0); [lia|lia|reflexivity].
Qed.

Lemma BigNumber_of_string_inRange `{Platform} (s : string) :
  inRange (BigNumber_of_string s) = true.
Proof. apply toRange_inRange. Qed.

(** ** Runs that only read

    A call that reads leaves the collections alone and adds its queries to
    the log. *)

Lemma logged_nil (w : World) : logged [] w = w.
Proof. destruct w; unfold logged; simpl. rewrite app_nil_r. reflexivity. Qed.

Lemma logged_logged (a b : list DbOp) (w : World) :
  logged b (logged a w) = logged (a ++ b) w.
Proof. unfold logged; simpl. rewrite app_assoc. reflexivity. Qed.

Lemma findById_run (id : ObjectId) (w : World) :
  userModel_findById id w = (Ok (find_user id (users w)), logged [UserFindById id] w).
Proof. reflexivity. Qed.

Lemma findOne_run (code : string) (w : World) :
  userModel_findOne code w = (Ok (find_code code (users w)), logged [UserFindOne code] w).
Proof. reflexivity. Qed.

Lemma find_user_id (id : ObjectId) (us : list User) (u : User) :
  find_user id us = Some u -> _id u = id.
Proof.
  unfold find_user. intros E. apply find_some in E. destruct E as [_ E].
  apply Nat.eqb_eq, E.
Qed.

Lemma find_user_In (id : ObjectId) (us : list User) (u : User) :
  find_user id us = Some u -> In u us.
Proof. unfold find_user. intros E. apply find_some in E. apply E. Qed.

Lemma find_user_self (id : ObjectId) (us : list User) (u : User) :
  find_user id us = Some u -> find_user (_id u) us = Some u.
Proof. intros E. rewrite (find_user_id _ _ _ E). exact E. Qed.

(** ** The ancestor walk *)

Lemma getReferralChain_loop_run (n : nat) :
  forall (fuel : nat) (acc : list ReferralChain) (cu : option User) (level : Z)
         (w : World),
    (n < fuel)%nat -> Z.of_nat n = MAX_REFERRAL_DEPTH + 1 - level ->
    exists ops,
      getReferralChain_loop fuel acc cu level w
      = (Ok (acc ++ chainFrom (users w) n cu level), logged ops w)
      /\ Forall is_read ops.
Proof.
  induction n as [|n IH]; intros fuel acc cu level w Hf Hn.
  - destruct fuel as [|fuel]; [lia|]. exists []. rewrite logged_nil, app_nil_r.
    split; [|constructor]. simpl.
    destruct cu as [[? ? [parent|] ? ? ? ? ? ? ? ?]|]; try reflexivity.
    destruct (Z.leb_spec level MAX_REFERRAL_DEPTH); [lia|reflexivity].
  - destruct fuel as [|fuel]; [lia|]. simpl.
    destruct cu as [[? ? [parent|] ? ? ? ? ? ? ? ?]|];
      try (exists []; rewrite logged_nil, app_nil_r; split; [reflexivity|constructor]).
    destruct (Z.leb_spec level MAX_REFERRAL_DEPTH); [|lia].
    unfold bind at 1. rewrite findById_run.
    destruct (find_user parent (users w)) as [referrer|] eqn:E.
    + destruct (IH fuel (acc ++ [mkReferralChain (_id referrer) level (referralCode referrer)])
                  (Some referrer) (level + 1) (logged [UserFindById parent] w))
        as [ops [R F]]; [lia|lia|].
      exists (UserFindById parent :: ops). split.
      * rewrite R. simpl users. rewrite <- app_assoc, logged_logged. reflexivity.
      * constructor; [exact I|exact F].
    + exists [UserFindById parent]. rewrite app_nil_r. split; [reflexivity|].
      constructor; [exact I|constructor].
Qed.

Lemma getReferralChain_run (userId : ObjectId) (w : World) :
  exists ops,
    getReferralChain userId w = (Ok (chainOf (users w) userId), logged ops w)
    /\ Forall is_read ops.
Proof.
  unfold getReferralChain, bind. rewrite findById_run.
  destruct (getReferralChain_loop_run (Z.to_nat MAX_REFERRAL_DEPTH)
              (S (Z.to_nat MAX_REFERRAL_DEPTH)) [] (find_user userId (users w)) 1
              (logged [UserFindById userId] w)) as [ops [R F]];
    [lia|reflexivity|].
  exists (UserFindById userId :: ops). split.
  - rewrite R, logged_logged. reflexivity.
  - constructor; [exact I|exact F].
Qed.

Lemma chainFrom_length (us : list User) (n : nat) :
  forall cu level, (List.length (chainFrom us n cu level) <= n)%nat.
Proof.
  induction n as [|n IH]; intros cu level; simpl; [lia|].
  destruct cu as [[? ? [parent|] ? ? ? ? ? ? ? ?]|]; simpl; try lia.
  destruct (find_user parent us); simpl; [|lia].
  specialize (IH (Some u) (level + 1)). lia.
Qed.

Lemma chainFrom_levels (us : list User) (n : nat) :
  forall cu level i e,
    nth_error (chainFrom us n cu level) i = Some e ->
    chain_level e = level + Z.of_nat i.
Proof.
  induction n as [|n IH]; intros cu level i e; simpl.
  - destruct i; discriminate.
  - destruct cu as [[? ? [parent|] ? ? ? ? ? ? ? ?]|];
      try (destruct i; discriminate).
    destruct (find_user parent us); [|destruct i; discriminate].
    destruct i as [|i]; simpl.
    + intros E. inversion E. simpl. lia.
    + intros E. rewrite (IH _ _ _ _ E). lia.
Qed.

Lemma chainFrom_resolves (us : list User) (n : nat) :
  forall cu level e,
    In e (chainFrom us n cu level) ->
    exists u, find_user (chain_userId e) us = Some u
              /\ chain_referralCode e = referralCode u.
Proof.
  induction n as [|n IH]; intros cu level e; simpl; [tauto|].
  destruct cu as [[? ? [parent|] ? ? ? ? ? ? ? ?]|]; simpl; try tauto.
  destruct (find_user parent us) as [r|] eqn:E; simpl; [|tauto].
  intros [<-|Hin].
  - exists r. simpl. split; [apply (find_user_self _ _ _ E)|reflexivity].
  - apply (IH _ _ _ Hin).
Qed.

Lemma chainFrom_stops (us : list User) (n : nat) :
  forall cu level,
    (List.length (chainFrom us n cu level) < n)%nat ->
    noReferrer us (walkEnd us cu (chainFrom us n cu level)).
Proof.
  induction n as [|n IH]; intros cu level; simpl; [lia|].
  destruct cu as [[? ? [parent|] ? ? ? ? ? ? ? ?]|]; simpl; try tauto.
  destruct (find_user parent us) as [r|] eqn:E; simpl.
  - intros L. rewrite (find_user_self _ _ _ E). apply IH. lia.
  - intros _. exact E.
Qed.

(** Each entry of the chain is the referrer of the user the walk stood at:
    of the start for the first entry, of the entry before for the
    others. *)
Lemma chainFrom_parents (us : list User) (n : nat) :
  forall cu level i e,
    nth_error (chainFrom us n cu level) i = Some e ->
    option_map referrerId (walkEnd us cu (firstn i (chainFrom us n cu level)))
    = Some (Some (chain_userId e)).
Proof.
  induction n as [|n IH]; intros cu level i e; simpl.
  - destruct i; discriminate.
  - destruct cu as [[? ? [parent|] ? ? ? ? ? ? ? ?]|];
      try (destruct i; discriminate).
    destruct (find_user parent us) as [r|] eqn:E; [|destruct i; discriminate].
    destruct i as [|i]; simpl.
    + intros Ee. inversion Ee. simpl. rewrite (find_user_id _ _ _ E). reflexivity.
    + intros Ee. rewrite (find_user_self _ _ _ E). apply (IH _ _ _ _ Ee).
Qed.



(** ** The rate resolver *)

(** C3. [getCommissionRateForLevel] is the resolver of the description, for
    every level and every optional structure: 0 when commissions are waived;
    else 0.50 at level 1 and 0 elsewhere for KOL_DIRECT, the rate of the
    requested level when present and the standard tier otherwise for
    KOL_CUSTOM, 0 for WAIVED; and 0.30 / 0.03 / 0.02 / 0 with no structure. *)
Theorem getCommissionRateForLevel_spec (level : Z)
    (customStructure : option CustomCommissionStructure) :
  getCommissionRateForLevel level customStructure = rateForLevel level customStructure.
Proof.
  unfold getCommissionRateForLevel, rateForLevel, standardTier, levelRate,
    LEVEL_1, LEVEL_2, LEVEL_3.
  destruct customStructure as [cs|]; [|reflexivity].
  destruct (commissionsWaived cs) as [[|]|]; try reflexivity;
    destruct (type cs); try reflexivity;
    destruct (Z.eqb_spec level 1) as [->|N1]; simpl;
    try (destruct (level1Rate cs); reflexivity);
    destruct (Z.eqb_spec level 2) as [->|N2]; simpl;
    try (destruct (level1Rate cs); destruct (level2Rate cs); reflexivity);
    destruct (Z.eqb_spec level 3) as [->|N3]; simpl;
    destruct (level1Rate cs); destruct (level2Rate cs); destruct (level3Rate cs);
    reflexivity.
Qed.

(** ** The short circuit of the fee split *)

Lemma isZero_multipliedBy (x y : BigNumber) :
  isZero (multipliedBy x y) = true -> multipliedBy x y = BN 0.
Proof.
  destruct x as [|s|a], y as [|t|b]; simpl; try discriminate.
  - destruct (dec_is_zero b); discriminate.
  - destruct (dec_is_zero a); discriminate.
  - unfold normalise. destruct (overflows (dec_mul a b)); [discriminate|].
    destruct (underflows (dec_mul a b)); [reflexivity|].
    cbn [isZero]. unfold dec_is_zero, dec_mul. intros E. apply Z.eqb_eq in E.
    apply strip_coef_zero in E. rewrite E, strip_zero. reflexivity.
Qed.

Section Properties.
Context `{Platform}.

(** C5. A trader whose structure has [feesWaived] set, or whose fee
    [volume * feeRate] is zero, gets the all-zero split with no commission,
    and the call leaves the world as it was: no query is issued, hence no
    ancestor walk. *)
Theorem calculateFeeDistribution_short_circuit (user : User) (volume : BigNumber)
    (chain : Chain) (token : string) (w : World) :
  (exists cs, customCommissionStructure user = Some cs
              /\ stored_feesWaived cs = Some true)
  \/ isZero (multipliedBy volume (getFeeRateForTier (feeTier user))) = true ->
  calculateFeeDistribution user volume chain token w
  = (Ok (mkFeeDistribution (_id user) (BN 0) (BN 0) [] (BN 0) chain token), w).
Proof.
  unfold calculateFeeDistribution. intros [[cs [E1 E2]]|Z].
  - rewrite E1, E2. reflexivity.
  - destruct (customCommissionStructure user) as [cs|].
    + destruct (stored_feesWaived cs) as [[|]|]; try reflexivity;
        rewrite Z, (isZero_multipliedBy _ _ Z); reflexivity.
    + rewrite Z, (isZero_multipliedBy _ _ Z). reflexivity.
Qed.

(** ** Claimable amounts *)

Lemma filter_none {A} (p : A -> bool) (l : list A) :
  (forall x, In x l -> p x = false) -> filter p l = [].
Proof.
  induction l as [|x l IH]; intros Hp; simpl; [reflexivity|].
  rewrite (Hp x (or_introl eq_refl)). apply IH. intros y Hy. apply Hp. right. exact Hy.
Qed.

(** C10. For an identifier with no user document and no commission row,
    [getClaimableAmount] returns commission "0" and cashback "0"; it raises
    nothing. *)
Theorem getClaimableAmount_unknown_user (userId : ObjectId) (w : World) :
  find_user userId (users w) = None ->
  (forall c, In c (commissionRows w) -> c_userId c <> userId) ->
  exists w', getClaimableAmount userId w = (Ok ("0"%string, "0"%string), w')
             /\ users w' = users w /\ commissionRows w' = commissionRows w.
Proof.
  intros Hu Hc. unfold getClaimableAmount, commissionModel_aggregateUnclaimed, bind.
  simpl. rewrite filter_none.
  - simpl. rewrite Hu. eexists. split; [reflexivity|]. split; reflexivity.
  - intros c Hin. specialize (Hc c Hin).
    destruct (Nat.eqb_spec (c_userId c) userId); [contradiction|reflexivity].
Qed.

(** ** The commission list *)

Lemma calculateCommissionBreakdown_loop_run (totalFee : BigNumber)
    (rchain : list ReferralChain) :
  forall (acc : list CommissionBreakdown) (w : World),
  exists ops,
    calculateCommissionBreakdown_loop totalFee rchain acc w
    = (Ok (acc ++ flat_map (emitted (users w) totalFee) rchain), logged ops w)
    /\ Forall is_read ops.
Proof.
  induction rchain as [|e rest IH]; intros acc w; simpl.
  - exists []. rewrite logged_nil, app_nil_r. split; [reflexivity|constructor].
  - unfold bind at 1. rewrite findById_run. unfold emitted at 1, resolvedRate.
    destruct (find_user (chain_userId e) (users w)) as [u|]; simpl option_map.
    + cbv zeta.
      set (r := getCommissionRateForLevel (chain_level e)
                  (option_map toCustomStructure (customCommissionStructure u))).
      cbv beta iota.
      destruct (isGreaterThan r (BN 0)).
      * destruct (IH (acc ++ [mkCommissionBreakdown (chain_level e) (chain_userId e)
                                (multipliedBy totalFee r) r])
                     (logged [UserFindById (chain_userId e)] w)) as [ops [R F]].
        exists (UserFindById (chain_userId e) :: ops). split.
        -- rewrite R, logged_logged, <- app_assoc. reflexivity.
        -- constructor; [exact I|exact F].
      * destruct (IH acc (logged [UserFindById (chain_userId e)] w)) as [ops [R F]].
        exists (UserFindById (chain_userId e) :: ops). split.
        -- rewrite R, logged_logged. reflexivity.
        -- constructor; [exact I|exact F].
    + destruct (IH acc (logged [UserFindById (chain_userId e)] w)) as [ops [R F]].
      exists (UserFindById (chain_userId e) :: ops). split.
      * rewrite R, logged_logged. reflexivity.
      * constructor; [exact I|exact F].
Qed.

Lemma calculateCommissionBreakdown_run (traderId : ObjectId) (totalFee : BigNumber)
    (w : World) :
  exists ops,
    calculateCommissionBreakdown traderId totalFee w
    = (Ok (flat_map (emitted (users w) totalFee) (chainOf (users w) traderId)),
       logged ops w)
    /\ Forall is_read ops.
Proof.
  unfold calculateCommissionBreakdown, bind.
  destruct (getReferralChain_run traderId w) as [ops1 [R1 F1]]. rewrite R1.
  destruct (calculateCommissionBreakdown_loop_run totalFee (chainOf (users w) traderId)
              [] (logged ops1 w)) as [ops2 [R2 F2]].
  exists (ops1 ++ ops2). split.
  - rewrite R2, logged_logged. reflexivity.
  - apply Forall_app. split; assumption.
Qed.

(** The split, in one equation: the short circuit when the fee is zero,
    the three shares otherwise. *)
Lemma calculateFeeDistribution_run (user : User) (volume : BigNumber)
    (chain : Chain) (token : string) (w : World) :
  exists ops,
    calculateFeeDistribution user volume chain token w
    = (Ok (if isZero (feeOf user volume)
           then mkFeeDistribution (_id user) (feeOf user volume) (BN 0) [] (BN 0)
                                  chain token
           else mkFeeDistribution (_id user) (feeOf user volume)
                  (multipliedBy (feeOf user volume) CASHBACK_RATE)
                  (flat_map (emitted (users w) (feeOf user volume))
                            (chainOf (users w) (_id user)))
                  (multipliedBy (feeOf user volume) TREASURY_RATE) chain token),
       logged ops w)
    /\ Forall is_read ops.
Proof.
  unfold calculateFeeDistribution. fold (isFeesWaived user). fold (feeOf user volume).
  destruct (isZero (feeOf user volume)).
  - exists []. rewrite logged_nil. split; [reflexivity|constructor].
  - unfold bind.
    destruct (calculateCommissionBreakdown_run (_id user) (feeOf user volume) w)
      as [ops [R F]].
    rewrite R. exists ops. split; [reflexivity|exact F].
Qed.

Lemma chainOf_levels (us : list User) (userId : ObjectId) (e : ReferralChain) :
  In e (chainOf us userId) -> 1 <= chain_level e <= MAX_REFERRAL_DEPTH.
Proof.
  intros Hin. apply In_nth_error in Hin. destruct Hin as [i E].
  unfold chainOf in E.
  pose proof (chainFrom_length us (Z.to_nat MAX_REFERRAL_DEPTH) (find_user userId us) 1).
  assert (i < List.length (chainFrom us (Z.to_nat MAX_REFERRAL_DEPTH)
                                     (find_user userId us) 1))%nat
    by (apply nth_error_Some; congruence).
  rewrite (chainFrom_levels _ _ _ _ _ _ E). unfold MAX_REFERRAL_DEPTH in *. lia.
Qed.

(** The rate the code resolves from the structure it builds is the rate of
    the stored document. *)
Lemma resolved_ancestorRate (level : Z) (u : User) :
  getCommissionRateForLevel level
    (option_map toCustomStructure (customCommissionStructure u))
  = ancestorRate level u.
Proof.
  unfold ancestorRate. destruct (customCommissionStructure u) as [cs|];
    [|reflexivity].
  cbn [option_map]. unfold getCommissionRateForLevel, toCustomStructure.
  cbn [commissionsWaived type level1Rate level2Rate level3Rate].
  fold (standardTier level).
  destruct (stored_commissionsWaived cs) as [[|]|]; try reflexivity;
    destruct (stored_type cs); try reflexivity;
    unfold storedLevelRate, standardTier, LEVEL_1, LEVEL_2, LEVEL_3;
    (destruct (Z.eqb_spec level 1) as [->|N1];
     [destruct (stored_level1Rate cs) as [[|c r]|]; reflexivity|]);
    (destruct (Z.eqb_spec level 2) as [->|N2];
     [destruct (stored_level1Rate cs) as [[|c1 r1]|];
      destruct (stored_level2Rate cs) as [[|c r]|]; reflexivity|]);
    destruct (Z.eqb_spec level 3) as [->|N3];
    destruct (stored_level1Rate cs) as [[|c1 r1]|];
    destruct (stored_level2Rate cs) as [[|c2 r2]|];
    destruct (stored_level3Rate cs) as [[|c r]|]; reflexivity.
Qed.

Lemma emitted_commissionOf (us : list User) (F : BigNumber) (e : ReferralChain) :
  emitted us F e = commissionOf us F e.
Proof.
  unfold emitted, commissionOf, resolvedRate.
  destruct (find_user (chain_userId e) us) as [u|]; [|reflexivity].
  cbn [option_map]. rewrite resolved_ancestorRate. reflexivity.
Qed.

(** C4, amended. When the fee is not zero, the commission list follows
    the ancestor chain of the trader, read off the user collection, in
    chain order: one record [{level, userId, amount, rate}] for each
    ancestor whose rate, resolved from its stored document, is above zero
    and no record for the others.  The amount is the product
    [totalFee * rate] as bignumber.js multiplies: the exact product,
    except that it is 0 below the exponent range and infinite above it,
    so that a record can carry the amount 0 at a rate above zero.  The
    ancestors of the chain are stored users, the [i]-th of them (from 0)
    at level [i + 1] and the referrer of the one before; the chain has at
    most 3 of them and is shorter only where no referrer can be
    followed. *)
Theorem commissions_follow_chain (user : User) (volume : BigNumber)
    (chain : Chain) (token : string) (w : World) :
  isZero (feeOf user volume) = false ->
  exists fd w',
    calculateFeeDistribution user volume chain token w = (Ok fd, w')
    /\ users w' = users w
    /\ totalFee fd = feeOf user volume
    /\ commissions fd
       = flat_map (commissionOf (users w) (totalFee fd))
                  (chainOf (users w) (_id user))
    /\ Forall (fun e => (exists ancestor,
                           find_user (chain_userId e) (users w) = Some ancestor)
                        /\ 1 <= chain_level e <= MAX_REFERRAL_DEPTH)
              (chainOf (users w) (_id user))
    /\ (forall i e, nth_error (chainOf (users w) (_id user)) i = Some e ->
          chain_level e = Z.of_nat i + 1
          /\ option_map referrerId
               (walkEnd (users w) (find_user (_id user) (users w))
                        (firstn i (chainOf (users w) (_id user))))
             = Some (Some (chain_userId e)))
    /\ ((List.length (chainOf (users w) (_id user))
         < Z.to_nat MAX_REFERRAL_DEPTH)%nat ->
        noReferrer (users w)
                   (walkEnd (users w) (find_user (_id user) (users w))
                            (chainOf (users w) (_id user))))
    /\ (forall c f r,
          In c (commissions fd) -> totalFee fd = Finite f -> rate c = Finite r ->
          let p := dec_mul f r in
          toQ p == toQ f * toQ r
          /\ amount c = (if overflows p then Infinity (dec_is_neg p)
                         else if underflows p then BN 0 else Finite p)).
Proof.
  intros NZ.
  destruct (calculateFeeDistribution_run user volume chain token w) as [ops [R _]].
  rewrite NZ in R.
  eexists _, _. split; [exact R|]. split; [reflexivity|].
  split; [reflexivity|]. split.
  - cbn [commissions totalFee]. apply flat_map_ext. intros e.
    apply emitted_commissionOf.
  - split; [|split; [|split]].
    + apply Forall_forall. intros e Hin. split.
      * destruct (chainFrom_resolves _ _ _ _ _ Hin) as [u [E _]].
        exists u. exact E.
      * apply (chainOf_levels _ _ _ Hin).
    + intros i e E. unfold chainOf in *. split.
      * rewrite (chainFrom_levels _ _ _ _ _ _ E). lia.
      * apply (chainFrom_parents _ _ _ _ _ _ E).
    + intros L. unfold chainOf in *. apply chainFrom_stops. exact L.
    + cbn [commissions totalFee]. intros c f r Hin Ef Er. cbv zeta.
      apply in_flat_map in Hin. destruct Hin as [e [_ Hin]]. unfold emitted in Hin.
      destruct (resolvedRate (users w) e) as [r'|]; [|contradiction].
      destruct (isGreaterThan r' (BN 0)); [|contradiction].
      destruct Hin as [<-|[]]. cbn [rate amount] in *. subst r'. rewrite Ef.
      split; [apply toQ_mul|reflexivity].
Qed.

(** ** The split against the fee *)

Lemma gt_zero_cases (x : BigNumber) :
  isGreaterThan x (BN 0) = true ->
  x = Infinity false \/ exists d, x = Finite d /\ 0 < coef d.
Proof.
  destruct x as [|[|]|d]; unfold isGreaterThan; simpl; try discriminate.
  - intros _. left. reflexivity.
  - unfold dec_compare; simpl. change (pow10 0) with 1. intros E.
    right. exists d. split; [reflexivity|].
    destruct (Z.compare_spec (coef d * 1) 0); try discriminate. lia.
Qed.

Lemma not_le_zero_cases (x : BigNumber) :
  isNaN x = false -> isLessThanOrEqualTo x (BN 0) = false ->
  x = Infinity false \/ exists d, x = Finite d /\ 0 < coef d.
Proof.
  destruct x as [|[|]|d]; unfold isLessThanOrEqualTo; simpl; try discriminate.
  - intros _ _. left. reflexivity.
  - unfold dec_compare; simpl. change (pow10 0) with 1. intros _ E.
    right. exists d. split; [reflexivity|].
    destruct (Z.compare_spec (coef d * 1) 0); try discriminate. lia.
Qed.

Lemma infinity_times_positive (r : BigNumber) :
  isGreaterThan r (BN 0) = true -> multipliedBy (Infinity false) r = Infinity false.
Proof.
  intros G. destruct (gt_zero_cases r G) as [->|[d [-> P]]]; simpl; [reflexivity|].
  unfold dec_is_zero, dec_is_neg.
  destruct (Z.eqb_spec (coef d) 0); [lia|].
  destruct (Z.ltb_spec (coef d) 0); [lia|reflexivity].
Qed.

Lemma emitted_emittedFrom (us : list User) (F : BigNumber) (rchain : list ReferralChain) :
  Forall (emittedFrom F) (flat_map (emitted us F) rchain).
Proof.
  apply Forall_forall. intros c Hin. apply in_flat_map in Hin.
  destruct Hin as [e [_ Hin]]. unfold emitted in Hin.
  destruct (resolvedRate us e) as [r|]; [|contradiction].
  destruct (isGreaterThan r (BN 0)) eqn:G; [|contradiction].
  destruct Hin as [<-|[]]. split; [exact G|reflexivity].
Qed.

Lemma rates_from_infinity (comms : list CommissionBreakdown) :
  Forall (fun c => isGreaterThan (rate c) (BN 0) = true) comms ->
  fold_left (fun sum c => plus sum (rate c)) comms (Infinity false) = Infinity false.
Proof.
  induction 1 as [|c rest G _ IH]; simpl; [reflexivity|].
  destruct (gt_zero_cases _ G) as [->|[d [-> _]]]; simpl; exact IH.
Qed.

Lemma amounts_of_infinity (comms : list CommissionBreakdown) :
  Forall (emittedFrom (Infinity false)) comms ->
  forall acc, acc = Infinity false \/ acc = BN 0 ->
  let A := fold_left (fun sum c => plus sum (amount c)) comms acc in
  A = Infinity false \/ A = BN 0.
Proof.
  induction 1 as [|c rest [G E] _ IH]; intros acc Hacc; simpl; [exact Hacc|].
  apply IH. left. rewrite E, (infinity_times_positive _ G).
  destruct Hacc as [->| ->]; reflexivity.
Qed.

(** The total of rates above zero, from a finite start: an infinity, or a
    finite total that is at least the start plus any one of the rates. *)
Lemma rates_of_finite (comms : list CommissionBreakdown) :
  Forall (fun c => isGreaterThan (rate c) (BN 0) = true) comms ->
  forall ra,
    fold_left (fun sum c => plus sum (rate c)) comms (Finite ra) = Infinity false
    \/ exists r,
         fold_left (fun sum c => plus sum (rate c)) comms (Finite ra) = Finite r
         /\ (toQ ra <= toQ r)%Q
         /\ Forall (fun c => exists d, rate c = Finite d /\ 0 < coef d
                                      /\ (toQ ra + toQ d <= toQ r)%Q) comms.
Proof.
  induction 1 as [|c rest G Hrest IH]; intros ra; simpl.
  - right. exists ra. split; [reflexivity|]. split; [apply Qle_refl|constructor].
  - destruct (gt_zero_cases _ G) as [Ei|[d [Ed Pd]]].
    + left. rewrite Ei. simpl. apply rates_from_infinity. exact Hrest.
    + rewrite Ed. simpl. destruct (IH (dec_add ra d)) as [L|[r [R [Lr F]]]].
      * left. exact L.
      * right. exists r. split; [exact R|].
        assert (Qd : (0 < toQ d)%Q) by (apply toQ_pos; exact Pd).
        rewrite toQ_add in Lr. split; [lra|]. constructor.
        -- exists d. split; [exact Ed|]. split; [exact Pd|exact Lr].
        -- apply (Forall_impl _ (P := fun c => exists d0, rate c = Finite d0
                     /\ 0 < coef d0 /\ (toQ (dec_add ra d) + toQ d0 <= toQ r)%Q));
             [|exact F].
           intros x [d0 [Ex [Px Lx]]]. exists d0. split; [exact Ex|].
           split; [exact Px|]. rewrite toQ_add in Lx. lra.
Qed.

(** A positive fee in range times a rate between 0 and 1: a finite amount
    of at most the exact product. *)
Lemma times_fraction_le (f d : decimal) :
  0 < coef f -> dec_exponent f <= MAX_EXP -> 0 < coef d -> (toQ d <= 1)%Q ->
  exists a, multipliedBy (Finite f) (Finite d) = Finite a
            /\ (0 <= toQ a)%Q /\ (toQ a <= toQ f * toQ d)%Q.
Proof.
  intros Pf Lf Pd Ld. rewrite (times_fraction f d Pf Lf Pd Ld).
  assert (Qf : (0 < toQ f)%Q) by (apply toQ_pos; exact Pf).
  assert (Qd : (0 < toQ d)%Q) by (apply toQ_pos; exact Pd).
  assert (Qp : (0 < toQ f * toQ d)%Q) by (apply Qmult_lt_0_compat; assumption).
  destruct (underflows (dec_mul f d)).
  - exists (strip 0 0). split; [reflexivity|]. rewrite toQ_BN.
    change (inject_Z 0) with 0%Q. split; lra.
  - exists (dec_mul f d). split; [reflexivity|]. rewrite toQ_mul. split; lra.
Qed.

(** With a positive fee in range and rates of at most 1, both totals are
    finite and the amounts add up to at most the fee times the rates. *)
Lemma amounts_of_finite (f : decimal) (comms : list CommissionBreakdown) :
  0 < coef f -> dec_exponent f <= MAX_EXP ->
  Forall (fun c => amount c = multipliedBy (Finite f) (rate c)
                   /\ exists d, rate c = Finite d /\ 0 < coef d /\ (toQ d <= 1)%Q)
         comms ->
  forall ra aa,
  exists r a,
    fold_left (fun sum c => plus sum (rate c)) comms (Finite ra) = Finite r
    /\ fold_left (fun sum c => plus sum (amount c)) comms (Finite aa) = Finite a
    /\ (toQ a - toQ aa <= toQ f * (toQ r - toQ ra))%Q.
Proof.
  intros Pf Lf. induction 1 as [|c rest [E [d [Ed [Pd Ld]]]] _ IH]; intros ra aa; simpl.
  - exists ra, aa. split; [reflexivity|]. split; [reflexivity|]. lra.
  - rewrite E, Ed.
    destruct (times_fraction_le f d Pf Lf Pd Ld) as [ac [Ea [La Ha]]].
    rewrite Ea. simpl.
    destruct (IH (dec_add ra d) (dec_add aa ac)) as [r [a [R [A HQ]]]].
    exists r, a. split; [exact R|]. split; [exact A|].
    rewrite !toQ_add in HQ. lra.
Qed.

Lemma toQ_cashback_rate : toQ (strip 10 2) == 1 # 10.
Proof. reflexivity. Qed.

Lemma toQ_treasury_rate : toQ (strip 55 2) == 55 # 100.
Proof. reflexivity. Qed.

Lemma toQ_total_commission_rate : toQ (strip 35 2) == 35 # 100.
Proof. reflexivity. Qed.

(** The inequality itself, for any fee that is infinite, or positive and
    in the range. *)
Lemma split_within_fee (F : BigNumber) (comms : list CommissionBreakdown) :
  F = Infinity false
  \/ (exists f, F = Finite f /\ 0 < coef f /\ dec_exponent f <= MAX_EXP) ->
  Forall (emittedFrom F) comms ->
  isLessThanOrEqualTo (rateTotal comms) TOTAL_COMMISSION_RATE = true ->
  isLessThanOrEqualTo
    (plus (plus (multipliedBy F CASHBACK_RATE) (multipliedBy F TREASURY_RATE))
          (totalCommissions comms)) F = true.
Proof.
  intros [->|[f [-> [P Lf]]]] Hc Hr.
  - destruct (amounts_of_infinity comms Hc (BN 0) (or_intror eq_refl)) as [E|E];
      unfold totalCommissions; rewrite E; reflexivity.
  - assert (Hg : Forall (fun c => isGreaterThan (rate c) (BN 0) = true) comms).
    { apply Forall_forall. intros c Hin.
      apply (proj1 (proj1 (Forall_forall _ _) Hc c Hin)). }
    destruct (rates_of_finite comms Hg (strip 0 0)) as [L|[r [R [_ Fr]]]].
    + unfold rateTotal, BN, dec in Hr. rewrite L in Hr. discriminate.
    + unfold rateTotal, BN, dec in Hr. rewrite R in Hr.
      unfold TOTAL_COMMISSION_RATE, dec in Hr. apply le_finite in Hr.
      rewrite toQ_total_commission_rate in Hr.
      assert (Hd : Forall (fun c => amount c = multipliedBy (Finite f) (rate c)
                             /\ exists d, rate c = Finite d /\ 0 < coef d
                                          /\ (toQ d <= 1)%Q) comms).
      { apply Forall_forall. intros c Hin. split.
        - apply (proj2 (proj1 (Forall_forall _ _) Hc c Hin)).
        - destruct (proj1 (Forall_forall _ _) Fr c Hin) as [d [Ed [Pd Ld]]].
          exists d. split; [exact Ed|]. split; [exact Pd|].
          rewrite toQ_BN in Ld. change (inject_Z 0) with 0%Q in Ld. lra. }
      destruct (amounts_of_finite f comms P Lf Hd (strip 0 0) (strip 0 0))
        as [r' [a [R' [A HQ]]]].
      rewrite R in R'. inversion R'; subst r'. clear R'.
      unfold totalCommissions, BN, dec. rewrite A.
      unfold CASHBACK_RATE, TREASURY_RATE, dec.
      destruct (times_fraction_le f (strip 10 2) P Lf) as [c [Ec [_ Hcb]]];
        [reflexivity|rewrite toQ_cashback_rate; lra|].
      destruct (times_fraction_le f (strip 55 2) P Lf) as [t [Et [_ Htr]]];
        [reflexivity|rewrite toQ_treasury_rate; lra|].
      rewrite Ec, Et. simpl plus. apply le_finite. rewrite !toQ_add.
      rewrite toQ_cashback_rate in Hcb. rewrite toQ_treasury_rate in Htr.
      rewrite toQ_BN in HQ. change (inject_Z 0) with 0%Q in HQ.
      assert (0 < toQ f)%Q by (apply toQ_pos; exact P).
      assert (toQ f * toQ r <= toQ f * (35 # 100))%Q
        by (apply Qmult_le_l; assumption).
      lra.
Qed.

Lemma feeOf_cases (user : User) (volume : BigNumber) :
  isNaN volume = false -> isLessThanOrEqualTo volume (BN 0) = false ->
  feeOf user volume = BN 0
  \/ feeOf user volume = Infinity false
  \/ exists f, feeOf user volume = Finite f /\ 0 < coef f
               /\ dec_exponent f <= MAX_EXP.
Proof.
  intros N P. unfold feeOf. destruct (isFeesWaived user); [left; reflexivity|].
  assert (R : exists r, getFeeRateForTier (feeTier user) = Finite r /\ 0 < coef r).
  { destruct (feeTier user); simpl; eexists; (split; [reflexivity|simpl; lia]). }
  destruct R as [r [-> Pr]].
  destruct (not_le_zero_cases volume N P) as [->|[v [-> Pv]]].
  - right. left. simpl. unfold dec_is_zero, dec_is_neg.
    destruct (Z.eqb_spec (coef r) 0); [lia|].
    destruct (Z.ltb_spec (coef r) 0); [lia|reflexivity].
  - destruct (times_positive v r Pv Pr) as [Pp [[E _]|[[E _]|[E [_ L]]]]].
    + left. exact E.
    + right. left. exact E.
    + right. right. eexists. split; [exact E|]. split; [exact Pp|exact L].
Qed.

Lemma rateTotal_map (comms : list CommissionBreakdown) :
  rateTotal comms = fold_left plus (map rate comms) (BN 0).
Proof.
  unfold rateTotal. generalize (BN 0).
  induction comms as [|c rest IH]; intros acc; simpl; [reflexivity|apply IH].
Qed.

Lemma emitted_plain_rate (us : list User) (F : BigNumber) (e : ReferralChain) :
  (forall u, find_user (chain_userId e) us = Some u -> noKolOverride u = true) ->
  map rate (emitted us F e) = []
  \/ map rate (emitted us F e) = [standardTier (chain_level e)].
Proof.
  intros Hp. unfold emitted, resolvedRate.
  destruct (find_user (chain_userId e) us) as [u|]; [|left; reflexivity].
  specialize (Hp u eq_refl). simpl option_map. cbv beta iota.
  unfold noKolOverride in Hp.
  destruct (customCommissionStructure u) as [cs|]; simpl option_map.
  - assert (Z : getCommissionRateForLevel (chain_level e) (Some (toCustomStructure cs))
                = BN 0).
    { unfold getCommissionRateForLevel, toCustomStructure; simpl.
      destruct (stored_commissionsWaived cs) as [[|]|]; try reflexivity;
        destruct (stored_type cs); try discriminate; reflexivity. }
    rewrite Z. left. reflexivity.
  - change (getCommissionRateForLevel (chain_level e) None)
      with (standardTier (chain_level e)).
    destruct (isGreaterThan (standardTier (chain_level e)) (BN 0));
      [right|left]; reflexivity.
Qed.

Lemma plain_chain_rates (us : list User) (F : BigNumber) (userId : ObjectId) :
  noKolAncestor us userId ->
  isLessThanOrEqualTo (rateTotal (flat_map (emitted us F) (chainOf us userId)))
                      TOTAL_COMMISSION_RATE = true.
Proof.
  intros Hp. unfold noKolAncestor in Hp.
  pose proof (chainFrom_length us (Z.to_nat MAX_REFERRAL_DEPTH) (find_user userId us) 1) as L.
  pose proof (chainFrom_levels us (Z.to_nat MAX_REFERRAL_DEPTH) (find_user userId us) 1) as V.
  fold (chainOf us userId) in L, V.
  rewrite rateTotal_map.
  destruct (chainOf us userId) as [|e1 [|e2 [|e3 [|e4 rest]]]];
    [reflexivity| | | |simpl in L; lia].
  - pose proof (V 0%nat e1 eq_refl) as V1.
    simpl. rewrite app_nil_r.
    destruct (emitted_plain_rate us F e1 (fun u => Hp e1 u (or_introl eq_refl))) as [-> | ->];
      rewrite ?V1; reflexivity.
  - pose proof (V 0%nat e1 eq_refl) as V1. pose proof (V 1%nat e2 eq_refl) as V2.
    simpl. rewrite app_nil_r, map_app.
    destruct (emitted_plain_rate us F e1 (fun u => Hp e1 u (or_introl eq_refl))) as [-> | ->];
      destruct (emitted_plain_rate us F e2
                  (fun u => Hp e2 u (or_intror (or_introl eq_refl)))) as [-> | ->];
      rewrite ?V1, ?V2; reflexivity.
  - pose proof (V 0%nat e1 eq_refl) as V1. pose proof (V 1%nat e2 eq_refl) as V2.
    pose proof (V 2%nat e3 eq_refl) as V3.
    simpl. rewrite app_nil_r, !map_app.
    destruct (emitted_plain_rate us F e1 (fun u => Hp e1 u (or_introl eq_refl))) as [-> | ->];
      destruct (emitted_plain_rate us F e2
                  (fun u => Hp e2 u (or_intror (or_introl eq_refl)))) as [-> | ->];
      destruct (emitted_plain_rate us F e3
                  (fun u => Hp e3 u (or_intror (or_intror (or_introl eq_refl)))))
        as [-> | ->];
      rewrite ?V1, ?V2, ?V3; reflexivity.
Qed.

(** C1, amended. For every trader and every positive volume the split is
    computed, and whenever the rates of the emitted commissions total at
    most 0.35 ([TOTAL_COMMISSION_RATE]), cashback plus treasury plus the
    commission amounts is at most [totalFee]; the rates do total at most
    0.35 when no ancestor of the chain has a KOL_DIRECT or KOL_CUSTOM rate
    in force. *)
Theorem fee_split_within_totalFee (user : User) (volume : BigNumber)
    (chain : Chain) (token : string) (w : World) :
  isNaN volume = false -> isLessThanOrEqualTo volume (BN 0) = false ->
  exists fd w',
    calculateFeeDistribution user volume chain token w = (Ok fd, w')
    /\ (isLessThanOrEqualTo (rateTotal (commissions fd)) TOTAL_COMMISSION_RATE = true ->
        isLessThanOrEqualTo (splitTotal fd) (totalFee fd) = true)
    /\ (noKolAncestor (users w) (_id user) ->
        isLessThanOrEqualTo (rateTotal (commissions fd)) TOTAL_COMMISSION_RATE = true).
Proof.
  intros N P.
  destruct (calculateFeeDistribution_run user volume chain token w) as [ops [R _]].
  eexists _, _. split; [exact R|]. split; [|intros Hp].
  2:{ destruct (isZero (feeOf user volume)); [reflexivity|].
      simpl. apply plain_chain_rates. exact Hp. }
  intros Hr.
  destruct (feeOf_cases user volume N P) as [E|E].
  - rewrite E. reflexivity.
  - assert (Z : isZero (feeOf user volume) = false).
    { destruct E as [->|[f [-> Pf]]]; simpl; [reflexivity|].
      unfold dec_is_zero. destruct (Z.eqb_spec (coef f) 0); [lia|reflexivity]. }
    rewrite Z in Hr |- *. unfold splitTotal. simpl in Hr |- *.
    apply split_within_fee.
    + exact E.
    + apply emitted_emittedFrom.
    + exact Hr.
Qed.

(** ** The writes of a trade *)

Lemma distributeCommissions_loop_ok (comms : list CommissionBreakdown) :
  forall w w',
    distributeCommissions_loop comms w = (Ok tt, w') ->
    exists amounts,
      parsedAmounts comms amounts
      /\ log w' = log w ++ commissionIncs comms amounts
      /\ trades w' = trades w /\ commissionRows w' = commissionRows w
      /\ nextId w' = nextId w /\ clock w' = clock w.
Proof.
  induction comms as [|c rest IH]; intros w w'; simpl.
  - intros E. inversion E. exists []. rewrite app_nil_r.
    repeat split; constructor.
  - unfold bind at 1, decimal128.
    destruct (Decimal128_fromString (toString (amount c))) as [a|] eqn:Ea;
      [|discriminate].
    unfold ret at 1. unfold bind at 1. simpl.
    intros E. apply IH in E. destruct E as [amounts [P [L [T [C [N K]]]]]].
    exists (a :: amounts). simpl in *.
    repeat split; try assumption.
    + constructor; assumption.
    + rewrite L, <- app_assoc. reflexivity.
Qed.

Lemma distributeCommissions_ok (tradeId sourceUserId : ObjectId)
    (fd : FeeDistribution) (w w' : World) :
  distributeCommissions tradeId sourceUserId fd w = (Ok tt, w') ->
  exists amounts,
    parsedAmounts (commissions fd) amounts
    /\ log w' = log w ++ commissionInserts tradeId sourceUserId fd
                     ++ commissionIncs (commissions fd) amounts
    /\ trades w' = trades w
    /\ commissionRows w'
       = commissionRows w ++ map (commissionDoc tradeId sourceUserId fd) (commissions fd)
    /\ nextId w' = nextId w /\ clock w' = clock w.
Proof.
  unfold distributeCommissions, commissionInserts, bind.
  destruct (commissions fd) as [|c rest] eqn:Ec.
  - simpl. intros E. inversion E. exists []. rewrite !app_nil_r.
    repeat split; constructor.
  - cbn [map List.length Nat.ltb Nat.leb]. unfold commissionModel_insertMany, bind.
    cbn [record fst snd]. intros E.
    apply distributeCommissions_loop_ok in E.
    destruct E as [amounts [P [L [T [C [N K]]]]]].
    exists amounts. simpl in *. repeat split; try assumption.
    rewrite L, <- app_assoc. reflexivity.
Qed.

Lemma validTrade_markDistributed (t : Trade) (now : nat) :
  validTrade (markDistributed t now) = validTrade t.
Proof. reflexivity. Qed.

Lemma trade_save_run (t : Trade) (w : World) :
  exists w1,
    trade_save t w = (if validTrade t then Ok tt else Throw ValidationError, w1)
    /\ log w1 = log w ++ [TradeSave t]
    /\ users w1 = users w /\ commissionRows w1 = commissionRows w
    /\ nextId w1 = nextId w /\ clock w1 = clock w.
Proof.
  unfold trade_save, bind. cbn [record].
  destruct (validTrade t); eexists; (split; [reflexivity|]);
    try destruct (existsb _ _); repeat split; reflexivity.
Qed.

Lemma newObjectId_run (w : World) :
  exists w1,
    newObjectId w = (Ok (nextId w), w1)
    /\ log w1 = log w /\ users w1 = users w /\ commissionRows w1 = commissionRows w
    /\ trades w1 = trades w /\ clock w1 = clock w /\ nextId w1 = S (nextId w).
Proof. eexists. split; [reflexivity|]. repeat split; reflexivity. Qed.

(** A trade that went through, step by step. *)
Lemma processTrade_ok (userId volume token : string) (side : Side) (chain : Chain)
    (w w' : World) (trade : Trade) (fd : FeeDistribution) :
  processTrade userId volume token side chain w = (Ok (trade, fd), w') ->
  exists id user reads wr amounts cb,
    ObjectId_of_string userId = Some id
    /\ find_user id (users w) = Some user
    /\ isNaN (BigNumber_of_string volume) = false
    /\ isLessThanOrEqualTo (BigNumber_of_string volume) (BN 0) = false
    /\ calculateFeeDistribution user (BigNumber_of_string volume) chain token
         (logged [UserFindById id] w) = (Ok fd, wr)
    /\ Forall is_read reads
    /\ parsedAmounts (commissions fd) amounts
    /\ Decimal128_fromString (toString (cashback fd)) = Some cb
    /\ trade = markDistributed (newTrade (nextId w) user volume token side chain fd)
                               (clock w)
    /\ log w'
       = log w ++ reads
           ++ [TradeSave (newTrade (nextId w) user volume token side chain fd)]
           ++ commissionInserts (nextId w) (_id user) fd
           ++ commissionIncs (commissions fd) amounts
           ++ [TradeSave trade; UserIncCashback (_id user) cb]
    /\ commissionRows w'
       = commissionRows w
           ++ map (commissionDoc (nextId w) (_id user) fd) (commissions fd).
Proof.
  unfold processTrade.
  destruct (ObjectId_of_string userId) as [id|]; [|discriminate].
  unfold bind at 1. rewrite findById_run.
  destruct (find_user id (users w)) as [user|] eqn:Eu; [|discriminate].
  destruct (isNaN (BigNumber_of_string volume)) eqn:En; [discriminate|].
  destruct (isLessThanOrEqualTo (BigNumber_of_string volume) (BN 0)) eqn:Ep;
    [discriminate|].
  cbn [orb]. unfold bind at 1.
  destruct (calculateFeeDistribution_run user (BigNumber_of_string volume) chain token
              (logged [UserFindById id] w)) as [ops [R F]].
  rewrite R. set (fd0 := if isZero _ then _ else _) in *.
  set (w1 := logged ops (logged [UserFindById id] w)) in *.
  unfold bind at 1.
  destruct (newObjectId_run w1) as [w2 [E2 [L2 [U2 [C2 [T2 [K2 _]]]]]]]. rewrite E2.
  fold (newTrade (nextId w1) user volume token side chain fd0).
  change (nextId w1) with (nextId w).
  set (t0 := newTrade (nextId w) user volume token side chain fd0).
  unfold bind at 1.
  destruct (trade_save_run t0 w2) as [w3 [E3 [L3 [U3 [C3 [N3 K3]]]]]]. rewrite E3.
  destruct (validTrade t0) eqn:V; [|discriminate].
  unfold bind at 1. cbn [t_id t0 newTrade].
  destruct (distributeCommissions (nextId w) (_id user) fd0 w3) as [[[]|e|] w4] eqn:Ed;
    try discriminate.
  apply distributeCommissions_ok in Ed.
  destruct Ed as [amounts [P [L4 [T4 [C4 [N4 K4]]]]]].
  unfold bind at 1. cbn [newDate]. unfold bind at 1.
  destruct (trade_save_run (markDistributed t0 (clock w4)) w4)
    as [w5 [E5 [L5 [U5 [C5 [N5 K5]]]]]].
  rewrite E5, validTrade_markDistributed, V.
  unfold bind at 1, updateUserStats, bind, decimal128.
  destruct (Decimal128_fromString (toString (cashback fd0))) as [cb|] eqn:Ecb;
    [|discriminate].
  cbn [ret userModel_incCashback bind record]. intros E. inversion E. subst fd.
  exists id, user, (UserFindById id :: ops), w1, amounts, cb.
  assert (Kw : clock w4 = clock w) by (rewrite K4, K3, K2; reflexivity).
  rewrite Kw.
  repeat split; try assumption; try reflexivity.
  - constructor; [exact I|exact F].
  - cbn [log set_users users]. rewrite L5, L4, L3, L2. unfold w1. cbn [log logged].
    rewrite Kw. rewrite <- !app_assoc. reflexivity.
  - cbn [commissionRows set_users]. rewrite C5, C4, C3, C2. reflexivity.
Qed.

Lemma distributeCommissions_loop_log (comms : list CommissionBreakdown) :
  forall w r w',
    distributeCommissions_loop comms w = (r, w') ->
    exists ops, log w' = log w ++ ops /\ Forall is_commission_write ops.
Proof.
  induction comms as [|c rest IH]; intros w r w' E; simpl in E.
  - inversion E; subst. exists []. rewrite app_nil_r. split; [reflexivity|constructor].
  - unfold bind at 1, decimal128 in E.
    destruct (Decimal128_fromString (toString (amount c))) as [a|].
    + unfold ret at 1, bind at 1 in E. simpl in E. apply IH in E.
      destruct E as [ops [L F]]. simpl in L.
      exists (UserIncCommission (userId c) a :: ops). split.
      * rewrite L, <- app_assoc. reflexivity.
      * constructor; [exact I|exact F].
    + inversion E; subst. exists []. rewrite app_nil_r.
      split; [reflexivity|constructor].
Qed.

Lemma distributeCommissions_log (tradeId sourceUserId : ObjectId)
    (fd : FeeDistribution) (w : World) (r : Outcome unit) (w' : World) :
  distributeCommissions tradeId sourceUserId fd w = (r, w') ->
  exists ops, log w' = log w ++ ops /\ Forall is_commission_write ops.
Proof.
  unfold distributeCommissions, bind. destruct (0 <? _)%nat; simpl; intros E.
  - apply distributeCommissions_loop_log in E. destruct E as [ops [L F]]. simpl in L.
    eexists (CommissionInsertMany _ :: ops). split.
    + rewrite L, <- app_assoc. reflexivity.
    + constructor; [exact I|exact F].
  - apply distributeCommissions_loop_log in E. exact E.
Qed.

(** The log of a trade, whatever its outcome: reads; then, when the trade
    was saved, that save with the flag false and writes of
    [distributeCommissions] only; then, when the flag was set, the flagged
    save, followed by the cashback increment when that was issued. *)
Lemma processTrade_log_shape (userId volume token : string) (side : Side)
    (chain : Chain) (w : World) (r : Outcome (Trade * FeeDistribution)) (w' : World) :
  processTrade userId volume token side chain w = (r, w') ->
  exists reads,
    Forall is_read reads
    /\ (log w' = log w ++ reads
        \/ exists t0 writes rest,
             log w' = log w ++ reads ++ TradeSave t0 :: writes ++ rest
             /\ commissionsDistributed t0 = false
             /\ Forall is_commission_write writes
             /\ (rest = []
                 \/ exists t1,
                      commissionsDistributed t1 = true
                      /\ (rest = [TradeSave t1]
                          \/ exists id cb, rest = [TradeSave t1; UserIncCashback id cb]))).
Proof.
  intros E. unfold processTrade in E.
  destruct (ObjectId_of_string userId) as [id|].
  2:{ inversion E; subst. exists []. split; [constructor|left].
      rewrite app_nil_r. reflexivity. }
  unfold bind at 1 in E. rewrite findById_run in E.
  destruct (find_user id (users w)) as [user|].
  2:{ inversion E; subst. exists [UserFindById id].
      split; [repeat constructor|left; reflexivity]. }
  destruct (isNaN (BigNumber_of_string volume) ||
            isLessThanOrEqualTo (BigNumber_of_string volume) (BN 0)).
  { inversion E; subst. exists [UserFindById id].
    split; [repeat constructor|left; reflexivity]. }
  unfold bind at 1 in E.
  destruct (calculateFeeDistribution_run user (BigNumber_of_string volume) chain token
              (logged [UserFindById id] w)) as [ops [R F]].
  rewrite R in E. set (fd0 := if isZero _ then _ else _) in *.
  set (w1 := logged ops (logged [UserFindById id] w)) in *.
  assert (L1 : log w1 = log w ++ UserFindById id :: ops)
    by (unfold w1; simpl; rewrite <- app_assoc; reflexivity).
  exists (UserFindById id :: ops). split; [constructor; [exact I|exact F]|]. right.
  unfold bind at 1 in E.
  destruct (newObjectId_run w1) as [w2 [E2 [L2 _]]]. rewrite E2 in E.
  unfold bind at 1 in E.
  match type of E with
  | context [trade_save ?t w2] =>
      set (t0 := t) in *; destruct (trade_save_run t0 w2) as [w3 [E3 [L3 _]]]
  end.
  rewrite E3 in E. exists t0.
  destruct (validTrade t0) eqn:V.
  2:{ inversion E; subst. exists [], [].
      split; [rewrite L3, L2, L1, <- !app_assoc; reflexivity|].
      split; [reflexivity|]. split; [constructor|left; reflexivity]. }
  unfold bind at 1 in E.
  match type of E with
  | context [distributeCommissions ?a ?b ?c w3] =>
      destruct (distributeCommissions a b c w3) as [o w4] eqn:Ed
  end.
  apply distributeCommissions_log in Ed. destruct Ed as [writes [L4 Fw]].
  exists writes.
  assert (L : log w4 = log w ++ (UserFindById id :: ops) ++ TradeSave t0 :: writes).
  { rewrite L4, L3, L2, L1, <- !app_assoc. reflexivity. }
  destruct o as [[]|e|];
    try (inversion E; subst; exists []; rewrite app_nil_r;
         split; [exact L|]; split; [reflexivity|]; split; [exact Fw|left; reflexivity]).
  unfold bind at 1 in E. cbn [newDate] in E. unfold bind at 1 in E.
  match type of E with
  | context [trade_save ?t w4] =>
      set (t1 := t) in *; destruct (trade_save_run t1 w4) as [w5 [E5 [L5 _]]]
  end.
  rewrite E5 in E. change (validTrade t1) with (validTrade t0) in E. rewrite V in E.
  unfold bind at 1, updateUserStats, bind, decimal128 in E.
  destruct (Decimal128_fromString (toString (cashback fd0))) as [cb|].
  - simpl in E. inversion E; subst.
    exists [TradeSave t1; UserIncCashback (_id user) cb]. simpl.
    split; [rewrite L5, L, <- !app_assoc; reflexivity|].
    split; [reflexivity|]. split; [exact Fw|]. right. exists t1.
    split; [reflexivity|]. right. exists (_id user), cb. reflexivity.
  - inversion E; subst. exists [TradeSave t1].
    split; [rewrite L5, L, <- !app_assoc; reflexivity|].
    split; [reflexivity|]. split; [exact Fw|]. right. exists t1.
    split; [reflexivity|]. left. reflexivity.
Qed.

(** C7, amended. In a trade that goes through, the calls on the store come
    in this order: the reads; the save of the trade with the flag false;
    the bulk insert of the commission rows; one increment per commission
    recipient; the save that sets [commissionsDistributed] and stamps
    [distributedAt]; and only then the increment of the trader's cashback
    and XP. *)
Theorem processTrade_write_order (userId volume token : string) (side : Side)
    (chain : Chain) (w w' : World) (trade : Trade) (fd : FeeDistribution) :
  processTrade userId volume token side chain w = (Ok (trade, fd), w') ->
  exists reads t0 amounts cb,
    log w'
    = log w ++ reads
        ++ [TradeSave t0]
        ++ commissionInserts (t_id trade) (t_userId trade) fd
        ++ commissionIncs (commissions fd) amounts
        ++ [TradeSave trade; UserIncCashback (t_userId trade) cb]
    /\ Forall is_read reads
    /\ List.length amounts = List.length (commissions fd)
    /\ commissionsDistributed t0 = false
    /\ commissionsDistributed trade = true
    /\ distributedAt trade = Some (clock w).
Proof.
  intros E. apply processTrade_ok in E.
  destruct E as [id [user [reads [wr [amounts [cb
    [_ [_ [_ [_ [_ [F [P [_ [-> [L _]]]]]]]]]]]]]]]].
  exists reads, (newTrade (nextId w) user volume token side chain fd), amounts, cb.
  split; [exact L|]. split; [exact F|]. split.
  - symmetry. apply (Forall2_length P).
  - repeat split; reflexivity.
Qed.

Lemma strip_scale_le (m : Z) (s : nat) : (scale (strip m s) <= s)%nat.
Proof.
  revert m. induction s as [|s IH]; intros m; simpl; [lia|].
  destruct (m mod 10 =? 0); simpl; [specialize (IH (m / 10)); lia|lia].
Qed.

Lemma strip_idem (m : Z) (s : nat) :
  strip (coef (strip m s)) (scale (strip m s)) = strip m s.
Proof.
  revert m. induction s as [|s IH]; intros m; simpl; [reflexivity|].
  destruct (m mod 10 =? 0) eqn:E; [apply IH|]. simpl. rewrite E. reflexivity.
Qed.

Lemma round_down_strip (dp : nat) (m : Z) (s : nat) :
  (s <= dp)%nat -> dec_round_down dp (strip m s) = strip m s.
Proof.
  intros L. unfold dec_round_down. pose proof (strip_scale_le m s).
  destruct (Nat.leb_spec (scale (strip m s)) dp); [apply strip_idem|lia].
Qed.

(** C2, amended. In a trade with a fee that is not zero, cashback is the
    product [totalFee * 0.10] and treasury the product [totalFee * 0.55] as
    bignumber.js multiplies: the exact product, with nothing cut at 18
    places, and zero where the exact product falls below the exponent
    range.  The strings stored on the trade are those of the two products.
    Cutting at 18 places would change nothing as long as the fee has at
    most 16 fractional digits. *)
Theorem cashback_treasury_exact (userId volume token : string) (side : Side)
    (chain : Chain) (w w' : World) (trade : Trade) (fd : FeeDistribution) :
  processTrade userId volume token side chain w = (Ok (trade, fd), w') ->
  isZero (totalFee fd) = false ->
  cashback fd = multipliedBy (totalFee fd) CASHBACK_RATE
  /\ treasury fd = multipliedBy (totalFee fd) TREASURY_RATE
  /\ t_cashbackAmount trade = toString (multipliedBy (totalFee fd) CASHBACK_RATE)
  /\ t_treasuryAmount trade = toString (multipliedBy (totalFee fd) TREASURY_RATE)
  /\ forall f, totalFee fd = Finite f ->
       let c := dec_mul f (strip 10 2) in
       let t := dec_mul f (strip 55 2) in
       toQ c == toQ f * (1 # 10) /\ toQ t == toQ f * (55 # 100)
       /\ cashback fd = (if underflows c then BN 0 else Finite c)
       /\ treasury fd = (if underflows t then BN 0 else Finite t)
       /\ ((scale f <= 16)%nat ->
           decimalPlaces_down DECIMAL_PLACES (cashback fd) = cashback fd
           /\ decimalPlaces_down DECIMAL_PLACES (treasury fd) = treasury fd).
Proof.
  intros E NZ. apply processTrade_ok in E.
  destruct E as [id [user [reads [wr [amounts [cb
    [_ [_ [N [P [R [_ [_ [_ [-> _]]]]]]]]]]]]]]].
  destruct (calculateFeeDistribution_run user (BigNumber_of_string volume) chain token
              (logged [UserFindById id] w)) as [ops [R' _]].
  rewrite R in R'. injection R' as Efd _.
  destruct (isZero (feeOf user (BigNumber_of_string volume))) eqn:Z; subst fd.
  - simpl in NZ. congruence.
  - cbn [cashback treasury totalFee newTrade markDistributed
         t_cashbackAmount t_treasuryAmount].
    do 4 (split; [reflexivity|]). intros f Ef. cbv zeta.
    destruct (feeOf_cases user (BigNumber_of_string volume) N P)
      as [E0|[Ei|[f' [Ef' [Pf Lf]]]]];
      [rewrite E0 in Z; discriminate|congruence|].
    assert (f' = f) by congruence. subst f'. rewrite Ef.
    unfold CASHBACK_RATE, TREASURY_RATE, dec.
    rewrite (times_fraction f (strip 10 2) Pf Lf ltac:(reflexivity))
      by (rewrite toQ_cashback_rate; lra).
    rewrite (times_fraction f (strip 55 2) Pf Lf ltac:(reflexivity))
      by (rewrite toQ_treasury_rate; lra).
    split; [rewrite toQ_mul, toQ_cashback_rate; reflexivity|].
    split; [rewrite toQ_mul, toQ_treasury_rate; reflexivity|].
    do 2 (split; [reflexivity|]). intros Sf.
    pose proof (strip_scale_le 10 2). pose proof (strip_scale_le 55 2).
    destruct (underflows (dec_mul f (strip 10 2)));
      destruct (underflows (dec_mul f (strip 55 2)));
      unfold decimalPlaces_down, dec_mul, DECIMAL_PLACES, BN, dec;
      rewrite ?round_down_strip by lia; split; reflexivity.
Qed.

(** Every commission row of a trade carries the fee string of the trade, and
    as volume the fee divided by the BASE rate, whatever the trader's tier. *)
Lemma commission_rows_snapshot (userId volume token : string) (side : Side)
    (chain : Chain) (w w' : World) (trade : Trade) (fd : FeeDistribution) :
  processTrade userId volume token side chain w = (Ok (trade, fd), w') ->
  exists rows,
    commissionRows w' = commissionRows w ++ rows
    /\ List.length rows = List.length (commissions fd)
    /\ Forall (fun c => c_tradeFee c = t_totalFee trade
                        /\ c_tradeVolume c
                           = toString (dividedBy (totalFee fd) FEE_TIERS_BASE)) rows.
Proof.
  intros E. apply processTrade_ok in E.
  destruct E as [id [user [reads [wr [amounts [cb
    [_ [_ [_ [_ [_ [_ [_ [_ [-> [_ C]]]]]]]]]]]]]]]].
  eexists. split; [exact C|]. split; [apply length_map|].
  apply Forall_forall. intros c Hin. apply in_map_iff in Hin.
  destruct Hin as [x [<- _]]. split; reflexivity.
Qed.

(** ** Registration and depth *)

Lemma find_user_NoDup (us : list User) (u : User) :
  NoDup (map _id us) -> In u us -> find_user (_id u) us = Some u.
Proof.
  induction us as [|x us IH]; simpl; intros ND Hin; [contradiction|].
  inversion ND as [|? ? Nin ND']; subst.
  destruct Hin as [->|Hin].
  - rewrite Nat.eqb_refl. reflexivity.
  - destruct (Nat.eqb_spec (_id x) (_id u)) as [E|_].
    + exfalso. apply Nin. rewrite E. apply in_map. exact Hin.
    + apply IH; assumption.
Qed.

Lemma find_code_In (code : string) (us : list User) (u : User) :
  find_code code us = Some u -> In u us.
Proof. unfold find_code. intros E. apply find_some in E. apply E. Qed.

(** Under the invariant the walk of [calculateReferralDepth] counts the
    stored depth, and ends as soon as it is given that many steps. *)
Lemma calculateReferralDepth_loop_run (us : list User) :
  Forall (parentOk us) us ->
  forall (n fuel : nat) (u : User) (depth : Z) (w : World),
    users w = us -> In u us -> referralDepth u = Z.of_nat n ->
    exists ops,
      calculateReferralDepth_loop fuel depth (Some u) w
      = (if (n <=? fuel)%nat then Ok (depth + referralDepth u) else Diverge,
         logged ops w)
      /\ Forall is_read ops.
Proof.
  intros Hall. induction n as [|n IH]; intros fuel u depth w Hw Hin Hd.
  - pose proof (proj1 (Forall_forall _ _) Hall u Hin) as [_ P].
    destruct u as [i c [parent|] ? d ? ? ? ? ? ?]; simpl in *.
    + destruct P as [pu [Ep Edp]].
      pose proof (proj1 (Forall_forall _ _) Hall pu (find_user_In _ _ _ Ep)) as [[B _] _].
      lia.
    + exists []. rewrite logged_nil. subst d. destruct fuel; simpl;
        (split; [rewrite Z.add_0_r; reflexivity|constructor]).
  - pose proof (proj1 (Forall_forall _ _) Hall u Hin) as [_ P].
    destruct u as [i c [parent|] ? d ? ? ? ? ? ?]; simpl in *; [|lia].
    destruct P as [pu [Ep Edp]].
    destruct fuel as [|fuel]; simpl.
    + exists []. rewrite logged_nil. split; [reflexivity|constructor].
    + unfold bind at 1. rewrite findById_run, Hw, Ep.
      destruct (IH fuel pu (depth + 1) (logged [UserFindById parent] w))
        as [ops [R F]]; [exact Hw|apply (find_user_In _ _ _ Ep)|lia|].
      exists (UserFindById parent :: ops). split.
      * rewrite R, logged_logged. destruct (n <=? fuel)%nat; [|reflexivity].
        f_equal. f_equal. lia.
      * constructor; [exact I|exact F].
Qed.

Lemma calculateReferralDepth_any (fuel : nat) (u : User) (w : World) :
  wellFormed w -> In u (users w) ->
  exists ops,
    calculateReferralDepth fuel (_id u) w
    = (if (Z.to_nat (referralDepth u) <=? fuel)%nat
       then Ok (referralDepth u) else Diverge, logged ops w)
    /\ Forall is_read ops.
Proof.
  intros [ND Hall] Hin. unfold calculateReferralDepth, bind.
  rewrite findById_run, (find_user_NoDup _ _ ND Hin).
  assert (Hp : Forall (parentOk (users w)) (users w)).
  { apply Forall_forall. intros x Hx.
    apply (proj2 (proj1 (Forall_forall _ _) Hall x Hx)). }
  pose proof (proj1 (Forall_forall _ _) Hp u Hin) as [[B1 B2] _].
  destruct (calculateReferralDepth_loop_run (users w) Hp
              (Z.to_nat (referralDepth u)) fuel u 0 (logged [UserFindById (_id u)] w))
    as [ops [R F]]; [reflexivity|exact Hin|lia|].
  exists (UserFindById (_id u) :: ops). split.
  - rewrite R, logged_logged. reflexivity.
  - constructor; [exact I|exact F].
Qed.

Lemma calculateReferralDepth_run (fuel : nat) (u : User) (w : World) :
  wellFormed w -> In u (users w) -> (Z.to_nat MAX_REFERRAL_DEPTH <= fuel)%nat ->
  exists ops,
    calculateReferralDepth fuel (_id u) w = (Ok (referralDepth u), logged ops w)
    /\ Forall is_read ops.
Proof.
  intros WF Hin Hf. destruct (calculateReferralDepth_any fuel u w WF Hin) as [ops [R F]].
  exists ops. split; [|exact F]. rewrite R.
  destruct WF as [_ Hall].
  pose proof (proj1 (Forall_forall _ _) Hall u Hin) as [_ [[B1 B2] _]].
  destruct (Nat.leb_spec (Z.to_nat (referralDepth u)) fuel); [reflexivity|].
  unfold MAX_REFERRAL_DEPTH in *. lia.
Qed.

Lemma parentOk_transfer (us us' : list User) (x y : User) :
  sameShape x y ->
  (forall p pu, find_user p us = Some pu ->
                exists pu', find_user p us' = Some pu'
                            /\ referralDepth pu' = referralDepth pu) ->
  parentOk us x -> parentOk us' y.
Proof.
  intros [_ [Er Ed]] Hf [B P]. unfold parentOk. rewrite <- Er, <- Ed.
  split; [exact B|].
  destruct (referrerId x) as [parent|]; [|exact P].
  destruct P as [pu [Ep E]]. destruct (Hf _ _ Ep) as [pu' [Ep' E']].
  exists pu'. split; [exact Ep'|]. rewrite E'. exact E.
Qed.

Lemma find_user_app (i : ObjectId) (us : list User) (u : User) :
  find_user i (us ++ [u])
  = match find_user i us with
    | Some x => Some x
    | None => if Nat.eqb (_id u) i then Some u else None
    end.
Proof.
  unfold find_user. induction us as [|x us IH]; simpl; [reflexivity|].
  destruct (Nat.eqb (_id x) i); [reflexivity|exact IH].
Qed.

Lemma find_user_update_first (i r : ObjectId) (f : User -> User) (us : list User) :
  (forall x, _id (f x) = _id x) ->
  find_user i (update_first (fun x => Nat.eqb (_id x) r) f us)
  = if Nat.eqb i r then option_map f (find_user i us) else find_user i us.
Proof.
  intros Hf. unfold find_user. induction us as [|x us IH]; simpl.
  - destruct (Nat.eqb i r); reflexivity.
  - destruct (Nat.eqb_spec (_id x) r) as [E|E]; simpl.
    + rewrite Hf. destruct (Nat.eqb_spec (_id x) i) as [E'|E'].
      * destruct (Nat.eqb_spec i r); [reflexivity|congruence].
      * destruct (Nat.eqb_spec i r); [congruence|reflexivity].
    + destruct (Nat.eqb_spec (_id x) i) as [E'|E'].
      * destruct (Nat.eqb_spec i r); [congruence|reflexivity].
      * exact IH.
Qed.

Lemma map_id_update_first (p : User -> bool) (f : User -> User) (us : list User) :
  (forall x, _id (f x) = _id x) ->
  map _id (update_first p f us) = map _id us.
Proof.
  intros Hf. induction us as [|x us IH]; simpl; [reflexivity|].
  destruct (p x); simpl; [rewrite Hf; reflexivity|rewrite IH; reflexivity].
Qed.

Lemma In_update_first {A} (p : A -> bool) (f : A -> A) (l : list A) (y : A) :
  In y (update_first p f l) -> exists x, In x l /\ (y = x \/ y = f x).
Proof.
  induction l as [|x l IH]; simpl; [contradiction|].
  destruct (p x); simpl.
  - intros [E|Hin]; [exists x; split; [left; reflexivity|right; symmetry; exact E]
                     |exists y; tauto].
  - intros [E|Hin]; [exists x; split; [left; reflexivity|left; symmetry; exact E]|].
    destruct (IH Hin) as [z [Hz E]]. exists z. tauto.
Qed.

(** A field-preserving update of one document keeps the invariant. *)
Lemma wfUsers_update_first (us : list User) (next r : ObjectId) (f : User -> User) :
  (forall x, sameShape x (f x)) ->
  wfUsers us next ->
  wfUsers (update_first (fun x => Nat.eqb (_id x) r) f us) next.
Proof.
  intros Hf [ND Hall].
  assert (Hid : forall x, _id (f x) = _id x) by (intros x; symmetry; apply Hf).
  split.
  - rewrite map_id_update_first by exact Hid. exact ND.
  - apply Forall_forall. intros y Hy.
    destruct (In_update_first _ _ _ _ Hy) as [x [Hx E]].
    pose proof (proj1 (Forall_forall _ _) Hall x Hx) as [Bx Px].
    assert (S : sameShape x y).
    { destruct E as [->| ->]; [repeat split|apply Hf]. }
    split; [destruct S as [<- _]; exact Bx|].
    apply (parentOk_transfer us _ x y S); [|exact Px].
    intros p pu Ep. rewrite find_user_update_first by exact Hid.
    rewrite Ep. destruct (Nat.eqb p r); simpl; eexists; split; try reflexivity.
    symmetry. apply Hf.
Qed.

(** A new document with a fresh identifier, a root or a child of a stored
    user with a depth one above it, keeps the invariant. *)
Lemma wfUsers_append (us : list User) (next next' : ObjectId) (u : User) :
  wfUsers us next ->
  (next <= _id u < next')%nat ->
  parentOk us u ->
  wfUsers (us ++ [u]) next'.
Proof.
  intros [ND Hall] B P.
  assert (Fresh : forall x, In x us -> _id x <> _id u).
  { intros x Hx. pose proof (proj1 (Forall_forall _ _) Hall x Hx) as [Bx _]. lia. }
  assert (Keep : forall p pu, find_user p us = Some pu ->
                  exists pu', find_user p (us ++ [u]) = Some pu'
                              /\ referralDepth pu' = referralDepth pu).
  { intros p pu Ep. rewrite find_user_app, Ep. exists pu. split; reflexivity. }
  split.
  - rewrite map_app. simpl. apply NoDup_app; [exact ND|repeat constructor; simpl; tauto|].
    intros i Hi [<-|[]]. apply in_map_iff in Hi. destruct Hi as [x [E Hx]].
    apply (Fresh x Hx E).
  - apply Forall_app. split.
    + apply Forall_forall. intros x Hx.
      pose proof (proj1 (Forall_forall _ _) Hall x Hx) as [Bx Px].
      split; [lia|].
      apply (parentOk_transfer us _ x x); [repeat split|exact Keep|exact Px].
    + constructor; [|constructor]. split; [lia|].
      apply (parentOk_transfer us _ u u); [repeat split|exact Keep|exact P].
Qed.

Lemma wfUsers_mono (us : list User) (next next' : ObjectId) :
  (next <= next')%nat -> wfUsers us next -> wfUsers us next'.
Proof.
  intros L [ND Hall]. split; [exact ND|].
  apply Forall_forall. intros x Hx.
  pose proof (proj1 (Forall_forall _ _) Hall x Hx) as [Bx Px]. split; [lia|exact Px].
Qed.

(** What the attempts of [registerWithReferral] can end in. *)
Lemma registerWithReferral_attempts_run (referrer : User) (d : Z) :
  forall n w r w',
    registerWithReferral_attempts n referrer d w = (r, w') ->
    (nextId w <= nextId w')%nat
    /\ match r with
       | Ok u =>
           (nextId w <= _id u < nextId w')%nat
           /\ u = newUser (_id u) (referralCode u) (Some (_id referrer)) (d + 1)
           /\ users w'
              = update_first (fun x => Nat.eqb (_id x) (_id referrer))
                             (push_directReferral (_id u)) (users w ++ [u])
       | Throw e =>
           e = ConflictException "Unable to generate unique referral code"
           /\ users w' = users w
       | Diverge => False
       end.
Proof.
  induction n as [|n IH]; intros w r w' E.
  - inversion E; subst. split; [lia|]. split; reflexivity.
  - cbn [registerWithReferral_attempts] in E. unfold bind at 1 in E.
    cbn [drawCode] in E. unfold try_catch, bind at 1 in E. cbn [newObjectId] in E.
    unfold bind at 1, user_save, bind at 1 in E. cbn [record] in E.
    cbn [users referralCode newUser] in E.
    destruct (find_code (generateCode (drawn w)) (users w)) as [taken|] eqn:Ec.
    + cbn [String.eqb Ascii.eqb Bool.eqb] in E. apply IH in E.
      cbn [nextId users] in E. destruct E as [L R]. split; [lia|].
      destruct r as [u|e|]; [|exact R|exact R].
      destruct R as [B R]. split; [lia|exact R].
    + unfold bind in E. cbn in E. inversion E; subst; clear E. cbn.
      split; [lia|]. split; [lia|]. split; reflexivity.
Qed.

Lemma generateReferralCode_loop_run :
  forall fuel attempts w r w',
    generateReferralCode_loop fuel attempts w = (r, w') ->
    users w' = users w /\ nextId w' = nextId w.
Proof.
  induction fuel as [|fuel IH]; intros attempts w r w' E.
  - inversion E; subst. split; reflexivity.
  - cbn [generateReferralCode_loop] in E. unfold bind at 1 in E. cbn [drawCode] in E.
    unfold bind at 1 in E. rewrite findOne_run in E. cbn [users logged] in E.
    destruct (find_code (generateCode (drawn w)) (users w)).
    + destruct (S attempts <? maxAttempts)%nat.
      * apply IH in E. exact E.
      * inversion E; subst. split; reflexivity.
    + inversion E; subst. split; reflexivity.
Qed.

(** [generateReferralCode] keeps the invariant, whatever its outcome. *)
Lemma generateReferralCode_wellFormed (w : World) (r : Outcome User) (w' : World) :
  wellFormed w -> generateReferralCode w = (r, w') -> wellFormed w'.
Proof.
  intros WF E. unfold generateReferralCode, bind at 1 in E.
  destruct (generateReferralCode_loop maxAttempts 0 w) as [[[code attempts]|e|] w1] eqn:El;
    apply generateReferralCode_loop_run in El; destruct El as [U N]; unfold wellFormed.
  - destruct (maxAttempts <=? attempts)%nat.
    + inversion E; subst. rewrite U, N. exact WF.
    + unfold bind, user_save, bind in E. cbn [newObjectId record users referralCode newUser] in E.
      destruct (find_code code (users w1)).
      * inversion E; subst. cbn. rewrite U, N.
        apply (wfUsers_mono _ (nextId w)); [lia|exact WF].
      * inversion E; subst. cbn. rewrite U, N.
        apply (wfUsers_append _ (nextId w)); [exact WF|cbn; lia|].
        split; [cbn; unfold MAX_REFERRAL_DEPTH; lia|reflexivity].
  - inversion E; subst. rewrite U, N. exact WF.
  - inversion E; subst. rewrite U, N. exact WF.
Qed.

Lemma push_sameShape (child : ObjectId) (x : User) :
  sameShape x (push_directReferral child x).
Proof. repeat split. Qed.

(** A registration that creates a user keeps the invariant. *)
Lemma registered_wellFormed (us : list User) (next next' : ObjectId)
    (referrer u : User) :
  wfUsers us next -> In referrer us ->
  referralDepth referrer < MAX_REFERRAL_DEPTH ->
  (next <= _id u < next')%nat ->
  u = newUser (_id u) (referralCode u) (Some (_id referrer))
              (referralDepth referrer + 1) ->
  wfUsers (update_first (fun x => Nat.eqb (_id x) (_id referrer))
                        (push_directReferral (_id u)) (us ++ [u])) next'.
Proof.
  intros WF Hin Hd B Eu.
  apply wfUsers_update_first; [apply push_sameShape|].
  apply (wfUsers_append us next next' u WF B).
  destruct WF as [ND Hall].
  pose proof (proj1 (Forall_forall _ _) Hall referrer Hin) as [_ [[B1 B2] _]].
  rewrite Eu. unfold parentOk. cbn [referralDepth referrerId newUser].
  split; [lia|]. exists referrer. split; [|reflexivity].
  apply find_user_NoDup; assumption.
Qed.

(** [registerWithReferral] keeps the invariant, whatever its outcome. *)
Lemma registerWithReferral_wellFormed (fuel : nat) (code : string) (w : World)
    (r : Outcome User) (w' : World) :
  wellFormed w -> registerWithReferral fuel code w = (r, w') -> wellFormed w'.
Proof.
  intros WF E. unfold registerWithReferral, bind at 1 in E. rewrite findOne_run in E.
  destruct (find_code code (users w)) as [referrer|] eqn:Ec.
  - pose proof (find_code_In _ _ _ Ec) as Hin.
    assert (WF1 : wellFormed (logged [UserFindOne code] w)) by exact WF.
    destruct (calculateReferralDepth_any fuel referrer _ WF1 Hin) as [ops [R _]].
    unfold bind in E. rewrite R in E.
    destruct (Z.to_nat (referralDepth referrer) <=? fuel)%nat.
    + destruct (Z.leb_spec MAX_REFERRAL_DEPTH (referralDepth referrer)).
      * inversion E; subst. exact WF.
      * apply registerWithReferral_attempts_run in E. cbn [nextId users logged] in E.
        destruct E as [L E]. unfold wellFormed.
        destruct r as [u|e|]; [|destruct E as [_ ->]|contradiction].
        -- destruct E as [B [Eu ->]].
           apply (registered_wellFormed _ (nextId w)); assumption.
        -- apply (wfUsers_mono _ (nextId w)); assumption.
    + inversion E; subst. exact WF.
  - inversion E; subst. exact WF.
Qed.

Lemma wellFormed_same (w w' : World) :
  users w' = users w -> (nextId w <= nextId w')%nat -> wellFormed w -> wellFormed w'.
Proof.
  unfold wellFormed. intros -> L WF. apply (wfUsers_mono _ (nextId w)); assumption.
Qed.

Lemma inc_commission_sameShape (a : Decimal128) (x : User) :
  sameShape x (inc_commission a x).
Proof. repeat split. Qed.

Lemma inc_cashback_sameShape (a : Decimal128) (x : User) :
  sameShape x (inc_cashback a x).
Proof. repeat split. Qed.

Lemma distributeCommissions_loop_wellFormed (comms : list CommissionBreakdown) :
  forall w r w',
    distributeCommissions_loop comms w = (r, w') -> wellFormed w -> wellFormed w'.
Proof.
  induction comms as [|c rest IH]; intros w r w' E WF; simpl in E.
  - inversion E; subst. exact WF.
  - unfold bind at 1, decimal128 in E.
    destruct (Decimal128_fromString (toString (amount c))) as [a|].
    + unfold ret at 1, bind at 1 in E. simpl in E. apply IH in E; [exact E|].
      unfold wellFormed. simpl. apply wfUsers_update_first;
        [apply inc_commission_sameShape|exact WF].
    + inversion E; subst. exact WF.
Qed.

(** [processTrade] keeps the invariant, whatever its outcome. *)
Lemma processTrade_wellFormed (userId volume token : string) (side : Side)
    (chain : Chain) (w : World) (r : Outcome (Trade * FeeDistribution)) (w' : World) :
  wellFormed w -> processTrade userId volume token side chain w = (r, w') ->
  wellFormed w'.
Proof.
  intros WF E. unfold processTrade in E.
  destruct (ObjectId_of_string userId) as [id|]; [|inversion E; subst; exact WF].
  unfold bind at 1 in E. rewrite findById_run in E.
  destruct (find_user id (users w)) as [user|]; [|inversion E; subst; exact WF].
  destruct (isNaN (BigNumber_of_string volume) ||
            isLessThanOrEqualTo (BigNumber_of_string volume) (BN 0));
    [inversion E; subst; exact WF|].
  unfold bind at 1 in E.
  destruct (calculateFeeDistribution_run user (BigNumber_of_string volume) chain token
              (logged [UserFindById id] w)) as [ops [R _]].
  rewrite R in E. set (fd0 := if isZero _ then _ else _) in *.
  set (w1 := logged ops (logged [UserFindById id] w)) in *.
  unfold bind at 1 in E.
  destruct (newObjectId_run w1) as [w2 [E2 [_ [U2 [_ [_ [_ N2]]]]]]]. rewrite E2 in E.
  assert (WF2 : wellFormed w2).
  { apply (wellFormed_same w); [exact U2|rewrite N2; simpl; lia|exact WF]. }
  unfold bind at 1 in E.
  match type of E with
  | context [trade_save ?t w2] =>
      destruct (trade_save_run t w2) as [w3 [E3 [_ [U3 [_ [N3 _]]]]]]
  end.
  rewrite E3 in E.
  assert (WF3 : wellFormed w3).
  { apply (wellFormed_same w2); [exact U3|lia|exact WF2]. }
  destruct (validTrade _) eqn:V in E; [|inversion E; subst; exact WF3].
  unfold bind at 1 in E.
  match type of E with
  | context [distributeCommissions ?a ?b ?c w3] =>
      destruct (distributeCommissions a b c w3) as [o w4] eqn:Ed
  end.
  assert (WF4 : wellFormed w4).
  { unfold distributeCommissions, bind in Ed.
    destruct (0 <? _)%nat; simpl in Ed.
    - apply distributeCommissions_loop_wellFormed in Ed; [exact Ed|exact WF3].
    - apply distributeCommissions_loop_wellFormed in Ed; [exact Ed|exact WF3]. }
  destruct o as [[]|e|]; [|inversion E; subst; exact WF4|inversion E; subst; exact WF4].
  unfold bind at 1 in E. cbn [newDate] in E. unfold bind at 1 in E.
  match type of E with
  | context [trade_save ?t w4] =>
      destruct (trade_save_run t w4) as [w5 [E5 [_ [U5 [_ [N5 _]]]]]]
  end.
  rewrite E5, validTrade_markDistributed, V in E.
  assert (WF5 : wellFormed w5).
  { apply (wellFormed_same w4); [exact U5|lia|exact WF4]. }
  unfold bind at 1, updateUserStats, bind, decimal128 in E.
  destruct (Decimal128_fromString (toString (cashback fd0))) as [cb|].
  - simpl in E. inversion E; subst. unfold wellFormed. simpl.
    apply wfUsers_update_first; [apply inc_cashback_sameShape|exact WF5].
  - inversion E; subst. exact WF5.
Qed.

Lemma emptyWorld_wellFormed : wellFormed emptyWorld.
Proof. split; constructor. Qed.

(** Every world built by generating, registering and trading satisfies the
    invariant. *)
Lemma reachable_wellFormed (w : World) : reachable w -> wellFormed w.
Proof.
  induction 1 as [|w r w' _ IH E|w fuel code r w' _ IH E
                  |w userId volume token side chain r w' _ IH E].
  - apply emptyWorld_wellFormed.
  - apply (generateReferralCode_wellFormed _ _ _ IH E).
  - apply (registerWithReferral_wellFormed _ _ _ _ _ IH E).
  - apply (processTrade_wellFormed _ _ _ _ _ _ _ _ IH E).
Qed.

(** The depth walk only reads, in any world; it returns or, on a parent
    chain longer than its fuel, does not end. *)
Lemma calculateReferralDepth_loop_reads :
  forall (fuel : nat) (depth : Z) (cu : option User) (w : World) r w',
    calculateReferralDepth_loop fuel depth cu w = (r, w') ->
    (exists ops, w' = logged ops w) /\ (forall e, r <> Throw e).
Proof.
  induction fuel as [|fuel IH]; intros depth cu w r w' E.
  - destruct cu as [[? ? [parent|] ? ? ? ? ? ? ? ?]|]; simpl in E;
      inversion E; subst; (split; [exists []; rewrite logged_nil; reflexivity|]);
      intros e; discriminate.
  - destruct cu as [[? ? [parent|] ? ? ? ? ? ? ? ?]|]; simpl in E;
      try (inversion E; subst; (split; [exists []; rewrite logged_nil; reflexivity|]);
           intros e; discriminate).
    unfold bind at 1 in E. rewrite findById_run in E.
    apply IH in E. destruct E as [[ops ->] N]. split; [|exact N].
    exists (UserFindById parent :: ops). rewrite logged_logged. reflexivity.
Qed.

Lemma calculateReferralDepth_reads (fuel : nat) (userId : ObjectId) (w : World)
    (r : Outcome Z) (w' : World) :
  calculateReferralDepth fuel userId w = (r, w') ->
  (exists ops, w' = logged ops w) /\ (forall e, r <> Throw e).
Proof.
  unfold calculateReferralDepth, bind. rewrite findById_run. intros E.
  apply calculateReferralDepth_loop_reads in E. destruct E as [[ops ->] N].
  split; [|exact N]. exists (UserFindById userId :: ops).
  rewrite logged_logged. reflexivity.
Qed.

(** The walk of [calculateReferralDepth] counts the parent steps, in any
    world, and does not end when its fuel is below their number. *)
Lemma calculateReferralDepth_loop_steps :
  forall (fuel : nat) (depth : Z) (cu : option User) (w : World),
    exists ops,
      calculateReferralDepth_loop fuel depth cu w
      = (match parentSteps (users w) fuel cu with
         | Some d => Ok (depth + d)
         | None => Diverge
         end, logged ops w)
      /\ Forall is_read ops.
Proof.
  induction fuel as [|fuel IH]; intros depth cu w.
  - exists []. rewrite logged_nil. split; [|constructor].
    destruct cu as [[? ? [parent|] ? ? ? ? ? ? ? ?]|]; simpl;
      rewrite ?Z.add_0_r; reflexivity.
  - destruct cu as [[? ? [parent|] ? ? ? ? ? ? ? ?]|];
      try (exists []; rewrite logged_nil; split; [|constructor];
           simpl; rewrite ?Z.add_0_r; reflexivity).
    cbn [calculateReferralDepth_loop parentSteps referrerId].
    unfold bind at 1. rewrite findById_run.
    destruct (IH (depth + 1) (find_user parent (users w))
                 (logged [UserFindById parent] w)) as [ops [R F]].
    exists (UserFindById parent :: ops). split; [|constructor; [exact I|exact F]].
    rewrite R, logged_logged. cbn [users logged].
    destruct (parentSteps (users w) fuel (find_user parent (users w))) as [d|];
      cbn [option_map]; [|reflexivity].
    f_equal. f_equal. lia.
Qed.

Lemma calculateReferralDepth_steps (fuel : nat) (userId : ObjectId) (w : World) :
  exists ops,
    calculateReferralDepth fuel userId w
    = (match parentSteps (users w) fuel (find_user userId (users w)) with
       | Some d => Ok d
       | None => Diverge
       end, logged ops w)
    /\ Forall is_read ops.
Proof.
  unfold calculateReferralDepth, bind. rewrite findById_run.
  destruct (calculateReferralDepth_loop_steps fuel 0 (find_user userId (users w))
              (logged [UserFindById userId] w)) as [ops [R F]].
  exists (UserFindById userId :: ops). split; [|constructor; [exact I|exact F]].
  rewrite R, logged_logged. cbn [users logged].
  destruct (parentSteps _ _ _); reflexivity.
Qed.

(** More fuel changes nothing once the walk has ended. *)
Lemma parentSteps_more_fuel (us : list User) :
  forall fuel fuel' cu d,
    parentSteps us fuel cu = Some d -> (fuel <= fuel')%nat ->
    parentSteps us fuel' cu = Some d.
Proof.
  induction fuel as [|fuel IH]; intros fuel' cu d E L.
  - destruct cu as [[? ? [parent|] ? ? ? ? ? ? ? ?]|]; simpl in E;
      try discriminate; destruct fuel'; exact E.
  - destruct cu as [[? ? [parent|] ? ? ? ? ? ? ? ?]|];
      try (destruct fuel'; exact E).
    destruct fuel' as [|fuel']; [lia|].
    cbn [parentSteps referrerId] in *.
    destruct (parentSteps us fuel (find_user parent us)) as [d0|] eqn:E0;
      [|discriminate].
    rewrite (IH fuel' _ d0 E0) by lia. exact E.
Qed.

(** Under the invariant the parent steps of a stored user are its stored
    depth. *)
Lemma parentSteps_stored (w : World) (fuel : nat) (u : User) :
  wellFormed w -> In u (users w) -> (Z.to_nat MAX_REFERRAL_DEPTH <= fuel)%nat ->
  parentSteps (users w) fuel (find_user (_id u) (users w))
  = Some (referralDepth u).
Proof.
  intros WF Hin Hf.
  destruct (calculateReferralDepth_run fuel u w WF Hin Hf) as [ops [R _]].
  destruct (calculateReferralDepth_steps fuel (_id u) w) as [ops' [R' _]].
  rewrite R in R'.
  destruct (parentSteps (users w) fuel (find_user (_id u) (users w))) as [d|];
    inversion R'; reflexivity.
Qed.

(** C6. Registration under the code of a stored user [referrer], in any
    world.  The depth the call works with is walked: it is the number [d]
    of parent pointers that lead from the referrer up to a user without
    referrer.  With [d] at 3 or more the call throws the bad-request
    error "Maximum referral depth reached" and the user collection is as
    before; with [d] below 3 the call ends, a user it returns has
    [referralDepth = d + 1], the referrer as parent and its identifier in
    the collection, and the only error left is the exhausted code draw,
    which stores nothing.  Where the parent pointers never end the walk
    does not end either.  In a world whose user collection satisfies the
    invariant (as every world built by generating, registering and
    trading does), three parent steps are enough and their number is the
    stored [referralDepth] of the referrer. *)
Theorem registerWithReferral_depth (fuel : nat) (code : string) (w : World)
    (referrer : User) :
  find_code code (users w) = Some referrer ->
  (forall d,
     parentSteps (users w) fuel (find_user (_id referrer) (users w)) = Some d ->
     (MAX_REFERRAL_DEPTH <= d ->
      exists w1,
        registerWithReferral fuel code w
        = (Throw (BadRequestException "Maximum referral depth reached"), w1)
        /\ users w1 = users w)
     /\ (d < MAX_REFERRAL_DEPTH ->
         forall r w',
           registerWithReferral fuel code w = (r, w') ->
           match r with
           | Ok u =>
               referralDepth u = d + 1
               /\ referrerId u = Some (_id referrer)
               /\ map _id (users w') = map _id (users w) ++ [_id u]
           | Throw e =>
               e = ConflictException "Unable to generate unique referral code"
               /\ users w' = users w
           | Diverge => False
           end))
  /\ (parentSteps (users w) fuel (find_user (_id referrer) (users w)) = None ->
      exists w1, registerWithReferral fuel code w = (Diverge, w1)
                 /\ users w1 = users w)
  /\ (wellFormed w -> (Z.to_nat MAX_REFERRAL_DEPTH <= fuel)%nat ->
      parentSteps (users w) fuel (find_user (_id referrer) (users w))
      = Some (referralDepth referrer)).
Proof.
  intros Ec.
  destruct (calculateReferralDepth_steps fuel (_id referrer)
              (logged [UserFindOne code] w)) as [ops [R _]].
  cbn [users logged] in R.
  split; [|split].
  - intros d Ed. rewrite Ed in R.
    unfold registerWithReferral, bind. rewrite findOne_run, Ec, R.
    split.
    + intros Hd. destruct (Z.leb_spec MAX_REFERRAL_DEPTH d); [|lia].
      eexists. split; reflexivity.
    + intros Hd r w' E. destruct (Z.leb_spec MAX_REFERRAL_DEPTH d); [lia|].
      apply registerWithReferral_attempts_run in E. destruct E as [_ E].
      cbn [users logged] in E.
      destruct r as [u|e|]; [|exact E|exact E].
      destruct E as [_ [Eu ->]].
      split; [rewrite Eu; reflexivity|]. split; [rewrite Eu; reflexivity|].
      rewrite map_id_update_first by reflexivity. rewrite map_app. reflexivity.
  - intros En. rewrite En in R.
    unfold registerWithReferral, bind. rewrite findOne_run, Ec, R.
    eexists. split; reflexivity.
  - intros WF Hf. apply parentSteps_stored; [exact WF| |exact Hf].
    apply (find_code_In _ _ _ Ec).
Qed.

End Properties.

(** ** The examples *)

(** The runs the repository's tests describe, on the embedding. *)

Example rates_of_the_unit_test :
  map toString
    [getCommissionRateForLevel 1 None; getCommissionRateForLevel 2 None;
     getCommissionRateForLevel 3 None; getCommissionRateForLevel 4 None;
     getCommissionRateForLevel 1
       (Some (mkCustomCommissionStructure KOL_DIRECT None None None None None));
     getCommissionRateForLevel 2
       (Some (mkCustomCommissionStructure KOL_DIRECT None None None None None));
     getCommissionRateForLevel 2
       (Some (mkCustomCommissionStructure KOL_CUSTOM (Some (dec 40 2))
                (Some (dec 5 2)) (Some (dec 3 2)) None None));
     getCommissionRateForLevel 1
       (Some (mkCustomCommissionStructure WAIVED None None None None None));
     getCommissionRateForLevel 1
       (Some (mkCustomCommissionStructure KOL_DIRECT None None None None (Some true)))]
  = ["0.3"; "0.03"; "0.02"; "0"; "0.5"; "0"; "0.05"; "0"; "0"]%string.
Proof. reflexivity. Qed.

Example trade_under_two_referrers :
  match fst ((@generateReferralCode Demo.platform ;;;
              @registerWithReferral Demo.platform 4 "AAAAAAAA" ;;;
              @registerWithReferral Demo.platform 4 "AAAAAAAB" ;;;
              @processTrade Demo.platform "2" "10000" "BTC" BUY ARBITRUM) emptyWorld) with
  | Ok (trade, fd) =>
      (t_totalFee trade, toString (cashback fd), toString (treasury fd),
       map (fun c => (level c, toString (amount c))) (commissions fd))
      = ("100", "10", "55", [(1, "30"); (2, "3")])%string
  | _ => False
  end.
Proof. vm_compute. reflexivity. Qed.

Example trade_without_referrer :
  match fst ((@generateReferralCode Demo.platform ;;;
              @processTrade Demo.platform "0" "5000" "ETH" SELL SOLANA) emptyWorld) with
  | Ok (trade, fd) =>
      (t_totalFee trade, toString (cashback fd), toString (treasury fd), commissions fd)
      = ("50", "5", "27.5", [])%string
  | _ => False
  end.
Proof. vm_compute. reflexivity. Qed.

Example fifth_in_line_is_refused :
  fst (@registerWithReferral Demo.platform 4 "AAAAAAAD" Demo.lineOfFour)
  = Throw (BadRequestException "Maximum referral depth reached").
Proof. vm_compute. reflexivity. Qed.

Example claimable_after_a_trade :
  fst ((@processTrade Demo.platform "3" "10000" "BTC" BUY ARBITRUM ;;;
        @getClaimableAmount Demo.platform 2%nat) Demo.lineOfFour)
  = Ok ("30", "0")%string.
Proof. vm_compute. reflexivity. Qed.

Lemma reachable_generate_step `{Platform} (w : World) :
  reachable w -> reachable (snd (generateReferralCode w)).
Proof.
  intros R. apply (reach_generate w (fst (generateReferralCode w)) _ R).
  apply surjective_pairing.
Qed.

Lemma reachable_register_step `{Platform} (fuel : nat) (code : string) (w : World) :
  reachable w -> reachable (snd (registerWithReferral fuel code w)).
Proof.
  intros R. apply (reach_register w fuel code (fst (registerWithReferral fuel code w)) _ R).
  apply surjective_pairing.
Qed.

Lemma lineOfFour_reachable : @reachable Demo.platform Demo.lineOfFour.
Proof.
  change Demo.lineOfFour with
    (snd (@registerWithReferral Demo.platform 4 "AAAAAAAC"
       (snd (@registerWithReferral Demo.platform 4 "AAAAAAAB"
          (snd (@registerWithReferral Demo.platform 4 "AAAAAAAA"
             (snd (@generateReferralCode Demo.platform emptyWorld)))))))).
  do 3 apply reachable_register_step. apply reachable_generate_step.
  apply reach_empty.
Qed.

(** C1, as stated, fails: under a KOL_DIRECT referrer a fee of 100 is split
    into cashback 10, treasury 55 and a commission of 50. *)
Lemma kol_direct_split_exceeds_fee :
  exists trade fd w',
    @processTrade Demo.platform "1" "10000" "BTC" BUY ARBITRUM Demo.kolWorld
    = (Ok (trade, fd), w')
    /\ toString (totalFee fd) = "100"%string
    /\ toString (splitTotal fd) = "115"%string
    /\ isLessThanOrEqualTo (splitTotal fd) (totalFee fd) = false.
Proof.
  eexists _, _, _. split; [vm_compute; reflexivity|].
  repeat split; vm_compute; reflexivity.
Qed.

Lemma fee_split_within_totalFee_witness :
  isNaN (BN 10000) = false
  /\ isLessThanOrEqualTo (BN 10000) (BN 0) = false
  /\ exists fd w',
       @calculateFeeDistribution Demo.platform Demo.trader (BN 10000) ARBITRUM "BTC"
         Demo.lineOfFour = (Ok fd, w')
       /\ (isLessThanOrEqualTo (rateTotal (commissions fd)) TOTAL_COMMISSION_RATE = true ->
           isLessThanOrEqualTo (splitTotal fd) (totalFee fd) = true)
       /\ (noKolAncestor (users Demo.lineOfFour) (_id Demo.trader) ->
           isLessThanOrEqualTo (rateTotal (commissions fd)) TOTAL_COMMISSION_RATE = true).
Proof.
  split; [reflexivity|]. split; [reflexivity|].
  apply (@fee_split_within_totalFee Demo.platform Demo.trader (BN 10000) ARBITRUM
           "BTC"%string Demo.lineOfFour); reflexivity.
Defined.

(** C2, as stated, fails: with a volume of 17 fractional digits the cashback
    keeps 20 fractional digits, where a cut at 18 places would drop two. *)
Lemma cashback_not_truncated :
  exists trade fd w',
    @processTrade Demo.platform "3" "0.12345678901234567" "BTC" BUY ARBITRUM
      Demo.lineOfFour = (Ok (trade, fd), w')
    /\ isZero (totalFee fd) = false
    /\ t_cashbackAmount trade = "0.00012345678901234567"%string
    /\ toString (decimalPlaces_down DECIMAL_PLACES
                   (multipliedBy (totalFee fd) CASHBACK_RATE))
       = "0.000123456789012345"%string
    /\ cashback fd
       <> decimalPlaces_down DECIMAL_PLACES (multipliedBy (totalFee fd) CASHBACK_RATE).
Proof.
  eexists _, _, _. split; [vm_compute; reflexivity|].
  repeat split; try (vm_compute; reflexivity).
  intros E. vm_compute in E. discriminate E.
Qed.

(** C7, as stated, fails: in the log of a trade the save that sets the flag
    comes before the increment of the trader's cashback. *)
Lemma flag_saved_before_cashback :
  exists trade fd w',
    @processTrade Demo.platform "3" "10000" "BTC" BUY ARBITRUM Demo.lineOfFour
    = (Ok (trade, fd), w')
    /\ cashbackBeforeFlag false (skipn (List.length (log Demo.lineOfFour)) (log w'))
       = false.
Proof.
  eexists _, _, _. split; [vm_compute; reflexivity|]. vm_compute. reflexivity.
Qed.

(** C9 at a REDUCED trader: a volume of 1000 gives a fee of 5, and the
    commission row records 500 as the trade volume. *)
Lemma reduced_tier_tradeVolume :
  exists trade fd w',
    @processTrade Demo.platform "1" "1000" "BTC" BUY ARBITRUM Demo.reducedWorld
    = (Ok (trade, fd), w')
    /\ t_volume trade = "1000"%string
    /\ t_totalFee trade = "5"%string
    /\ map c_tradeVolume (commissionRows w') = ["500"%string]
    /\ map c_tradeFee (commissionRows w') = ["5"%string].
Proof.
  eexists _, _, _. split; [vm_compute; reflexivity|].
  repeat split; vm_compute; reflexivity.
Qed.

Lemma cashback_treasury_exact_witness :
  exists trade fd w',
    @processTrade Demo.platform "3" "10000" "BTC" BUY ARBITRUM Demo.lineOfFour
    = (Ok (trade, fd), w')
    /\ isZero (totalFee fd) = false
    /\ cashback fd = multipliedBy (totalFee fd) CASHBACK_RATE
    /\ treasury fd = multipliedBy (totalFee fd) TREASURY_RATE
    /\ t_cashbackAmount trade = toString (multipliedBy (totalFee fd) CASHBACK_RATE)
    /\ t_treasuryAmount trade = toString (multipliedBy (totalFee fd) TREASURY_RATE)
    /\ forall f, totalFee fd = Finite f ->
         let c := dec_mul f (strip 10 2) in
         let t := dec_mul f (strip 55 2) in
         toQ c == toQ f * (1 # 10) /\ toQ t == toQ f * (55 # 100)
         /\ cashback fd = (if underflows c then BN 0 else Finite c)
         /\ treasury fd = (if underflows t then BN 0 else Finite t)
         /\ ((scale f <= 16)%nat ->
             decimalPlaces_down DECIMAL_PLACES (cashback fd) = cashback fd
             /\ decimalPlaces_down DECIMAL_PLACES (treasury fd) = treasury fd).
Proof.
  eexists _, _, _. split; [vm_compute; reflexivity|]. split; [reflexivity|].
  eapply (@cashback_treasury_exact Demo.platform "3" "10000" "BTC" BUY ARBITRUM
            Demo.lineOfFour).
  - vm_compute. reflexivity.
  - reflexivity.
Defined.

(** The commission list under the three ancestors of [customLine], on a
    fee of 100: the stored rate 0.4 at level 1, nothing for the ancestor
    who waived commissions, the standard 2% at level 3. *)
Example commissions_of_a_custom_line :
  match fst (@calculateFeeDistribution Demo.platform Demo.trader (BN 10000) ARBITRUM
               "BTC" customLine) with
  | Ok fd =>
      map (fun c => (level c, userId c, toString (amount c), toString (rate c)))
          (commissions fd)
      = [(1, 2%nat, "40", "0.4"); (3, 0%nat, "2", "0.02")]%string
  | _ => False
  end.
Proof. vm_compute. reflexivity. Qed.

Lemma commissions_follow_chain_witness :
  isZero (feeOf Demo.trader (BN 10000)) = false
  /\ exists fd w',
       @calculateFeeDistribution Demo.platform Demo.trader (BN 10000) ARBITRUM "BTC"
         customLine = (Ok fd, w')
       /\ users w' = users customLine
       /\ totalFee fd = feeOf Demo.trader (BN 10000)
       /\ commissions fd
          = flat_map (@commissionOf Demo.platform (users customLine) (totalFee fd))
                     (chainOf (users customLine) (_id Demo.trader))
       /\ Forall (fun e => (exists ancestor,
                              find_user (chain_userId e) (users customLine)
                              = Some ancestor)
                           /\ 1 <= chain_level e <= MAX_REFERRAL_DEPTH)
                 (chainOf (users customLine) (_id Demo.trader))
       /\ (forall i e,
             nth_error (chainOf (users customLine) (_id Demo.trader)) i = Some e ->
             chain_level e = Z.of_nat i + 1
             /\ option_map referrerId
                  (walkEnd (users customLine)
                           (find_user (_id Demo.trader) (users customLine))
                           (firstn i (chainOf (users customLine) (_id Demo.trader))))
                = Some (Some (chain_userId e)))
       /\ ((List.length (chainOf (users customLine) (_id Demo.trader))
            < Z.to_nat MAX_REFERRAL_DEPTH)%nat ->
           noReferrer (users customLine)
                      (walkEnd (users customLine)
                               (find_user (_id Demo.trader) (users customLine))
                               (chainOf (users customLine) (_id Demo.trader))))
       /\ (forall c f r,
             In c (commissions fd) -> totalFee fd = Finite f -> rate c = Finite r ->
             let p := dec_mul f r in
             toQ p == toQ f * toQ r
             /\ amount c = (if overflows p then Infinity (dec_is_neg p)
                            else if underflows p then BN 0 else Finite p)).
Proof.
  split; [reflexivity|].
  apply (@commissions_follow_chain Demo.platform Demo.trader (BN 10000) ARBITRUM
           "BTC"%string customLine). reflexivity.
Defined.

Lemma calculateFeeDistribution_short_circuit_witness :
  ((exists cs, customCommissionStructure Demo.waivedUser = Some cs
               /\ stored_feesWaived cs = Some true)
   \/ isZero (multipliedBy (BN 10000) (getFeeRateForTier (feeTier Demo.waivedUser))) = true)
  /\ @calculateFeeDistribution Demo.platform Demo.waivedUser (BN 10000) ARBITRUM "BTC"
       emptyWorld
     = (Ok (mkFeeDistribution (_id Demo.waivedUser) (BN 0) (BN 0) [] (BN 0) ARBITRUM "BTC"),
        emptyWorld).
Proof.
  assert (W : (exists cs, customCommissionStructure Demo.waivedUser = Some cs
                          /\ stored_feesWaived cs = Some true)
              \/ isZero (multipliedBy (BN 10000)
                           (getFeeRateForTier (feeTier Demo.waivedUser))) = true).
  { left. eexists. split; reflexivity. }
  split; [exact W|].
  apply (@calculateFeeDistribution_short_circuit Demo.platform Demo.waivedUser (BN 10000)
           ARBITRUM "BTC"%string emptyWorld W).
Defined.

(** The depth is walked, not read: in the store the unit test of the
    depth limit mocks, every document has depth 0, and registration under
    the fourth user in line is refused after three parent steps. *)
Example depth_is_walked :
  option_map referralDepth (find_code "AAAAAAAD" (users mockLine)) = Some 0
  /\ parentSteps (users mockLine) 4 (find_user 3%nat (users mockLine)) = Some 3
  /\ fst (@registerWithReferral Demo.platform 4 "AAAAAAAD" mockLine)
     = Throw (BadRequestException "Maximum referral depth reached").
Proof. repeat split; vm_compute; reflexivity. Qed.

Lemma registerWithReferral_depth_witness :
  (let referrer := Demo.plainUser 3%nat "AAAAAAAD" (Some 2%nat) 0 BASE None in
   find_code "AAAAAAAD" (users mockLine) = Some referrer
   /\ referralDepth referrer = 0
   /\ parentSteps (users mockLine) 4 (find_user (_id referrer) (users mockLine))
      = Some 3
   /\ exists w1,
        @registerWithReferral Demo.platform 4 "AAAAAAAD" mockLine
        = (Throw (BadRequestException "Maximum referral depth reached"), w1)
        /\ users w1 = users mockLine)
  /\ (find_code "AAAAAAAB" (users Demo.lineOfFour) = Some Demo.secondUser
      /\ parentSteps (users Demo.lineOfFour) 4
           (find_user (_id Demo.secondUser) (users Demo.lineOfFour)) = Some 1
      /\ forall r w',
           @registerWithReferral Demo.platform 4 "AAAAAAAB" Demo.lineOfFour = (r, w') ->
           match r with
           | Ok u =>
               referralDepth u = 1 + 1
               /\ referrerId u = Some (_id Demo.secondUser)
               /\ map _id (users w') = map _id (users Demo.lineOfFour) ++ [_id u]
           | Throw e =>
               e = ConflictException "Unable to generate unique referral code"
               /\ users w' = users Demo.lineOfFour
           | Diverge => False
           end)
  /\ (wellFormed Demo.lineOfFour
      /\ parentSteps (users Demo.lineOfFour) 4
           (find_user (_id Demo.secondUser) (users Demo.lineOfFour))
         = Some (referralDepth Demo.secondUser)).
Proof.
  assert (WF : wellFormed Demo.lineOfFour)
    by apply (@reachable_wellFormed Demo.platform _ lineOfFour_reachable).
  split; [|split].
  - cbv zeta.
    destruct (@registerWithReferral_depth Demo.platform 4%nat "AAAAAAAD"%string
                mockLine (Demo.plainUser 3%nat "AAAAAAAD" (Some 2%nat) 0 BASE None)
                eq_refl) as [H _].
    destruct (H 3 eq_refl) as [T _].
    split; [reflexivity|]. split; [reflexivity|]. split; [reflexivity|].
    apply T. unfold MAX_REFERRAL_DEPTH. lia.
  - destruct (@registerWithReferral_depth Demo.platform 4%nat "AAAAAAAB"%string
                Demo.lineOfFour Demo.secondUser eq_refl) as [H _].
    destruct (H 1 eq_refl) as [_ T].
    split; [reflexivity|]. split; [reflexivity|].
    apply T. unfold MAX_REFERRAL_DEPTH. lia.
  - destruct (@registerWithReferral_depth Demo.platform 4%nat "AAAAAAAB"%string
                Demo.lineOfFour Demo.secondUser eq_refl) as [_ [_ H]].
    split; [exact WF|]. apply H; [exact WF|]. unfold MAX_REFERRAL_DEPTH. simpl. lia.
Defined.

(** Off the invariant the walk can end elsewhere: with a parent pointer
    that leads to no document the chain ends after one entry, at a user
    who has a referrer. *)
Example chain_ends_at_a_dangling_pointer :
  fst (getReferralChain 2%nat orphanWorld)
  = Ok [mkReferralChain 1%nat 1 "AAAAAAAB"]
  /\ option_map referrerId (find_user 1%nat (users orphanWorld))
     = Some (Some 0%nat)
  /\ find_user 0%nat (users orphanWorld) = None.
Proof. repeat split; vm_compute; reflexivity. Qed.


Lemma processTrade_write_order_witness :
  exists trade fd w',
    @processTrade Demo.platform "3" "10000" "BTC" BUY ARBITRUM Demo.lineOfFour
    = (Ok (trade, fd), w')
    /\ exists reads t0 amounts cb,
         log w'
         = log Demo.lineOfFour ++ reads
             ++ [TradeSave t0]
             ++ commissionInserts (t_id trade) (t_userId trade) fd
             ++ commissionIncs (commissions fd) amounts
             ++ [TradeSave trade; UserIncCashback (t_userId trade) cb]
         /\ Forall is_read reads
         /\ List.length amounts = List.length (commissions fd)
         /\ commissionsDistributed t0 = false
         /\ commissionsDistributed trade = true
         /\ distributedAt trade = Some (clock Demo.lineOfFour).
Proof.
  eexists _, _, _. split; [vm_compute; reflexivity|].
  eapply (@processTrade_write_order Demo.platform "3" "10000" "BTC" BUY ARBITRUM
            Demo.lineOfFour).
  vm_compute. reflexivity.
Defined.

Lemma getClaimableAmount_unknown_user_witness :
  find_user 99%nat (users Demo.lineOfFour) = None
  /\ (forall c, In c (commissionRows Demo.lineOfFour) -> c_userId c <> 99%nat)
  /\ exists w',
       @getClaimableAmount Demo.platform 99%nat Demo.lineOfFour
       = (Ok ("0"%string, "0"%string), w')
       /\ users w' = users Demo.lineOfFour
       /\ commissionRows w' = commissionRows Demo.lineOfFour.
Proof.
  assert (N : forall c, In c (commissionRows Demo.lineOfFour) -> c_userId c <> 99%nat)
    by (intros c []).
  split; [reflexivity|]. split; [exact N|].
  apply (@getClaimableAmount_unknown_user Demo.platform 99%nat Demo.lineOfFour eq_refl N).
Defined.

(** * Further properties *)

(** ** Sums of decimals

    [plus] gives finite values in one form, so it is associative and
    commutative on the nose. *)

Lemma strip_canonical (m : Z) (s : nat) : canonical (strip m s).
Proof.
  revert m. induction s as [|s IH]; intros m; simpl.
  - left. reflexivity.
  - destruct (Z.eqb_spec (m mod 10) 0) as [E|E]; [apply IH|right; exact E].
Qed.

Lemma canonical_le_unique (a b : decimal) :
  canonical a -> canonical b -> (scale a <= scale b)%nat ->
  coef a * pow10 (scale b) = coef b * pow10 (scale a) -> a = b.
Proof.
  intros _ Cb L E. unfold canonical in Cb.
  destruct a as [ca sa], b as [cb sb]; simpl in *.
  replace sb with (sa + (sb - sa))%nat in E at 1 by lia.
  rewrite pow10_add in E. pose proof (pow10_pos sa) as Pa.
  assert (Eb : cb = ca * pow10 (sb - sa)) by nia.
  destruct (Nat.eq_dec sa sb) as [->|N].
  - rewrite Nat.sub_diag in Eb. change (pow10 0) with 1 in Eb.
    f_equal. lia.
  - exfalso. destruct Cb as [Hz|Hz]; [lia|]. apply Hz.
    replace (sb - sa)%nat with (S (sb - sa - 1)) in Eb by lia.
    rewrite pow10_S in Eb. subst cb.
    replace (ca * (10 * pow10 (sb - sa - 1))) with (ca * pow10 (sb - sa - 1) * 10) by ring.
    apply Z.mod_mul. lia.
Qed.

Lemma canonical_unique (a b : decimal) :
  canonical a -> canonical b -> toQ a == toQ b -> a = b.
Proof.
  intros Ca Cb E. unfold toQ, Qeq in E; simpl in E. rewrite !pow10_den in E.
  destruct (Nat.le_ge_cases (scale a) (scale b)) as [L|L].
  - apply canonical_le_unique; assumption.
  - symmetry. apply canonical_le_unique; try assumption. symmetry. exact E.
Qed.

Lemma dec_add_comm (a b : decimal) : dec_add a b = dec_add b a.
Proof.
  apply canonical_unique; try apply strip_canonical.
  rewrite !toQ_add. ring.
Qed.

Lemma dec_add_assoc (a b c : decimal) :
  dec_add (dec_add a b) c = dec_add a (dec_add b c).
Proof.
  apply canonical_unique; try apply strip_canonical.
  rewrite !toQ_add. ring.
Qed.

Lemma plus_comm (x y : BigNumber) : plus x y = plus y x.
Proof.
  destruct x as [|s|a], y as [|t|b]; simpl; try reflexivity.
  - destruct s, t; reflexivity.
  - rewrite dec_add_comm. reflexivity.
Qed.

Lemma plus_assoc (x y z : BigNumber) : plus (plus x y) z = plus x (plus y z).
Proof.
  destruct x as [|s|a], y as [|t|b], z as [|u|c]; simpl; try reflexivity;
    try (destruct s, t; reflexivity);
    try (destruct s, t, u; reflexivity);
    try (destruct t, u; reflexivity);
    try (destruct s, u; reflexivity).
  rewrite dec_add_assoc. reflexivity.
Qed.

(** Values that [plus] by zero leaves alone: the results of [plus], and
    [NaN] and the infinities. *)
Lemma plus_zero_r_plus (x y : BigNumber) : plus (plus x y) (BN 0) = plus x y.
Proof.
  destruct x as [|s|a], y as [|t|b]; simpl; try reflexivity.
  - destruct (Bool.eqb s t); reflexivity.
  - f_equal. apply canonical_unique; try apply strip_canonical.
    unfold dec_add at 1. rewrite toQ_strip. unfold toQ, Qeq; simpl.
    rewrite !pow10_den. change (pow10 0) with 1.
    rewrite Nat.add_0_r. ring.
Qed.

(** ** What each call does to the user collection *)

Section Effects.
Context `{Platform}.

Lemma generateReferralCode_loop_step (f attempts : nat) (w : World) :
  let code := generateCode (drawn w) in
  let w0 := logged [UserFindOne code]
              (mkWorld (users w) (trades w) (commissionRows w) (nextId w)
                       (S (drawn w)) (clock w) (log w)) in
  generateReferralCode_loop (S f) attempts w
  = match find_code code (users w) with
    | None => (Ok (code, attempts), w0)
    | Some _ =>
        if (S attempts <? maxAttempts)%nat
        then generateReferralCode_loop f (S attempts) w0
        else (Ok (code, S attempts), w0)
    end.
Proof.
  cbn [generateReferralCode_loop]. unfold bind at 1. cbn [drawCode].
  unfold bind at 1. rewrite findOne_run. cbn [users].
  destruct (find_code (generateCode (drawn w)) (users w)); [|reflexivity].
  destruct (S attempts <? maxAttempts)%nat; reflexivity.
Qed.

Lemma firstFree_S (us : list User) (start k : nat) :
  firstFree us start (S k)
  = match find_code (generateCode start) us with
    | None => Some start
    | Some _ => firstFree us (S start) k
    end.
Proof. reflexivity. Qed.

Lemma generateReferralCode_loop_firstFree :
  forall f attempts w,
    (S f + attempts = maxAttempts)%nat ->
    exists w1,
      users w1 = users w /\ nextId w1 = nextId w
      /\ trades w1 = trades w /\ commissionRows w1 = commissionRows w
      /\ match firstFree (users w) (drawn w) (S f) with
         | Some i =>
             exists a, (a < maxAttempts)%nat
               /\ generateReferralCode_loop (S f) attempts w
                  = (Ok (generateCode i, a), w1)
               /\ drawn w1 = S i
         | None =>
             generateReferralCode_loop (S f) attempts w
             = (Ok (generateCode (drawn w + f), maxAttempts), w1)
             /\ drawn w1 = (drawn w + S f)%nat
         end.
Proof.
  induction f as [|f IH]; intros attempts w Hs;
    rewrite generateReferralCode_loop_step; cbv zeta; rewrite firstFree_S;
    destruct (find_code (generateCode (drawn w)) (users w)) as [taken|] eqn:Ec;
    try (match goal with |- context [(Ok _, ?w0) = _] => exists w0 end;
         repeat (split; [reflexivity|]); exists attempts;
         split; [lia|]; split; reflexivity).
  - destruct (Nat.ltb_spec (S attempts) maxAttempts) as [L|L]; [lia|].
    match goal with |- context [(Ok _, ?w0) = _] => exists w0 end.
    repeat (split; [reflexivity|]). cbn [drawn logged]. split; [|lia].
    rewrite Nat.add_0_r. do 3 f_equal. lia.
  - destruct (Nat.ltb_spec (S attempts) maxAttempts) as [L|L]; [|lia].
    match goal with
    | |- context [generateReferralCode_loop (S f) (S attempts) ?w0] =>
        destruct (IH (S attempts) w0) as [w1 [U [N [T [C R]]]]]; [lia|]
    end.
    cbn [users nextId trades commissionRows drawn logged] in U, N, T, C, R.
    exists w1. repeat (split; [assumption|]).
    destruct (firstFree (users w) (S (drawn w)) (S f)) as [i|].
    + exact R.
    + destruct R as [R D]. rewrite R, D. split; [|lia].
      replace (drawn w + S f)%nat with (S (drawn w) + f)%nat by lia. reflexivity.
Qed.

(** What [generateReferralCode] does, by the first free draw. *)
Lemma generateReferralCode_effect (w : World) :
  exists w',
    trades w' = trades w /\ commissionRows w' = commissionRows w
    /\ match firstFree (users w) (drawn w) maxAttempts with
       | Some i =>
           generateReferralCode w
           = (Ok (newUser (nextId w) (generateCode i) None 0), w')
           /\ users w' = users w ++ [newUser (nextId w) (generateCode i) None 0]
           /\ nextId w' = S (nextId w) /\ drawn w' = S i
       | None =>
           generateReferralCode w
           = (Throw (ConflictException "Unable to generate unique referral code"), w')
           /\ users w' = users w /\ nextId w' = nextId w
           /\ drawn w' = (drawn w + maxAttempts)%nat
       end.
Proof.
  destruct (generateReferralCode_loop_firstFree 9 0 w)
    as [w1 [U [N [T [C R]]]]]; [reflexivity|].
  change (S 9) with maxAttempts in R.
  destruct (firstFree (users w) (drawn w) maxAttempts) as [i|] eqn:Ef;
    unfold generateReferralCode, bind at 1.
  - destruct R as [a [La [R D]]]. rewrite R.
    destruct (Nat.leb_spec maxAttempts a); [lia|].
    unfold bind, user_save, bind. cbn [newObjectId record users referralCode newUser].
    assert (Free : find_code (generateCode i) (users w1) = None).
    { rewrite U. clear - Ef. revert Ef. generalize (drawn w).
      induction maxAttempts as [|k IH]; intros s; simpl; [discriminate|].
      destruct (find_code (generateCode s) (users w)) eqn:E.
      - apply IH.
      - intros Ei. inversion Ei; subst. exact E. }
    rewrite Free, N. eexists. split; [|split]; [| |split; [reflexivity|]];
      cbn; rewrite ?T, ?C, ?U, ?N, ?D; repeat split; reflexivity.
  - destruct R as [R D]. rewrite R. rewrite Nat.leb_refl.
    exists w1. repeat split; assumption.
Qed.

Lemma registerWithReferral_attempts_effect (referrer : User) (d : Z) :
  forall n w r w',
    registerWithReferral_attempts n referrer d w = (r, w') ->
    trades w' = trades w /\ commissionRows w' = commissionRows w
    /\ (nextId w <= nextId w')%nat
    /\ match r with
       | Ok u =>
           exists id c,
             u = newUser id c (Some (_id referrer)) (d + 1)
             /\ (nextId w <= id)%nat /\ nextId w' = S id
             /\ find_code c (users w) = None
             /\ users w'
                = update_first (fun x => Nat.eqb (_id x) (_id referrer))
                               (push_directReferral id) (users w ++ [u])
       | Throw e =>
           e = ConflictException "Unable to generate unique referral code"
           /\ users w' = users w
       | Diverge => False
       end.
Proof.
  induction n as [|n IH]; intros w r w' E.
  - inversion E; subst. repeat split; lia.
  - cbn [registerWithReferral_attempts] in E. unfold bind at 1 in E.
    cbn [drawCode] in E. unfold try_catch, bind at 1 in E. cbn [newObjectId] in E.
    unfold bind at 1, user_save, bind at 1 in E. cbn [record] in E.
    cbn [users referralCode newUser] in E.
    destruct (find_code (generateCode (drawn w)) (users w)) as [taken|] eqn:Ec.
    + cbn [String.eqb Ascii.eqb Bool.eqb] in E. apply IH in E.
      cbn [nextId users trades commissionRows] in E.
      destruct E as [T [C [L R]]]. repeat (split; [assumption || lia|]).
      destruct r as [u|e|]; [|exact R|exact R].
      destruct R as [id [c [Eu [B R]]]]. exists id, c. split; [exact Eu|].
      split; [lia|exact R].
    + unfold bind in E. cbn in E. inversion E; subst; clear E. cbn.
      repeat (split; [reflexivity || lia|]).
      exists (nextId w), (generateCode (drawn w)).
      repeat split; try reflexivity; try lia. exact Ec.
Qed.

(** What [registerWithReferral] does to the store, by its outcome. *)
Lemma registerWithReferral_effect (fuel : nat) (code : string) (w : World)
    (r : Outcome User) (w' : World) :
  registerWithReferral fuel code w = (r, w') ->
  trades w' = trades w /\ commissionRows w' = commissionRows w
  /\ (nextId w <= nextId w')%nat
  /\ match r with
     | Ok u =>
         exists referrer d w1 id c,
           find_code code (users w) = Some referrer
           /\ calculateReferralDepth fuel (_id referrer) (logged [UserFindOne code] w)
              = (Ok d, w1)
           /\ d < MAX_REFERRAL_DEPTH
           /\ u = newUser id c (Some (_id referrer)) (d + 1)
           /\ (nextId w <= id)%nat /\ nextId w' = S id
           /\ find_code c (users w) = None
           /\ users w'
              = update_first (fun x => Nat.eqb (_id x) (_id referrer))
                             (push_directReferral id) (users w ++ [u])
     | Throw e =>
         users w' = users w
         /\ (find_code code (users w) = None ->
             e = NotFoundException "Invalid referral code"
             /\ w' = logged [UserFindOne code] w)
     | Diverge => users w' = users w
     end.
Proof.
  intros E. unfold registerWithReferral, bind at 1 in E. rewrite findOne_run in E.
  destruct (find_code code (users w)) as [referrer|] eqn:Ec.
  - unfold bind in E.
    destruct (calculateReferralDepth fuel (_id referrer) (logged [UserFindOne code] w))
      as [rd w1] eqn:R.
    destruct (calculateReferralDepth_reads _ _ _ _ _ R) as [[ops Ew] NT].
    destruct rd as [d|e|]; [|exfalso; apply (NT e); reflexivity|].
    + destruct (Z.leb_spec MAX_REFERRAL_DEPTH d).
      * inversion E; subst. cbn.
        repeat split; try reflexivity; try lia; congruence.
      * apply registerWithReferral_attempts_effect in E. rewrite Ew in E.
        cbn [users nextId trades commissionRows logged] in E.
        destruct E as [T [C [L E]]]. repeat (split; [assumption|]).
        destruct r as [u|e|]; [| |contradiction].
        -- destruct E as [id [c E]]. exists referrer, d, w1, id, c.
           split; [reflexivity|]. split; [exact R|]. split; [assumption|].
           exact E.
        -- destruct E as [_ E]. split; [exact E|discriminate].
    + inversion E; subst. cbn. repeat split; reflexivity || lia.
  - inversion E; subst. cbn. repeat split; reflexivity || lia.
Qed.

Lemma distributeCommissions_loop_incremented (comms : list CommissionBreakdown) :
  forall w r w',
    distributeCommissions_loop comms w = (r, w') ->
    forall us, incremented us (users w) -> incremented us (users w').
Proof.
  induction comms as [|c rest IH]; intros w r w' E us I0; simpl in E.
  - inversion E; subst. exact I0.
  - unfold bind at 1, decimal128 in E.
    destruct (Decimal128_fromString (toString (amount c))) as [a|].
    + unfold ret at 1, bind at 1 in E. simpl in E.
      apply (IH _ _ _ E). simpl. apply incremented_commission. exact I0.
    + inversion E; subst. exact I0.
Qed.

(** Whatever its outcome, [processTrade] changes user documents through
    [$inc] updates of totals only, and takes at most one identifier. *)
Lemma processTrade_incremented (userId volume token : string) (side : Side)
    (chain : Chain) (w : World) (r : Outcome (Trade * FeeDistribution)) (w' : World) :
  processTrade userId volume token side chain w = (r, w') ->
  incremented (users w) (users w') /\ (nextId w <= nextId w' <= S (nextId w))%nat.
Proof.
  intros E. unfold processTrade in E.
  destruct (ObjectId_of_string userId) as [id|];
    [|inversion E; subst; split; [constructor|lia]].
  unfold bind at 1 in E. rewrite findById_run in E.
  destruct (find_user id (users w)) as [user|];
    [|inversion E; subst; split; [constructor|simpl; lia]].
  destruct (isNaN (BigNumber_of_string volume) ||
            isLessThanOrEqualTo (BigNumber_of_string volume) (BN 0));
    [inversion E; subst; split; [constructor|simpl; lia]|].
  unfold bind at 1 in E.
  destruct (calculateFeeDistribution_run user (BigNumber_of_string volume) chain token
              (logged [UserFindById id] w)) as [ops [R _]].
  rewrite R in E. set (fd0 := if isZero _ then _ else _) in *.
  set (w1 := logged ops (logged [UserFindById id] w)) in *.
  unfold bind at 1 in E.
  destruct (newObjectId_run w1) as [w2 [E2 [_ [U2 [_ [_ [_ N2]]]]]]]. rewrite E2 in E.
  unfold bind at 1 in E.
  match type of E with
  | context [trade_save ?t w2] =>
      destruct (trade_save_run t w2) as [w3 [E3 [_ [U3 [_ [N3 _]]]]]]
  end.
  rewrite E3 in E.
  destruct (validTrade _) eqn:V in E;
    [|inversion E; subst r w'; split;
      [rewrite U3, U2; apply incremented_none|rewrite N3, N2; simpl; lia]].
  unfold bind at 1 in E.
  match type of E with
  | context [distributeCommissions ?a ?b ?c w3] =>
      destruct (distributeCommissions a b c w3) as [o w4] eqn:Ed
  end.
  assert (I4 : incremented (users w) (users w4) /\ nextId w4 = nextId w3).
  { unfold distributeCommissions, bind in Ed.
    assert (I3 : incremented (users w) (users w3))
      by (rewrite U3, U2; constructor).
    assert (N4 : forall cs wa ra wb,
              distributeCommissions_loop cs wa = (ra, wb) -> nextId wb = nextId wa).
    { clear. induction cs as [|c rest IH]; intros wa ra wb E; simpl in E.
      - inversion E; reflexivity.
      - unfold bind at 1, decimal128 in E.
        destruct (Decimal128_fromString (toString (amount c))).
        + unfold ret at 1, bind at 1 in E. simpl in E. apply IH in E. exact E.
        + inversion E; reflexivity. }
    destruct (0 <? _)%nat; simpl in Ed.
    - split; [|apply N4 in Ed; exact Ed].
      apply (distributeCommissions_loop_incremented _ _ _ _ Ed). exact I3.
    - split; [|apply N4 in Ed; exact Ed].
      apply (distributeCommissions_loop_incremented _ _ _ _ Ed). exact I3. }
  destruct I4 as [I4 N4].
  assert (Nw : nextId w4 = S (nextId w)) by (rewrite N4, N3, N2; reflexivity).
  destruct o as [[]|e|];
    [|inversion E; subst; split; [exact I4|lia]
     |inversion E; subst; split; [exact I4|lia]].
  unfold bind at 1 in E. cbn [newDate] in E. unfold bind at 1 in E.
  match type of E with
  | context [trade_save ?t w4] =>
      destruct (trade_save_run t w4) as [w5 [E5 [_ [U5 [_ [N5 _]]]]]]
  end.
  rewrite E5, validTrade_markDistributed, V in E.
  unfold bind at 1, updateUserStats, bind, decimal128 in E.
  destruct (Decimal128_fromString (toString (cashback fd0))) as [cb|].
  - simpl in E. inversion E; subst. simpl. split; [|lia].
    apply incremented_cashback. rewrite U5. exact I4.
  - inversion E; subst. split; [rewrite U5; exact I4|lia].
Qed.

(** ** The user collection along a run *)

Lemma firstFree_Some (us : list User) (n : nat) :
  forall start i,
    firstFree us start n = Some i ->
    find_code (generateCode i) us = None /\ (start <= i < start + n)%nat.
Proof.
  induction n as [|n IH]; intros start i E; simpl in E; [discriminate|].
  destruct (find_code (generateCode start) us) eqn:F.
  - apply IH in E. destruct E as [E B]. split; [exact E|lia].
  - inversion E; subst. split; [exact F|lia].
Qed.

Lemma incremented_wfUsers (us us' : list User) (next : ObjectId) :
  incremented us us' -> wfUsers us next -> wfUsers us' next.
Proof.
  induction 1 as [us|us us' id a I IH|us us' id a I IH]; intros WF.
  - exact WF.
  - apply wfUsers_update_first; [apply inc_commission_sameShape|apply IH, WF].
  - apply wfUsers_update_first; [apply inc_cashback_sameShape|apply IH, WF].
Qed.

(** Induction over the user collections of the reachable worlds: a root is
    appended with a fresh identifier and a free code, a child is appended
    under a referrer of depth below 3 and pushed on the referrer's list, or
    a total is incremented. *)
Lemma reachable_users_ind (P : list User -> Prop) :
  P [] ->
  (forall us next i c,
      wfUsers us next -> P us -> (next <= i)%nat -> find_code c us = None ->
      P (us ++ [newUser i c None 0])) ->
  (forall us next i c referrer,
      wfUsers us next -> P us -> (next <= i)%nat -> find_code c us = None ->
      In referrer us -> referralDepth referrer < MAX_REFERRAL_DEPTH ->
      P (update_first (fun x => Nat.eqb (_id x) (_id referrer))
                      (push_directReferral i)
                      (us ++ [newUser i c (Some (_id referrer))
                                      (referralDepth referrer + 1)]))) ->
  (forall us next id a,
      wfUsers us next -> P us ->
      P (update_first (fun x => Nat.eqb (_id x) id) (inc_commission a) us)) ->
  (forall us next id a,
      wfUsers us next -> P us ->
      P (update_first (fun x => Nat.eqb (_id x) id) (inc_cashback a) us)) ->
  forall w, reachable w -> P (users w).
Proof.
  intros P0 Proot Pchild Pcomm Pcash w R.
  induction R as [|w r w' R IH E|w fuel code r w' R IH E
                  |w userId volume token side chain r w' R IH E].
  - exact P0.
  - pose proof (reachable_wellFormed _ R) as WF.
    destruct (generateReferralCode_effect w) as [w1 [_ [_ G]]].
    destruct (firstFree (users w) (drawn w) maxAttempts) as [i|] eqn:F.
    + destruct G as [G [U _]]. rewrite E in G. inversion G; subst.
      rewrite U. apply (Proot _ (nextId w)); [exact WF|exact IH|lia|].
      apply (firstFree_Some _ _ _ _ F).
    + destruct G as [G [U _]]. rewrite E in G. inversion G; subst.
      rewrite U. exact IH.
  - pose proof (reachable_wellFormed _ R) as WF.
    destruct (registerWithReferral_effect _ _ _ _ _ E) as [_ [_ [_ G]]].
    destruct r as [u|e|]; [|destruct G as [G _]; rewrite G; exact IH
                           |rewrite G; exact IH].
    destruct G as [referrer [d [w1 [id [c [Ec [Ed [Hd [Eu [Hid [_ [Fc U]]]]]]]]]]]].
    pose proof (find_code_In _ _ _ Ec) as Hin.
    assert (WF1 : wellFormed (logged [UserFindOne code] w))
      by (apply (wellFormed_same w); [reflexivity|simpl; lia|exact WF]).
    destruct (calculateReferralDepth_any fuel referrer _ WF1 Hin) as [ops [Ra _]].
    rewrite Ed in Ra.
    destruct (Z.to_nat (referralDepth referrer) <=? fuel)%nat; [|discriminate].
    injection Ra as Ra _. subst d u. rewrite U.
    apply (Pchild _ (nextId w)); assumption.
  - pose proof (reachable_wellFormed _ R) as WF.
    destruct (processTrade_incremented _ _ _ _ _ _ _ _ E) as [I _].
    unfold wellFormed in WF. revert IH WF.
    generalize (nextId w). induction I as [us|us us' id a I IHI|us us' id a I IHI];
      intros next IH WF.
    + exact IH.
    + apply (Pcomm _ next);
        [apply (incremented_wfUsers _ _ _ I WF)|apply (IHI next IH WF)].
    + apply (Pcash _ next);
        [apply (incremented_wfUsers _ _ _ I WF)|apply (IHI next IH WF)].
Qed.

Lemma map_update_first_same {B} (g : User -> B) (p : User -> bool)
    (f : User -> User) (us : list User) :
  (forall x, g (f x) = g x) -> map g (update_first p f us) = map g us.
Proof.
  intros Hg. induction us as [|x us IH]; simpl; [reflexivity|].
  destruct (p x); simpl; [rewrite Hg; reflexivity|rewrite IH; reflexivity].
Qed.

Lemma find_code_None (c : string) (us : list User) :
  find_code c us = None -> ~ In c (map referralCode us).
Proof.
  unfold find_code. intros F Hin. apply in_map_iff in Hin.
  destruct Hin as [x [E Hin]].
  pose proof (find_none _ _ F x Hin) as N. simpl in N.
  rewrite E, String.eqb_refl in N. discriminate.
Qed.


Lemma NoDup_snoc {A} (l : list A) (a : A) :
  NoDup l -> ~ In a l -> NoDup (l ++ [a]).
Proof.
  induction l as [|x l IH]; simpl; intros ND Nin.
  - constructor; [intros []|constructor].
  - inversion ND as [|? ? Nx ND']; subst. constructor.
    + intros Hin. apply in_app_or in Hin. destruct Hin as [Hin|[E|[]]].
      * exact (Nx Hin).
      * apply Nin. left. symmetry. exact E.
    + apply IH; [exact ND'|]. intros Hin. apply Nin. right. exact Hin.
Qed.

Lemma reachable_codes_NoDup (w : World) :
  reachable w -> NoDup (map referralCode (users w)).
Proof.
  apply (reachable_users_ind (fun us => NoDup (map referralCode us))).
  - constructor.
  - intros us next i c _ ND _ F. rewrite map_app. simpl.
    apply NoDup_snoc; [exact ND|apply find_code_None, F].
  - intros us next i c referrer _ ND _ F _ _.
    rewrite map_update_first_same by reflexivity.
    rewrite map_app. simpl.
    apply NoDup_snoc; [exact ND|apply find_code_None, F].
  - intros us next id a _ ND. rewrite map_update_first_same by reflexivity. exact ND.
  - intros us next id a _ ND. rewrite map_update_first_same by reflexivity. exact ND.
Qed.

Lemma find_code_NoDup (us : list User) (u : User) :
  NoDup (map referralCode us) -> In u us -> find_code (referralCode u) us = Some u.
Proof.
  unfold find_code.
  induction us as [|x us IH]; simpl; intros ND Hin; [contradiction|].
  inversion ND as [|? ? Nin ND']; subst.
  destruct Hin as [->|Hin].
  - rewrite String.eqb_refl. reflexivity.
  - destruct (String.eqb_spec (referralCode x) (referralCode u)) as [E|_].
    + exfalso. apply Nin. rewrite E. apply in_map. exact Hin.
    + apply IH; assumption.
Qed.

Lemma Forall_update_first {A} (Q : A -> Prop) (p : A -> bool) (f : A -> A)
    (l : list A) :
  (forall x, Q x -> Q (f x)) -> Forall Q l -> Forall Q (update_first p f l).
Proof.
  intros Hf. induction 1 as [|x l Hx Hl IH]; simpl; [constructor|].
  destruct (p x); constructor; auto.
Qed.

(** ** Child lists and parent pointers *)

(** [linked], read through the pair (referrer, direct referrals) stored
    under each identifier. *)
Lemma linked_kin (us : list User) :
  linked us <->
  (forall p c,
      (exists k, option_map (fun u => (referrerId u, directReferrals u))
                            (find_user p us) = Some k /\ In c (snd k))
      <-> (exists k, option_map (fun u => (referrerId u, directReferrals u))
                                (find_user c us) = Some k /\ fst k = Some p)).
Proof.
  unfold linked. split; intros L p c; specialize (L p c).
  - split.
    + intros [k [Ek Hin]]. destruct (find_user p us) as [pu|] eqn:Ep; [|discriminate].
      inversion Ek; subst k. simpl in Hin.
      destruct (proj1 L (ex_intro _ pu (conj eq_refl Hin))) as [cu [Ec Er]].
      exists (referrerId cu, directReferrals cu). rewrite Ec. split; [reflexivity|exact Er].
    + intros [k [Ek Hf]]. destruct (find_user c us) as [cu|] eqn:Ec; [|discriminate].
      inversion Ek; subst k. simpl in Hf.
      destruct (proj2 L (ex_intro _ cu (conj eq_refl Hf))) as [pu [Ep Hin]].
      exists (referrerId pu, directReferrals pu). rewrite Ep. split; [reflexivity|exact Hin].
  - split.
    + intros [pu [Ep Hin]].
      destruct (proj1 L) as [k [Ek Hf]].
      { exists (referrerId pu, directReferrals pu). rewrite Ep. split; [reflexivity|exact Hin]. }
      destruct (find_user c us) as [cu|]; [|discriminate].
      inversion Ek; subst k. exists cu. split; [reflexivity|exact Hf].
    + intros [cu [Ec Hf]].
      destruct (proj2 L) as [k [Ek Hin]].
      { exists (referrerId cu, directReferrals cu). rewrite Ec. split; [reflexivity|exact Hf]. }
      destruct (find_user p us) as [pu|]; [|discriminate].
      inversion Ek; subst k. exists pu. split; [reflexivity|exact Hin].
Qed.

Section Kin.
Variables K K' : ObjectId -> option (option ObjectId * list ObjectId).
Hypothesis L : forall p c,
  (exists k, K p = Some k /\ In c (snd k)) <-> (exists k, K c = Some k /\ fst k = Some p).

Lemma linked_same :
  (forall x, K' x = K x) ->
  forall p c,
    (exists k, K' p = Some k /\ In c (snd k))
    <-> (exists k, K' c = Some k /\ fst k = Some p).
Proof. intros E p c. rewrite !E. apply L. Qed.

Lemma linked_root (i : ObjectId) :
  (forall x, K' x = match K x with
                    | Some k => Some k
                    | None => if Nat.eqb x i then Some (None, []) else None
                    end) ->
  forall p c,
    (exists k, K' p = Some k /\ In c (snd k))
    <-> (exists k, K' c = Some k /\ fst k = Some p).
Proof.
  intros E p c. split.
  - intros [k [Ek Hin]]. rewrite E in Ek.
    destruct (K p) as [kp|] eqn:Ep.
    + inversion Ek; subst kp.
      destruct (proj1 (L p c)) as [kc [Ec Hf]]; [exists k; rewrite Ep; auto|].
      exists kc. rewrite E, Ec. auto.
    + destruct (Nat.eqb p i); [|discriminate]. inversion Ek; subst k. destruct Hin.
  - intros [k [Ek Hf]]. rewrite E in Ek.
    destruct (K c) as [kc|] eqn:Ec.
    + inversion Ek; subst kc.
      destruct (proj2 (L p c)) as [kp [Ep Hin]]; [exists k; rewrite Ec; auto|].
      exists kp. rewrite E, Ep. auto.
    + destruct (Nat.eqb c i); [|discriminate]. inversion Ek; subst k. discriminate.
Qed.

Lemma linked_child (rid i : ObjectId) (r : option ObjectId * list ObjectId) :
  K rid = Some r -> K i = None ->
  (forall x, K' x = if Nat.eqb x rid then Some (fst r, snd r ++ [i])
                    else if Nat.eqb x i then Some (Some rid, [])
                    else K x) ->
  forall p c,
    (exists k, K' p = Some k /\ In c (snd k))
    <-> (exists k, K' c = Some k /\ fst k = Some p).
Proof.
  intros Er Ei E.
  assert (old : forall x k, K x = Some k ->
                  exists k', K' x = Some k' /\ fst k' = fst k
                             /\ forall y, In y (snd k) -> In y (snd k')).
  { intros x k Ex. rewrite E. destruct (Nat.eqb_spec x rid) as [->|_].
    - rewrite Er in Ex. inversion Ex; subst k. eexists. split; [reflexivity|].
      split; [reflexivity|]. intros y Hy. simpl. apply in_or_app. left. exact Hy.
    - destruct (Nat.eqb_spec x i) as [->|_]; [congruence|].
      exists k. auto. }
  assert (Hri : rid <> i) by congruence.
  intros p c. split.
  - intros [k [Ek Hin]]. rewrite E in Ek.
    assert (viaK : (exists kp, K p = Some kp /\ In c (snd kp)) ->
                   exists k0, K' c = Some k0 /\ fst k0 = Some p).
    { intros Hp. destruct (proj1 (L p c) Hp) as [kc [Ec Hf]].
      destruct (old _ _ Ec) as [k' [E' [F' _]]]. exists k'. split; [exact E'|congruence]. }
    destruct (Nat.eqb_spec p rid) as [->|Np].
    + inversion Ek; subst k. simpl in Hin. apply in_app_or in Hin.
      destruct Hin as [Hin|[<-|[]]].
      * apply viaK. exists r. auto.
      * exists (Some rid, []). rewrite E.
        destruct (Nat.eqb_spec i rid) as [->|_]; [congruence|].
        rewrite Nat.eqb_refl. auto.
    + destruct (Nat.eqb_spec p i) as [->|_].
      * inversion Ek; subst k. destruct Hin.
      * apply viaK. exists k. auto.
  - intros [k [Ek Hf]]. rewrite E in Ek.
    assert (viaK : (exists kc, K c = Some kc /\ fst kc = Some p) ->
                   exists k0, K' p = Some k0 /\ In c (snd k0)).
    { intros Hc. destruct (proj2 (L p c) Hc) as [kp [Ep Hin]].
      destruct (old _ _ Ep) as [k' [E' [_ I']]]. exists k'. split; [exact E'|auto]. }
    destruct (Nat.eqb_spec c rid) as [->|Nc].
    + inversion Ek; subst k. simpl in Hf. apply viaK. exists r. auto.
    + destruct (Nat.eqb_spec c i) as [->|_].
      * inversion Ek; subst k. simpl in Hf. inversion Hf; subst p.
        exists (fst r, snd r ++ [i]). rewrite E, Nat.eqb_refl. split; [reflexivity|].
        simpl. apply in_or_app. right. left. reflexivity.
      * apply viaK. exists k. auto.
Qed.

End Kin.

Lemma find_user_fresh (us : list User) (next i : ObjectId) :
  wfUsers us next -> (next <= i)%nat -> find_user i us = None.
Proof.
  intros [_ F] Hi. destruct (find_user i us) as [u|] eqn:E; [|reflexivity].
  pose proof (find_user_id _ _ _ E) as Eid.
  pose proof (proj1 (Forall_forall _ _) F u (find_user_In _ _ _ E)) as [B _]. lia.
Qed.

Lemma reachable_linked (w : World) : reachable w -> linked (users w).
Proof.
  apply (reachable_users_ind linked).
  - intros p c. split; intros [x [E _]]; discriminate.
  - intros us next i c WF L Hi _. apply linked_kin.
    apply (linked_root _ _ (proj1 (linked_kin us) L) i).
    intros x. rewrite find_user_app. simpl.
    destruct (find_user x us) as [y|]; [reflexivity|].
    rewrite Nat.eqb_sym. destruct (Nat.eqb x i); reflexivity.
  - intros us next i c referrer WF L Hi _ Hin _. apply linked_kin.
    pose proof (find_user_NoDup _ _ (proj1 WF) Hin) as Er.
    pose proof (find_user_fresh _ _ _ WF Hi) as Ei.
    apply (linked_child _ _ (proj1 (linked_kin us) L) (_id referrer) i
             (referrerId referrer, directReferrals referrer)).
    + rewrite Er. reflexivity.
    + rewrite Ei. reflexivity.
    + intros x. rewrite find_user_update_first by reflexivity.
      rewrite find_user_app. simpl.
      destruct (Nat.eqb_spec x (_id referrer)) as [->|Nx].
      * rewrite Er. reflexivity.
      * destruct (find_user x us) as [y|] eqn:Ex.
        -- destruct (Nat.eqb_spec x i) as [->|_]; [congruence|reflexivity].
        -- rewrite Nat.eqb_sym. destruct (Nat.eqb x i); reflexivity.
  - intros us next id a _ L. apply linked_kin.
    apply (linked_same _ _ (proj1 (linked_kin us) L)).
    intros x. rewrite find_user_update_first by reflexivity.
    destruct (Nat.eqb x id); [|reflexivity].
    destruct (find_user x us); reflexivity.
  - intros us next id a _ L. apply linked_kin.
    apply (linked_same _ _ (proj1 (linked_kin us) L)).
    intros x. rewrite find_user_update_first by reflexivity.
    destruct (Nat.eqb x id); [|reflexivity].
    destruct (find_user x us); reflexivity.
Qed.

(** ** The chain and the stored depth *)

(** Under the invariant the walk from [u] goes up one level of depth per
    entry, until the root or the bound. *)
Lemma chainFrom_depths (us : list User) :
  Forall (parentOk us) us ->
  forall n u level, In u us ->
    List.length (chainFrom us n (Some u) level)
    = Nat.min n (Z.to_nat (referralDepth u))
    /\ forall i e,
         nth_error (chainFrom us n (Some u) level) i = Some e ->
         exists a, find_user (chain_userId e) us = Some a
                   /\ referralDepth a = referralDepth u - Z.of_nat (S i).
Proof.
  intros Hall. induction n as [|n IH]; intros u level Hin.
  - split; [reflexivity|]. intros [|i] e E; discriminate.
  - pose proof (proj1 (Forall_forall _ _) Hall u Hin) as [[B1 B2] P].
    destruct u as [i0 c0 [parent|] ? d ? ? ? ? ? ?];
      cbn [referrerId referralDepth chainFrom] in *.
    + destruct P as [pu [Ep Ed]]. rewrite Ep.
      pose proof (find_user_In _ _ _ Ep) as Hp.
      pose proof (proj1 (Forall_forall _ _) Hall pu Hp) as [[C1 C2] _].
      destruct (IH pu (level + 1) Hp) as [Len Nth]. split.
      * cbn [List.length]. rewrite Len. lia.
      * intros [|i] e E; cbn [nth_error] in E.
        -- inversion E; subst e. cbn [chain_userId]. exists pu. split.
           ++ apply (find_user_self _ _ _ Ep).
           ++ lia.
        -- destruct (Nth i e E) as [a [Ea Da]]. exists a. split; [exact Ea|]. lia.
    + split; [subst d; cbn [List.length]; lia|]. intros [|i] e E; discriminate.
Qed.

Lemma chainOf_depths (us : list User) (next : ObjectId) (u : User) :
  wfUsers us next -> In u us ->
  Z.of_nat (List.length (chainOf us (_id u))) = referralDepth u
  /\ forall i e,
       nth_error (chainOf us (_id u)) i = Some e ->
       exists a, find_user (chain_userId e) us = Some a
                 /\ referralDepth a = referralDepth u - Z.of_nat (S i).
Proof.
  intros [ND Hall] Hin. unfold chainOf. rewrite (find_user_NoDup _ _ ND Hin).
  assert (Hp : Forall (parentOk us) us).
  { apply Forall_forall. intros x Hx.
    apply (proj2 (proj1 (Forall_forall _ _) Hall x Hx)). }
  pose proof (proj1 (Forall_forall _ _) Hp u Hin) as [[B1 B2] _].
  destruct (chainFrom_depths us Hp (Z.to_nat MAX_REFERRAL_DEPTH) u 1 Hin) as [Len Nth].
  split; [|exact Nth]. rewrite Len. unfold MAX_REFERRAL_DEPTH in *. lia.
Qed.

Lemma NoDup_nth_error_inj {A} (l : list A) :
  (forall i j a, nth_error l i = Some a -> nth_error l j = Some a -> i = j) ->
  NoDup l.
Proof.
  induction l as [|x l IH]; intros Hinj; constructor.
  - intros Hin. apply In_nth_error in Hin. destruct Hin as [j Ej].
    specialize (Hinj O (S j) x eq_refl Ej). discriminate.
  - apply IH. intros i j a Ei Ej.
    specialize (Hinj (S i) (S j) a Ei Ej). lia.
Qed.

(** Who is on the chain of a stored user, under the invariant: as many
    ancestors as the stored depth, no one twice, and never the user. *)
Lemma chainOf_ancestors (us : list User) (next : ObjectId) (u : User) :
  wfUsers us next -> In u us ->
  Z.of_nat (List.length (chainOf us (_id u))) = referralDepth u
  /\ NoDup (map chain_userId (chainOf us (_id u)))
  /\ ~ In (_id u) (map chain_userId (chainOf us (_id u))).
Proof.
  intros WF Hin. destruct (chainOf_depths us next u WF Hin) as [Len Nth].
  split; [exact Len|]. split.
  - apply NoDup_nth_error_inj. intros i j a Ei Ej.
    rewrite nth_error_map in Ei, Ej.
    destruct (nth_error (chainOf us (_id u)) i) as [ei|] eqn:Hi; [|discriminate].
    destruct (nth_error (chainOf us (_id u)) j) as [ej|] eqn:Hj; [|discriminate].
    simpl in Ei, Ej. injection Ei as Ei. injection Ej as Ej. subst a.
    destruct (Nth i ei Hi) as [x [Ex Dx]]. destruct (Nth j ej Hj) as [y [Ey Dy]].
    rewrite Ej, Ex in Ey. inversion Ey; subst y. lia.
  - intros Hself. apply In_nth_error in Hself. destruct Hself as [i Ei].
    rewrite nth_error_map in Ei.
    destruct (nth_error (chainOf us (_id u)) i) as [ei|] eqn:Hi; [|discriminate].
    simpl in Ei. inversion Ei as [E].
    destruct (Nth i ei Hi) as [x [Ex Dx]].
    rewrite E, (find_user_NoDup _ _ (proj1 WF) Hin) in Ex. inversion Ex; subst x. lia.
Qed.

(** ** The chain of a new user *)


(** A walk reads the identifiers, codes and parent pointers only: it is the
    same in a collection that keeps them, as long as every parent is
    stored. *)
Lemma chainFrom_grow (us us' : list User) :
  Forall (parentOk us) us ->
  (forall x y, find_user x us = Some y ->
               exists y', find_user x us' = Some y' /\ _id y' = _id y
                          /\ referralCode y' = referralCode y
                          /\ referrerId y' = referrerId y) ->
  forall n u u' level,
    In u us -> referrerId u' = referrerId u ->
    chainFrom us' n (Some u') level = chainFrom us n (Some u) level.
Proof.
  intros Hall Hk. induction n as [|n IH]; intros u u' level Hin Er; [reflexivity|].
  pose proof (proj1 (Forall_forall _ _) Hall u Hin) as [_ P].
  destruct u as [i c r ? d ? ? ? ? ? ?], u' as [i' c' r' ? d' ? ? ? ? ? ?].
  cbn [referrerId] in *. subst r'. destruct r as [parent|]; [|reflexivity].
  destruct P as [pu [Ep _]]. cbn [chainFrom]. rewrite Ep.
  destruct (Hk _ _ Ep) as [pu' [Ep' [Ei [Ec Er]]]]. rewrite Ep', Ei, Ec.
  f_equal. apply IH; [apply (find_user_In _ _ _ Ep)|exact Er].
Qed.


Lemma chainFrom_step (us : list User) (n : nat) (u : User) (level : Z) :
  chainFrom us (S n) (Some u) level
  = match referrerId u with
    | Some parent =>
        match find_user parent us with
        | Some referrer =>
            mkReferralChain (_id referrer) level (referralCode referrer)
              :: chainFrom us n (Some referrer) (level + 1)
        | None => []
        end
    | None => []
    end.
Proof. destruct u as [i c [parent|] ? d ? ? ? ? ? ?]; reflexivity. Qed.


(** ** What a trade does to the store *)

Lemma trade_save_effect (t : Trade) (w : World) :
  exists w1,
    trade_save t w = (if validTrade t then Ok tt else Throw ValidationError, w1)
    /\ trades w1 = (if validTrade t then saveTrade t (trades w) else trades w)
    /\ users w1 = users w /\ commissionRows w1 = commissionRows w
    /\ nextId w1 = nextId w /\ clock w1 = clock w /\ drawn w1 = drawn w.
Proof.
  unfold trade_save, bind, record, saveTrade. cbn [trades].
  destruct (validTrade t); [destruct (existsb _ (trades w))|]; eexists;
    (split; [reflexivity|]); repeat split; reflexivity.
Qed.

Lemma incremented_credit (us : list User)
    (credits : list (CommissionBreakdown * Decimal128)) :
  forall us', incremented us us' -> incremented us (creditCommissions us' credits).
Proof.
  unfold creditCommissions. induction credits as [|ca rest IH]; intros us' I.
  - exact I.
  - simpl. apply IH. apply incremented_commission. exact I.
Qed.

Lemma distributeCommissions_loop_effect (comms : list CommissionBreakdown) :
  forall w r w',
    distributeCommissions_loop comms w = (r, w') ->
    trades w' = trades w /\ commissionRows w' = commissionRows w
    /\ nextId w' = nextId w /\ clock w' = clock w /\ drawn w' = drawn w
    /\ match r with
       | Ok _ =>
           exists amounts,
             parsedAmounts comms amounts
             /\ users w' = creditCommissions (users w) (combine comms amounts)
       | Throw e => e = BSONError
       | Diverge => False
       end.
Proof.
  induction comms as [|c rest IH]; intros w r w' E; simpl in E.
  - inversion E; subst. repeat split. exists []. split; [constructor|reflexivity].
  - unfold bind at 1, decimal128 in E.
    destruct (Decimal128_fromString (toString (amount c))) as [a|] eqn:Ea.
    + unfold ret at 1, bind at 1 in E. simpl in E. apply IH in E.
      cbn [trades commissionRows nextId clock drawn users] in E.
      destruct E as [T [C [N [K [D R]]]]]. repeat (split; [assumption|]).
      destruct r as [[]|e|]; [|exact R|exact R].
      destruct R as [amounts [P U]]. exists (a :: amounts). split.
      * constructor; [exact Ea|exact P].
      * rewrite U. reflexivity.
    + inversion E; subst. repeat split.
Qed.

Lemma distributeCommissions_effect (tradeId sourceUserId : ObjectId)
    (fd : FeeDistribution) (w : World) (r : Outcome unit) (w' : World) :
  distributeCommissions tradeId sourceUserId fd w = (r, w') ->
  trades w' = trades w
  /\ commissionRows w'
     = commissionRows w ++ map (commissionDoc tradeId sourceUserId fd) (commissions fd)
  /\ nextId w' = nextId w /\ clock w' = clock w /\ drawn w' = drawn w
  /\ match r with
     | Ok _ =>
         exists amounts,
           parsedAmounts (commissions fd) amounts
           /\ users w' = creditCommissions (users w) (combine (commissions fd) amounts)
     | Throw e => e = BSONError
     | Diverge => False
     end.
Proof.
  unfold distributeCommissions, bind. rewrite length_map.
  destruct (commissions fd) as [|c rest] eqn:Ec.
  - cbn [List.length Nat.ltb Nat.leb ret map]. intros E.
    apply distributeCommissions_loop_effect in E. rewrite app_nil_r. exact E.
  - cbn [List.length Nat.ltb Nat.leb].
    unfold commissionModel_insertMany, bind, record. intros E.
    apply distributeCommissions_loop_effect in E.
    cbn [trades commissionRows nextId clock drawn users set_commissionRows] in E.
    exact E.
Qed.

(** What [processTrade] does, case by case. *)
Lemma processTrade_effect (userId volume token : string) (side : Side)
    (chain : Chain) (w : World) (r : Outcome (Trade * FeeDistribution)) (w' : World) :
  processTrade userId volume token side chain w = (r, w') ->
  clock w' = clock w /\ drawn w' = drawn w
  /\ match ObjectId_of_string userId with
     | None => r = Throw (BadRequestException "Invalid user ID format") /\ w' = w
     | Some id =>
         match find_user id (users w) with
         | None =>
             r = Throw (NotFoundException "User not found")
             /\ w' = logged [UserFindById id] w
         | Some user =>
             if isNaN (BigNumber_of_string volume)
                || isLessThanOrEqualTo (BigNumber_of_string volume) (BN 0)
             then r = Throw (BadRequestException "Invalid trade volume")
                  /\ w' = logged [UserFindById id] w
             else
               let fd := distributionOf (users w) user (BigNumber_of_string volume)
                                        chain token in
               let t0 := newTrade (nextId w) user volume token side chain fd in
               let t1 := markDistributed t0 (clock w) in
               nextId w' = S (nextId w)
               /\ if validTrade t0 then
                    commissionRows w'
                    = commissionRows w
                        ++ map (commissionDoc (nextId w) (_id user) fd) (commissions fd)
                    /\ ((r = Throw BSONError
                         /\ (trades w' = saveTrade t0 (trades w)
                             \/ trades w' = saveTrade t1 (saveTrade t0 (trades w))))
                        \/ (r = Ok (t1, fd)
                            /\ trades w' = saveTrade t1 (saveTrade t0 (trades w))
                            /\ exists amounts cb,
                                 parsedAmounts (commissions fd) amounts
                                 /\ Decimal128_fromString (toString (cashback fd))
                                    = Some cb
                                 /\ users w'
                                    = update_first
                                        (fun u => Nat.eqb (_id u) (_id user))
                                        (inc_cashback cb)
                                        (creditCommissions (users w)
                                           (combine (commissions fd) amounts))))
                  else
                    r = Throw ValidationError
                    /\ users w' = users w /\ trades w' = trades w
                    /\ commissionRows w' = commissionRows w
         end
     end.
Proof.
  intros E. unfold processTrade in E.
  destruct (ObjectId_of_string userId) as [id|];
    [|inversion E; subst; repeat split].
  unfold bind at 1 in E. rewrite findById_run in E.
  destruct (find_user id (users w)) as [user|];
    [|inversion E; subst; repeat split].
  destruct (isNaN (BigNumber_of_string volume) ||
            isLessThanOrEqualTo (BigNumber_of_string volume) (BN 0));
    [inversion E; subst; repeat split|].
  unfold bind at 1 in E.
  destruct (calculateFeeDistribution_run user (BigNumber_of_string volume) chain token
              (logged [UserFindById id] w)) as [ops [R _]].
  rewrite R in E.
  change (if isZero (feeOf user (BigNumber_of_string volume)) then _ else _)
    with (distributionOf (users w) user (BigNumber_of_string volume) chain token) in E.
  set (fd := distributionOf (users w) user (BigNumber_of_string volume) chain token) in *.
  set (w1 := logged ops (logged [UserFindById id] w)) in *.
  unfold bind at 1 in E.
  destruct (newObjectId_run w1) as [w2 [E2 [_ [U2 [C2 [T2 [K2 N2]]]]]]].
  assert (D2 : drawn w2 = drawn w) by (inversion E2; reflexivity).
  rewrite E2 in E.
  fold (newTrade (nextId w1) user volume token side chain fd) in E.
  change (nextId w1) with (nextId w) in *.
  set (t0 := newTrade (nextId w) user volume token side chain fd) in *.
  unfold bind at 1 in E.
  destruct (trade_save_effect t0 w2) as [w3 [E3 [T3 [U3 [C3 [N3 [K3 D3]]]]]]].
  rewrite E3 in E. cbv zeta.
  change (newTrade (nextId w) user volume token side chain fd) with t0.
  destruct (validTrade t0) eqn:V.
  2:{ inversion E; subst r w'.
      split; [rewrite K3, K2; reflexivity|]. split; [rewrite D3, D2; reflexivity|].
      split; [rewrite N3, N2; reflexivity|]. split; [reflexivity|].
      split; [rewrite U3, U2; reflexivity|].
      split; [rewrite T3, T2; reflexivity|rewrite C3, C2; reflexivity]. }
  unfold bind at 1 in E. cbn [t_id t0 newTrade] in E.
  destruct (distributeCommissions (nextId w) (_id user) fd w3) as [o w4] eqn:Ed.
  apply distributeCommissions_effect in Ed.
  destruct Ed as [T4 [C4 [N4 [K4 [D4 R4]]]]].
  assert (Kw : clock w4 = clock w) by (rewrite K4, K3, K2; reflexivity).
  assert (Dw : drawn w4 = drawn w) by (rewrite D4, D3, D2; reflexivity).
  assert (Nw : nextId w4 = S (nextId w)) by (rewrite N4, N3, N2; reflexivity).
  assert (Cw : commissionRows w4
               = commissionRows w
                   ++ map (commissionDoc (nextId w) (_id user) fd) (commissions fd))
    by (rewrite C4, C3, C2; reflexivity).
  assert (Tw : trades w4 = saveTrade t0 (trades w)) by (rewrite T4, T3, T2; reflexivity).
  destruct o as [[]|e|]; [|subst e|contradiction].
  - unfold bind at 1 in E. cbn [newDate] in E. unfold bind at 1 in E.
    rewrite Kw in E.
    destruct (trade_save_effect (markDistributed t0 (clock w)) w4)
      as [w5 [E5 [T5 [U5 [C5 [N5 [K5 D5]]]]]]].
    rewrite validTrade_markDistributed, V in E5, T5.
    rewrite E5 in E. unfold bind at 1, updateUserStats, bind, decimal128 in E.
    destruct (Decimal128_fromString (toString (cashback fd))) as [cb|] eqn:Ecb.
    + cbn [ret userModel_incCashback bind record] in E. inversion E; subst r w'.
      cbn [clock drawn nextId commissionRows trades users set_users].
      split; [congruence|]. split; [congruence|]. split; [congruence|].
      split; [congruence|]. right. split; [reflexivity|].
      split; [rewrite T5, Tw; reflexivity|].
      destruct R4 as [amounts [P U4]]. exists amounts, cb.
      split; [exact P|]. split; [first [exact Ecb|reflexivity]|].
      rewrite U5, U4, U3, U2. reflexivity.
    + inversion E; subst r w'.
      split; [congruence|]. split; [congruence|]. split; [congruence|].
      split; [congruence|]. left. split; [reflexivity|]. right.
      rewrite T5, Tw. reflexivity.
  - inversion E; subst r w'.
    split; [congruence|]. split; [congruence|]. split; [congruence|].
    split; [congruence|]. left. split; [reflexivity|]. left. exact Tw.
Qed.

(** ** The trade collection along a run *)

Lemma saveTrade_new (t : Trade) (ts : list Trade) :
  Forall (fun x => (t_id x < t_id t)%nat) ts -> saveTrade t ts = ts ++ [t].
Proof.
  intros F. unfold saveTrade.
  replace (existsb (fun x => Nat.eqb (t_id x) (t_id t)) ts) with false; [reflexivity|].
  symmetry. induction F as [|x ts Hx _ IH]; simpl; [reflexivity|].
  rewrite IH. destruct (Nat.eqb_spec (t_id x) (t_id t)); [lia|reflexivity].
Qed.

Lemma saveTrade_again (t t' : Trade) (ts : list Trade) :
  t_id t' = t_id t ->
  Forall (fun x => (t_id x < t_id t)%nat) ts ->
  saveTrade t' (ts ++ [t]) = ts ++ [t'].
Proof.
  intros Ei F. unfold saveTrade. rewrite Ei.
  replace (existsb (fun x => Nat.eqb (t_id x) (t_id t)) (ts ++ [t])) with true.
  - induction F as [|x ts Hx _ IH]; simpl.
    + rewrite Nat.eqb_refl. reflexivity.
    + destruct (Nat.eqb_spec (t_id x) (t_id t)); [lia|]. rewrite IH. reflexivity.
  - symmetry. rewrite existsb_app. simpl. rewrite Nat.eqb_refl.
    rewrite orb_true_r. reflexivity.
Qed.

(** The trade documents of a reachable world carry distinct identifiers,
    all handed out already. *)
Lemma reachable_trades (w : World) :
  reachable w ->
  NoDup (map t_id (trades w)) /\ Forall (fun t => (t_id t < nextId w)%nat) (trades w).
Proof.
  assert (mono : forall ts n n', (n <= n')%nat ->
            Forall (fun t => (t_id t < n)%nat) ts ->
            Forall (fun t => (t_id t < n')%nat) ts).
  { intros ts n n' Hn F. eapply Forall_impl; [|exact F]. simpl. intros; lia. }
  assert (snoc : forall ts n t, t_id t = n ->
            NoDup (map t_id ts) -> Forall (fun x => (t_id x < n)%nat) ts ->
            NoDup (map t_id (ts ++ [t]))
            /\ Forall (fun x => (t_id x < S n)%nat) (ts ++ [t])).
  { intros ts n t Et ND F. split.
    - rewrite map_app. simpl. apply NoDup_snoc; [exact ND|].
      intros Hin. apply in_map_iff in Hin. destruct Hin as [x [Ex Hx]].
      pose proof (proj1 (Forall_forall _ _) F x Hx). simpl in *. lia.
    - apply Forall_app. split; [apply (mono _ n); [lia|exact F]|].
      constructor; [lia|constructor]. }
  induction 1 as [|w r w' R IH E|w fuel code r w' R IH E
                  |w userId volume token side chain r w' R IH E].
  - split; constructor.
  - destruct IH as [ND F].
    destruct (generateReferralCode_effect w) as [w1 [T [_ G]]].
    assert (Ew : w1 = w' /\ (nextId w <= nextId w1)%nat).
    { destruct (firstFree (users w) (drawn w) maxAttempts);
        destruct G as [G [_ [N _]]]; rewrite E in G; inversion G; subst;
        split; [reflexivity|lia|reflexivity|lia]. }
    destruct Ew as [<- N]. rewrite T. split; [exact ND|apply (mono _ _ _ N F)].
  - destruct IH as [ND F].
    destruct (registerWithReferral_effect _ _ _ _ _ E) as [T [_ [N _]]].
    rewrite T. split; [exact ND|apply (mono _ _ _ N F)].
  - destruct IH as [ND F].
    destruct (processTrade_effect _ _ _ _ _ _ _ _ E) as [_ [_ G]].
    destruct (ObjectId_of_string userId) as [id|];
      [|destruct G as [_ ->]; split; assumption].
    destruct (find_user id (users w)) as [user|];
      [|destruct G as [_ ->]; split; assumption].
    destruct (isNaN _ || _); [destruct G as [_ ->]; split; assumption|].
    cbv zeta in G. destruct G as [N G]. rewrite N.
    set (t0 := newTrade (nextId w) user volume token side chain _) in *.
    destruct (validTrade t0).
    2:{ destruct G as [_ [_ [T _]]]. rewrite T.
        split; [exact ND|apply (mono _ (nextId w)); [lia|exact F]]. }
    destruct G as [_ G].
    assert (S0 : saveTrade t0 (trades w) = trades w ++ [t0])
      by (apply saveTrade_new; exact F).
    assert (S1 : saveTrade (markDistributed t0 (clock w)) (saveTrade t0 (trades w))
                 = trades w ++ [markDistributed t0 (clock w)])
      by (rewrite S0; apply saveTrade_again; [reflexivity|exact F]).
    destruct G as [[_ [T|T]]|[_ [T _]]]; rewrite T.
    + rewrite S0. apply snoc; [reflexivity|exact ND|exact F].
    + rewrite S1. apply snoc; [reflexivity|exact ND|exact F].
    + rewrite S1. apply snoc; [reflexivity|exact ND|exact F].
Qed.

(** ** The commission rows along a run *)

Lemma keeps_refl (us : list User) : keeps us us.
Proof. intros x y E. exists y. auto. Qed.

Lemma keeps_trans (a b c : list User) : keeps a b -> keeps b c -> keeps a c.
Proof.
  intros K1 K2 x y E. destruct (K1 _ _ E) as [y1 [E1 [I1 [C1 R1]]]].
  destruct (K2 _ _ E1) as [y2 [E2 [I2 [C2 R2]]]].
  exists y2. repeat split; congruence.
Qed.

Lemma keeps_update_first (us : list User) (r : ObjectId) (f : User -> User) :
  (forall x, _id (f x) = _id x /\ referralCode (f x) = referralCode x
             /\ referrerId (f x) = referrerId x) ->
  keeps us (update_first (fun x => Nat.eqb (_id x) r) f us).
Proof.
  intros Hf x y E. rewrite find_user_update_first by (intros z; apply Hf).
  rewrite E. destruct (Nat.eqb x r).
  - exists (f y). split; [reflexivity|apply Hf].
  - exists y. auto.
Qed.

Lemma keeps_app (us : list User) (u : User) : keeps us (us ++ [u]).
Proof. intros x y E. rewrite find_user_app, E. exists y. auto. Qed.

Lemma keeps_incremented (us us' : list User) : incremented us us' -> keeps us us'.
Proof.
  induction 1 as [us|us us' id a I IH|us us' id a I IH].
  - apply keeps_refl.
  - apply (keeps_trans _ _ _ IH). apply keeps_update_first. intros x. repeat split.
  - apply (keeps_trans _ _ _ IH). apply keeps_update_first. intros x. repeat split.
Qed.

Lemma chainOf_keeps (us us' : list User) (next : ObjectId) (x : ObjectId) (u : User) :
  wfUsers us next -> keeps us us' -> find_user x us = Some u ->
  chainOf us' x = chainOf us x.
Proof.
  intros [_ Hall] K E. unfold chainOf. rewrite E.
  destruct (K _ _ E) as [u' [E' [_ [_ Er]]]]. rewrite E'.
  apply chainFrom_grow; [|exact K|apply (find_user_In _ _ _ E)|exact Er].
  apply Forall_forall. intros z Hz.
  apply (proj2 (proj1 (Forall_forall _ _) Hall z Hz)).
Qed.

Lemma onChain_keeps (us us' : list User) (next : ObjectId) (c : Commission) :
  wfUsers us next -> keeps us us' -> onChain us c -> onChain us' c.
Proof.
  intros WF K [Hc [code Hin]]. split; [exact Hc|]. exists code.
  destruct (find_user (c_sourceUserId c) us) as [u|] eqn:E.
  - rewrite (chainOf_keeps us us' next _ u WF K E). exact Hin.
  - unfold chainOf in Hin. rewrite E in Hin. destruct Hin.
Qed.

Lemma distributionOf_rows (us : list User) (user : User) (volume : BigNumber)
    (chain : Chain) (token : string) (tradeId : ObjectId) :
  find_user (_id user) us = Some user ->
  Forall (onChain us)
         (map (commissionDoc tradeId (_id user)
                 (distributionOf us user volume chain token))
              (commissions (distributionOf us user volume chain token))).
Proof.
  intros _. apply Forall_forall. intros c Hin. apply in_map_iff in Hin.
  destruct Hin as [b [<- Hb]]. split; [reflexivity|].
  unfold distributionOf in Hb. destruct (isZero (feeOf user volume)); [destruct Hb|].
  cbn [commissions] in Hb. apply in_flat_map in Hb. destruct Hb as [e [He Hb]].
  unfold emitted in Hb. destruct (resolvedRate us e) as [r|]; [|destruct Hb].
  destruct (isGreaterThan r (BN 0)); [|destruct Hb].
  destruct Hb as [<-|[]]. exists (chain_referralCode e).
  cbn [commissionDoc c_userId c_level c_sourceUserId userId level].
  destruct e as [i l cd]. exact He.
Qed.

(** Every commission row of a reachable world is unclaimed and pays an
    ancestor of its source at the row's level. *)
Lemma reachable_rows (w : World) :
  reachable w -> Forall (onChain (users w)) (commissionRows w).
Proof.
  induction 1 as [|w r w' R IH E|w fuel code r w' R IH E
                  |w userId volume token side chain r w' R IH E].
  - constructor.
  - pose proof (reachable_wellFormed _ R) as WF.
    destruct (generateReferralCode_effect w) as [w1 [_ [C G]]].
    assert (Ew : w1 = w' /\ keeps (users w) (users w1)).
    { destruct (firstFree (users w) (drawn w) maxAttempts);
        destruct G as [G [U _]]; rewrite E in G; inversion G; subst;
        (split; [reflexivity|]); rewrite U; [apply keeps_app|apply keeps_refl]. }
    destruct Ew as [<- K]. rewrite C.
    eapply Forall_impl; [|exact IH]. intros c. apply (onChain_keeps _ _ _ _ WF K).
  - pose proof (reachable_wellFormed _ R) as WF.
    destruct (registerWithReferral_effect _ _ _ _ _ E) as [_ [C [_ G]]].
    assert (K : keeps (users w) (users w')).
    { destruct r as [u|e|]; [|destruct G as [-> _]; apply keeps_refl
                             |rewrite G; apply keeps_refl].
      destruct G as [referrer [d [w1 [id [c [_ [_ [_ [_ [_ [_ [_ ->]]]]]]]]]]]].
      eapply keeps_trans; [apply keeps_app|].
      apply keeps_update_first. intros x. repeat split. }
    rewrite C.
    eapply Forall_impl; [|exact IH]. intros c. apply (onChain_keeps _ _ _ _ WF K).
  - pose proof (reachable_wellFormed _ R) as WF.
    destruct (processTrade_incremented _ _ _ _ _ _ _ _ E) as [I _].
    pose proof (keeps_incremented _ _ I) as K.
    assert (Old : Forall (onChain (users w')) (commissionRows w)).
    { eapply Forall_impl; [|exact IH]. intros c. apply (onChain_keeps _ _ _ _ WF K). }
    destruct (processTrade_effect _ _ _ _ _ _ _ _ E) as [_ [_ G]].
    destruct (ObjectId_of_string userId) as [id|];
      [|destruct G as [_ ->]; exact IH].
    destruct (find_user id (users w)) as [user|] eqn:Eu;
      [|destruct G as [_ ->]; exact IH].
    destruct (isNaN _ || _); [destruct G as [_ ->]; exact IH|].
    cbv zeta in G. destruct G as [_ G].
    destruct (validTrade _); [|destruct G as [_ [_ [_ ->]]]; exact Old].
    destruct G as [C _]. rewrite C.
    apply Forall_app. split; [exact Old|].
    eapply Forall_impl;
      [intros c; apply (onChain_keeps _ _ _ _ WF K)|].
    apply distributionOf_rows. apply (find_user_self _ _ _ Eu).
Qed.

(** ** The fee of an accepted trade *)

Lemma feeOf_zero_waived (user : User) (volume : BigNumber) :
  isNaN volume = false -> isLessThanOrEqualTo volume (BN 0) = false ->
  isZero (feeOf user volume) = isFeesWaived user || feeUnderflows user volume.
Proof.
  intros N P. unfold feeOf, feeUnderflows.
  destruct (isFeesWaived user); [reflexivity|]. cbn [orb].
  assert (R : exists r, getFeeRateForTier (feeTier user) = Finite r /\ 0 < coef r).
  { destruct (feeTier user); simpl; eexists; (split; [reflexivity|simpl; lia]). }
  destruct R as [r [-> Pr]].
  destruct (not_le_zero_cases volume N P) as [->|[v [-> Pv]]].
  - simpl. unfold dec_is_zero. destruct (Z.eqb_spec (coef r) 0); [lia|reflexivity].
  - destruct (times_positive v r Pv Pr) as [Pp [[E U]|[[E U]|[E [U _]]]]];
      rewrite E, U; try reflexivity.
    cbn [isZero]. unfold dec_is_zero.
    destruct (Z.eqb_spec (coef (dec_mul v r)) 0); [lia|reflexivity].
Qed.

Lemma feeOf_canonical (user : User) (volume : BigNumber) (f : decimal) :
  feeOf user volume = Finite f -> canonical f.
Proof.
  unfold feeOf. destruct (isFeesWaived user).
  - intros E. inversion E. left. reflexivity.
  - destruct volume as [| |v]; destruct (feeTier user);
      cbn [getFeeRateForTier multipliedBy FEE_TIERS_BASE FEE_TIERS_REDUCED dec];
      try discriminate;
      try (destruct (dec_is_zero _); discriminate);
      unfold normalise;
      destruct (overflows _); try discriminate;
      destruct (underflows _); intros E; inversion E;
      try apply strip_canonical; left; reflexivity.
Qed.

Lemma emitted_standard (us : list User) (F : BigNumber) (e : ReferralChain) (u : User) :
  find_user (chain_userId e) us = Some u ->
  customCommissionStructure u = None ->
  1 <= chain_level e <= 3 ->
  emitted us F e
  = [mkCommissionBreakdown (chain_level e) (chain_userId e)
       (multipliedBy F (standardTier (chain_level e))) (standardTier (chain_level e))].
Proof.
  intros Eu Ec Hl. unfold emitted, resolvedRate. rewrite Eu. simpl option_map.
  rewrite Ec. simpl option_map.
  change (getCommissionRateForLevel (chain_level e) None)
    with (standardTier (chain_level e)).
  assert (G : isGreaterThan (standardTier (chain_level e)) (BN 0) = true).
  { assert (C : chain_level e = 1 \/ chain_level e = 2 \/ chain_level e = 3) by lia.
    destruct C as [-> | [-> | ->]]; reflexivity. }
  rewrite G. reflexivity.
Qed.

(** The five shares of a fee whose smallest share, the 2% of level 3, stays
    in the exponent range. *)
Lemma full_split_finite (f : decimal) :
  canonical f -> 0 < coef f -> dec_exponent f <= MAX_EXP ->
  underflows (dec_mul f (strip 2 2)) = false ->
  plus (plus (multipliedBy (Finite f) CASHBACK_RATE)
             (multipliedBy (Finite f) TREASURY_RATE))
       (plus (plus (plus (BN 0) (multipliedBy (Finite f) (standardTier 1)))
                   (multipliedBy (Finite f) (standardTier 2)))
             (multipliedBy (Finite f) (standardTier 3)))
  = Finite f.
Proof.
  intros Cf Pf Lf U. unfold CASHBACK_RATE, TREASURY_RATE, BN, dec.
  change (standardTier 1) with (Finite (strip 30 2)).
  change (standardTier 2) with (Finite (strip 3 2)).
  change (standardTier 3) with (Finite (strip 2 2)).
  assert (Qf : (0 < toQ f)%Q) by (apply toQ_pos; exact Pf).
  assert (Ur : forall r, 0 < coef r -> (toQ (strip 2 2) <= toQ r)%Q ->
                         (toQ r <= 1)%Q ->
               multipliedBy (Finite f) (Finite r) = Finite (dec_mul f r)).
  { intros r Pr Lo Hi. rewrite (times_fraction f r Pf Lf Pr Hi).
    rewrite (underflows_mono (dec_mul f (strip 2 2)) (dec_mul f r));
      [reflexivity| | |exact U].
    - unfold dec_mul. apply strip_sign. change (coef (strip 2 2)) with 2. lia.
    - rewrite !toQ_mul. apply Qmult_le_l; assumption. }
  rewrite !Ur by (first [reflexivity|unfold Qle; simpl; lia]).
  cbn [plus]. f_equal.
  apply canonical_unique; [apply strip_canonical|exact Cf|].
  rewrite !toQ_add, !toQ_mul, toQ_cashback_rate, toQ_treasury_rate, toQ_BN.
  rewrite !toQ_strip. change (pow10 2) with 100. simpl Z.to_pos.
  unfold inject_Z. ring_simplify. reflexivity.
Qed.

(** ** Statements on the services *)

(** X1. [generateReferralCode] takes the first of its ten draws that no
    user holds and stores a root with it: no referrer, depth 0, no direct
    referral, tier BASE, zero totals.  When all ten draws are taken it
    throws the conflict error and stores nothing. *)
Theorem generateReferralCode_outcome (w : World) :
  exists w',
    trades w' = trades w /\ commissionRows w' = commissionRows w
    /\ match firstFree (users w) (drawn w) maxAttempts with
       | Some i =>
           generateReferralCode w = (Ok (newUser (nextId w) (generateCode i) None 0), w')
           /\ users w' = users w ++ [newUser (nextId w) (generateCode i) None 0]
           /\ nextId w' = S (nextId w) /\ drawn w' = S i
       | None =>
           generateReferralCode w
           = (Throw (ConflictException "Unable to generate unique referral code"), w')
           /\ users w' = users w /\ nextId w' = nextId w
           /\ drawn w' = (drawn w + maxAttempts)%nat
       end.
Proof. exact (generateReferralCode_effect w). Qed.


(** X3. In every reachable world the referral codes are pairwise distinct,
    and both lookups of a stored user return that user:
    [findUserByReferralCode] on its code and [findUserById] on its
    identifier. *)
Theorem referral_codes_unique (w : World) :
  reachable w ->
  NoDup (map referralCode (users w))
  /\ forall u, In u (users w) ->
       fst (findUserByReferralCode (referralCode u) w) = Ok (Some u)
       /\ fst (findUserById (_id u) w) = Ok (Some u).
Proof.
  intros R. pose proof (reachable_codes_NoDup w R) as ND.
  pose proof (reachable_wellFormed w R) as [NI _].
  split; [exact ND|]. intros u Hin.
  unfold findUserByReferralCode, findUserById.
  rewrite findOne_run, findById_run. cbn [fst].
  rewrite (find_code_NoDup _ _ ND Hin), (find_user_NoDup _ _ NI Hin).
  split; reflexivity.
Qed.

(** X5. In every reachable world the child lists agree with the parent
    pointers: [c] is among the [directReferrals] of the user [p] exactly
    when [c] is a user whose [referrerId] is [p]. *)
Theorem directReferrals_mirror_referrerId (w : World) :
  reachable w ->
  forall p c,
    (exists pu, find_user p (users w) = Some pu /\ In c (directReferrals pu))
    <-> (exists cu, find_user c (users w) = Some cu /\ referrerId cu = Some p).
Proof. intros R. exact (reachable_linked w R). Qed.

(** X6. Under the invariant of the user collection, [getReferralChain] of a
    stored user returns as many entries as the user's stored
    [referralDepth]; entry [i] is a stored user [i + 1] levels of depth
    above; no user is listed twice, and the user itself is never on its
    own chain. *)
Theorem getReferralChain_ancestors (w : World) (u : User) :
  wellFormed w -> In u (users w) ->
  exists chain w',
    getReferralChain (_id u) w = (Ok chain, w')
    /\ Z.of_nat (List.length chain) = referralDepth u
    /\ NoDup (map chain_userId chain)
    /\ ~ In (_id u) (map chain_userId chain)
    /\ forall i e,
         nth_error chain i = Some e ->
         exists a, find_user (chain_userId e) (users w) = Some a
                   /\ referralDepth a = referralDepth u - Z.of_nat (S i).
Proof.
  intros WF Hin. destruct (getReferralChain_run (_id u) w) as [ops [R _]].
  eexists _, _. split; [exact R|].
  destruct (chainOf_ancestors _ _ u WF Hin) as [L [ND NS]].
  destruct (chainOf_depths _ _ u WF Hin) as [_ Nth].
  repeat split; assumption.
Qed.


Lemma saveTrade_In (t : Trade) (ts : list Trade) : In t (saveTrade t ts).
Proof.
  unfold saveTrade.
  destruct (existsb (fun x => Nat.eqb (t_id x) (t_id t)) ts) eqn:E.
  - induction ts as [|x ts IH]; simpl in *; [discriminate|].
    destruct (Nat.eqb (t_id x) (t_id t)); [left; reflexivity|].
    right. apply IH. exact E.
  - apply in_or_app. right. left. reflexivity.
Qed.

(** Nothing the library prints is empty. *)
Lemma isEmpty_append (a b : string) :
  isEmpty (a ++ b) = isEmpty a && isEmpty b.
Proof. destruct a; reflexivity. Qed.

Lemma digits_of_nonempty (n : Z) : isEmpty (digits_of n) = false.
Proof. unfold digits_of. destruct (N.to_uint (Z.to_N n)); reflexivity. Qed.

Lemma toString_nonempty (x : BigNumber) : isEmpty (toString x) = false.
Proof.
  destruct x as [|[|]|a]; try reflexivity. cbn [toString]. unfold dec_toString.
  cbv zeta. destruct (coef (strip (coef a) (scale a)) =? 0); [reflexivity|].
  assert (Sg : forall (b : bool) (body : string),
            isEmpty body = false ->
            isEmpty (if b then ("-" ++ body)%string else body) = false)
    by (intros [|] body Hb; [reflexivity|exact Hb]).
  assert (Ne : forall e, isEmpty (exp_to_string e) = false).
  { intros e. unfold exp_to_string. destruct (e <? 0); reflexivity. }
  apply Sg. destruct (_ || _).
  - destruct (drop_trailing_zeros _) as [|c [|c' r]];
      rewrite ?isEmpty_append, ?Ne, ?andb_false_r; reflexivity.
  - destruct (_ =? 0)%nat; [apply digits_of_nonempty|].
    destruct (_ <? _)%nat; [|reflexivity].
    rewrite !isEmpty_append. cbn [isEmpty andb]. apply andb_false_r.
Qed.

(** A trade document as [processTrade] builds it passes the validators
    exactly when its volume and token strings are not empty. *)
Lemma validTrade_newTrade (tradeId : ObjectId) (user : User) (volume token : string)
    (side : Side) (chain : Chain) (fd : FeeDistribution) :
  validTrade (newTrade tradeId user volume token side chain fd)
  = negb (isEmpty volume) && negb (isEmpty token).
Proof.
  unfold validTrade, newTrade. cbn [t_volume t_feeRate t_totalFee t_cashbackAmount
    t_treasuryAmount t_totalCommissions t_token].
  rewrite !toString_nonempty. cbn [negb]. rewrite !andb_true_r. reflexivity.
Qed.

(** X8. [processTrade] always returns.  When it throws one of its three
    HTTP errors (invalid identifier, unknown user, invalid volume) it has
    written nothing: users, trades, commission rows and the identifier
    source are as before.  A trade whose token or volume string is empty
    fails the validators of the trade schema: the first save throws the
    validation error of mongoose, and no collection has changed.  The
    only other error is that of [Decimal128.fromString], and by then the
    trade document is stored.  With an empty token no trade goes
    through. *)
Theorem processTrade_rejection (userId volume token : string) (side : Side)
    (chain : Chain) (w : World) (r : Outcome (Trade * FeeDistribution)) (w' : World) :
  processTrade userId volume token side chain w = (r, w') ->
  r <> Diverge
  /\ (forall e, r = Throw e ->
        (e = BSONError /\ exists t, In t (trades w') /\ t_id t = nextId w)
        \/ (e = ValidationError
            /\ (isEmpty volume = true \/ isEmpty token = true)
            /\ users w' = users w /\ trades w' = trades w
            /\ commissionRows w' = commissionRows w)
        \/ ((e = BadRequestException "Invalid user ID format"
             \/ e = NotFoundException "User not found"
             \/ e = BadRequestException "Invalid trade volume")
            /\ users w' = users w /\ trades w' = trades w
            /\ commissionRows w' = commissionRows w /\ nextId w' = nextId w))
  /\ (isEmpty token = true ->
      (exists e, r = Throw e /\ e <> BSONError)
      /\ users w' = users w /\ trades w' = trades w
      /\ commissionRows w' = commissionRows w).
Proof.
  intros E. destruct (processTrade_effect _ _ _ _ _ _ _ _ E) as [_ [_ G]].
  destruct (ObjectId_of_string userId) as [id|].
  2:{ destruct G as [-> ->]. split; [discriminate|]. split.
      - intros e Ee. inversion Ee. right. right. repeat split. left. reflexivity.
      - intros _. split; [eexists; split; [reflexivity|discriminate]|].
        repeat split. }
  destruct (find_user id (users w)) as [user|].
  2:{ destruct G as [-> ->]. split; [discriminate|]. split.
      - intros e Ee. inversion Ee. right. right. repeat split.
        right. left. reflexivity.
      - intros _. split; [eexists; split; [reflexivity|discriminate]|].
        repeat split. }
  destruct (isNaN _ || _).
  { destruct G as [-> ->]. split; [discriminate|]. split.
    - intros e Ee. inversion Ee. right. right. repeat split.
      right. right. reflexivity.
    - intros _. split; [eexists; split; [reflexivity|discriminate]|].
      repeat split. }
  cbv zeta in G. destruct G as [_ G]. rewrite validTrade_newTrade in G.
  destruct (isEmpty volume) eqn:Ev; cbn [negb andb] in G.
  { destruct G as [-> [U [T C]]]. split; [discriminate|]. split.
    - intros e Ee. inversion Ee. right. left. split; [reflexivity|].
      split; [left; reflexivity|]. repeat split; assumption.
    - intros _. split; [eexists; split; [reflexivity|discriminate]|].
      repeat split; assumption. }
  destruct (isEmpty token) eqn:Et; cbn [negb] in G.
  { destruct G as [-> [U [T C]]]. split; [discriminate|]. split.
    - intros e Ee. inversion Ee. right. left. split; [reflexivity|].
      split; [right; reflexivity|]. repeat split; assumption.
    - intros _. split; [eexists; split; [reflexivity|discriminate]|].
      repeat split; assumption. }
  destruct G as [_ [[-> T]|[-> _]]].
  - split; [discriminate|]. split; [|discriminate].
    intros e Ee. inversion Ee. left. split; [reflexivity|].
    destruct T as [T|T]; rewrite T.
    + eexists. split; [apply saveTrade_In|reflexivity].
    + eexists. split; [apply saveTrade_In|reflexivity].
  - split; [discriminate|]. split; [|discriminate]. intros e Ee. discriminate.
Qed.

Lemma incremented_frame (us us' : list User) :
  incremented us us' -> map frame us' = map frame us.
Proof.
  induction 1 as [us|us us' id a I IH|us us' id a I IH]; [reflexivity| |];
    rewrite map_update_first_same by reflexivity; exact IH.
Qed.

(** X9. Whatever its outcome, [processTrade] changes nothing of a user
    document but the three totals: the users are the same, in the same
    order, each with its identifier, code, referrer, direct referrals,
    depth, fee tier, commission structure and activity flag. *)
Theorem processTrade_keeps_tree (userId volume token : string) (side : Side)
    (chain : Chain) (w : World) (r : Outcome (Trade * FeeDistribution)) (w' : World) :
  processTrade userId volume token side chain w = (r, w') ->
  map frame (users w') = map frame (users w).
Proof.
  intros E. apply incremented_frame.
  apply (processTrade_incremented _ _ _ _ _ _ _ _ E).
Qed.

(** X10. In a reachable world a successful [processTrade] adds exactly one
    trade document, the returned one, although it saves twice: the second
    save writes over the first.  The document carries a fresh identifier
    and is flagged as distributed at the time of the call. *)
Theorem processTrade_stores_one_trade (userId volume token : string) (side : Side)
    (chain : Chain) (w w' : World) (trade : Trade) (fd : FeeDistribution) :
  reachable w ->
  processTrade userId volume token side chain w = (Ok (trade, fd), w') ->
  trades w' = trades w ++ [trade]
  /\ t_id trade = nextId w
  /\ ~ In (t_id trade) (map t_id (trades w))
  /\ commissionsDistributed trade = true
  /\ distributedAt trade = Some (clock w).
Proof.
  intros R E. destruct (reachable_trades w R) as [_ F].
  destruct (processTrade_effect _ _ _ _ _ _ _ _ E) as [_ [_ G]].
  destruct (ObjectId_of_string userId) as [id|]; [|destruct G; discriminate].
  destruct (find_user id (users w)) as [user|]; [|destruct G; discriminate].
  destruct (isNaN _ || _); [destruct G; discriminate|].
  cbv zeta in G. destruct G as [_ G].
  destruct (validTrade _); [|destruct G; discriminate].
  destruct G as [_ [[G _]|[G [T _]]]]; [discriminate|].
  inversion G; subst trade fd. clear G.
  set (t0 := newTrade (nextId w) user volume token side chain _) in *.
  split.
  - rewrite T. rewrite (saveTrade_new t0) by exact F.
    apply saveTrade_again; [reflexivity|exact F].
  - repeat split. intros Hin. apply in_map_iff in Hin. destruct Hin as [x [Ex Hx]].
    pose proof (proj1 (Forall_forall _ _) F x Hx) as B. simpl in *.
    unfold t0 in Ex. simpl in Ex. lia.
Qed.

(** X11. Every commission row of a reachable world is unclaimed, carries a
    level from 1 to 3, and pays an ancestor of its source: the recipient
    is the entry of that level on the chain [getReferralChain] returns for
    the source user, so it is never the source itself. *)
Theorem commission_rows_pay_ancestors (w : World) :
  reachable w ->
  forall c, In c (commissionRows w) ->
    c_isClaimed c = false
    /\ 1 <= c_level c <= MAX_REFERRAL_DEPTH
    /\ c_userId c <> c_sourceUserId c
    /\ exists chain code,
         fst (getReferralChain (c_sourceUserId c) w) = Ok chain
         /\ In (mkReferralChain (c_userId c) (c_level c) code) chain.
Proof.
  intros R c Hin. pose proof (reachable_wellFormed w R) as WF.
  destruct (proj1 (Forall_forall _ _) (reachable_rows w R) c Hin) as [Hc [code Hon]].
  split; [exact Hc|].
  pose proof (chainOf_levels _ _ _ Hon) as Hl. cbn [chain_level] in Hl.
  split; [exact Hl|]. split.
  - destruct (find_user (c_sourceUserId c) (users w)) as [s|] eqn:Es.
    + pose proof (find_user_id _ _ _ Es) as Ei.
      destruct (chainOf_ancestors _ _ s WF (find_user_In _ _ _ Es)) as [_ [_ NS]].
      intros Eq. apply NS. rewrite Ei.
      pose proof (in_map chain_userId _ _ Hon) as Hm. cbn [chain_userId] in Hm.
      rewrite Eq in Hm. exact Hm.
    + unfold chainOf in Hon. rewrite Es in Hon. destruct Hon.
  - exists (chainOf (users w) (c_sourceUserId c)), code.
    destruct (getReferralChain_run (c_sourceUserId c) w) as [ops [Rn _]].
    rewrite Rn. split; [reflexivity|exact Hon].
Qed.

(** X12. The fee of an accepted trade is zero exactly when the trader's
    structure waives the fees or the exact fee, volume times rate, falls
    below the exponent range of bignumber.js (a volume under 1e-9999998 on
    the BASE tier).  With a zero fee the distribution carries no
    commission and no commission row is written. *)
Theorem accepted_trade_fee (userId volume token : string) (side : Side)
    (chain : Chain) (w w' : World) (trade : Trade) (fd : FeeDistribution) :
  processTrade userId volume token side chain w = (Ok (trade, fd), w') ->
  exists id user,
    ObjectId_of_string userId = Some id
    /\ find_user id (users w) = Some user
    /\ totalFee fd = feeOf user (BigNumber_of_string volume)
    /\ isZero (totalFee fd)
       = isFeesWaived user || feeUnderflows user (BigNumber_of_string volume)
    /\ (isZero (totalFee fd) = true ->
        totalFee fd = BN 0 /\ cashback fd = BN 0 /\ treasury fd = BN 0
        /\ commissions fd = [] /\ commissionRows w' = commissionRows w).
Proof.
  intros E. destruct (processTrade_effect _ _ _ _ _ _ _ _ E) as [_ [_ G]].
  destruct (ObjectId_of_string userId) as [id|]; [|destruct G; discriminate].
  destruct (find_user id (users w)) as [user|] eqn:Eu; [|destruct G; discriminate].
  destruct (isNaN (BigNumber_of_string volume)) eqn:N;
    [destruct G; discriminate|].
  destruct (isLessThanOrEqualTo (BigNumber_of_string volume) (BN 0)) eqn:P;
    [destruct G; discriminate|].
  cbv zeta in G. cbn [orb] in G. destruct G as [_ G].
  destruct (validTrade _); [|destruct G; discriminate].
  destruct G as [C [[G _]|[G _]]]; [discriminate|].
  inversion G; subst trade fd. clear G.
  exists id, user. split; [reflexivity|]. split; [exact Eu|].
  pose proof (feeOf_zero_waived user _ N P) as Z.
  unfold distributionOf in *.
  destruct (isZero (feeOf user (BigNumber_of_string volume))) eqn:Zf;
    cbn [totalFee cashback treasury commissions] in *.
  - split; [reflexivity|]. split; [rewrite Zf; exact Z|]. intros _.
    split.
    { unfold feeOf in *. destruct (isFeesWaived user); [reflexivity|].
      apply isZero_multipliedBy. exact Zf. }
    do 3 (split; [reflexivity|]). rewrite C. apply app_nil_r.
  - split; [reflexivity|]. split; [rewrite Zf; exact Z|].
    rewrite Zf. discriminate.
Qed.

(** X13. With three ancestors on the standard rates the split is exact:
    cashback, treasury and the three commissions (10, 55, 30, 3 and 2
    percent) add up to the fee itself, as long as the smallest of them,
    the 2 percent of level 3, does not fall below the exponent range of
    bignumber.js. *)
Theorem full_standard_chain_split (user : User) (volume : BigNumber)
    (chain : Chain) (token : string) (w : World) :
  isNaN volume = false -> isLessThanOrEqualTo volume (BN 0) = false ->
  standardChain (users w) (_id user) = true ->
  exists fd w',
    calculateFeeDistribution user volume chain token w = (Ok fd, w')
    /\ (sharesInRange (totalFee fd) = true -> splitTotal fd = totalFee fd).
Proof.
  intros N P S.
  destruct (calculateFeeDistribution_run user volume chain token w) as [ops [R _]].
  eexists _, _. split; [exact R|].
  destruct (feeOf_cases user volume N P) as [E|E].
  - rewrite E. reflexivity.
  - assert (Z0 : isZero (feeOf user volume) = false).
    { destruct E as [->|[f [-> [Pf _]]]]; simpl; [reflexivity|].
      unfold dec_is_zero. destruct (Z.eqb_spec (coef f) 0); [lia|reflexivity]. }
    rewrite Z0. unfold splitTotal, totalCommissions.
    cbn [cashback treasury commissions totalFee].
    unfold standardChain in S. apply andb_prop in S. destruct S as [L A].
    apply Nat.eqb_eq in L.
    pose proof (chainFrom_levels (users w) (Z.to_nat MAX_REFERRAL_DEPTH)
                  (find_user (_id user) (users w)) 1) as V.
    fold (chainOf (users w) (_id user)) in V.
    destruct (chainOf (users w) (_id user)) as [|e1 [|e2 [|e3 [|e4 rest]]]];
      try discriminate.
    pose proof (V 0%nat e1 eq_refl) as V1. pose proof (V 1%nat e2 eq_refl) as V2.
    pose proof (V 2%nat e3 eq_refl) as V3. cbn in V1, V2, V3.
    cbn [forallb] in A.
    destruct (find_user (chain_userId e1) (users w)) as [u1|] eqn:E1; [|discriminate].
    destruct (customCommissionStructure u1) eqn:C1; [discriminate|].
    destruct (find_user (chain_userId e2) (users w)) as [u2|] eqn:E2; [|discriminate].
    destruct (customCommissionStructure u2) eqn:C2; [discriminate|].
    destruct (find_user (chain_userId e3) (users w)) as [u3|] eqn:E3; [|discriminate].
    destruct (customCommissionStructure u3) eqn:C3; [discriminate|].
    cbn [flat_map].
    rewrite (emitted_standard _ _ e1 u1 E1 C1) by lia.
    rewrite (emitted_standard _ _ e2 u2 E2 C2) by lia.
    rewrite (emitted_standard _ _ e3 u3 E3 C3) by lia.
    rewrite V1, V2, V3. cbn [app fold_left amount].
    destruct E as [->|[f [Ef [Pf Lf]]]]; [reflexivity|].
    rewrite Ef. cbn [sharesInRange]. intros U. apply negb_true_iff in U.
    apply full_split_finite; try assumption.
    apply (feeOf_canonical _ _ _ Ef).
Qed.

(** ** [getEarnings] *)

Lemma fold_plus_shift {A} (g : A -> BigNumber) (l : list A) :
  forall a b,
    fold_left (fun s x => plus s (g x)) l (plus a b)
    = plus a (fold_left (fun s x => plus s (g x)) l b).
Proof.
  induction l as [|x l IH]; intros a b; cbn [fold_left]; [reflexivity|].
  rewrite plus_assoc. apply IH.
Qed.

Lemma fold_plus_cons {A} (g : A -> BigNumber) (x : A) (l : list A) :
  fold_left (fun s x => plus s (g x)) (x :: l) (BN 0)
  = plus (g x) (fold_left (fun s x => plus s (g x)) l (BN 0)).
Proof. cbn [fold_left]. rewrite (plus_comm (BN 0) (g x)). apply fold_plus_shift. Qed.

Lemma sumOver_cons (field : AggregateRow -> string) (c : AggregateRow)
    (cs : list AggregateRow) :
  sumOver field (c :: cs)
  = plus (BigNumber_of_string (field c)) (sumOver field cs).
Proof.
  unfold sumOver.
  apply (fold_plus_cons (fun comm => BigNumber_of_string (field comm))).
Qed.

Lemma reduce_plus_earningsAt (cs : list AggregateRow) (k : Z) :
  reduce_plus totalEarned (earningsAt cs k)
  = sumOver agg_totalEarned (filter (fun c => agg_level c =? k) cs)
  /\ reduce_plus claimed (earningsAt cs k)
     = sumOver agg_claimed (filter (fun c => agg_level c =? k) cs)
  /\ reduce_plus unclaimed (earningsAt cs k)
     = sumOver agg_unclaimed (filter (fun c => agg_level c =? k) cs).
Proof.
  unfold reduce_plus, earningsAt, sumOver.
  generalize (filter (fun c => agg_level c =? k) cs) (BN 0).
  intros l. induction l as [|c l IH]; intros a; simpl; [repeat split|].
  destruct (IH (plus a (BigNumber_of_string (agg_totalEarned c)))) as [E1 _].
  destruct (IH (plus a (BigNumber_of_string (agg_claimed c)))) as [_ [E2 _]].
  destruct (IH (plus a (BigNumber_of_string (agg_unclaimed c)))) as [_ [_ E3]].
  repeat split; assumption.
Qed.

Lemma groupedSum_cons (field : AggregateRow -> string) (cs : list AggregateRow)
    (k : Z) (ks : list Z) :
  groupedSum field cs (k :: ks)
  = plus (sumOver field (filter (fun c => agg_level c =? k) cs))
         (groupedSum field cs ks).
Proof.
  unfold groupedSum.
  apply (fold_plus_cons
           (fun k => sumOver field (filter (fun c => agg_level c =? k) cs))).
Qed.

Lemma groupedSum_skip (field : AggregateRow -> string) (c : AggregateRow)
    (cs : list AggregateRow) (ks : list Z) :
  ~ In (agg_level c) ks -> groupedSum field (c :: cs) ks = groupedSum field cs ks.
Proof.
  induction ks as [|k ks IH]; intros Nin; [reflexivity|].
  rewrite !groupedSum_cons. cbn [filter].
  destruct (Z.eqb_spec (agg_level c) k) as [E|_];
    [exfalso; apply Nin; left; symmetry; exact E|].
  f_equal. apply IH. intros Hin. apply Nin. right. exact Hin.
Qed.

Lemma groupedSum_pull (field : AggregateRow -> string) (c : AggregateRow)
    (cs : list AggregateRow) (ks : list Z) :
  NoDup ks -> In (agg_level c) ks ->
  groupedSum field (c :: cs) ks
  = plus (BigNumber_of_string (field c)) (groupedSum field cs ks).
Proof.
  induction ks as [|k ks IH]; intros ND Hc; [destruct Hc|].
  inversion ND as [|? ? Nk ND']; subst.
  rewrite !groupedSum_cons.
  destruct (Z.eqb_spec (agg_level c) k) as [E|N].
  - rewrite groupedSum_skip by (rewrite E; exact Nk).
    cbn [filter]. rewrite (proj2 (Z.eqb_eq _ _) E).
    rewrite sumOver_cons, plus_assoc. reflexivity.
  - destruct Hc as [Hc|Hc]; [congruence|].
    rewrite (IH ND' Hc). cbn [filter]. rewrite (proj2 (Z.eqb_neq _ _) N).
    rewrite <- !plus_assoc. f_equal. apply plus_comm.
Qed.

(** The sum over the groups of distinct levels that cover the rows is the
    sum over the rows. *)
Lemma grouped_sum (field : AggregateRow -> string) (cs : list AggregateRow) :
  forall ks,
    NoDup ks -> (forall c, In c cs -> In (agg_level c) ks) ->
    groupedSum field cs ks = sumOver field cs.
Proof.
  induction cs as [|c cs IH]; intros ks ND Cov.
  - clear. induction ks as [|k ks IHk]; [reflexivity|].
    rewrite groupedSum_cons, IHk. reflexivity.
  - rewrite sumOver_cons, <- (IH ks ND) by (intros x Hx; apply Cov; right; exact Hx).
    apply groupedSum_pull; [exact ND|]. apply Cov. left. reflexivity.
Qed.

Lemma levelsOf_snoc (cs : list AggregateRow) (c : AggregateRow) :
  levelsOf (cs ++ [c])
  = if existsb (Z.eqb (agg_level c)) (levelsOf cs) then levelsOf cs
    else levelsOf cs ++ [agg_level c].
Proof. unfold levelsOf. rewrite fold_left_app. reflexivity. Qed.

Lemma existsb_level (k : Z) (ks : list Z) : existsb (Z.eqb k) ks = true <-> In k ks.
Proof.
  rewrite existsb_exists. split.
  - intros [x [Hx E]]. apply Z.eqb_eq in E. subst. exact Hx.
  - intros Hin. exists k. split; [exact Hin|apply Z.eqb_refl].
Qed.

Lemma levelsOf_spec (cs : list AggregateRow) :
  NoDup (levelsOf cs) /\ forall k, In k (levelsOf cs) <-> In k (map agg_level cs).
Proof.
  induction cs as [|c cs [ND Cov]] using rev_ind.
  - split; [constructor|]. intros k. reflexivity.
  - rewrite levelsOf_snoc, map_app. simpl.
    destruct (existsb (Z.eqb (agg_level c)) (levelsOf cs)) eqn:E.
    + apply existsb_level in E. split; [exact ND|]. intros k. rewrite in_app_iff, <- Cov.
      simpl. split; [auto|]. intros [Hin|[<-|[]]]; assumption.
    + assert (Nin : ~ In (agg_level c) (levelsOf cs)).
      { intros Hin. apply existsb_level in Hin. congruence. }
      split; [apply NoDup_snoc; assumption|].
      intros k. rewrite !in_app_iff, Cov. reflexivity.
Qed.

Lemma earningsAt_snoc (cs : list AggregateRow) (c : AggregateRow) (k : Z) :
  earningsAt (cs ++ [c]) k
  = earningsAt cs k ++ (if agg_level c =? k then [breakdownOf c] else []).
Proof.
  unfold earningsAt. rewrite filter_app, map_app. simpl.
  destruct (agg_level c =? k); reflexivity.
Qed.

Lemma earningsAt_absent (cs : list AggregateRow) (k : Z) :
  ~ In k (map agg_level cs) -> earningsAt cs k = [].
Proof.
  unfold earningsAt. induction cs as [|c cs IH]; simpl; intros Nin; [reflexivity|].
  destruct (Z.eqb_spec (agg_level c) k) as [E|_]; [exfalso; apply Nin; left; exact E|].
  apply IH. intros Hin. apply Nin. right. exact Hin.
Qed.

Lemma update_first_keyed {V} (G : Z -> Z * V) (f : Z * V -> Z * V) (l0 : Z) :
  (forall k, fst (G k) = k) ->
  forall ks, NoDup ks ->
    update_first (fun kv => fst kv =? l0) f (map G ks)
    = map (fun k => if k =? l0 then f (G k) else G k) ks.
Proof.
  intros HG. induction ks as [|k ks IH]; intros ND; simpl; [reflexivity|].
  inversion ND as [|? ? Nk ND']; subst. rewrite HG.
  destruct (Z.eqb_spec k l0) as [->|N].
  - f_equal. apply map_ext_in. intros x Hx.
    destruct (Z.eqb_spec x l0) as [->|_]; [contradiction|reflexivity].
  - f_equal. apply IH. exact ND'.
Qed.

(** The map the loop fills: one entry per level, in the order of first
    appearance, with the rows of that level in their order. *)
Lemma getEarnings_levelMap_spec (cs : list AggregateRow) :
  getEarnings_levelMap cs = map (fun k => (k, earningsAt cs k)) (levelsOf cs).
Proof.
  induction cs as [|c cs IH] using rev_ind; [reflexivity|].
  destruct (levelsOf_spec cs) as [ND Cov].
  unfold getEarnings_levelMap in *. rewrite fold_left_app. cbn [fold_left].
  rewrite IH. clear IH. rewrite levelsOf_snoc.
  assert (Has : levelMap_has (agg_level c)
                  (map (fun k => (k, earningsAt cs k)) (levelsOf cs))
                = existsb (Z.eqb (agg_level c)) (levelsOf cs)).
  { unfold levelMap_has. clear. induction (levelsOf cs) as [|k ks IHk]; [reflexivity|].
    cbn [existsb map fst]. rewrite IHk, (Z.eqb_sym k). reflexivity. }
  rewrite Has.
  destruct (existsb (Z.eqb (agg_level c)) (levelsOf cs)) eqn:E; cbn [negb].
  - unfold levelMap_push.
    rewrite (update_first_keyed (fun k => (k, earningsAt cs k))) by (auto || exact ND).
    apply map_ext. intros k. rewrite earningsAt_snoc, (Z.eqb_sym k).
    destruct (agg_level c =? k); simpl; [reflexivity|rewrite app_nil_r; reflexivity].
  - assert (Nin : ~ In (agg_level c) (levelsOf cs)).
    { intros Hin. apply existsb_level in Hin. congruence. }
    unfold levelMap_set. rewrite Has. unfold levelMap_push.
    change (map (fun k => (k, earningsAt cs k)) (levelsOf cs) ++ [(agg_level c, [])])
      with (map (fun k => (k, earningsAt cs k)) (levelsOf cs)
            ++ map (fun k => (k, @nil EarningsBreakdown)) [agg_level c]).
    assert (Eg : map (fun k => (k, earningsAt cs k)) (levelsOf cs)
                   ++ map (fun k => (k, @nil EarningsBreakdown)) [agg_level c]
                 = map (fun k => (k, earningsAt cs k)) (levelsOf cs ++ [agg_level c])).
    { rewrite map_app. simpl. rewrite (earningsAt_absent cs (agg_level c)); [reflexivity|].
      intros Hin. apply Nin, Cov, Hin. }
    rewrite Eg.
    rewrite (update_first_keyed (fun k => (k, earningsAt cs k)))
      by (auto || (apply NoDup_snoc; assumption)).
    apply map_ext. intros k. rewrite earningsAt_snoc, (Z.eqb_sym k).
    destruct (agg_level c =? k); simpl; [reflexivity|rewrite app_nil_r; reflexivity].
Qed.

Lemma insert_entry_keyed {V} (G : Z -> Z * list EarningsBreakdown) (k : Z) (l : list Z)
    (v : V) :
  (forall k, fst (G k) = k) ->
  insert_entry (G k) (map G l) = map G (insert_level k l).
Proof.
  intros HG. induction l as [|y l IH]; simpl; [reflexivity|].
  rewrite !HG. destruct (k <=? y); simpl; [reflexivity|]. rewrite IH. reflexivity.
Qed.

Lemma sort_entries_keyed (G : Z -> Z * list EarningsBreakdown) (ks : list Z) :
  (forall k, fst (G k) = k) ->
  sort_entries (map G ks) = map G (sort_levels ks).
Proof.
  intros HG. unfold sort_entries, sort_levels.
  induction ks as [|k ks IH]; simpl; [reflexivity|].
  rewrite IH. apply (insert_entry_keyed G k _ tt HG).
Qed.

Lemma insert_level_perm (x : Z) (l : list Z) : Permutation (insert_level x l) (x :: l).
Proof.
  induction l as [|y l IH]; simpl; [apply Permutation_refl|].
  destruct (x <=? y); [apply Permutation_refl|].
  apply (perm_trans (perm_skip y IH)). apply perm_swap.
Qed.

Lemma sort_levels_perm (ks : list Z) : Permutation (sort_levels ks) ks.
Proof.
  unfold sort_levels. induction ks as [|k ks IH]; simpl; [constructor|].
  apply (perm_trans (insert_level_perm k _)). apply perm_skip. exact IH.
Qed.

Lemma insert_level_sorted (x : Z) (l : list Z) :
  StronglySorted Z.le l -> StronglySorted Z.le (insert_level x l).
Proof.
  induction 1 as [|y l Hs IH Hy]; simpl.
  - constructor; constructor.
  - destruct (Z.leb_spec x y).
    + constructor; [constructor; assumption|].
      constructor; [assumption|].
      eapply Forall_impl; [|exact Hy]. simpl. intros; lia.
    + constructor; [exact IH|].
      apply (Permutation_Forall (Permutation_sym (insert_level_perm x l))).
      constructor; [lia|exact Hy].
Qed.

Lemma sort_levels_ascending (ks : list Z) :
  NoDup ks -> StronglySorted Z.lt (sort_levels ks).
Proof.
  intros ND.
  assert (ND' : NoDup (sort_levels ks))
    by (apply (Permutation_NoDup (Permutation_sym (sort_levels_perm ks)) ND)).
  assert (S : StronglySorted Z.le (sort_levels ks)).
  { unfold sort_levels. clear. induction ks as [|k ks IH]; simpl; [constructor|].
    apply insert_level_sorted. exact IH. }
  induction S as [|y l Hs IH Hy]; [constructor|].
  inversion ND' as [|? ? Ny NDl]; subst.
  constructor; [apply IH; exact NDl|].
  apply Forall_forall. intros z Hz.
  pose proof (proj1 (Forall_forall _ _) Hy z Hz) as Hle.
  assert (y <> z) by (intros ->; contradiction). lia.
Qed.

Lemma getEarnings_totals_from (entries : LevelMap) :
  forall out a b c,
    fold_left
      (fun acc entry =>
         let '(out, grandTotal, totalClaimed, totalUnclaimed) := acc in
         let (lvl, earnings) := entry : Z * list EarningsBreakdown in
         let levelTotal := reduce_plus totalEarned earnings in
         let levelClaimed := reduce_plus claimed earnings in
         let levelUnclaimed := reduce_plus unclaimed earnings in
         (out ++ [mkLevelEarnings lvl earnings (toString levelTotal)
                                  (toString levelClaimed) (toString levelUnclaimed)],
          plus grandTotal levelTotal,
          plus totalClaimed levelClaimed,
          plus totalUnclaimed levelUnclaimed))
      entries (out, a, b, c)
    = (out ++ map (fun e => mkLevelEarnings (fst e) (snd e)
                              (toString (reduce_plus totalEarned (snd e)))
                              (toString (reduce_plus claimed (snd e)))
                              (toString (reduce_plus unclaimed (snd e)))) entries,
       fold_left (fun g e => plus g (reduce_plus totalEarned (snd e))) entries a,
       fold_left (fun g e => plus g (reduce_plus claimed (snd e))) entries b,
       fold_left (fun g e => plus g (reduce_plus unclaimed (snd e))) entries c).
Proof.
  induction entries as [|[k es] entries IH]; intros out a b c; cbn [fold_left map].
  - rewrite app_nil_r. reflexivity.
  - rewrite IH. cbn [fst snd]. rewrite <- app_assoc. reflexivity.
Qed.

Lemma getEarnings_totals_spec (entries : LevelMap) :
  getEarnings_totals entries
  = (map (fun e => mkLevelEarnings (fst e) (snd e)
                     (toString (reduce_plus totalEarned (snd e)))
                     (toString (reduce_plus claimed (snd e)))
                     (toString (reduce_plus unclaimed (snd e)))) entries,
     fold_left (fun g e => plus g (reduce_plus totalEarned (snd e))) entries (BN 0),
     fold_left (fun g e => plus g (reduce_plus claimed (snd e))) entries (BN 0),
     fold_left (fun g e => plus g (reduce_plus unclaimed (snd e))) entries (BN 0)).
Proof. unfold getEarnings_totals. apply (getEarnings_totals_from entries []). Qed.

Lemma fold_left_keyed {A B C} (f : A -> B -> A) (G : C -> B) (ks : list C) :
  forall a, fold_left f (map G ks) a = fold_left (fun g k => f g (G k)) ks a.
Proof. induction ks as [|k ks IH]; intros a; simpl; [reflexivity|apply IH]. Qed.

Lemma fold_left_same {A B} (f g : A -> B -> A) (l : list B) :
  (forall a b, f a b = g a b) -> forall a, fold_left f l a = fold_left g l a.
Proof.
  intros E. induction l as [|x l IH]; intros a; simpl; [reflexivity|].
  rewrite E. apply IH.
Qed.

(** What [getEarnings] assembles from the rows: one group per level, the
    levels ascending, and the three totals over all the rows. *)
Lemma getEarnings_assemble_eq (cs : list AggregateRow) :
  getEarnings_assemble cs
  = mkEarnings
      (map (fun k => mkLevelEarnings k (earningsAt cs k)
                       (toString (reduce_plus totalEarned (earningsAt cs k)))
                       (toString (reduce_plus claimed (earningsAt cs k)))
                       (toString (reduce_plus unclaimed (earningsAt cs k))))
           (sort_levels (levelsOf cs)))
      (toString (sumOver agg_totalEarned cs))
      (toString (sumOver agg_claimed cs))
      (toString (sumOver agg_unclaimed cs)).
Proof.
  unfold getEarnings_assemble.
  rewrite getEarnings_levelMap_spec, sort_entries_keyed by reflexivity.
  rewrite getEarnings_totals_spec. rewrite map_map. cbn [fst snd].
  rewrite !fold_left_keyed. cbn [snd].
  destruct (levelsOf_spec cs) as [ND Cov].
  assert (ND' : NoDup (sort_levels (levelsOf cs)))
    by (apply (Permutation_NoDup (Permutation_sym (sort_levels_perm _)) ND)).
  assert (Cov' : forall c, In c cs -> In (agg_level c) (sort_levels (levelsOf cs))).
  { intros c Hc. apply (Permutation_in _ (Permutation_sym (sort_levels_perm _))).
    apply Cov. apply in_map. exact Hc. }
  f_equal; f_equal.
  - rewrite <- (grouped_sum agg_totalEarned cs _ ND' Cov'). unfold groupedSum.
    apply fold_left_same. intros a k.
    rewrite (proj1 (reduce_plus_earningsAt cs k)). reflexivity.
  - rewrite <- (grouped_sum agg_claimed cs _ ND' Cov'). unfold groupedSum.
    apply fold_left_same. intros a k.
    rewrite (proj1 (proj2 (reduce_plus_earningsAt cs k))). reflexivity.
  - rewrite <- (grouped_sum agg_unclaimed cs _ ND' Cov'). unfold groupedSum.
    apply fold_left_same. intros a k.
    rewrite (proj2 (proj2 (reduce_plus_earningsAt cs k))). reflexivity.
Qed.

(** X14. [getEarnings] groups the rows of its aggregate by level: the
    levels of [byLevel] are strictly ascending, they are exactly the levels
    that occur among the rows, and each group holds the rows of its level,
    in their order, so it is never empty. *)
Theorem getEarnings_byLevel (commissions : list AggregateRow) :
  StronglySorted Z.lt (map le_level (byLevel (getEarnings_assemble commissions)))
  /\ (forall k, In k (map le_level (byLevel (getEarnings_assemble commissions)))
                <-> In k (map agg_level commissions))
  /\ forall g, In g (byLevel (getEarnings_assemble commissions)) ->
       earnings g = earningsAt commissions (le_level g) /\ earnings g <> [].
Proof.
  rewrite getEarnings_assemble_eq. cbn [byLevel].
  destruct (levelsOf_spec commissions) as [ND Cov].
  rewrite map_map. cbn [le_level]. rewrite map_id.
  split; [apply sort_levels_ascending, ND|]. split.
  - intros k. rewrite <- Cov. split; apply Permutation_in;
      [apply sort_levels_perm|apply Permutation_sym, sort_levels_perm].
  - intros g Hg. apply in_map_iff in Hg. destruct Hg as [k [<- Hk]].
    cbn [earnings le_level]. split; [reflexivity|].
    apply (Permutation_in _ (sort_levels_perm _)) in Hk. apply Cov in Hk.
    apply in_map_iff in Hk. destruct Hk as [c [Ec Hc]].
    unfold earningsAt. intros E. apply map_eq_nil in E.
    assert (Hf : In c (filter (fun comm => agg_level comm =? k) commissions)).
    { apply filter_In. split; [exact Hc|]. apply Z.eqb_eq. exact Ec. }
    rewrite E in Hf. destruct Hf.
Qed.

(** X15. The three grand totals of [getEarnings] are the sums over all the
    rows of the aggregate, whatever the levels and their order: summing
    level by level in ascending order gives the same [BigNumber] as summing
    the rows one after the other. *)
Theorem getEarnings_grand_totals (commissions : list AggregateRow) :
  grandTotal (getEarnings_assemble commissions)
  = toString (sumOver agg_totalEarned commissions)
  /\ totalClaimed (getEarnings_assemble commissions)
     = toString (sumOver agg_claimed commissions)
  /\ totalUnclaimed (getEarnings_assemble commissions)
     = toString (sumOver agg_unclaimed commissions)
  /\ forall g, In g (byLevel (getEarnings_assemble commissions)) ->
       levelTotal g
       = toString (sumOver agg_totalEarned
                     (filter (fun comm => agg_level comm =? le_level g) commissions)).
Proof.
  rewrite getEarnings_assemble_eq. cbn [grandTotal totalClaimed totalUnclaimed byLevel].
  repeat split. intros g Hg. apply in_map_iff in Hg. destruct Hg as [k [<- Hk]].
  cbn [levelTotal le_level].
  rewrite (proj1 (reduce_plus_earningsAt commissions k)). reflexivity.
Qed.

(** ** [getNetwork] *)

Section NetworkProperties.
Variable createdAt : ObjectId -> nat.

(** The node [buildNetworkTree] makes of a direct referral. *)
Lemma buildNetworkTree_loop_run (us : list User) (level : Z)
    (buildChildren : ObjectId -> Z -> M (list NetworkNode))
    (tree : ObjectId -> list NetworkNode) :
  (level < MAX_REFERRAL_DEPTH ->
   forall id w, users w = us ->
     exists ops, buildChildren id (level + 1) w = (Ok (tree id), logged ops w)
                 /\ Forall is_read ops) ->
  forall refs nodes w, users w = us ->
    exists ops,
      buildNetworkTree_loop createdAt buildChildren level refs nodes w
      = (Ok (nodes
             ++ flat_map
                  (fun refId =>
                     match find_user refId us with
                     | None => []
                     | Some referral =>
                         [mkNetworkNode (_id referral) (referralCode referral) level
                            (createdAt (_id referral))
                            (if level <? MAX_REFERRAL_DEPTH
                             then Some (tree (_id referral)) else None)]
                     end) refs),
         logged ops w)
      /\ Forall is_read ops.
Proof.
  intros Hrec. induction refs as [|refId rest IH]; intros nodes w Hw.
  - exists []. rewrite logged_nil. simpl. rewrite app_nil_r.
    split; [reflexivity|constructor].
  - cbn [buildNetworkTree_loop flat_map]. unfold bind at 1. rewrite findById_run, Hw.
    destruct (find_user refId us) as [referral|].
    + destruct (Z.ltb_spec level MAX_REFERRAL_DEPTH) as [Hl|Hl].
      * destruct (Hrec Hl (_id referral) (logged [UserFindById refId] w) Hw)
          as [ops1 [R1 F1]].
        unfold bind at 1. unfold bind at 1. rewrite R1. unfold ret at 1.
        destruct (IH (nodes ++ [mkNetworkNode (_id referral) (referralCode referral)
                                  level (createdAt (_id referral))
                                  (Some (tree (_id referral)))])
                     (logged ops1 (logged [UserFindById refId] w)) Hw)
          as [ops2 [R2 F2]].
        rewrite R2. exists (UserFindById refId :: ops1 ++ ops2). split.
        -- rewrite !logged_logged, <- app_assoc. reflexivity.
        -- constructor; [exact I|]. apply Forall_app. split; assumption.
      * unfold bind at 1. unfold ret at 1.
        destruct (IH (nodes ++ [mkNetworkNode (_id referral) (referralCode referral)
                                  level (createdAt (_id referral)) None])
                     (logged [UserFindById refId] w) Hw)
          as [ops2 [R2 F2]].
        rewrite R2. exists (UserFindById refId :: ops2). split.
        -- rewrite !logged_logged, <- app_assoc. reflexivity.
        -- constructor; [exact I|exact F2].
    + destruct (IH nodes (logged [UserFindById refId] w) Hw) as [ops2 [R2 F2]].
      rewrite R2. exists (UserFindById refId :: ops2). split.
      * rewrite !logged_logged. reflexivity.
      * constructor; [exact I|exact F2].
Qed.

(** [buildNetworkTree] returns the tree read off the collection, and only
    reads, as soon as the fuel covers the levels left. *)
Lemma buildNetworkTree_run :
  forall fuel id level w,
    (0 < fuel)%nat -> MAX_REFERRAL_DEPTH < level + Z.of_nat fuel ->
    exists ops,
      buildNetworkTree createdAt fuel id level w
      = (Ok (treeOf createdAt (users w) fuel id level), logged ops w)
      /\ Forall is_read ops.
Proof.
  induction fuel as [|fuel IH]; intros id level w Hf Hl; [lia|].
  cbn [buildNetworkTree treeOf].
  destruct (Z.ltb_spec MAX_REFERRAL_DEPTH level) as [Hm|Hm].
  - exists []. rewrite logged_nil. split; [reflexivity|constructor].
  - unfold bind at 1. rewrite findById_run.
    destruct (find_user id (users w)) as [cu|].
    + destruct (buildNetworkTree_loop_run (users w) level
                  (buildNetworkTree createdAt fuel)
                  (fun i => treeOf createdAt (users w) fuel i (level + 1)))
        with (refs := directReferrals cu) (nodes := @nil NetworkNode)
             (w := logged [UserFindById id] w)
        as [ops [R F]].
      * intros Hlt i w0 Hw0. rewrite <- Hw0. apply IH; lia.
      * reflexivity.
      * rewrite R. exists (UserFindById id :: ops). split.
        -- rewrite logged_logged. reflexivity.
        -- constructor; [exact I|exact F].
    + exists [UserFindById id]. split; [reflexivity|].
      constructor; [exact I|constructor].
Qed.

Lemma getNetwork_run (userId : ObjectId) (w : World) :
  exists ops,
    Forall is_read ops
    /\ getNetwork createdAt userId w
       = match find_user userId (users w) with
         | None => (Throw (NotFoundException "User not found"), logged ops w)
         | Some _ =>
             (Ok (flattenNetwork
                    (treeOf createdAt (users w) (Z.to_nat MAX_REFERRAL_DEPTH) userId 1),
                  List.length
                    (flattenNetwork
                       (treeOf createdAt (users w) (Z.to_nat MAX_REFERRAL_DEPTH)
                               userId 1))),
              logged ops w)
         end.
Proof.
  unfold getNetwork, bind at 1. rewrite findById_run.
  destruct (find_user userId (users w)) as [u|].
  - destruct (buildNetworkTree_run (Z.to_nat MAX_REFERRAL_DEPTH) userId 1
                (logged [UserFindById userId] w)) as [ops [R F]];
      [unfold MAX_REFERRAL_DEPTH; lia|unfold MAX_REFERRAL_DEPTH; lia|].
    unfold bind. rewrite R. exists (UserFindById userId :: ops). split.
    + constructor; [exact I|exact F].
    + rewrite logged_logged. reflexivity.
  - exists [UserFindById userId]. split; [|reflexivity].
    constructor; [exact I|constructor].
Qed.

Lemma flat_map_flat_map {A B C} (f : B -> list C) (g : A -> list B) (l : list A) :
  flat_map f (flat_map g l) = flat_map (fun x => flat_map f (g x)) l.
Proof.
  induction l as [|x l IH]; simpl; [reflexivity|].
  rewrite flat_map_app, IH. reflexivity.
Qed.

Lemma flatten_treeOf (us : list User) (n : nat) (a : ObjectId) (level : Z) :
  flattenNetwork (treeOf createdAt us (S n) a level)
  = if MAX_REFERRAL_DEPTH <? level then []
    else
      match find_user a us with
      | None => []
      | Some cu =>
          flat_map
            (fun refId =>
               match find_user refId us with
               | None => []
               | Some r =>
                   mkNetworkNode (_id r) (referralCode r) level (createdAt (_id r)) None
                   :: (if level <? MAX_REFERRAL_DEPTH
                       then flattenNetwork (treeOf createdAt us n (_id r) (level + 1))
                       else [])
               end)
            (directReferrals cu)
      end.
Proof.
  unfold flattenNetwork. cbn [treeOf].
  destruct (MAX_REFERRAL_DEPTH <? level); [reflexivity|].
  destruct (find_user a us) as [cu|]; [|reflexivity].
  rewrite flat_map_flat_map. apply flat_map_ext. intros refId.
  destruct (find_user refId us) as [r|]; [|reflexivity].
  cbn [flat_map flattenNode nn_userId nn_referralCode nn_level joinedAt
       nn_directReferrals].
  rewrite app_nil_r. destruct (level <? MAX_REFERRAL_DEPTH); reflexivity.
Qed.

(** The nodes of the flattened tree: each stands for a stored user, at a
    level from the starting one up to 3, and carries no children. *)
Lemma treeOf_nodes (us : list User) :
  forall n a level node,
    In node (flattenNetwork (treeOf createdAt us n a level)) ->
    level <= nn_level node <= MAX_REFERRAL_DEPTH
    /\ nn_directReferrals node = None
    /\ exists u, find_user (nn_userId node) us = Some u
                 /\ nn_referralCode node = referralCode u
                 /\ joinedAt node = createdAt (nn_userId node).
Proof.
  induction n as [|n IH]; intros a level node Hin; [destruct Hin|].
  rewrite flatten_treeOf in Hin.
  destruct (Z.ltb_spec MAX_REFERRAL_DEPTH level) as [Hm|Hm]; [destruct Hin|].
  destruct (find_user a us) as [cu|]; [|destruct Hin].
  apply in_flat_map in Hin. destruct Hin as [refId [_ Hin]].
  destruct (find_user refId us) as [r|] eqn:Er; [|destruct Hin].
  destruct Hin as [<-|Hin].
  - cbn. split; [lia|]. split; [reflexivity|]. exists r.
    split; [apply (find_user_self _ _ _ Er)|]. split; reflexivity.
  - destruct (Z.ltb_spec level MAX_REFERRAL_DEPTH) as [Hl|Hl]; [|destruct Hin].
    destruct (IH _ _ _ Hin) as [B R]. split; [lia|exact R].
Qed.

(** Who is in the flattened tree under [a]: the users [j + 1] steps down
    the direct referrals, at the level that far below the start. *)
Lemma treeOf_members (us : list User) :
  forall n a level x j,
    (exists node, In node (flattenNetwork (treeOf createdAt us n a level))
                  /\ nn_userId node = x /\ nn_level node = level + Z.of_nat j)
    <-> (j < n)%nat /\ level + Z.of_nat j <= MAX_REFERRAL_DEPTH
        /\ descendantAt us (S j) a x.
Proof.
  induction n as [|n IH]; intros a level x j.
  - split; [intros [node [[] _]]|intros [Hj _]; lia].
  - rewrite flatten_treeOf.
    destruct (Z.ltb_spec MAX_REFERRAL_DEPTH level) as [Hm|Hm].
    { split; [intros [node [[] _]]|intros [_ [Hl _]]; lia]. }
    destruct (find_user a us) as [cu|] eqn:Ea.
    2:{ split; [intros [node [[] _]]|].
        intros [_ [_ [cu [c [r [E _]]]]]]. congruence. }
    split.
    + intros [node [Hin [Ex El]]].
      apply in_flat_map in Hin. destruct Hin as [refId [Href Hin]].
      destruct (find_user refId us) as [r|] eqn:Er; [|destruct Hin].
      pose proof (find_user_id _ _ _ Er) as Eid.
      destruct Hin as [<-|Hin].
      * cbn in Ex, El. assert (j = 0%nat) by lia. subst j.
        split; [lia|]. split; [lia|].
        exists cu, refId, r. repeat split; try assumption. cbn. congruence.
      * destruct (Z.ltb_spec level MAX_REFERRAL_DEPTH) as [Hl|Hl]; [|destruct Hin].
        destruct (treeOf_nodes us _ _ _ _ Hin) as [[B _] _].
        destruct j as [|j']; [lia|].
        destruct (proj1 (IH (_id r) (level + 1) x j')) as [Hj [Hb D]].
        { exists node. split; [exact Hin|]. split; [exact Ex|]. lia. }
        split; [lia|]. split; [lia|].
        exists cu, refId, r. repeat split; try assumption. rewrite <- Eid. exact D.
    + intros [Hj [Hb [cu' [c [r [Ea' [Hc [Er D]]]]]]]].
      rewrite Ea in Ea'. inversion Ea'; subst cu'.
      pose proof (find_user_id _ _ _ Er) as Eid.
      destruct j as [|j'].
      * cbn in D. subst c.
        exists (mkNetworkNode (_id r) (referralCode r) level (createdAt (_id r)) None).
        split; [|split; [exact Eid|cbn; lia]].
        apply in_flat_map. exists x. split; [exact Hc|]. rewrite Er. left. reflexivity.
      * destruct (proj2 (IH (_id r) (level + 1) x j')) as [node [Hin [Ex El]]].
        { split; [lia|]. split; [lia|]. rewrite Eid. exact D. }
        exists node. split; [|split; [exact Ex|lia]].
        apply in_flat_map. exists c. split; [exact Hc|]. rewrite Er. right.
        destruct (Z.ltb_spec level MAX_REFERRAL_DEPTH) as [Hl|Hl]; [exact Hin|lia].
Qed.

(** Who is on a chain: the user [j + 1] parent pointers up stands at the
    level that far above the start. *)
Lemma chainFrom_members (us : list User) :
  forall n u level a j,
    find_user (_id u) us = Some u ->
    (exists e, In e (chainFrom us n (Some u) level)
               /\ chain_userId e = a /\ chain_level e = level + Z.of_nat j)
    <-> (j < n)%nat /\ ancestorAt us (S j) (_id u) = Some a.
Proof.
  induction n as [|n IH]; intros u level a j Eu.
  - split; [intros [e [[] _]]|intros [Hj _]; lia].
  - rewrite chainFrom_step. cbn [ancestorAt]. rewrite Eu.
    destruct (referrerId u) as [p|];
      [|split; [intros [e [[] _]]|intros [_ E]; discriminate]].
    destruct (find_user p us) as [r|] eqn:Ep;
      [|split; [intros [e [[] _]]|intros [_ E]; discriminate]].
    pose proof (find_user_id _ _ _ Ep) as Eid.
    pose proof (find_user_self _ _ _ Ep) as Er.
    split.
    + intros [e [[<-|Hin] [Ea El]]].
      * cbn in Ea, El. assert (j = 0%nat) by lia. subst j.
        split; [lia|]. cbn. congruence.
      * destruct (In_nth_error _ _ Hin) as [i Hi].
        pose proof (chainFrom_levels us n (Some r) (level + 1) i e Hi) as Hlv.
        destruct j as [|j']; [lia|].
        destruct (proj1 (IH r (level + 1) a j' Er)) as [Hj A].
        { exists e. split; [exact Hin|]. split; [exact Ea|lia]. }
        split; [lia|]. rewrite <- Eid. exact A.
    + intros [Hj A]. destruct j as [|j'].
      * cbn in A. inversion A; subst a.
        exists (mkReferralChain (_id r) level (referralCode r)).
        split; [left; reflexivity|]. split; [exact Eid|cbn; lia].
      * destruct (proj2 (IH r (level + 1) a j' Er)) as [e [Hin [Ea El]]].
        { split; [lia|]. rewrite Eid. exact A. }
        exists e. split; [right; exact Hin|]. split; [exact Ea|lia].
Qed.

Lemma chainOf_members (us : list User) (x a : ObjectId) (j : nat) :
  (exists e, In e (chainOf us x)
             /\ chain_userId e = a /\ chain_level e = 1 + Z.of_nat j)
  <-> (j < Z.to_nat MAX_REFERRAL_DEPTH)%nat /\ ancestorAt us (S j) x = Some a.
Proof.
  unfold chainOf. destruct (find_user x us) as [u|] eqn:Ex.
  - pose proof (find_user_id _ _ _ Ex) as Eid.
    pose proof (find_user_self _ _ _ Ex) as Eu.
    rewrite <- Eid. apply chainFrom_members. exact Eu.
  - split.
    + intros [e [Hin _]]. destruct (Z.to_nat MAX_REFERRAL_DEPTH); destruct Hin.
    + intros [_ A]. cbn in A. rewrite Ex in A. discriminate.
Qed.

Lemma descendantAt_last (us : list User) :
  forall k a x,
    descendantAt us (S k) a x
    <-> exists p cu r,
          descendantAt us k a p /\ find_user p us = Some cu
          /\ In x (directReferrals cu) /\ find_user x us = Some r.
Proof.
  induction k as [|k IH]; intros a x.
  - cbn. split.
    + intros [cu [c [r [Ea [Hc [Er <-]]]]]]. exists a, cu, r. auto.
    + intros [p [cu [r [<- [Ea [Hc Er]]]]]]. exists cu, x, r. auto.
  - change (descendantAt us (S (S k)) a x)
      with (exists cu c r, find_user a us = Some cu /\ In c (directReferrals cu)
                           /\ find_user c us = Some r /\ descendantAt us (S k) c x).
    split.
    + intros [cu [c [r [Ea [Hc [Er D]]]]]].
      apply IH in D. destruct D as [p [cu' [r' [D [Ep [Hx Ex]]]]]].
      exists p, cu', r'. split; [|auto]. exists cu, c, r. auto.
    + intros [p [cu' [r' [[cu [c [r [Ea [Hc [Er D]]]]]] [Ep [Hx Ex]]]]]].
      exists cu, c, r. repeat split; try assumption.
      apply IH. exists p, cu', r'. auto.
Qed.

(** Walking [k] parent pointers up from [x] ends at [a] exactly when [x]
    is [k] direct-referral steps below [a], as long as the child lists
    agree with the parent pointers. *)
Lemma ancestor_descendant (us : list User) :
  linked us ->
  forall k x a, ancestorAt us k x = Some a <-> descendantAt us k a x.
Proof.
  intros L. induction k as [|k IH]; intros x a.
  - cbn. split; [intros E; inversion E; reflexivity|intros ->; reflexivity].
  - rewrite descendantAt_last. cbn [ancestorAt]. split.
    + intros A. destruct (find_user x us) as [u|] eqn:Ex; [|discriminate].
      destruct (referrerId u) as [p|] eqn:Er; [|discriminate].
      destruct (find_user p us) as [pu|] eqn:Ep; [|discriminate].
      destruct (proj2 (L p x)) as [pu' [Ep' Hx]]; [exists u; auto|].
      rewrite Ep in Ep'. inversion Ep'; subst pu'.
      exists p, pu, u. split; [apply IH; exact A|auto].
    + intros [p [cu [r [D [Ep [Hx Ex]]]]]].
      destruct (proj1 (L p x)) as [cu' [Ex' Er]]; [exists cu; auto|].
      rewrite Ex', Er, Ep. apply IH. exact D.
Qed.

(** X16. [getNetwork] throws the not-found error for an unknown user and
    returns otherwise; either way it only reads.  Every node it returns
    stands for a stored user, with that user's code and creation time, at
    a level from 1 to 3, without children, and [total] counts the
    nodes. *)
Theorem getNetwork_outcome (userId : ObjectId) (w : World) :
  exists w',
    users w' = users w /\ trades w' = trades w
    /\ commissionRows w' = commissionRows w
    /\ match find_user userId (users w) with
       | None =>
           getNetwork createdAt userId w
           = (Throw (NotFoundException "User not found"), w')
       | Some _ =>
           exists data,
             getNetwork createdAt userId w = (Ok (data, List.length data), w')
             /\ forall node, In node data ->
                  1 <= nn_level node <= MAX_REFERRAL_DEPTH
                  /\ nn_directReferrals node = None
                  /\ exists u, find_user (nn_userId node) (users w) = Some u
                               /\ nn_referralCode node = referralCode u
                               /\ joinedAt node = createdAt (nn_userId node)
       end.
Proof.
  destruct (getNetwork_run userId w) as [ops [_ R]].
  exists (logged ops w). repeat (split; [reflexivity|]).
  destruct (find_user userId (users w)) as [u|]; [|exact R].
  eexists. split; [exact R|]. intros node Hin.
  apply (treeOf_nodes _ _ _ _ _ Hin).
Qed.

(** X17. In a reachable world [getNetwork] and [getReferralChain] mirror
    each other: the network of a stored user [a] lists [x] at level [k]
    exactly when the chain of [x] lists [a] at level [k]. *)
Theorem getNetwork_mirrors_chain (w : World) (a : ObjectId) (ua : User) :
  reachable w -> find_user a (users w) = Some ua ->
  exists data w',
    getNetwork createdAt a w = (Ok (data, List.length data), w')
    /\ forall x k,
         (exists node, In node data /\ nn_userId node = x /\ nn_level node = k)
         <-> (exists chain e,
                fst (getReferralChain x w) = Ok chain
                /\ In e chain /\ chain_userId e = a /\ chain_level e = k).
Proof.
  intros R Ea. destruct (getNetwork_run a w) as [ops [_ Rn]]. rewrite Ea in Rn.
  eexists _, _. split; [exact Rn|]. intros x k.
  pose proof (reachable_linked w R) as L.
  assert (Ch : (exists chain e,
                   fst (getReferralChain x w) = Ok chain
                   /\ In e chain /\ chain_userId e = a /\ chain_level e = k)
               <-> (exists e, In e (chainOf (users w) x)
                              /\ chain_userId e = a /\ chain_level e = k)).
  { destruct (getReferralChain_run x w) as [ops' [Rc _]]. rewrite Rc. cbn [fst].
    split.
    - intros [chain [e [E H']]]. inversion E; subst chain. exists e. exact H'.
    - intros [e H']. exists (chainOf (users w) x), e. split; [reflexivity|exact H']. }
  rewrite Ch. clear Ch. split.
  - intros [node [Hin [Ex El]]].
    destruct (treeOf_nodes _ _ _ _ _ Hin) as [[B1 B2] _].
    assert (Ek : k = 1 + Z.of_nat (Z.to_nat (k - 1))) by lia.
    rewrite Ek. apply chainOf_members.
    destruct (proj1 (treeOf_members (users w) (Z.to_nat MAX_REFERRAL_DEPTH) a 1 x
                     (Z.to_nat (k - 1))))
      as [Hj [_ D]].
    { exists node. split; [exact Hin|]. split; [exact Ex|lia]. }
    split; [exact Hj|]. apply (ancestor_descendant _ L). exact D.
  - intros [e [Hin [Ee El]]].
    pose proof (chainOf_levels _ _ _ Hin) as B.
    assert (Ek : k = 1 + Z.of_nat (Z.to_nat (k - 1))) by lia.
    destruct (proj1 (chainOf_members (users w) x a (Z.to_nat (k - 1)))) as [Hj A].
    { exists e. split; [exact Hin|]. split; [exact Ee|lia]. }
    rewrite Ek. apply treeOf_members.
    split; [exact Hj|]. split; [unfold MAX_REFERRAL_DEPTH in *; lia|].
    apply (ancestor_descendant _ L). exact A.
Qed.

End NetworkProperties.

(** ** The balances after a trade *)

Lemma find_user_credit (credits : list (CommissionBreakdown * Decimal128)) :
  forall us i,
    find_user i (creditCommissions us credits)
    = option_map
        (fun u => fold_left (fun u ca => if Nat.eqb (userId (fst ca)) i
                                         then inc_commission (snd ca) u else u)
                            credits u)
        (find_user i us).
Proof.
  unfold creditCommissions. induction credits as [|ca rest IH]; intros us i.
  - simpl. destruct (find_user i us); reflexivity.
  - cbn [fold_left]. rewrite IH, find_user_update_first by reflexivity.
    rewrite (Nat.eqb_sym (userId (fst ca)) i).
    destruct (Nat.eqb i (userId (fst ca))); destruct (find_user i us); reflexivity.
Qed.

Lemma credit_none (i : ObjectId) (credits : list (CommissionBreakdown * Decimal128)) :
  ~ In i (map (fun ca => userId (fst ca)) credits) ->
  forall u,
    fold_left (fun u ca => if Nat.eqb (userId (fst ca)) i
                           then inc_commission (snd ca) u else u) credits u = u.
Proof.
  induction credits as [|ca rest IH]; intros Nin u; [reflexivity|].
  cbn [fold_left]. destruct (Nat.eqb_spec (userId (fst ca)) i) as [E|_].
  - exfalso. apply Nin. left. exact E.
  - apply IH. intros Hin. apply Nin. right. exact Hin.
Qed.

Lemma credit_once (i : ObjectId) (credits : list (CommissionBreakdown * Decimal128)) :
  NoDup (map (fun ca => userId (fst ca)) credits) ->
  forall u,
    fold_left (fun u ca => if Nat.eqb (userId (fst ca)) i
                           then inc_commission (snd ca) u else u) credits u
    = match find (fun ca => Nat.eqb (userId (fst ca)) i) credits with
      | Some ca => inc_commission (snd ca) u
      | None => u
      end.
Proof.
  induction credits as [|ca rest IH]; intros ND u; [reflexivity|].
  inversion ND as [|? ? Nin ND']; subst. cbn [fold_left find].
  destruct (Nat.eqb_spec (userId (fst ca)) i) as [E|_].
  - apply credit_none. rewrite <- E. exact Nin.
  - apply IH. exact ND'.
Qed.

Lemma emitted_ids (us : list User) (F : BigNumber) (rchain : list ReferralChain)
    (i : ObjectId) :
  In i (map userId (flat_map (emitted us F) rchain)) ->
  In i (map chain_userId rchain).
Proof.
  induction rchain as [|e rest IH]; simpl; [auto|].
  rewrite map_app, in_app_iff. intros [Hin|Hin]; [left|right; apply IH; exact Hin].
  unfold emitted in Hin. destruct (resolvedRate us e); [|destruct Hin].
  destruct (isGreaterThan _ _); [|destruct Hin].
  destruct Hin as [<-|[]]. reflexivity.
Qed.

Lemma emitted_ids_NoDup (us : list User) (F : BigNumber) (rchain : list ReferralChain) :
  NoDup (map chain_userId rchain) ->
  NoDup (map userId (flat_map (emitted us F) rchain)).
Proof.
  induction rchain as [|e rest IH]; simpl; intros ND; [constructor|].
  inversion ND as [|? ? Nin ND']; subst. rewrite map_app.
  unfold emitted at 1. destruct (resolvedRate us e); [|apply IH; exact ND'].
  destruct (isGreaterThan _ _); [|apply IH; exact ND'].
  simpl. constructor; [|apply IH; exact ND'].
  intros Hin. apply Nin. apply (emitted_ids _ _ _ _ Hin).
Qed.

Lemma combine_keys (comms : list CommissionBreakdown) (amounts : list Decimal128) :
  parsedAmounts comms amounts ->
  map (fun ca => userId (fst ca)) (combine comms amounts) = map userId comms.
Proof. induction 1; simpl; [reflexivity|]. f_equal. assumption. Qed.

(** X18. Under the invariant of the user collection a successful trade
    changes the balances as follows, and nothing else of any user: the
    trader's cashback total and XP total are each incremented by the
    parsed cashback; each recipient of a commission has its commission
    total and XP total incremented by its parsed amount, once; the trader
    is none of the recipients.  An increment is the sum the database
    computes, whatever its rounding. *)
Theorem processTrade_balances (traderId volume token : string) (side : Side)
    (chain : Chain) (w w' : World) (trade : Trade) (fd : FeeDistribution) :
  wellFormed w ->
  processTrade traderId volume token side chain w = (Ok (trade, fd), w') ->
  exists amounts cb,
    parsedAmounts (commissions fd) amounts
    /\ Decimal128_fromString (toString (cashback fd)) = Some cb
    /\ ~ In (t_userId trade) (map userId (commissions fd))
    /\ forall u, In u (users w) ->
         exists u',
           find_user (_id u) (users w') = Some u'
           /\ frame u' = frame u
           /\ totalCashbackEarned u'
              = (if Nat.eqb (_id u) (t_userId trade)
                 then Decimal128_add (totalCashbackEarned u) cb
                 else totalCashbackEarned u)
           /\ totalCommissionEarned u'
              = match find (fun ca => Nat.eqb (userId (fst ca)) (_id u))
                           (combine (commissions fd) amounts) with
                | Some ca => Decimal128_add (totalCommissionEarned u) (snd ca)
                | None => totalCommissionEarned u
                end
           /\ totalXpEarned u'
              = (if Nat.eqb (_id u) (t_userId trade)
                 then Decimal128_add (totalXpEarned u) cb
                 else match find (fun ca => Nat.eqb (userId (fst ca)) (_id u))
                                 (combine (commissions fd) amounts) with
                      | Some ca => Decimal128_add (totalXpEarned u) (snd ca)
                      | None => totalXpEarned u
                      end).
Proof.
  intros WF E. destruct (processTrade_effect _ _ _ _ _ _ _ _ E) as [_ [_ G]].
  destruct (ObjectId_of_string traderId) as [id|]; [|destruct G; discriminate].
  destruct (find_user id (users w)) as [user|] eqn:Eu; [|destruct G; discriminate].
  destruct (isNaN _ || _); [destruct G; discriminate|].
  cbv zeta in G. destruct G as [_ G].
  destruct (validTrade _); [|destruct G; discriminate].
  destruct G as [_ [[G _]|[G [_ [amounts [cb [P [Ecb U]]]]]]]]; [discriminate|].
  inversion G; subst trade fd. clear G.
  set (fd := distributionOf (users w) user (BigNumber_of_string volume) chain token) in *.
  cbn [t_userId markDistributed newTrade].
  pose proof (find_user_In _ _ _ Eu) as Hin.
  destruct (chainOf_ancestors _ _ user WF Hin) as [_ [NDc NSc]].
  assert (Ids : forall i, In i (map userId (commissions fd)) ->
                          In i (map chain_userId (chainOf (users w) (_id user)))).
  { intros i Hi. unfold fd, distributionOf in Hi.
    destruct (isZero _); [destruct Hi|]. apply (emitted_ids _ _ _ _ Hi). }
  assert (NDr : NoDup (map (fun ca => userId (fst ca))
                           (combine (commissions fd) amounts))).
  { rewrite (combine_keys _ _ P). unfold fd, distributionOf.
    destruct (isZero _); [constructor|]. apply emitted_ids_NoDup. exact NDc. }
  exists amounts, cb. split; [exact P|]. split; [exact Ecb|].
  split; [intros Hi; apply NSc, Ids, Hi|].
  intros u Hu. rewrite U, find_user_update_first by reflexivity.
  rewrite find_user_credit, (find_user_NoDup _ _ (proj1 WF) Hu).
  cbn [option_map]. rewrite (credit_once _ _ NDr).
  destruct (find (fun ca => Nat.eqb (userId (fst ca)) (_id u))
                 (combine (commissions fd) amounts)) as [ca|] eqn:Ef;
    destruct (Nat.eqb_spec (_id u) (_id user)) as [Ei|Ei]; cbn [option_map];
    try (eexists; (split; [reflexivity|]); repeat split; fail).
  exfalso. apply find_some in Ef. destruct Ef as [Hca Eca].
  apply Nat.eqb_eq in Eca. apply NSc, Ids. rewrite <- Ei, <- Eca.
  rewrite <- (combine_keys _ _ P).
  apply (in_map (fun ca => userId (fst ca))). exact Hca.
Qed.

(** ** The documents after a registration *)

Lemma find_code_app (c : string) (us : list User) (u : User) :
  find_code c (us ++ [u])
  = match find_code c us with
    | Some x => Some x
    | None => if String.eqb (referralCode u) c then Some u else None
    end.
Proof.
  unfold find_code. induction us as [|x us IH]; simpl; [reflexivity|].
  destruct (String.eqb (referralCode x) c); [reflexivity|exact IH].
Qed.

Lemma find_code_update_other (c : string) (p : User -> bool) (f : User -> User)
    (us : list User) (y : User) :
  (forall x, referralCode (f x) = referralCode x) ->
  find_code c us = Some y -> p y = false ->
  find_code c (update_first p f us) = Some y.
Proof.
  intros Hf. unfold find_code. induction us as [|x us IH]; simpl; [discriminate|].
  intros E Py. destruct (p x) eqn:Px; simpl.
  - rewrite Hf. destruct (String.eqb (referralCode x) c); [|exact E].
    inversion E; subst y. congruence.
  - destruct (String.eqb (referralCode x) c); [exact E|]. apply IH; assumption.
Qed.

(** X19. After a successful [registerWithReferral], under the invariant of
    the user collection, both lookups return the new document as it was
    returned; it points to the referrer, one level deeper than the
    referrer's stored depth; the referrer's document has gained the new
    identifier at the end of its direct referrals; every other document
    is as before. *)
Theorem registered_user_stored (fuel : nat) (code : string) (w w' : World) (u : User) :
  wellFormed w ->
  registerWithReferral fuel code w = (Ok u, w') ->
  fst (findUserById (_id u) w') = Ok (Some u)
  /\ fst (findUserByReferralCode (referralCode u) w') = Ok (Some u)
  /\ exists referrer,
       find_code code (users w) = Some referrer
       /\ referrerId u = Some (_id referrer)
       /\ referralDepth u = referralDepth referrer + 1
       /\ find_user (_id referrer) (users w')
          = Some (push_directReferral (_id u) referrer)
       /\ forall x, x <> _id referrer -> x <> _id u ->
            find_user x (users w') = find_user x (users w).
Proof.
  intros WF E.
  destruct (registerWithReferral_effect _ _ _ _ _ E) as [_ [_ [_ G]]].
  destruct G as [referrer [d [w1 [id [c [Ec [Ed [Hd [Eu [Hid [_ [Fc U]]]]]]]]]]]].
  pose proof (find_code_In _ _ _ Ec) as Hin.
  assert (WF1 : wellFormed (logged [UserFindOne code] w))
    by (apply (wellFormed_same w); [reflexivity|simpl; lia|exact WF]).
  destruct (calculateReferralDepth_any fuel referrer _ WF1 Hin) as [ops [Ra _]].
  rewrite Ed in Ra.
  destruct (Z.to_nat (referralDepth referrer) <=? fuel)%nat; [|discriminate].
  injection Ra as Ra _. subst d.
  pose proof (find_user_NoDup _ _ (proj1 WF) Hin) as Er.
  pose proof (find_user_fresh _ _ _ WF Hid) as Ei.
  assert (Nri : _id referrer <> id) by (intros <-; congruence).
  assert (Iu : _id u = id) by (subst u; reflexivity).
  assert (Cu : referralCode u = c) by (subst u; reflexivity).
  assert (Fu : forall x,
             find_user x (users w')
             = if Nat.eqb x (_id referrer) then Some (push_directReferral id referrer)
               else match find_user x (users w) with
                    | Some y => Some y
                    | None => if Nat.eqb x id then Some u else None
                    end).
  { intros x. rewrite U, find_user_update_first by reflexivity.
    rewrite find_user_app, Iu.
    destruct (Nat.eqb_spec x (_id referrer)) as [->|Nx].
    - rewrite Er. reflexivity.
    - rewrite (Nat.eqb_sym id x). reflexivity. }
  unfold findUserById, findUserByReferralCode. rewrite findById_run, findOne_run.
  cbn [fst]. split; [|split].
  - rewrite Fu, Iu, Ei, Nat.eqb_refl.
    destruct (Nat.eqb_spec id (_id referrer)); [congruence|reflexivity].
  - rewrite U. f_equal. apply find_code_update_other; [reflexivity| |].
    + rewrite find_code_app, Cu, Fc, <- Cu, String.eqb_refl. reflexivity.
    + rewrite Iu. apply Nat.eqb_neq. congruence.
  - exists referrer. split; [exact Ec|]. rewrite Eu at 1 2. cbn [referrerId referralDepth newUser].
    split; [reflexivity|]. split; [reflexivity|]. split.
    + rewrite Fu, Nat.eqb_refl, Iu. reflexivity.
    + intros x Nx Nu. rewrite Fu.
      destruct (Nat.eqb_spec x (_id referrer)); [contradiction|].
      destruct (find_user x (users w)); [reflexivity|].
      destruct (Nat.eqb_spec x id); [congruence|reflexivity].
Qed.

(** ** The trade a commission row refers to *)

(** Every commission row of a reachable world refers to a stored trade:
    the trade of its [tradeId] was made by the row's source user, with
    the row's fee, token and chain. *)
Lemma reachable_row_trades (w : World) :
  reachable w ->
  Forall (fun c => exists t, In t (trades w) /\ t_id t = c_tradeId c
                             /\ t_userId t = c_sourceUserId c
                             /\ t_totalFee t = c_tradeFee c
                             /\ t_token t = c_token c /\ t_chain t = c_chain c)
         (commissionRows w).
Proof.
  induction 1 as [|w r w' R IH E|w fuel code r w' R IH E
                  |w userId volume token side chain r w' R IH E].
  - constructor.
  - destruct (generateReferralCode_effect w) as [w1 [T [C G]]].
    assert (Ew : w1 = w').
    { destruct (firstFree (users w) (drawn w) maxAttempts);
        destruct G as [G _]; rewrite E in G; inversion G; reflexivity. }
    subst w1. rewrite T, C. exact IH.
  - destruct (registerWithReferral_effect _ _ _ _ _ E) as [T [C _]].
    rewrite T, C. exact IH.
  - destruct (reachable_trades w R) as [_ F].
    destruct (processTrade_effect _ _ _ _ _ _ _ _ E) as [_ [_ G]].
    destruct (ObjectId_of_string userId) as [id|];
      [|destruct G as [_ ->]; exact IH].
    destruct (find_user id (users w)) as [user|];
      [|destruct G as [_ ->]; exact IH].
    destruct (isNaN _ || _); [destruct G as [_ ->]; exact IH|].
    cbv zeta in G. destruct G as [_ G].
    set (fd := distributionOf (users w) user (BigNumber_of_string volume) chain token) in *.
    set (t0 := newTrade (nextId w) user volume token side chain fd) in *.
    destruct (validTrade t0).
    2:{ destruct G as [_ [_ [T C]]]. rewrite T, C. exact IH. }
    destruct G as [C G].
    assert (S0 : saveTrade t0 (trades w) = trades w ++ [t0])
      by (apply saveTrade_new; exact F).
    assert (S1 : saveTrade (markDistributed t0 (clock w)) (saveTrade t0 (trades w))
                 = trades w ++ [markDistributed t0 (clock w)])
      by (rewrite S0; apply saveTrade_again; [reflexivity|exact F]).
    assert (T : exists t, trades w' = trades w ++ [t]
                          /\ t_id t = nextId w /\ t_userId t = _id user
                          /\ t_totalFee t = toString (totalFee fd)
                          /\ t_token t = token /\ t_chain t = chain).
    { destruct G as [[_ [T|T]]|[_ [T _]]]; rewrite T.
      - exists t0. rewrite S0. repeat split.
      - exists (markDistributed t0 (clock w)). rewrite S1. repeat split.
      - exists (markDistributed t0 (clock w)). rewrite S1. repeat split. }
    destruct T as [t [T [Ti [Tu [Tf [Tt Tc]]]]]]. rewrite C, T.
    apply Forall_app. split.
    + eapply Forall_impl; [|exact IH]. intros c [x [Hx Rx]].
      exists x. split; [apply in_or_app; left; exact Hx|exact Rx].
    + apply Forall_forall. intros c Hc. apply in_map_iff in Hc.
      destruct Hc as [b [<- Hb]]. exists t.
      split; [apply in_or_app; right; left; reflexivity|].
      cbn [commissionDoc c_tradeId c_sourceUserId c_tradeFee c_token c_chain].
      unfold fd, distributionOf in *. destruct (isZero _); [destruct Hb|].
      cbn [totalFee fd_token fd_chain] in *. repeat split; assumption.
Qed.

(** X20. Every commission row of a reachable world refers to a stored
    trade: a trade document with the row's [tradeId] exists, it was made
    by the row's source user, and it carries the row's fee, token and
    chain. *)
Theorem commission_rows_reference_trades (w : World) :
  reachable w ->
  forall c, In c (commissionRows w) ->
    exists t, In t (trades w) /\ t_id t = c_tradeId c
              /\ t_userId t = c_sourceUserId c
              /\ t_totalFee t = c_tradeFee c
              /\ t_token t = c_token c /\ t_chain t = c_chain c.
Proof.
  intros R c Hc.
  apply (proj1 (Forall_forall _ _) (reachable_row_trades w R) c Hc).
Qed.

(** ** The volume a commission row records *)

Lemma quot_cross (a b c d : Z) :
  0 < b -> 0 < d -> a * d = c * b -> Z.quot a b = Z.quot c d.
Proof.
  intros Hb Hd E.
  rewrite <- (Z.quot_mul_cancel_r a b d) by lia.
  rewrite <- (Z.quot_mul_cancel_r c d b) by lia.
  rewrite E, (Z.mul_comm b d). reflexivity.
Qed.

(** Cutting to 18 places is cutting the value: the integer part of the
    value times [10 ^ 18]. *)
Lemma dec_round_down_quot (v : decimal) :
  dec_round_down DECIMAL_PLACES v
  = strip (Z.quot (coef v * pow10 DECIMAL_PLACES) (pow10 (scale v))) DECIMAL_PLACES.
Proof.
  unfold dec_round_down. pose proof (pow10_pos (scale v)) as Ps.
  destruct (Nat.leb_spec (scale v) DECIMAL_PLACES) as [Hle|Hgt].
  - assert (Ep : pow10 DECIMAL_PLACES
                 = pow10 (DECIMAL_PLACES - scale v) * pow10 (scale v)).
    { rewrite <- pow10_add. f_equal. lia. }
    rewrite Ep at 1. rewrite Z.mul_assoc, Z.quot_mul by lia.
    apply canonical_unique; [apply strip_canonical|apply strip_canonical|].
    rewrite !toQ_strip. unfold Qeq. cbn [Qnum Qden]. rewrite !pow10_den.
    rewrite Ep. ring.
  - assert (Ep : pow10 (scale v)
                 = pow10 (scale v - DECIMAL_PLACES) * pow10 DECIMAL_PLACES).
    { rewrite <- pow10_add. f_equal. lia. }
    rewrite Ep.
    rewrite Z.quot_mul_cancel_r;
      [reflexivity|pose proof (pow10_pos (scale v - DECIMAL_PLACES)); lia
       |pose proof (pow10_pos DECIMAL_PLACES); lia].
Qed.

(** Dividing by the BASE rate cuts a hundred times the value. *)
Lemma dec_div_base (f v : decimal) :
  coef f * (pow10 (scale v) * 100) = coef v * pow10 (scale f) ->
  dec_div_down DECIMAL_PLACES f (strip 1 2) = dec_round_down DECIMAL_PLACES v.
Proof.
  intros E. rewrite dec_round_down_quot.
  unfold dec_div_down. change (strip 1 2) with (mkDecimal 1 2).
  cbn [coef scale]. f_equal. apply quot_cross.
  - pose proof (pow10_pos (scale f)). lia.
  - apply pow10_pos.
  - change (pow10 2) with 100.
    transitivity (coef f * (pow10 (scale v) * 100) * pow10 DECIMAL_PLACES);
      [ring|]. rewrite E. ring.
Qed.

(** The volume [distributeCommissions] recomputes from a fee that is not
    zero: the volume itself for a BASE trader, half of it for a REDUCED
    one, cut to 18 places. *)
Lemma tradeVolume_of_fee (tier : FeeTier) (volume : BigNumber) :
  isNaN volume = false -> isLessThanOrEqualTo volume (BN 0) = false ->
  inRange volume = true ->
  isZero (multipliedBy volume (getFeeRateForTier tier)) = false ->
  dividedBy (multipliedBy volume (getFeeRateForTier tier)) (getFeeRateForTier BASE)
  = decimalPlaces_down DECIMAL_PLACES
      (match tier with
       | BASE => volume
       | REDUCED => multipliedBy volume (dec 5 1)
       end).
Proof.
  intros N P R Z. destruct (not_le_zero_cases volume N P) as [->|[d [-> Pd]]].
  - destruct tier; reflexivity.
  - destruct (inRange_positive d Pd R) as [_ Ld].
    assert (Qd : (0 < toQ d)%Q) by (apply toQ_pos; exact Pd).
    assert (T : forall r, 0 < coef r -> (toQ r <= 1)%Q ->
                  isZero (multipliedBy (Finite d) (Finite r)) = false ->
                  multipliedBy (Finite d) (Finite r) = Finite (dec_mul d r)
                  /\ underflows (dec_mul d r) = false).
    { intros r Pr Lr. rewrite (times_fraction d r Pd Ld Pr Lr).
      destruct (underflows (dec_mul d r)); [discriminate|]. split; reflexivity. }
    destruct tier; cbn [getFeeRateForTier decimalPlaces_down] in *.
    + unfold FEE_TIERS_BASE, dec in *.
      destruct (T (strip 1 2)) as [E _];
        [reflexivity|unfold Qle; simpl; lia|exact Z|].
      rewrite E. cbn [dividedBy].
      change (dec_is_zero (strip 1 2)) with false. cbv iota. f_equal.
      apply dec_div_base. unfold dec_mul. change (strip 1 2) with (mkDecimal 1 2).
      cbn [coef scale].
      pose proof (strip_cross (coef d * 1) (scale d + 2)) as C.
      rewrite pow10_add in C. change (pow10 2) with 100 in C. rewrite C. ring.
    + unfold FEE_TIERS_BASE, FEE_TIERS_REDUCED, dec in *.
      destruct (T (strip 5 3)) as [E U];
        [reflexivity|unfold Qle; simpl; lia|exact Z|].
      rewrite E. rewrite (times_fraction d (strip 5 1) Pd Ld);
        [|reflexivity|unfold Qle; simpl; lia].
      rewrite (underflows_mono (dec_mul d (strip 5 3)) (dec_mul d (strip 5 1)));
        [| | |exact U].
      2:{ unfold dec_mul. apply strip_sign. change (coef (strip 5 3)) with 5. lia. }
      2:{ rewrite !toQ_mul. apply Qmult_le_l; [exact Qd|]. unfold Qle; simpl; lia. }
      cbn [dividedBy decimalPlaces_down].
      change (dec_is_zero (strip 1 2)) with false. cbv iota. f_equal.
      apply dec_div_base. unfold dec_mul.
      change (strip 5 3) with (mkDecimal 5 3). change (strip 5 1) with (mkDecimal 5 1).
      cbn [coef scale].
      pose proof (strip_cross (coef d * 5) (scale d + 3)) as Cf.
      pose proof (strip_cross (coef d * 5) (scale d + 1)) as Cg.
      set (f := strip (coef d * 5) (scale d + 3)) in *.
      set (g := strip (coef d * 5) (scale d + 1)) in *.
      rewrite pow10_add in Cf, Cg. change (pow10 3) with 1000 in Cf.
      change (pow10 1) with 10 in Cg.
      pose proof (pow10_pos (scale d)) as Pp.
      apply (Z.mul_reg_r _ _ (pow10 (scale d) * 10)); [lia|].
      transitivity (coef f * (pow10 (scale d) * 1000) * pow10 (scale g)); [ring|].
      rewrite Cf.
      transitivity (coef g * (pow10 (scale d) * 10) * pow10 (scale f)); [|ring].
      rewrite Cg. ring.
Qed.

(** X21. The [tradeVolume] a commission row records is recomputed from
    the fee with the BASE rate: for a BASE trader it is the volume of the
    trade cut to 18 decimal places, for a REDUCED trader it is half the
    volume, whatever the volume. *)
Theorem tradeVolume_snapshot (traderId volume token : string) (side : Side)
    (chain : Chain) (w w' : World) (trade : Trade) (fd : FeeDistribution) :
  processTrade traderId volume token side chain w = (Ok (trade, fd), w') ->
  exists id user rows,
    ObjectId_of_string traderId = Some id
    /\ find_user id (users w) = Some user
    /\ commissionRows w' = commissionRows w ++ rows
    /\ forall c, In c rows ->
         c_tradeVolume c
         = toString (decimalPlaces_down DECIMAL_PLACES
                       (match feeTier user with
                        | BASE => BigNumber_of_string volume
                        | REDUCED =>
                            multipliedBy (BigNumber_of_string volume) (dec 5 1)
                        end)).
Proof.
  intros E. destruct (processTrade_effect _ _ _ _ _ _ _ _ E) as [_ [_ G]].
  destruct (ObjectId_of_string traderId) as [id|]; [|destruct G; discriminate].
  destruct (find_user id (users w)) as [user|] eqn:Eu; [|destruct G; discriminate].
  destruct (isNaN (BigNumber_of_string volume)) eqn:N;
    [destruct G; discriminate|].
  destruct (isLessThanOrEqualTo (BigNumber_of_string volume) (BN 0)) eqn:P;
    [destruct G; discriminate|].
  cbv zeta in G. cbn [orb] in G. destruct G as [_ G].
  destruct (validTrade _); [|destruct G; discriminate].
  destruct G as [C _].
  exists id, user. eexists. split; [reflexivity|]. split; [exact Eu|].
  split; [exact C|]. intros c Hc. apply in_map_iff in Hc.
  destruct Hc as [b [<- Hb]]. cbn [commissionDoc c_tradeVolume].
  unfold distributionOf in *. destruct (isZero _) eqn:Z; [destruct Hb|].
  cbn [totalFee]. unfold feeOf in *.
  destruct (isFeesWaived user); [discriminate|].
  rewrite (tradeVolume_of_fee _ _ N P (BigNumber_of_string_inRange volume) Z).
  reflexivity.
Qed.

(** ** [getClaimableAmount] in general *)

Lemma sum_toDecimal_run (rows : list Commission) :
  forall acc w r w',
    sum_toDecimal rows acc w = (r, w') ->
    w' = w
    /\ match r with
       | Ok _ => True
       | Throw e =>
           e = BSONError
           /\ exists c, In c rows /\ Decimal128_fromString (c_amount c) = None
       | Diverge => False
       end.
Proof.
  induction rows as [|c rest IH]; intros acc w r w' E; simpl in E.
  - inversion E; subst. split; [reflexivity|exact I].
  - unfold bind at 1, decimal128 in E.
    destruct (Decimal128_fromString (c_amount c)) as [a|] eqn:Ea.
    + unfold ret at 1 in E. apply IH in E. destruct E as [Ew R].
      split; [exact Ew|]. destruct r as [t|e|]; [exact I| |exact R].
      destruct R as [Ee [x [Hx Ex]]]. split; [exact Ee|].
      exists x. split; [right; exact Hx|exact Ex].
    + inversion E; subst. split; [reflexivity|]. split; [reflexivity|].
      exists c. split; [left; reflexivity|exact Ea].
Qed.

(** X22. [getClaimableAmount] writes nothing, whatever its outcome.  When
    it returns, the cashback is the stored total of the user (or "0" for
    an unknown user), whether or not there are commission rows, and the
    commission is "0" when the user has no unclaimed row.  The only error
    it can raise is the conversion error of an unclaimed row of the user
    whose amount does not read as a decimal. *)
Theorem getClaimableAmount_outcome (userId : ObjectId) (w : World)
    (r : Outcome (string * string)) (w' : World) :
  getClaimableAmount userId w = (r, w') ->
  users w' = users w /\ trades w' = trades w
  /\ commissionRows w' = commissionRows w /\ nextId w' = nextId w
  /\ match r with
     | Ok (commission, cashback) =>
         cashback = match find_user userId (users w) with
                    | Some u => Decimal128_toString (totalCashbackEarned u)
                    | None => "0"%string
                    end
         /\ ((forall c, In c (commissionRows w) -> c_userId c = userId ->
                        c_isClaimed c = true) ->
             commission = "0"%string)
     | Throw e =>
         e = BSONError
         /\ exists c, In c (commissionRows w) /\ c_userId c = userId
                      /\ c_isClaimed c = false
                      /\ Decimal128_fromString (c_amount c) = None
     | Diverge => False
     end.
Proof.
  unfold getClaimableAmount, commissionModel_aggregateUnclaimed.
  unfold bind at 1. unfold bind at 1. cbn [record].
  set (w0 := mkWorld (users w) (trades w) (commissionRows w) (nextId w) (drawn w)
                     (clock w) (log w ++ [CommissionAggregate userId])).
  change (commissionRows w0) with (commissionRows w).
  destruct (filter (fun c => Nat.eqb (c_userId c) userId && negb (c_isClaimed c))
                   (commissionRows w)) as [|c0 rows0] eqn:Ef.
  - unfold bind. rewrite findById_run. cbn. intros E. inversion E; subst.
    repeat (split; [reflexivity|]). intros _. reflexivity.
  - unfold bind at 1.
    destruct (sum_toDecimal (c0 :: rows0) (BN 0) w0) as [o w1] eqn:Es.
    destruct (sum_toDecimal_run _ _ _ _ _ Es) as [-> R].
    destruct o as [total|e|]; [| |contradiction].
    + unfold ret at 1. unfold bind. rewrite findById_run. cbn. intros E.
      inversion E; subst. repeat (split; [reflexivity|]).
      intros Hall. exfalso.
      assert (Hc : In c0 (filter (fun c => Nat.eqb (c_userId c) userId
                                           && negb (c_isClaimed c))
                                 (commissionRows w)))
        by (rewrite Ef; left; reflexivity).
      apply filter_In in Hc. destruct Hc as [Hc Hb].
      apply andb_prop in Hb. destruct Hb as [Hu Hn].
      apply Nat.eqb_eq in Hu. rewrite (Hall c0 Hc Hu) in Hn. discriminate.
    + intros E. inversion E; subst. repeat (split; [reflexivity|]).
      destruct R as [Ee [c [Hc Ec]]]. split; [exact Ee|].
      rewrite <- Ef in Hc. apply filter_In in Hc. destruct Hc as [Hc Hb].
      apply andb_prop in Hb. destruct Hb as [Hu Hn].
      apply Nat.eqb_eq in Hu. apply negb_true_iff in Hn.
      exists c. repeat split; assumption.
Qed.

(** ** The answer of the trade webhook *)

Section WebhookProperties.
Variable tradeCreatedAt : ObjectId -> nat.

(** X23. The answer of the trade webhook echoes what was stored: the trade
    document with the answer's [tradeId] is in the collection, with the
    answer's volume, token, chain, fee, cashback and treasury; the
    commission rows the call added are, in order, the commissions of the
    answer, each with the same recipient, level, amount and rate, and
    each refers to that trade.  Whatever the service throws, the
    controller throws. *)
Theorem webhook_response_matches_store (dto : TradeWebhookDto) (w : World)
    (r : Outcome TradeResponseDto) (w' : World) :
  TradeController_processTrade tradeCreatedAt dto w = (r, w') ->
  match r with
  | Ok resp =>
      resp_userId resp = dto_userId dto
      /\ resp_volume resp = dto_volume dto
      /\ resp_token resp = dto_token dto
      /\ resp_chain resp = dto_chain dto
      /\ (exists t, In t (trades w') /\ t_id t = resp_tradeId resp
                    /\ t_volume t = resp_volume resp
                    /\ t_token t = resp_token resp /\ t_chain t = resp_chain resp
                    /\ t_totalFee t = resp_totalFee resp
                    /\ t_cashbackAmount t = resp_cashback resp
                    /\ t_treasuryAmount t = resp_treasury resp
                    /\ commissionsDistributed t = true)
      /\ exists rows,
           commissionRows w' = commissionRows w ++ rows
           /\ map (fun c => mkResponseCommission (c_userId c) (c_level c)
                              (c_amount c) (c_rate c)) rows
              = resp_commissions resp
           /\ Forall (fun c => c_tradeId c = resp_tradeId resp) rows
  | Throw e =>
      processTrade (dto_userId dto) (dto_volume dto) (dto_token dto) (dto_side dto)
                   (dto_chain dto) w = (Throw e, w')
  | Diverge => False
  end.
Proof.
  unfold TradeController_processTrade, bind.
  destruct (processTrade (dto_userId dto) (dto_volume dto) (dto_token dto)
              (dto_side dto) (dto_chain dto) w) as [o w1] eqn:E.
  pose proof (processTrade_effect _ _ _ _ _ _ _ _ E) as [_ [_ G]].
  destruct o as [[trade fd]|e|].
  - intros Er. inversion Er; subst r w'. clear Er.
    destruct (ObjectId_of_string (dto_userId dto)) as [id|]; [|destruct G; discriminate].
    destruct (find_user id (users w)) as [user|]; [|destruct G; discriminate].
    destruct (isNaN _ || _); [destruct G; discriminate|].
    cbv zeta in G. destruct G as [_ G].
    destruct (validTrade _); [|destruct G; discriminate].
    destruct G as [C [[G _]|[G [T _]]]]; [discriminate|].
    inversion G; subst trade fd. clear G.
    cbn [resp_userId resp_volume resp_token resp_chain resp_tradeId resp_totalFee
         resp_cashback resp_treasury resp_commissions
         t_id t_volume t_token t_chain t_totalFee markDistributed newTrade].
    repeat (split; [reflexivity|]). split.
    + eexists. split; [rewrite T; apply saveTrade_In|]. repeat split.
    + eexists. split; [exact C|]. split.
      * rewrite map_map. reflexivity.
      * apply Forall_forall. intros c Hc. apply in_map_iff in Hc.
        destruct Hc as [b [<- _]]. reflexivity.
  - intros Er. inversion Er; subst. reflexivity.
  - intros Er. inversion Er; subst.
    destruct (ObjectId_of_string (dto_userId dto)) as [id|]; [|destruct G; discriminate].
    destruct (find_user id (users w)) as [user|]; [|destruct G; discriminate].
    destruct (isNaN _ || _); [destruct G; discriminate|].
    cbv zeta in G. destruct G as [_ G].
    destruct (validTrade _); [|destruct G; discriminate].
    destruct G as [_ [[G _]|[G _]]]; discriminate.
Qed.

End WebhookProperties.

(** ** The size of a network *)

Lemma Forall_update_first_In {A} (Q : A -> Prop) (p : A -> bool) (f : A -> A)
    (l : list A) :
  Forall Q l -> (forall x, In x l -> p x = true -> Q (f x)) ->
  Forall Q (update_first p f l).
Proof.
  induction 1 as [|x l Hx Hl IH]; intros Hf; simpl; [constructor|].
  destruct (p x) eqn:Px.
  - constructor; [apply Hf; [left; reflexivity|exact Px]|exact Hl].
  - constructor; [exact Hx|]. apply IH. intros y Hy. apply Hf. right. exact Hy.
Qed.

(** No child is listed twice, and every listed child is stored. *)
Lemma reachable_children (w : World) :
  reachable w ->
  Forall (fun u => NoDup (directReferrals u)
                   /\ forall c, In c (directReferrals u) ->
                                exists cu, find_user c (users w) = Some cu)
         (users w).
Proof.
  apply (reachable_users_ind
           (fun us => Forall (fun u => NoDup (directReferrals u)
                                       /\ forall c, In c (directReferrals u) ->
                                                    exists cu, find_user c us = Some cu)
                             us)).
  - constructor.
  - intros us next i c WF F Hi _. apply Forall_app. split.
    + eapply Forall_impl; [|exact F]. intros u [ND St]. split; [exact ND|].
      intros x Hx. destruct (St x Hx) as [cu Ex].
      destruct (keeps_app us (newUser i c None 0) _ _ Ex) as [y [Ey _]].
      exists y. exact Ey.
    + constructor; [|constructor]. split; [constructor|intros x []].
  - intros us next i c referrer WF F Hi _ Hin _.
    set (nu := newUser i c (Some (_id referrer)) (referralDepth referrer + 1)).
    set (us' := update_first (fun x => Nat.eqb (_id x) (_id referrer))
                             (push_directReferral i) (us ++ [nu])).
    assert (K : keeps us us').
    { eapply keeps_trans; [apply keeps_app|].
      apply keeps_update_first. intros x. repeat split. }
    pose proof (find_user_NoDup _ _ (proj1 WF) Hin) as Er.
    pose proof (find_user_fresh _ _ _ WF Hi) as Ei.
    assert (Si : exists y, find_user i us' = Some y).
    { unfold us'. rewrite find_user_update_first by reflexivity.
      rewrite find_user_app, Ei. cbn [_id nu newUser]. rewrite Nat.eqb_refl.
      destruct (Nat.eqb i (_id referrer)); eexists; reflexivity. }
    assert (Stored : forall u, (forall x, In x (directReferrals u) ->
                                          exists cu, find_user x us = Some cu) ->
                               forall x, In x (directReferrals u) ->
                                         exists cu, find_user x us' = Some cu).
    { intros u St x Hx. destruct (St x Hx) as [cu Ex].
      destruct (K _ _ Ex) as [y [Ey _]]. exists y. exact Ey. }
    apply Forall_update_first_In.
    + apply Forall_app. split.
      * eapply Forall_impl; [|exact F]. intros u [ND St].
        split; [exact ND|apply Stored; exact St].
      * constructor; [|constructor]. split; [constructor|intros x []].
    + intros x Hx Px. apply Nat.eqb_eq in Px.
      apply in_app_or in Hx. destruct Hx as [Hx|[<-|[]]].
      * destruct (proj1 (Forall_forall _ _) F x Hx) as [ND St].
        cbn [directReferrals push_directReferral]. split.
        -- apply NoDup_snoc; [exact ND|]. intros Hi'.
           destruct (St i Hi') as [cu Ecu]. congruence.
        -- intros y Hy. apply in_app_or in Hy. destruct Hy as [Hy|[<-|[]]].
           ++ apply (Stored x St y Hy).
           ++ exact Si.
      * exfalso. cbn [_id nu newUser] in Px. subst i. congruence.
  - intros us next id a _ F.
    assert (K : keeps us (update_first (fun x => Nat.eqb (_id x) id)
                                       (inc_commission a) us))
      by (apply keeps_update_first; intros x; repeat split).
    apply Forall_update_first.
    + intros x Hx. exact Hx.
    + eapply Forall_impl; [|exact F]. intros u [ND St]. split; [exact ND|].
      intros x Hx. destruct (St x Hx) as [cu Ex].
      destruct (K _ _ Ex) as [y [Ey _]]. exists y. exact Ey.
  - intros us next id a _ F.
    assert (K : keeps us (update_first (fun x => Nat.eqb (_id x) id)
                                       (inc_cashback a) us))
      by (apply keeps_update_first; intros x; repeat split).
    apply Forall_update_first.
    + intros x Hx. exact Hx.
    + eapply Forall_impl; [|exact F]. intros u [ND St]. split; [exact ND|].
      intros x Hx. destruct (St x Hx) as [cu Ex].
      destruct (K _ _ Ex) as [y [Ey _]]. exists y. exact Ey.
Qed.

(** [k] parent pointers up is [k] levels of depth up. *)
Lemma ancestorAt_depth (us : list User) :
  Forall (parentOk us) us ->
  forall k x a ua,
    ancestorAt us k x = Some a -> find_user a us = Some ua ->
    exists ux, find_user x us = Some ux
               /\ referralDepth ux = referralDepth ua + Z.of_nat k.
Proof.
  intros Hall. induction k as [|k IH]; intros x a ua A Ea.
  - cbn in A. inversion A; subst x. exists ua. split; [exact Ea|lia].
  - cbn [ancestorAt] in A.
    destruct (find_user x us) as [ux|] eqn:Ex; [|discriminate].
    destruct (referrerId ux) as [p|] eqn:Er; [|discriminate].
    destruct (find_user p us) as [pu|] eqn:Ep; [|discriminate].
    destruct (IH p a ua A Ea) as [pu' [Ep' D]].
    rewrite Ep in Ep'. inversion Ep'; subst pu'.
    pose proof (proj1 (Forall_forall _ _) Hall ux (find_user_In _ _ _ Ex)) as [_ P].
    rewrite Er in P. destruct P as [pu2 [Ep2 D2]].
    rewrite Ep in Ep2. inversion Ep2; subst pu2.
    exists ux. split; [reflexivity|lia].
Qed.

Lemma NoDup_flat_map {A B} (g : A -> list B) (l : list A) :
  NoDup l -> (forall c, In c l -> NoDup (g c)) ->
  (forall c c' x, In c l -> In c' l -> In x (g c) -> In x (g c') -> c = c') ->
  NoDup (flat_map g l).
Proof.
  induction 1 as [|c l Nc ND IH]; intros Hg Hd; simpl; [constructor|].
  apply NoDup_app.
  - apply Hg. left. reflexivity.
  - apply IH.
    + intros c' Hc'. apply Hg. right. exact Hc'.
    + intros c1 c2 x H1 H2. apply Hd; right; assumption.
  - intros x Hx Hin. apply in_flat_map in Hin. destruct Hin as [c' [Hc' Hx']].
    assert (c = c') by (apply (Hd c c' x); [left; reflexivity|right; exact Hc'| |];
                        assumption).
    subst c'. contradiction.
Qed.

Section NetworkCount.
Variable createdAt : ObjectId -> nat.

Lemma map_of_flat_map {A B C} (f : B -> C) (g : A -> list B) (l : list A) :
  map f (flat_map g l) = flat_map (fun x => map f (g x)) l.
Proof.
  induction l as [|x l IH]; simpl; [reflexivity|].
  rewrite map_app, IH. reflexivity.
Qed.

Lemma filter_ids_NoDup (keep : User -> bool) (us : list User) :
  NoDup (map _id us) -> NoDup (map _id (filter keep us)).
Proof.
  induction us as [|u us IH]; simpl; intros ND; [constructor|].
  inversion ND as [|? ? Nu ND']; subst.
  destruct (keep u); simpl; [|apply IH; exact ND'].
  constructor; [|apply IH; exact ND'].
  intros Hin. apply Nu. apply in_map_iff in Hin. destruct Hin as [y [Ey Hy]].
  apply filter_In in Hy. rewrite <- Ey. apply in_map. apply Hy.
Qed.

Lemma treeOf_ids (us : list User) (n : nat) (a : ObjectId) (level : Z) (x : ObjectId) :
  In x (map nn_userId (flattenNetwork (treeOf createdAt us n a level)))
  <-> exists j, (j < n)%nat /\ level + Z.of_nat j <= MAX_REFERRAL_DEPTH
                /\ descendantAt us (S j) a x.
Proof.
  split.
  - intros Hin. apply in_map_iff in Hin. destruct Hin as [node [Ex Hin]].
    destruct (treeOf_nodes createdAt us _ _ _ _ Hin) as [[B1 B2] _].
    exists (Z.to_nat (nn_level node - level)).
    apply (treeOf_members createdAt us n a level x).
    exists node. split; [exact Hin|]. split; [exact Ex|lia].
  - intros [j Hj]. apply (treeOf_members createdAt us n a level x j) in Hj.
    destruct Hj as [node [Hin [Ex _]]]. rewrite <- Ex. apply in_map. exact Hin.
Qed.

(** No user stands twice in a network. *)
Lemma treeOf_ids_NoDup (us : list User) (next : ObjectId) :
  linked us -> wfUsers us next ->
  Forall (fun u => NoDup (directReferrals u)) us ->
  forall n a level,
    NoDup (map nn_userId (flattenNetwork (treeOf createdAt us n a level))).
Proof.
  intros L WF Ch.
  assert (Hp : Forall (parentOk us) us).
  { apply Forall_forall. intros x Hx.
    apply (proj2 (proj1 (Forall_forall _ _) (proj2 WF) x Hx)). }
  induction n as [|n IH]; intros a level; [constructor|].
  rewrite flatten_treeOf.
  destruct (MAX_REFERRAL_DEPTH <? level); [constructor|].
  destruct (find_user a us) as [cu|] eqn:Ea; [|constructor].
  rewrite map_of_flat_map.
  assert (Child : forall c r, In c (directReferrals cu) -> find_user c us = Some r ->
                              referralDepth r = referralDepth cu + 1).
  { intros c r Hc Er.
    destruct (proj1 (L a c)) as [cu' [Ec Rc]]; [exists cu; auto|].
    rewrite Er in Ec. inversion Ec; subst cu'.
    pose proof (proj1 (Forall_forall _ _) Hp r (find_user_In _ _ _ Er)) as [_ P].
    rewrite Rc in P. destruct P as [pu [Ep D]].
    rewrite Ea in Ep. inversion Ep; subst pu. exact D. }
  assert (Up : forall c r x,
             find_user c us = Some r ->
             In x (map nn_userId
                     (mkNetworkNode (_id r) (referralCode r) level
                                    (createdAt (_id r)) None
                      :: (if level <? MAX_REFERRAL_DEPTH
                          then flattenNetwork (treeOf createdAt us n (_id r) (level + 1))
                          else []))) ->
             exists k, ancestorAt us k x = Some c).
  { intros c r x Er Hx. pose proof (find_user_id _ _ _ Er) as Eid.
    destruct Hx as [<-|Hx]; [exists 0%nat; cbn; congruence|].
    destruct (level <? MAX_REFERRAL_DEPTH); [|destruct Hx].
    apply treeOf_ids in Hx. destruct Hx as [j [_ [_ D]]].
    exists (S j). apply (ancestor_descendant _ L). rewrite <- Eid. exact D. }
  apply NoDup_flat_map.
  - apply (proj1 (Forall_forall _ _) Ch cu (find_user_In _ _ _ Ea)).
  - intros c Hc. destruct (find_user c us) as [r|] eqn:Er; [|constructor].
    cbn [map nn_userId]. constructor.
    + intros Hin.
      assert (Hin' : In (_id r)
                        (map nn_userId
                           (flattenNetwork (treeOf createdAt us n (_id r) (level + 1)))))
        by (destruct (level <? MAX_REFERRAL_DEPTH); [exact Hin|destruct Hin]).
      apply treeOf_ids in Hin'. destruct Hin' as [j [_ [_ D]]].
      apply (ancestor_descendant _ L) in D.
      pose proof (find_user_self _ _ _ Er) as Es.
      destruct (ancestorAt_depth us Hp _ _ _ r D Es) as [ux [Ex Dx]].
      rewrite Es in Ex. inversion Ex; subst ux. lia.
    + destruct (level <? MAX_REFERRAL_DEPTH); [apply IH|constructor].
  - intros c c' x Hc Hc' Hx Hx'.
    destruct (find_user c us) as [r|] eqn:Er; [|destruct Hx].
    destruct (find_user c' us) as [r'|] eqn:Er'; [|destruct Hx'].
    destruct (Up c r x Er Hx) as [k A]. destruct (Up c' r' x Er' Hx') as [k' A'].
    destruct (ancestorAt_depth us Hp _ _ _ r A Er) as [ux [Ex Dx]].
    destruct (ancestorAt_depth us Hp _ _ _ r' A' Er') as [ux' [Ex' Dx']].
    rewrite Ex in Ex'. inversion Ex'; subst ux'.
    rewrite (Child c r Hc Er) in Dx. rewrite (Child c' r' Hc' Er') in Dx'.
    assert (k = k') by lia. subst k'. congruence.
Qed.

(** The network of [a] and the chains that list [a]. *)
Lemma network_chain (us : list User) (a x : ObjectId) (k : Z) :
  linked us ->
  (exists node,
      In node (flattenNetwork
                 (treeOf createdAt us (Z.to_nat MAX_REFERRAL_DEPTH) a 1))
      /\ nn_userId node = x /\ nn_level node = k)
  <-> (exists e, In e (chainOf us x) /\ chain_userId e = a /\ chain_level e = k).
Proof.
  intros L. split.
  - intros [node [Hin [Ex El]]].
    destruct (treeOf_nodes createdAt _ _ _ _ _ Hin) as [[B1 B2] _].
    assert (Ek : k = 1 + Z.of_nat (Z.to_nat (k - 1))) by lia.
    rewrite Ek. apply chainOf_members.
    destruct (proj1 (treeOf_members createdAt us (Z.to_nat MAX_REFERRAL_DEPTH) a 1 x
                       (Z.to_nat (k - 1))))
      as [Hj [_ D]].
    { exists node. split; [exact Hin|]. split; [exact Ex|lia]. }
    split; [exact Hj|]. apply (ancestor_descendant _ L). exact D.
  - intros [e [Hin [Ee El]]].
    pose proof (chainOf_levels _ _ _ Hin) as B.
    assert (Ek : k = 1 + Z.of_nat (Z.to_nat (k - 1))) by lia.
    destruct (proj1 (chainOf_members us x a (Z.to_nat (k - 1)))) as [Hj A].
    { exists e. split; [exact Hin|]. split; [exact Ee|lia]. }
    rewrite Ek. apply treeOf_members.
    split; [exact Hj|]. split; [unfold MAX_REFERRAL_DEPTH in *; lia|].
    apply (ancestor_descendant _ L). exact A.
Qed.

(** X24. In a reachable world no user stands twice in the network of a
    stored user [a], and [total] is the number of stored users who have
    [a] among the ancestors their chain lists. *)
Theorem getNetwork_total (w : World) (a : ObjectId) (ua : User) :
  reachable w -> find_user a (users w) = Some ua ->
  exists data total w',
    getNetwork createdAt a w = (Ok (data, total), w')
    /\ NoDup (map nn_userId data)
    /\ total = List.length (filter (hasAncestor (users w) a) (users w)).
Proof.
  intros R Ea. destruct (getNetwork_run createdAt a w) as [ops [_ Rn]].
  rewrite Ea in Rn. eexists _, _, _. split; [exact Rn|].
  pose proof (reachable_linked w R) as L.
  pose proof (reachable_wellFormed w R) as WF.
  assert (Ch : Forall (fun u => NoDup (directReferrals u)) (users w)).
  { eapply Forall_impl; [|exact (reachable_children w R)]. intros u [ND _]. exact ND. }
  pose proof (treeOf_ids_NoDup (users w) _ L WF Ch (Z.to_nat MAX_REFERRAL_DEPTH) a 1)
    as ND.
  split; [exact ND|].
  rewrite <- (length_map nn_userId).
  rewrite <- (length_map _id (filter (hasAncestor (users w) a) (users w))).
  apply Permutation_length. apply NoDup_Permutation.
  - exact ND.
  - apply filter_ids_NoDup. exact (proj1 WF).
  - intros x. split.
    + intros Hin. apply in_map_iff in Hin. destruct Hin as [node [Ex Hin]].
      destruct (proj1 (network_chain (users w) a x (nn_level node) L))
        as [e [He [Ee _]]].
      { exists node. auto. }
      destruct (find_user x (users w)) as [u|] eqn:Eu.
      * pose proof (find_user_id _ _ _ Eu) as Eid. rewrite <- Eid.
        apply in_map. apply filter_In. split; [apply (find_user_In _ _ _ Eu)|].
        unfold hasAncestor. apply existsb_exists. exists e.
        rewrite Eid. split; [exact He|]. apply Nat.eqb_eq. exact Ee.
      * unfold chainOf in He. rewrite Eu in He. destruct He.
    + intros Hin. apply in_map_iff in Hin. destruct Hin as [u [Ex Hu]].
      apply filter_In in Hu. destruct Hu as [Hu Hb].
      unfold hasAncestor in Hb. apply existsb_exists in Hb.
      destruct Hb as [e [He Ee]]. apply Nat.eqb_eq in Ee. rewrite Ex in He.
      destruct (proj2 (network_chain (users w) a x (chain_level e) L))
        as [node [Hn [En _]]].
      { exists e. auto. }
      rewrite <- En. apply in_map. exact Hn.
Qed.

End NetworkCount.

(** ** A conversion failure in the middle of a trade *)

Lemma distributeCommissions_loop_throws (comms : list CommissionBreakdown) :
  forall w e w',
    distributeCommissions_loop comms w = (Throw e, w') ->
    exists c, In c comms /\ Decimal128_fromString (toString (amount c)) = None.
Proof.
  induction comms as [|c rest IH]; intros w e w' E; simpl in E; [discriminate|].
  unfold bind at 1, decimal128 in E.
  destruct (Decimal128_fromString (toString (amount c))) as [a|] eqn:Ea.
  - unfold ret at 1, bind at 1 in E. simpl in E. apply IH in E.
    destruct E as [x [Hx Ex]]. exists x. split; [right; exact Hx|exact Ex].
  - exists c. split; [left; reflexivity|exact Ea].
Qed.

Lemma distributeCommissions_throws (tradeId sourceUserId : ObjectId)
    (fd : FeeDistribution) (w : World) (e : Exception) (w' : World) :
  distributeCommissions tradeId sourceUserId fd w = (Throw e, w') ->
  exists c, In c (commissions fd)
            /\ Decimal128_fromString (toString (amount c)) = None.
Proof.
  unfold distributeCommissions, bind.
  destruct (0 <? _)%nat; simpl; apply distributeCommissions_loop_throws.
Qed.

Lemma credit_keeps_cashback (i : ObjectId)
    (credits : list (CommissionBreakdown * Decimal128)) :
  forall u,
    totalCashbackEarned
      (fold_left (fun u ca => if Nat.eqb (userId (fst ca)) i
                              then inc_commission (snd ca) u else u) credits u)
    = totalCashbackEarned u.
Proof.
  induction credits as [|ca rest IH]; intros u; [reflexivity|].
  cbn [fold_left]. rewrite IH. destruct (Nat.eqb _ i); reflexivity.
Qed.

(** X25. When [processTrade] throws the conversion error, nothing is
    rolled back: the trade is stored and all commission rows of the
    distribution are inserted.  Either an amount of a commission failed to
    convert, and the stored trade is not flagged; or the cashback failed
    to convert, and then the trade is already flagged as distributed
    although the trader's cashback total is as before. *)
Theorem processTrade_conversion_failure (traderId volume token : string) (side : Side)
    (chain : Chain) (w w' : World) :
  processTrade traderId volume token side chain w = (Throw BSONError, w') ->
  exists id user t,
    ObjectId_of_string traderId = Some id
    /\ find_user id (users w) = Some user
    /\ In t (trades w') /\ t_id t = nextId w /\ t_userId t = _id user
    /\ commissionRows w'
       = commissionRows w
           ++ map (commissionDoc (nextId w) (_id user)
                     (distributionOf (users w) user (BigNumber_of_string volume)
                                     chain token))
                  (commissions (distributionOf (users w) user
                                  (BigNumber_of_string volume) chain token))
    /\ ((commissionsDistributed t = false
         /\ exists c,
              In c (commissions (distributionOf (users w) user
                                   (BigNumber_of_string volume) chain token))
              /\ Decimal128_fromString (toString (amount c)) = None)
        \/ (commissionsDistributed t = true
            /\ Decimal128_fromString
                 (toString (cashback (distributionOf (users w) user
                                        (BigNumber_of_string volume) chain token)))
               = None
            /\ option_map totalCashbackEarned (find_user id (users w'))
               = Some (totalCashbackEarned user))).
Proof.
  intros E. unfold processTrade in E.
  destruct (ObjectId_of_string traderId) as [id|]; [|discriminate].
  unfold bind at 1 in E. rewrite findById_run in E.
  destruct (find_user id (users w)) as [user|] eqn:Eu; [|discriminate].
  destruct (isNaN (BigNumber_of_string volume) ||
            isLessThanOrEqualTo (BigNumber_of_string volume) (BN 0));
    [discriminate|].
  unfold bind at 1 in E.
  destruct (calculateFeeDistribution_run user (BigNumber_of_string volume) chain token
              (logged [UserFindById id] w)) as [ops [R _]].
  rewrite R in E.
  change (if isZero (feeOf user (BigNumber_of_string volume)) then _ else _)
    with (distributionOf (users w) user (BigNumber_of_string volume) chain token) in E.
  set (fd := distributionOf (users w) user (BigNumber_of_string volume) chain token) in *.
  set (w1 := logged ops (logged [UserFindById id] w)) in *.
  unfold bind at 1 in E.
  destruct (newObjectId_run w1) as [w2 [E2 [_ [U2 [C2 [T2 [K2 N2]]]]]]].
  rewrite E2 in E.
  fold (newTrade (nextId w1) user volume token side chain fd) in E.
  change (nextId w1) with (nextId w) in *.
  set (t0 := newTrade (nextId w) user volume token side chain fd) in *.
  unfold bind at 1 in E.
  destruct (trade_save_effect t0 w2) as [w3 [E3 [T3 [U3 [C3 [N3 [K3 D3]]]]]]].
  rewrite E3 in E. destruct (validTrade t0) eqn:V; [|discriminate].
  unfold bind at 1 in E. cbn [t_id t0 newTrade] in E.
  destruct (distributeCommissions (nextId w) (_id user) fd w3) as [o w4] eqn:Ed.
  pose proof (distributeCommissions_effect _ _ _ _ _ _ Ed) as [T4 [C4 [N4 [K4 [D4 R4]]]]].
  assert (Cw : commissionRows w4
               = commissionRows w
                   ++ map (commissionDoc (nextId w) (_id user) fd) (commissions fd))
    by (rewrite C4, C3, C2; reflexivity).
  assert (Tw : trades w4 = saveTrade t0 (trades w)) by (rewrite T4, T3, T2; reflexivity).
  exists id, user.
  destruct o as [[]|e|]; [| |discriminate].
  - unfold bind at 1 in E. cbn [newDate] in E. unfold bind at 1 in E.
    destruct (trade_save_effect (markDistributed t0 (clock w4)) w4)
      as [w5 [E5 [T5 [U5 [C5 [N5 [K5 D5]]]]]]].
    rewrite validTrade_markDistributed, V in E5, T5.
    rewrite E5 in E. unfold bind at 1, updateUserStats, bind, decimal128 in E.
    destruct (Decimal128_fromString (toString (cashback fd))) as [cb|] eqn:Ecb;
      [discriminate|].
    inversion E; subst w'. exists (markDistributed t0 (clock w4)).
    split; [reflexivity|]. split; [exact Eu|].
    split; [rewrite T5; apply saveTrade_In|]. split; [reflexivity|].
    split; [reflexivity|]. split; [rewrite C5; exact Cw|].
    right. split; [reflexivity|]. split; [exact Ecb|].
    destruct R4 as [amounts [_ U4]]. rewrite U5, U4, U3, U2.
    change (users w1) with (users w). rewrite find_user_credit, Eu.
    cbn [option_map]. rewrite credit_keeps_cashback. reflexivity.
  - inversion E; subst w' e. exists t0.
    split; [reflexivity|]. split; [exact Eu|].
    split; [rewrite Tw; apply saveTrade_In|]. split; [reflexivity|].
    split; [reflexivity|]. split; [exact Cw|].
    left. split; [reflexivity|]. apply (distributeCommissions_throws _ _ _ _ _ _ Ed).
Qed.

End Effects.

(** ** Examples for the statements on the services *)

Lemma afterTrade_reachable : @reachable Demo.platform afterTrade.
Proof.
  apply (@reach_trade Demo.platform Demo.lineOfFour "3" "10000" "BTC" BUY ARBITRUM
           (fst (@processTrade Demo.platform "3" "10000" "BTC" BUY ARBITRUM
                   Demo.lineOfFour)) afterTrade lineOfFour_reachable).
  vm_compute. reflexivity.
Qed.


Lemma referral_codes_unique_witness :
  @reachable Demo.platform afterTrade
  /\ NoDup (map referralCode (users afterTrade))
  /\ forall u, In u (users afterTrade) ->
       fst (findUserByReferralCode (referralCode u) afterTrade)
       = Ok (Some u)
       /\ fst (findUserById (_id u) afterTrade) = Ok (Some u).
Proof.
  split; [exact afterTrade_reachable|].
  apply (@referral_codes_unique Demo.platform afterTrade afterTrade_reachable).
Defined.

Lemma directReferrals_mirror_referrerId_witness :
  @reachable Demo.platform Demo.lineOfFour
  /\ forall p c,
       (exists pu, find_user p (users Demo.lineOfFour) = Some pu
                   /\ In c (directReferrals pu))
       <-> (exists cu, find_user c (users Demo.lineOfFour) = Some cu
                       /\ referrerId cu = Some p).
Proof.
  split; [exact lineOfFour_reachable|].
  apply (@directReferrals_mirror_referrerId Demo.platform Demo.lineOfFour
           lineOfFour_reachable).
Defined.

Lemma getReferralChain_ancestors_witness :
  wellFormed Demo.lineOfFour
  /\ In Demo.trader (users Demo.lineOfFour)
  /\ exists chain w',
       getReferralChain (_id Demo.trader) Demo.lineOfFour = (Ok chain, w')
       /\ Z.of_nat (List.length chain) = referralDepth Demo.trader
       /\ NoDup (map chain_userId chain)
       /\ ~ In (_id Demo.trader) (map chain_userId chain)
       /\ forall i e,
            nth_error chain i = Some e ->
            exists a, find_user (chain_userId e) (users Demo.lineOfFour) = Some a
                      /\ referralDepth a = referralDepth Demo.trader - Z.of_nat (S i).
Proof.
  assert (WF : wellFormed Demo.lineOfFour)
    by apply (@reachable_wellFormed Demo.platform _ lineOfFour_reachable).
  assert (Hin : In Demo.trader (users Demo.lineOfFour))
    by (right; right; right; left; reflexivity).
  split; [exact WF|]. split; [exact Hin|].
  apply (getReferralChain_ancestors Demo.lineOfFour Demo.trader WF Hin).
Defined.


(** A trade with an empty token: the save is refused, nothing is stored. *)
Example empty_token_is_refused :
  @processTrade Demo.platform "3" "10000" "" BUY ARBITRUM Demo.lineOfFour
  = (Throw ValidationError,
     snd (@processTrade Demo.platform "3" "10000" "" BUY ARBITRUM Demo.lineOfFour))
  /\ trades (snd (@processTrade Demo.platform "3" "10000" "" BUY ARBITRUM
                    Demo.lineOfFour)) = [].
Proof. split; vm_compute; reflexivity. Qed.

Lemma processTrade_rejection_witness :
  exists r w',
    @processTrade Demo.platform "3" "10000" "" BUY ARBITRUM Demo.lineOfFour = (r, w')
    /\ r = Throw ValidationError
    /\ r <> Diverge
    /\ (forall e, r = Throw e ->
          (e = BSONError
           /\ exists t, In t (trades w') /\ t_id t = nextId Demo.lineOfFour)
          \/ (e = ValidationError
              /\ (isEmpty "10000" = true \/ isEmpty "" = true)
              /\ users w' = users Demo.lineOfFour
              /\ trades w' = trades Demo.lineOfFour
              /\ commissionRows w' = commissionRows Demo.lineOfFour)
          \/ ((e = BadRequestException "Invalid user ID format"
               \/ e = NotFoundException "User not found"
               \/ e = BadRequestException "Invalid trade volume")
              /\ users w' = users Demo.lineOfFour
              /\ trades w' = trades Demo.lineOfFour
              /\ commissionRows w' = commissionRows Demo.lineOfFour
              /\ nextId w' = nextId Demo.lineOfFour))
    /\ (isEmpty "" = true ->
        (exists e, r = Throw e /\ e <> BSONError)
        /\ users w' = users Demo.lineOfFour /\ trades w' = trades Demo.lineOfFour
        /\ commissionRows w' = commissionRows Demo.lineOfFour).
Proof.
  eexists _, _. split; [vm_compute; reflexivity|]. split; [reflexivity|].
  eapply (@processTrade_rejection Demo.platform "3" "10000" "" BUY ARBITRUM
            Demo.lineOfFour).
  vm_compute. reflexivity.
Defined.

Lemma processTrade_keeps_tree_witness :
  exists r,
    @processTrade Demo.platform "3" "10000" "BTC" BUY ARBITRUM Demo.lineOfFour
    = (r, afterTrade)
    /\ map frame (users afterTrade) = map frame (users Demo.lineOfFour).
Proof.
  eexists. split; [vm_compute; reflexivity|].
  eapply (@processTrade_keeps_tree Demo.platform "3" "10000" "BTC" BUY ARBITRUM
            Demo.lineOfFour).
  vm_compute. reflexivity.
Defined.

Lemma processTrade_stores_one_trade_witness :
  @reachable Demo.platform Demo.lineOfFour
  /\ exists trade fd,
       @processTrade Demo.platform "3" "10000" "BTC" BUY ARBITRUM Demo.lineOfFour
       = (Ok (trade, fd), afterTrade)
       /\ trades afterTrade = trades Demo.lineOfFour ++ [trade]
       /\ t_id trade = nextId Demo.lineOfFour
       /\ ~ In (t_id trade) (map t_id (trades Demo.lineOfFour))
       /\ commissionsDistributed trade = true
       /\ distributedAt trade = Some (clock Demo.lineOfFour).
Proof.
  split; [exact lineOfFour_reachable|].
  eexists _, _. split; [vm_compute; reflexivity|].
  eapply (@processTrade_stores_one_trade Demo.platform "3" "10000" "BTC" BUY ARBITRUM
            Demo.lineOfFour _ _ _ lineOfFour_reachable).
  vm_compute. reflexivity.
Defined.

Lemma commission_rows_pay_ancestors_witness :
  @reachable Demo.platform afterTrade
  /\ forall c, In c (commissionRows afterTrade) ->
       c_isClaimed c = false
       /\ 1 <= c_level c <= MAX_REFERRAL_DEPTH
       /\ c_userId c <> c_sourceUserId c
       /\ exists chain code,
            fst (getReferralChain (c_sourceUserId c) afterTrade) = Ok chain
            /\ In (mkReferralChain (c_userId c) (c_level c) code) chain.
Proof.
  split; [exact afterTrade_reachable|].
  apply (@commission_rows_pay_ancestors Demo.platform afterTrade afterTrade_reachable).
Defined.

Lemma accepted_trade_fee_witness :
  (exists trade fd w',
     @processTrade Demo.platform "0" "10000" "BTC" BUY ARBITRUM waivedWorld
     = (Ok (trade, fd), w')
     /\ exists id user,
          Demo.parse_id "0" = Some id
          /\ find_user id (users waivedWorld) = Some user
          /\ isFeesWaived user = true
          /\ totalFee fd = feeOf user (@BigNumber_of_string Demo.platform "10000")
          /\ isZero (totalFee fd)
             = isFeesWaived user
               || feeUnderflows user (@BigNumber_of_string Demo.platform "10000")
          /\ (isZero (totalFee fd) = true ->
              totalFee fd = BN 0 /\ cashback fd = BN 0 /\ treasury fd = BN 0
              /\ commissions fd = []
              /\ commissionRows w' = commissionRows waivedWorld))
  /\ (exists trade fd,
        @processTrade Demo.platform "3" "10000" "BTC" BUY ARBITRUM Demo.lineOfFour
        = (Ok (trade, fd), afterTrade)
        /\ exists id user,
             Demo.parse_id "3" = Some id
             /\ find_user id (users Demo.lineOfFour) = Some user
             /\ isFeesWaived user = false
             /\ totalFee fd = feeOf user (@BigNumber_of_string Demo.platform "10000")
             /\ isZero (totalFee fd)
                = isFeesWaived user
                  || feeUnderflows user (@BigNumber_of_string Demo.platform "10000")
             /\ (isZero (totalFee fd) = true ->
                 totalFee fd = BN 0 /\ cashback fd = BN 0 /\ treasury fd = BN 0
                 /\ commissions fd = []
                 /\ commissionRows afterTrade = commissionRows Demo.lineOfFour)).
Proof.
  split.
  - eexists _, _, _. split; [vm_compute; reflexivity|].
    destruct (@accepted_trade_fee Demo.platform "0" "10000" "BTC" BUY ARBITRUM
                waivedWorld _ _ _ ltac:(vm_compute; reflexivity))
      as [id [user [Ei [Eu R]]]].
    exists id, user. split; [exact Ei|]. split; [exact Eu|].
    split; [|exact R]. vm_compute in Ei, Eu. inversion Ei; subst id.
    inversion Eu; subst user. reflexivity.
  - eexists _, _. split; [vm_compute; reflexivity|].
    destruct (@accepted_trade_fee Demo.platform "3" "10000" "BTC" BUY ARBITRUM
                Demo.lineOfFour _ _ _ ltac:(vm_compute; reflexivity))
      as [id [user [Ei [Eu R]]]].
    exists id, user. split; [exact Ei|]. split; [exact Eu|].
    split; [|exact R]. vm_compute in Ei, Eu. inversion Ei; subst id.
    inversion Eu; subst user. reflexivity.
Defined.

Lemma full_standard_chain_split_witness :
  isNaN (BN 10000) = false
  /\ isLessThanOrEqualTo (BN 10000) (BN 0) = false
  /\ standardChain (users Demo.lineOfFour) (_id Demo.trader) = true
  /\ exists fd w',
       @calculateFeeDistribution Demo.platform Demo.trader (BN 10000) ARBITRUM "BTC"
         Demo.lineOfFour = (Ok fd, w')
       /\ sharesInRange (totalFee fd) = true
       /\ splitTotal fd = totalFee fd.
Proof.
  split; [reflexivity|]. split; [reflexivity|]. split; [reflexivity|].
  destruct (@full_standard_chain_split Demo.platform Demo.trader (BN 10000) ARBITRUM
              "BTC"%string Demo.lineOfFour eq_refl eq_refl eq_refl)
    as [fd [w' [R S]]].
  exists fd, w'. split; [exact R|].
  assert (T : sharesInRange (totalFee fd) = true).
  { vm_compute in R. injection R as <- _. reflexivity. }
  split; [exact T|exact (S T)].
Defined.

Lemma getNetwork_mirrors_chain_witness :
  @reachable Demo.platform Demo.lineOfFour
  /\ exists ua,
       find_user 0%nat (users Demo.lineOfFour) = Some ua
       /\ exists data w',
            getNetwork (fun _ => 0%nat) 0%nat Demo.lineOfFour
            = (Ok (data, List.length data), w')
            /\ forall x k,
                 (exists node, In node data /\ nn_userId node = x /\ nn_level node = k)
                 <-> (exists chain e,
                        fst (getReferralChain x Demo.lineOfFour) = Ok chain
                        /\ In e chain /\ chain_userId e = 0%nat /\ chain_level e = k).
Proof.
  split; [exact lineOfFour_reachable|].
  eexists. split; [vm_compute; reflexivity|].
  eapply (@getNetwork_mirrors_chain Demo.platform (fun _ => 0%nat) Demo.lineOfFour
            0%nat _ lineOfFour_reachable).
  vm_compute. reflexivity.
Defined.

Lemma processTrade_balances_witness :
  wellFormed Demo.lineOfFour
  /\ exists trade fd,
       @processTrade Demo.platform "3" "10000" "BTC" BUY ARBITRUM Demo.lineOfFour
       = (Ok (trade, fd), afterTrade)
       /\ exists amounts cb,
            @parsedAmounts Demo.platform (commissions fd) amounts
            /\ @Decimal128_fromString Demo.platform (toString (cashback fd)) = Some cb
            /\ ~ In (t_userId trade) (map userId (commissions fd))
            /\ forall u, In u (users Demo.lineOfFour) ->
                 exists u',
                   find_user (_id u) (users afterTrade) = Some u'
                   /\ frame u' = frame u
                   /\ totalCashbackEarned u'
                      = (if Nat.eqb (_id u) (t_userId trade)
                         then @Decimal128_add Demo.platform (totalCashbackEarned u) cb
                         else totalCashbackEarned u)
                   /\ totalCommissionEarned u'
                      = match find (fun ca => Nat.eqb (userId (fst ca)) (_id u))
                                   (combine (commissions fd) amounts) with
                        | Some ca =>
                            @Decimal128_add Demo.platform (totalCommissionEarned u)
                                            (snd ca)
                        | None => totalCommissionEarned u
                        end
                   /\ totalXpEarned u'
                      = (if Nat.eqb (_id u) (t_userId trade)
                         then @Decimal128_add Demo.platform (totalXpEarned u) cb
                         else match find (fun ca => Nat.eqb (userId (fst ca)) (_id u))
                                         (combine (commissions fd) amounts) with
                              | Some ca =>
                                  @Decimal128_add Demo.platform (totalXpEarned u)
                                                  (snd ca)
                              | None => totalXpEarned u
                              end).
Proof.
  assert (WF : wellFormed Demo.lineOfFour)
    by apply (@reachable_wellFormed Demo.platform _ lineOfFour_reachable).
  split; [exact WF|].
  eexists _, _. split; [vm_compute; reflexivity|].
  eapply (@processTrade_balances Demo.platform "3" "10000" "BTC" BUY ARBITRUM
            Demo.lineOfFour afterTrade _ _ WF).
  vm_compute. reflexivity.
Defined.

Lemma registered_user_stored_witness :
  wellFormed Demo.lineOfFour
  /\ exists u w',
       @registerWithReferral Demo.platform 4 "AAAAAAAB" Demo.lineOfFour = (Ok u, w')
       /\ fst (findUserById (_id u) w') = Ok (Some u)
       /\ fst (findUserByReferralCode (referralCode u) w') = Ok (Some u)
       /\ exists referrer,
            find_code "AAAAAAAB" (users Demo.lineOfFour) = Some referrer
            /\ referrerId u = Some (_id referrer)
            /\ referralDepth u = referralDepth referrer + 1
            /\ find_user (_id referrer) (users w')
               = Some (push_directReferral (_id u) referrer)
            /\ forall x, x <> _id referrer -> x <> _id u ->
                 find_user x (users w') = find_user x (users Demo.lineOfFour).
Proof.
  assert (WF : wellFormed Demo.lineOfFour)
    by apply (@reachable_wellFormed Demo.platform _ lineOfFour_reachable).
  split; [exact WF|].
  eexists _, _. split; [vm_compute; reflexivity|].
  eapply (@registered_user_stored Demo.platform 4 "AAAAAAAB" Demo.lineOfFour _ _ WF).
  vm_compute. reflexivity.
Defined.

Lemma commission_rows_reference_trades_witness :
  @reachable Demo.platform afterTrade
  /\ forall c, In c (commissionRows afterTrade) ->
       exists t, In t (trades afterTrade) /\ t_id t = c_tradeId c
                 /\ t_userId t = c_sourceUserId c
                 /\ t_totalFee t = c_tradeFee c
                 /\ t_token t = c_token c /\ t_chain t = c_chain c.
Proof.
  split; [exact afterTrade_reachable|].
  apply (@commission_rows_reference_trades Demo.platform afterTrade
           afterTrade_reachable).
Defined.

Lemma tradeVolume_snapshot_witness :
  exists trade fd w',
    @processTrade Demo.platform "1" "1000" "BTC" BUY ARBITRUM Demo.reducedWorld
    = (Ok (trade, fd), w')
    /\ exists id user rows,
         Demo.parse_id "1" = Some id
         /\ find_user id (users Demo.reducedWorld) = Some user
         /\ commissionRows w' = commissionRows Demo.reducedWorld ++ rows
         /\ forall c, In c rows ->
              c_tradeVolume c
              = toString (decimalPlaces_down DECIMAL_PLACES
                            (match feeTier user with
                             | BASE => Demo.parse "1000"
                             | REDUCED => multipliedBy (Demo.parse "1000") (dec 5 1)
                             end)).
Proof.
  eexists _, _, _. split; [vm_compute; reflexivity|].
  eapply (@tradeVolume_snapshot Demo.platform "1" "1000" "BTC" BUY ARBITRUM
            Demo.reducedWorld).
  vm_compute. reflexivity.
Defined.

Lemma getClaimableAmount_outcome_witness :
  exists r w',
    @getClaimableAmount Demo.platform 2%nat afterTrade = (r, w')
    /\ users w' = users afterTrade /\ trades w' = trades afterTrade
    /\ commissionRows w' = commissionRows afterTrade /\ nextId w' = nextId afterTrade
    /\ match r with
       | Ok (commission, cashback) =>
           cashback = match find_user 2%nat (users afterTrade) with
                      | Some u => toString (totalCashbackEarned u)
                      | None => "0"%string
                      end
           /\ ((forall c, In c (commissionRows afterTrade) -> c_userId c = 2%nat ->
                          c_isClaimed c = true) ->
               commission = "0"%string)
       | Throw e =>
           e = BSONError
           /\ exists c, In c (commissionRows afterTrade) /\ c_userId c = 2%nat
                        /\ c_isClaimed c = false
                        /\ Some (Demo.parse (c_amount c)) = None
       | Diverge => False
       end.
Proof.
  eexists _, _. split; [vm_compute; reflexivity|].
  eapply (@getClaimableAmount_outcome Demo.platform 2%nat afterTrade).
  vm_compute. reflexivity.
Defined.

Lemma webhook_response_matches_store_witness :
  exists resp,
    @TradeController_processTrade Demo.platform (fun _ => 0%nat)
      (mkTradeWebhookDto "3" "10000" "BTC" BUY ARBITRUM) Demo.lineOfFour
    = (Ok resp, afterTrade)
    /\ resp_userId resp = "3"%string
    /\ resp_volume resp = "10000"%string
    /\ resp_token resp = "BTC"%string
    /\ resp_chain resp = ARBITRUM
    /\ (exists t, In t (trades afterTrade) /\ t_id t = resp_tradeId resp
                  /\ t_volume t = resp_volume resp
                  /\ t_token t = resp_token resp /\ t_chain t = resp_chain resp
                  /\ t_totalFee t = resp_totalFee resp
                  /\ t_cashbackAmount t = resp_cashback resp
                  /\ t_treasuryAmount t = resp_treasury resp
                  /\ commissionsDistributed t = true)
    /\ exists rows,
         commissionRows afterTrade = commissionRows Demo.lineOfFour ++ rows
         /\ map (fun c => mkResponseCommission (c_userId c) (c_level c)
                            (c_amount c) (c_rate c)) rows
            = resp_commissions resp
         /\ Forall (fun c => c_tradeId c = resp_tradeId resp) rows.
Proof.
  eexists. split; [vm_compute; reflexivity|].
  apply (@webhook_response_matches_store Demo.platform (fun _ => 0%nat)
           (mkTradeWebhookDto "3" "10000" "BTC" BUY ARBITRUM) Demo.lineOfFour
           (Ok _) afterTrade).
  vm_compute. reflexivity.
Defined.

Lemma getNetwork_total_witness :
  @reachable Demo.platform Demo.lineOfFour
  /\ exists ua,
       find_user 0%nat (users Demo.lineOfFour) = Some ua
       /\ exists data total w',
            getNetwork (fun _ => 0%nat) 0%nat Demo.lineOfFour = (Ok (data, total), w')
            /\ NoDup (map nn_userId data)
            /\ total
               = List.length (filter (hasAncestor (users Demo.lineOfFour) 0%nat)
                                     (users Demo.lineOfFour)).
Proof.
  split; [exact lineOfFour_reachable|].
  eexists. split; [vm_compute; reflexivity|].
  eapply (@getNetwork_total Demo.platform (fun _ => 0%nat) Demo.lineOfFour
            0%nat _ lineOfFour_reachable).
  vm_compute. reflexivity.
Defined.

Lemma processTrade_conversion_failure_witness :
  exists w',
    @processTrade narrowPlatform "0" "1.0000000000000000000000000000000001" "BTC"
      BUY ARBITRUM Demo.lineOfFour = (Throw BSONError, w')
    /\ exists id user t,
         Demo.parse_id "0" = Some id
         /\ find_user id (users Demo.lineOfFour) = Some user
         /\ In t (trades w') /\ t_id t = nextId Demo.lineOfFour
         /\ t_userId t = _id user
         /\ commissionRows w'
            = commissionRows Demo.lineOfFour
                ++ map (commissionDoc (nextId Demo.lineOfFour) (_id user)
                          (@distributionOf narrowPlatform (users Demo.lineOfFour) user
                             (Demo.parse "1.0000000000000000000000000000000001")
                             ARBITRUM "BTC"))
                       (commissions
                          (@distributionOf narrowPlatform (users Demo.lineOfFour) user
                             (Demo.parse "1.0000000000000000000000000000000001")
                             ARBITRUM "BTC"))
         /\ ((commissionsDistributed t = false
              /\ exists c,
                   In c (commissions
                           (@distributionOf narrowPlatform (users Demo.lineOfFour)
                              user
                              (Demo.parse "1.0000000000000000000000000000000001")
                              ARBITRUM "BTC"))
                   /\ @Decimal128_fromString narrowPlatform (toString (amount c))
                      = None)
             \/ (commissionsDistributed t = true
                 /\ @Decimal128_fromString narrowPlatform
                      (toString
                         (cashback
                            (@distributionOf narrowPlatform (users Demo.lineOfFour)
                               user
                               (Demo.parse "1.0000000000000000000000000000000001")
                               ARBITRUM "BTC")))
                    = None
                 /\ option_map totalCashbackEarned (find_user id (users w'))
                    = Some (totalCashbackEarned user))).
Proof.
  eexists. split; [vm_compute; reflexivity|].
  eapply (@processTrade_conversion_failure narrowPlatform "0"
            "1.0000000000000000000000000000000001" "BTC" BUY ARBITRUM Demo.lineOfFour).
  vm_compute. reflexivity.
Defined.

(** ** The lower end of the exponent range

    The volume 1e-9999998 of a BASE trader gives the fee 1e-10000000, the
    smallest value bignumber.js holds: every share of it is below the
    range and comes out as 0, also the commissions of the three ancestors
    on rates above zero.  A tenth of that volume gives the fee 0, and the
    all-zero split, for a trader whose fees are not waived. *)

Lemma tinyScale_value : Z.of_nat tinyScale = 9999998.
Proof. unfold tinyScale. apply Z2Nat.id. lia. Qed.

Lemma tiny_exponent (m : Z) (k : nat) :
  dec_exponent (mkDecimal m (tinyScale + k))
  = Z.of_nat (ndigits (Z.abs m)) - 1 - (9999998 + Z.of_nat k).
Proof.
  unfold dec_exponent. cbn [coef scale].
  rewrite Nat2Z.inj_add, tinyScale_value. reflexivity.
Qed.

Lemma strip_kept (m : Z) (s : nat) :
  (m mod 10 =? 0) = false -> strip m s = mkDecimal m s.
Proof. intros E. destruct s as [|s]; simpl; [reflexivity|rewrite E; reflexivity]. Qed.

(** A share of the smallest fee at a rate below one, written with [s]
    fractional digits, is 0. *)
Lemma tiny_share (k : Z) (s : nat) :
  0 < k < pow10 s ->
  multipliedBy (Finite (mkDecimal 1 (tinyScale + 2))) (Finite (mkDecimal k s)) = BN 0.
Proof.
  intros K. apply times_underflow; cbn [coef scale]; [lia|lia|].
  rewrite <- Nat.add_assoc, tiny_exponent.
  assert (D : (ndigits (Z.abs (1 * k)) <= s)%nat).
  { replace (Z.abs (1 * k)) with k by lia.
    destruct (ndigits_spec k) as [P [L _]]; [lia|].
    destruct (Nat.le_gt_cases (ndigits k) s) as [G|G]; [exact G|].
    assert (Q : pow10 s <= pow10 (ndigits k - 1)) by (apply pow10_le; lia). lia. }
  unfold MIN_EXP. lia.
Qed.

Example shares_below_the_range :
  exists fd w',
    @calculateFeeDistribution Demo.platform Demo.trader tinyVolume ARBITRUM "BTC"
                              Demo.lineOfFour = (Ok fd, w')
    /\ inRange tinyVolume = true
    /\ totalFee fd = Finite (mkDecimal 1 (tinyScale + 2))
    /\ cashback fd = BN 0 /\ treasury fd = BN 0
    /\ map (fun c => (level c, userId c, amount c, rate c)) (commissions fd)
       = [(1, 2%nat, BN 0, dec 30 2); (2, 1%nat, BN 0, dec 3 2);
          (3, 0%nat, BN 0, dec 2 2)].
Proof.
  assert (F : feeOf Demo.trader tinyVolume = Finite (mkDecimal 1 (tinyScale + 2))).
  { unfold feeOf.
    assert (W : isFeesWaived Demo.trader = false) by reflexivity. rewrite W.
    assert (R : getFeeRateForTier (feeTier Demo.trader) = Finite (mkDecimal 1 2))
      by reflexivity.
    rewrite R. unfold tinyVolume. rewrite times_exact; cbn [coef scale]; try lia.
    - unfold dec_mul. cbn [coef scale]. change (1 * 1) with 1.
      rewrite strip_kept; reflexivity.
    - rewrite tiny_exponent. change (ndigits (Z.abs (1 * 1))) with 1%nat.
      unfold MIN_EXP, MAX_EXP. lia. }
  destruct (@calculateFeeDistribution_run Demo.platform Demo.trader tinyVolume
              ARBITRUM "BTC" Demo.lineOfFour) as [ops [R _]].
  rewrite F in R. cbn [isZero dec_is_zero coef Z.eqb] in R.
  eexists. eexists. split; [exact R|]. cbn [totalFee cashback treasury commissions].
  split.
  { unfold tinyVolume, inRange, overflows, underflows.
    replace (dec_exponent (mkDecimal 1 tinyScale)) with (-9999998).
    - reflexivity.
    - replace tinyScale with (tinyScale + 0)%nat by lia. rewrite tiny_exponent.
      reflexivity. }
  split; [reflexivity|].
  split; [apply (tiny_share 1 1); vm_compute; split; reflexivity|].
  split; [apply (tiny_share 55 2); vm_compute; split; reflexivity|].
  assert (C : chainOf (users Demo.lineOfFour) (_id Demo.trader)
              = [mkReferralChain 2%nat 1 "AAAAAAAC"; mkReferralChain 1%nat 2 "AAAAAAAB";
                 mkReferralChain 0%nat 3 "AAAAAAAA"]) by reflexivity.
  assert (E1 : forall G, @emitted Demo.platform (users Demo.lineOfFour) G
                           (mkReferralChain 2%nat 1 "AAAAAAAC")
                         = [mkCommissionBreakdown 1 2%nat
                              (multipliedBy G (Finite (mkDecimal 3 1)))
                              (Finite (mkDecimal 3 1))]).
  { intros G.
    rewrite (@emitted_standard Demo.platform (users Demo.lineOfFour) G
               (mkReferralChain 2%nat 1 "AAAAAAAC")
               (nth 2 (users Demo.lineOfFour) Demo.trader));
      [reflexivity|reflexivity|reflexivity|cbn [chain_level]; lia]. }
  assert (E2 : forall G, @emitted Demo.platform (users Demo.lineOfFour) G
                           (mkReferralChain 1%nat 2 "AAAAAAAB")
                         = [mkCommissionBreakdown 2 1%nat
                              (multipliedBy G (Finite (mkDecimal 3 2)))
                              (Finite (mkDecimal 3 2))]).
  { intros G.
    rewrite (@emitted_standard Demo.platform (users Demo.lineOfFour) G
               (mkReferralChain 1%nat 2 "AAAAAAAB")
               (nth 1 (users Demo.lineOfFour) Demo.trader));
      [reflexivity|reflexivity|reflexivity|cbn [chain_level]; lia]. }
  assert (E3 : forall G, @emitted Demo.platform (users Demo.lineOfFour) G
                           (mkReferralChain 0%nat 3 "AAAAAAAA")
                         = [mkCommissionBreakdown 3 0%nat
                              (multipliedBy G (Finite (mkDecimal 2 2)))
                              (Finite (mkDecimal 2 2))]).
  { intros G.
    rewrite (@emitted_standard Demo.platform (users Demo.lineOfFour) G
               (mkReferralChain 0%nat 3 "AAAAAAAA")
               (nth 0 (users Demo.lineOfFour) Demo.trader));
      [reflexivity|reflexivity|reflexivity|cbn [chain_level]; lia]. }
  rewrite C. cbn [flat_map]. rewrite E1, E2, E3.
  cbn [app map level userId amount rate].
  rewrite (tiny_share 3 1), (tiny_share 3 2), (tiny_share 2 2)
    by (vm_compute; split; reflexivity).
  reflexivity.
Qed.

Example fee_below_the_range :
  let volume := Finite (mkDecimal 1 (tinyScale + 1)) in
  isFeesWaived Demo.trader = false
  /\ inRange volume = true
  /\ isLessThanOrEqualTo volume (BN 0) = false
  /\ exists w',
       @calculateFeeDistribution Demo.platform Demo.trader volume ARBITRUM "BTC"
                                 Demo.lineOfFour
       = (Ok (mkFeeDistribution 3%nat (BN 0) (BN 0) [] (BN 0) ARBITRUM "BTC"), w').
Proof.
  cbv zeta.
  assert (F : feeOf Demo.trader (Finite (mkDecimal 1 (tinyScale + 1))) = BN 0).
  { unfold feeOf.
    assert (W : isFeesWaived Demo.trader = false) by reflexivity. rewrite W.
    assert (R : getFeeRateForTier (feeTier Demo.trader) = Finite (mkDecimal 1 2))
      by reflexivity.
    rewrite R. apply times_underflow; cbn [coef scale]; [lia|lia|].
    rewrite <- Nat.add_assoc, tiny_exponent.
    change (ndigits (Z.abs (1 * 1))) with 1%nat. unfold MIN_EXP. lia. }
  split; [reflexivity|]. split.
  { unfold inRange, overflows, underflows. rewrite tiny_exponent. reflexivity. }
  split; [apply positive_not_le_zero; cbn [coef]; lia|].
  destruct (@calculateFeeDistribution_run Demo.platform Demo.trader
              (Finite (mkDecimal 1 (tinyScale + 1))) ARBITRUM "BTC" Demo.lineOfFour)
    as [ops [R _]].
  rewrite F in R. eexists. exact R.
Qed.

(** C4, as stated, fails: on the volume 1e-9999998 the fee is not zero and
    each of the three ancestors has a rate above zero, yet each of the
    three records carries the amount 0, where the product of the fee and
    the rate is above zero. *)
Lemma commission_amount_not_product :
  exists fd w',
    @calculateFeeDistribution Demo.platform Demo.trader tinyVolume ARBITRUM "BTC"
                              Demo.lineOfFour = (Ok fd, w')
    /\ inRange tinyVolume = true
    /\ isZero (totalFee fd) = false
    /\ List.length (commissions fd) = 3%nat
    /\ forall c, In c (commissions fd) ->
         isGreaterThan (rate c) (BN 0) = true
         /\ amount c = BN 0
         /\ exists f r, totalFee fd = Finite f /\ rate c = Finite r
                        /\ (0 < toQ f * toQ r)%Q.
Proof.
  destruct shares_below_the_range as [fd [w' [R [I [Ef [_ [_ M]]]]]]].
  exists fd, w'. split; [exact R|]. split; [exact I|].
  split; [rewrite Ef; reflexivity|]. split.
  - rewrite <- (length_map (fun c => (level c, userId c, amount c, rate c))), M.
    reflexivity.
  - intros c Hin.
    apply (in_map (fun c => (level c, userId c, amount c, rate c))) in Hin.
    rewrite M in Hin.
    assert (P : 0 < coef (mkDecimal 1 (tinyScale + 2))) by (cbn [coef]; lia).
    apply toQ_pos in P.
    destruct Hin as [E|[E|[E|[]]]]; injection E as _ _ Ea Er;
      rewrite <- Ea, <- Er;
      (split; [reflexivity|]); (split; [reflexivity|]);
      eexists _, _; (split; [exact Ef|]); (split; [reflexivity|]);
      (apply Qmult_lt_0_compat; [exact P|apply toQ_pos; reflexivity]).
Qed.
